(** * unidoc core: stream codecs and the standard security handler

    A shallow embedding of the stream encoders (pdf/core encoding) and of the
    standard security handler (pdf/core/crypt.go), with the properties of the
    specification settled against it.

    Conventions.
    - A Go [byte] is a [Z] in [0, 256); byte arithmetic wraps with [mod 256].
      A [[]byte] is a [list Z].
    - A Go [int] is a [Z] (the 64-bit range is never approached by the code
      modelled here, apart from the explicit conversions that are written out).
    - A Go [(value, error)] result is a [result]: [Ok v], [Err e], or [Panic]
      for a run-time panic (index out of range, division by zero).
      [OutOfFuel] is returned only by the fuel-driven loops when the fuel is
      exhausted; the loops are shown never to reach it. *)

From Stdlib Require Import ZArith Lia Uint63 PArray.
From stdpp Require Import gmap strings list.

Open Scope Z_scope.

Abbreviation bytes := (list Z).

(** ** Errors and results *)

Inductive error : Type :=
| EOF                                  (* io.EOF *)
| ErrUnsupportedEncodingParameters     (* package-level sentinel *)
| KeySizeError                         (* rc4.KeySizeError / aes.KeySizeError *)
| Errorf (msg : string).               (* errors.New / fmt.Errorf, by format string *)

Inductive result (A : Type) : Type :=
| Ok (a : A)
| Err (e : error)
| Panic
| OutOfFuel.
Arguments Ok {A} a.
Arguments Err {A} e.
Arguments Panic {A}.
Arguments OutOfFuel {A}.

Definition bind {A B} (r : result A) (k : A -> result B) : result B :=
  match r with
  | Ok a => k a
  | Err e => Err e
  | Panic => Panic
  | OutOfFuel => OutOfFuel
  end.

Notation "x <- r ;; k" := (bind r (fun x => k))
  (at level 100, r at next level, right associativity).


(** ** Byte helpers *)

(** Conversion [byte(x)] of an integer. *)
Definition byte (x : Z) : Z := x mod 256.

Definition is_byte (b : Z) : Prop := 0 <= b < 256.
Definition is_bytes (l : bytes) : Prop := Forall is_byte l.

(** [len(l)] as a Go int. *)
Definition len {A} (l : list A) : Z := Z.of_nat (length l).

(** [l[i]] for an index already known to be in range; 0 otherwise. *)
Definition idx (l : bytes) (i : Z) : Z := nth (Z.to_nat i) l 0.

(** [l[lo:hi]] for [0 <= lo <= hi <= len(l)]. *)
Definition slice (l : bytes) (lo hi : Z) : bytes :=
  take (Z.to_nat (hi - lo)) (drop (Z.to_nat lo) l).

(** Bytes of an ASCII string literal. *)
Fixpoint bytes_of_string (s : string) : bytes :=
  match s with
  | EmptyString => []
  | String c s' => Z.of_nat (Ascii.nat_of_ascii c) :: bytes_of_string s'
  end.

(** Modelled from the spec: [IsWhiteSpace] is a helper of the parser that is
    not part of the files at hand; the specification only says that white
    space is ignored by the ASCII decoders.  The six white-space characters
    of the PDF character set are used (NUL, HT, LF, FF, CR, SP). *)
Definition IsWhiteSpace (ch : Z) : bool :=
  (ch =? 0) || (ch =? 9) || (ch =? 10) || (ch =? 12) || (ch =? 13) || (ch =? 32).

(** ** Raw encoder *)

Module RawEncoder.
Definition DecodeBytes (encoded : bytes) : result bytes := Ok encoded.
Definition EncodeBytes (data : bytes) : result bytes := Ok data.
End RawEncoder.

(** ** Run-length encoder *)

Module RunLengthEncoder.

  (** The decoder reads through a [bytes.Reader], one [ReadByte] at a time.
      [lit] is the number of iterations the inner literal-copy loop still has
      to run; with [lit = 0] the next byte read is a length byte. *)
Fixpoint decode_loop (encoded : bytes) (lit : nat) (inb : bytes) : result bytes :=
    match encoded with
    | [] => Err EOF
    | b :: rest =>
        match lit with
        | S k => decode_loop rest k (inb ++ [b])
        | O =>
            if 128 <? b then
              match rest with
              | [] => Err EOF
              | v :: rest' =>
                  decode_loop rest' 0 (inb ++ replicate (Z.to_nat (257 - b)) v)
              end
            else if b <? 128 then
              decode_loop rest (Z.to_nat (b + 1)) inb
            else Ok inb
        end
    end.

Definition DecodeBytes (encoded : bytes) : result bytes :=
    decode_loop encoded 0 [].

  (** State of the encoder loop: previous byte, pending run length, pending
      literal, output so far. *)
Record enc_state := EncState {
    b0 : Z;
    runLen : Z;
    literal : bytes;
    inb : bytes
  }.

  (** One iteration of the encoder loop on the byte [b] just read. *)
Definition enc_step (st : enc_state) (b : Z) : enc_state :=
    let b0 := b0 st in
    if b =? b0 then
      let '(runLen, literal, inb) :=
        if 0 <? len (literal st) then
          let literal := take (length (literal st) - 1)%nat (literal st) in
          let inb :=
            if 0 <? len literal
            then (inb st ++ [byte (len literal - 1)]) ++ literal
            else inb st in
          (1, [], inb)
        else (runLen st, literal st, inb st) in
      let runLen := runLen + 1 in
      if 127 <=? runLen
      then EncState b 0 literal (inb ++ [byte (257 - runLen); b0])
      else EncState b runLen literal inb
    else
      let '(runLen, literal, inb) :=
        if 0 <? runLen st then
          if runLen st =? 1
          then (0, [b0], inb st)
          else (0, literal st, inb st ++ [byte (257 - runLen st); b0])
        else (runLen st, literal st, inb st) in
      let literal := literal ++ [b] in
      if 127 <=? len literal
      then EncState b runLen [] ((inb ++ [byte (len literal - 1)]) ++ literal)
      else EncState b runLen literal inb.

  (** The code after the loop. *)
Definition enc_finish (st : enc_state) : bytes :=
    let inb :=
      if 0 <? len (literal st)
      then (inb st ++ [byte (len (literal st) - 1)]) ++ literal st
      else if 0 <? runLen st
           then inb st ++ [byte (257 - runLen st); b0 st]
           else inb st in
    inb ++ [128].

Definition EncodeBytes (data : bytes) : result bytes :=
    match data with
    | [] => Ok []
    | b0 :: rest => Ok (enc_finish (fold_left enc_step rest (EncState b0 1 [] [])))
    end.

End RunLengthEncoder.

(** ** ASCII hex encoder *)

Module ASCIIHexEncoder.

  (** [encoding/hex]: value of a hex digit. *)
Definition fromHexChar (c : Z) : option Z :=
    if (48 <=? c) && (c <=? 57) then Some (c - 48)
    else if (97 <=? c) && (c <=? 102) then Some (c - 97 + 10)
    else if (65 <=? c) && (c <=? 70) then Some (c - 65 + 10)
    else None.

  (** [hex.Decode] on a source of even length (the only case the decoder
      below can produce); an odd trailing digit is [hex.ErrLength]. *)
Fixpoint hex_Decode (src : bytes) : result bytes :=
    match src with
    | [] => Ok []
    | [_] => Err (Errorf "encoding/hex: odd length hex string")
    | p :: q :: rest =>
        match fromHexChar p, fromHexChar q with
        | Some a, Some b =>
            out <- hex_Decode rest;;
            Ok (byte (Z.lor (Z.shiftl a 4) b) :: out)
        | _, _ => Err (Errorf "encoding/hex: invalid byte")
        end
    end.

Definition is_hex (b : Z) : bool :=
    ((97 <=? b) && (b <=? 102)) || ((65 <=? b) && (b <=? 70))
    || ((48 <=? b) && (b <=? 57)).

Fixpoint decode_loop (encoded : bytes) (inb : bytes) : result bytes :=
    match encoded with
    | [] => Err EOF
    | b :: rest =>
        if b =? 62 then Ok inb
        else if IsWhiteSpace b then decode_loop rest inb
        else if is_hex b then decode_loop rest (inb ++ [b])
        else Err (Errorf "Invalid ascii hex character (%c)")
    end.

Definition DecodeBytes (encoded : bytes) : result bytes :=
    inb <- decode_loop encoded [];;
    let inb := if len inb mod 2 =? 1 then inb ++ [48] else inb in
    hex_Decode inb.

  (** Upper-case hex digit of a nibble, as [fmt]'s [%X]. *)
Definition hexdigit (n : Z) : Z := if n <? 10 then 48 + n else 55 + n.

  (** [fmt.Sprintf("%.2X ", b)] for a byte [b]. *)
Definition sprintf_02X_sp (b : Z) : bytes :=
    [hexdigit (b / 16); hexdigit (b mod 16); 32].

Definition EncodeBytes (data : bytes) : result bytes :=
    Ok (flat_map sprintf_02X_sp data ++ [62]).

End ASCIIHexEncoder.

(** ** ASCII85 encoder *)

Module ASCII85Encoder.

  (** The inner loop of [DecodeBytes], started at [encoded[i:]] = [rest] with
      [j = 0], [spaces = 0] and [codes] all zero.  [cnt] is [j - spaces], the
      number of codes stored so far.  The result is the final
      [(j, codes, toWrite, eod)]. *)
Fixpoint group_loop (rest : bytes) (cnt : nat) (j : Z) (codes : bytes)
    {struct rest} : result (Z * bytes * Z * bool) :=
    if (5 <=? cnt)%nat then Ok (j, codes, 4, false)
    else
      match rest with
      | [] => Ok (j, codes, 4, false)
      | code :: rest' =>
          if IsWhiteSpace code then group_loop rest' cnt (j + 1) codes
          else if (code =? 126)
                  && match rest' with c' :: _ => c' =? 62 | [] => false end
          then Ok (j, codes, Z.max 0 (Z.of_nat cnt - 1), true)
          else if (33 <=? code) && (code <=? 117)
          then group_loop rest' (S cnt) (j + 1) (<[cnt := byte (code - 33)]> codes)
          else if (code =? 122) && (cnt =? 0)%nat
          then Ok (j + 1, codes, 4, false)
          else Err (Errorf "Invalid code encountered")
      end.

  (** [for m := toWrite + 1; m < 5; m++ { codes[m] = 84 }] *)
Definition pad_codes (toWrite : Z) (codes : bytes) : bytes :=
    imap (fun m c => if toWrite + 1 <=? Z.of_nat m then 84 else c) codes.

  (** The [uint32] value of five codes (arithmetic modulo 2^32). *)
Definition value_of (codes : bytes) : Z :=
    (idx codes 0 * 85 * 85 * 85 * 85 + idx codes 1 * 85 * 85 * 85
     + idx codes 2 * 85 * 85 + idx codes 3 * 85 + idx codes 4) mod 2 ^ 32.

Definition decodedBytes (value : Z) : bytes :=
    [ byte (Z.land (Z.shiftr value 24) 255);
      byte (Z.land (Z.shiftr value 16) 255);
      byte (Z.land (Z.shiftr value 8) 255);
      byte (Z.land value 255) ].

  (** The outer loop [for i < len(encoded) && !eod]. Every iteration but an
      end-of-data one advances [i], so [len(encoded) + 1] units of fuel are
      enough. *)
Fixpoint decode_loop (fuel : nat) (encoded : bytes) (i : Z) (decoded : bytes)
    : result bytes :=
    match fuel with
    | O => OutOfFuel
    | S fuel' =>
        if i <? len encoded then
          r <- group_loop (drop (Z.to_nat i) encoded) 0 0 [0; 0; 0; 0; 0];;
          let '(j, codes, toWrite, eod) := r in
          let i := i + j in
          let codes := pad_codes toWrite codes in
          let value := value_of codes in
          let decoded := decoded ++ take (Z.to_nat toWrite) (decodedBytes value) in
          if eod then Ok decoded else decode_loop fuel' encoded i decoded
        else Ok decoded
    end.

Definition DecodeBytes (encoded : bytes) : result bytes :=
    decode_loop (S (length encoded)) encoded 0 [].

  (** [base256Tobase85]: five base-85 digits, most significant first. *)
Definition base256Tobase85 (base256val : Z) : bytes :=
    let step (st : bytes * Z) (i : Z) :=
      let '(base85, remainder) := st in
      let divider := 85 ^ (4 - i) in
      let val := remainder / divider in
      (base85 ++ [byte val], remainder mod divider) in
    fst (fold_left step [0; 1; 2; 3; 4] ([], base256val)).

  (** One iteration of the encoder loop on a group of [n] bytes, the missing
      ones being zero. *)
Definition encode_group (n b1 b2 b3 b4 : Z) : bytes :=
    let base256 :=
      Z.lor (Z.lor (Z.lor (Z.shiftl b1 24) (Z.shiftl b2 16)) (Z.shiftl b3 8)) b4 in
    if base256 =? 0 then [122]
    else map (fun val => byte (val + 33))
             (take (Z.to_nat (n + 1)) (base256Tobase85 base256)).

  (** The loop [for i := 0; i < len(data); i += 4]. *)
Fixpoint encode_loop (data : bytes) : bytes :=
    match data with
    | [] => []
    | [b1] => encode_group 1 b1 0 0 0
    | [b1; b2] => encode_group 2 b1 b2 0 0
    | [b1; b2; b3] => encode_group 3 b1 b2 b3 0
    | b1 :: b2 :: b3 :: b4 :: rest => encode_group 4 b1 b2 b3 b4 ++ encode_loop rest
    end.

Definition EncodeBytes (data : bytes) : result bytes :=
    Ok (encode_loop data ++ [126; 62]).

End ASCII85Encoder.

(** ** Predictor row arithmetic shared by the flate and LZW decoders *)

(** [for j := lo; j < hi; j++ { s = body(s, j) }] *)
Definition for_loop {St : Type} (lo hi : Z) (body : St -> Z -> St) (s : St) : St :=
  fold_left body (seqZ lo (hi - lo)) s.

(** [row[j] = v] for an index in range. *)
Definition set_idx (row : bytes) (j v : Z) : bytes := <[Z.to_nat j := v]> row.

(** Addition and subtraction of two Go bytes. *)
Definition badd (a b : Z) : Z := byte (a + b).
Definition bsub (a b : Z) : Z := byte (a - b).

(** Modelled from the spec: [absInt] is a helper outside the files at hand;
    the specification writes it as the absolute value |p - x|. *)
Definition absInt (x : Z) : Z := Z.abs x.

(** The consecutive rows [data[rowLength*i : rowLength*(i+1)]], [i < rows]. *)
Fixpoint rows_of (rows : nat) (rowLength : nat) (data : bytes) : list bytes :=
  match rows with
  | O => []
  | S r => take rowLength data :: rows_of r rowLength (drop rowLength data)
  end.

(** TIFF predictor (2), one row, in place. *)
Definition tiff_row (colors rowLength : Z) (rowData : bytes) : bytes :=
  for_loop colors rowLength
    (fun rowData j =>
       set_idx rowData j (byte (badd (idx rowData j) (idx rowData (j - colors)) mod 256)))
    rowData.

(** PNG predictors, one row, in place; [None] for an invalid filter byte. *)
Definition png_sub_row (rowLength : Z) (rowData : bytes) : bytes :=
  for_loop 2 rowLength
    (fun rowData j =>
       set_idx rowData j (byte (badd (idx rowData j) (idx rowData (j - 1)) mod 256)))
    rowData.

Definition png_up_row (rowLength : Z) (prevRowData rowData : bytes) : bytes :=
  for_loop 1 rowLength
    (fun rowData j =>
       set_idx rowData j (byte (badd (idx rowData j) (idx prevRowData j) mod 256)))
    rowData.

Definition png_avg_row (rowLength : Z) (prevRowData rowData : bytes) : bytes :=
  for_loop 1 rowLength
    (fun rowData j =>
       if j =? 1 then
         set_idx rowData j (byte (badd (idx rowData j) (idx prevRowData j) mod 256))
       else
         let avg := badd (idx rowData (j - 1)) (idx prevRowData j) / 2 in
         set_idx rowData j (byte (badd (idx rowData j) avg mod 256)))
    rowData.

Definition png_paeth_row (rowLength : Z) (prevRowData rowData : bytes) : bytes :=
  for_loop 2 rowLength
    (fun rowData j =>
       let a := idx rowData (j - 1) in
       let b := idx prevRowData j in
       let c := idx prevRowData (j - 1) in
       let p := bsub (badd a b) c in
       let pa := absInt (p - a) in
       let pb := absInt (p - b) in
       let pc := absInt (p - c) in
       if (pa <=? pb) && (pa <=? pc)
       then set_idx rowData j (byte (badd (idx rowData j) a mod 256))
       else if pb <=? pc
       then set_idx rowData j (byte (badd (idx rowData j) b mod 256))
       else set_idx rowData j (byte (badd (idx rowData j) c mod 256)))
    rowData.

(** The TIFF branch of [DecodeStream], identical in both decoders. *)
Definition tiff_decode (Columns Colors : Z) (outData : bytes) : result bytes :=
  let rowLength := Columns * Colors in
  if rowLength <? 1 then Ok []
  else
    let rows := len outData / rowLength in
    if negb (len outData mod rowLength =? 0) then Err (Errorf "Invalid row length (%d/%d)")
    else if negb (Z.rem rowLength Colors =? 0)
    then Err (Errorf "Invalid row length (%d) for colors %d")
    else if len outData <? rowLength then Err (Errorf "Range check error")
    else if Colors <? 0 then Panic
    else Ok (concat (map (tiff_row Colors rowLength)
                         (rows_of (Z.to_nat rows) (Z.to_nat rowLength) outData))).

(** The row loop of the PNG branch: [flate] tells which decoder runs (the
    LZW decoder knows the filter bytes 0, 1, 2 only). *)
Fixpoint png_rows (flate : bool) (rowLength : Z) (rows : list bytes)
  (prevRowData : bytes) (pOut : bytes) : result bytes :=
  match rows with
  | [] => Ok pOut
  | rowData :: rest =>
      let fb := idx rowData 0 in
      r <- (if fb =? 0 then Ok rowData
            else if fb =? 1 then Ok (png_sub_row rowLength rowData)
            else if fb =? 2 then Ok (png_up_row rowLength prevRowData rowData)
            else if flate && (fb =? 3) then Ok (png_avg_row rowLength prevRowData rowData)
            else if flate && (fb =? 4) then Ok (png_paeth_row rowLength prevRowData rowData)
            else Err (Errorf "Invalid filter byte (%d)"));;
      png_rows flate rowLength rest r (pOut ++ drop 1 r)
  end.

(** ** Flate encoder *)

Module FlateEncoder.

Record t := Build {
    Predictor : Z;
    BitsPerComponent : Z;
    Columns : Z;
    Colors : Z
  }.

Definition NewFlateEncoder : t := Build 1 8 1 1.

Definition SetPredictor (enc : t) (columns : Z) : t :=
    Build 11 (BitsPerComponent enc) columns (Colors enc).

Section WithZlib.
    (** [compress/zlib] of the Go standard library.
        - [zlib_NewReader]: the header check of [zlib.NewReader];
        - [zlib_ReadFrom]: the bytes [outBuf.ReadFrom(r)] collects (its error
          is dropped by the decoder);
        - [zlib_Write]: [zlib.NewWriter], [Write], [Close]. *)
Variable zlib_NewReader : bytes -> result unit.
Variable zlib_ReadFrom : bytes -> bytes.
Variable zlib_Write : bytes -> bytes.

Definition DecodeBytes (enc : t) (encoded : bytes) : result bytes :=
      _ <- zlib_NewReader encoded;;
      Ok (zlib_ReadFrom encoded).

Definition png_decode (enc : t) (outData : bytes) : result bytes :=
      let rowLength := Columns enc * Colors enc + 1 in
      if rowLength =? 0 then Panic
      else
        let rows := Z.quot (len outData) rowLength in
        if negb (Z.rem (len outData) rowLength =? 0)
        then Err (Errorf "Invalid row length (%d/%d)")
        else if len outData <? rowLength then Err (Errorf "Range check error")
        else if rowLength <? 0 then Panic
        else png_rows true rowLength
               (rows_of (Z.to_nat rows) (Z.to_nat rowLength) outData)
               (replicate (Z.to_nat rowLength) 0) [].

Definition DecodeStream (enc : t) (stream : bytes) : result bytes :=
      if negb (BitsPerComponent enc =? 8)
      then Err (Errorf "Invalid BitsPerComponent=%d (only 8 supported)")
      else
        outData <- DecodeBytes enc stream;;
        if 1 <? Predictor enc then
          if Predictor enc =? 2 then tiff_decode (Columns enc) (Colors enc) outData
          else if (10 <=? Predictor enc) && (Predictor enc <=? 15)
          then png_decode enc outData
          else Err (Errorf "Unsupported predictor (%d)")
        else Ok outData.

    (** The PNG Sub row the encoder emits for one input row. *)
Definition encode_row (rowLength : Z) (rowData : bytes) : bytes :=
      let tmpData := set_idx (replicate (Z.to_nat rowLength) 0) 0 (idx rowData 0) in
      let tmpData :=
        for_loop 1 rowLength
          (fun tmpData j =>
             set_idx tmpData j (byte (bsub (idx rowData j) (idx rowData (j - 1)) mod 256)))
          tmpData in
      1 :: tmpData.

Definition EncodeBytes (enc : t) (data : bytes) : result bytes :=
      if negb (Predictor enc =? 1) && negb (Predictor enc =? 11)
      then Err ErrUnsupportedEncodingParameters
      else
        data <-
          (if Predictor enc =? 11 then
             let rowLength := Columns enc in
             if rowLength =? 0 then Panic
             else
               let rows := Z.quot (len data) rowLength in
               if negb (Z.rem (len data) rowLength =? 0)
               then Err (Errorf "Invalid row length")
               else if rowLength <? 0 then Panic
               else Ok (concat (map (encode_row rowLength)
                                    (rows_of (Z.to_nat rows) (Z.to_nat rowLength) data)))
           else Ok data);;
        Ok (zlib_Write data).

End WithZlib.
End FlateEncoder.

(** ** LZW encoder *)

Module LZWEncoder.

Record t := Build {
    Predictor : Z;
    BitsPerComponent : Z;
    Columns : Z;
    Colors : Z;
    EarlyChange : Z
  }.

Definition NewLZWEncoder : t := Build 1 8 1 1 1.

Section WithLzw.
    (** The two LZW libraries, MSB first, literal width 8:
        [lzw1] is golang.org/x/image/tiff/lzw (code length grows one code
        early, reader only), [lzw0] is compress/lzw (reader and writer). *)
Variable lzw1_ReadAll : bytes -> result bytes.
Variable lzw0_ReadAll : bytes -> result bytes.
Variable lzw0_Write : bytes -> bytes.

Definition DecodeBytes (enc : t) (encoded : bytes) : result bytes :=
      if EarlyChange enc =? 1 then lzw1_ReadAll encoded else lzw0_ReadAll encoded.

Definition png_decode (enc : t) (outData : bytes) : result bytes :=
      let rowLength := Columns enc * Colors enc + 1 in
      if rowLength <? 1 then Ok []
      else
        let rows := len outData / rowLength in
        if negb (len outData mod rowLength =? 0)
        then Err (Errorf "Invalid row length (%d/%d)")
        else if len outData <? rowLength then Err (Errorf "Range check error")
        else png_rows false rowLength
               (rows_of (Z.to_nat rows) (Z.to_nat rowLength) outData)
               (replicate (Z.to_nat rowLength) 0) [].

Definition DecodeStream (enc : t) (stream : bytes) : result bytes :=
      outData <- DecodeBytes enc stream;;
      if 1 <? Predictor enc then
        if Predictor enc =? 2 then tiff_decode (Columns enc) (Colors enc) outData
        else if (10 <=? Predictor enc) && (Predictor enc <=? 15)
        then png_decode enc outData
        else Err (Errorf "Unsupported predictor (%d)")
      else Ok outData.

Definition EncodeBytes (enc : t) (data : bytes) : result bytes :=
      if negb (Predictor enc =? 1)
      then Err (Errorf "LZW Predictor = 1 only supported yet")
      else if EarlyChange enc =? 1
      then Err (Errorf "LZW Early Change = 0 only supported yet")
      else Ok (lzw0_Write data).

End WithLzw.
End LZWEncoder.

(** ** Primitives of the Go standard library used by the security handler *)

(** [crypto/md5] (RFC 1321), on 32-bit words kept in [Z]. *)
Module MD5.

Definition w32 (x : Z) : Z := Z.land x 4294967295.
Definition rotl (x n : Z) : Z :=
    w32 (Z.lor (Z.shiftl x n) (Z.shiftr x (32 - n))).
Definition not32 (x : Z) : Z := Z.lxor x 4294967295.

Definition shifts : list Z :=
    [7; 12; 17; 22; 7; 12; 17; 22; 7; 12; 17; 22; 7; 12; 17; 22;
     5; 9; 14; 20; 5; 9; 14; 20; 5; 9; 14; 20; 5; 9; 14; 20;
     4; 11; 16; 23; 4; 11; 16; 23; 4; 11; 16; 23; 4; 11; 16; 23;
     6; 10; 15; 21; 6; 10; 15; 21; 6; 10; 15; 21; 6; 10; 15; 21].

Definition table : list Z :=
    [3614090360; 3905402710; 606105819; 3250441966;
     4118548399; 1200080426; 2821735955; 4249261313;
     1770035416; 2336552879; 4294925233; 2304563134;
     1804603682; 4254626195; 2792965006; 1236535329;
     4129170786; 3225465664; 643717713; 3921069994;
     3593408605; 38016083; 3634488961; 3889429448;
     568446438; 3275163606; 4107603335; 1163531501;
     2850285829; 4243563512; 1735328473; 2368359562;
     4294588738; 2272392833; 1839030562; 4259657740;
     2763975236; 1272893353; 4139469664; 3200236656;
     681279174; 3936430074; 3572445317; 76029189;
     3654602809; 3873151461; 530742520; 3299628645;
     4096336452; 1126891415; 2878612391; 4237533241;
     1700485571; 2399980690; 4293915773; 2240044497;
     1873313359; 4264355552; 2734768916; 1309151649;
     4149444226; 3174756917; 718787259; 3951481745].

  (** Little-endian bytes of a word and back. *)
Definition le_bytes (n : nat) (x : Z) : bytes :=
    map (fun i => Z.land (Z.shiftr x (8 * Z.of_nat i)) 255) (seq 0 n).
Definition le_word (l : bytes) : Z :=
    fold_right (fun b acc => b + 256 * acc) 0 l.

Fixpoint words (n : nat) (block : bytes) : list Z :=
    match n with
    | O => []
    | S n' => le_word (take 4 block) :: words n' (drop 4 block)
    end.

Definition round (M : list Z) (st : Z * Z * Z * Z) (i : Z) : Z * Z * Z * Z :=
    let '(A, B, C, D) := st in
    let '(F, g) :=
      if i <? 16 then (Z.lor (Z.land B C) (Z.land (not32 B) D), i)
      else if i <? 32 then (Z.lor (Z.land D B) (Z.land (not32 D) C), (5 * i + 1) mod 16)
      else if i <? 48 then (Z.lxor (Z.lxor B C) D, (3 * i + 5) mod 16)
      else (Z.lxor C (Z.lor B (not32 D)), (7 * i) mod 16) in
    let F := w32 (F + A + nth (Z.to_nat i) table 0 + nth (Z.to_nat g) M 0) in
    (D, w32 (B + rotl F (nth (Z.to_nat i) shifts 0)), B, C).

Definition block (st : Z * Z * Z * Z) (blk : bytes) : Z * Z * Z * Z :=
    let '(a0, b0, c0, d0) := st in
    let '(A, B, C, D) := fold_left (round (words 16 blk)) (seqZ 0 64) st in
    (w32 (a0 + A), w32 (b0 + B), w32 (c0 + C), w32 (d0 + D)).

Definition pad (msg : bytes) : bytes :=
    let l := len msg in
    msg ++ [128] ++ replicate (Z.to_nat ((55 - l) mod 64)) 0 ++ le_bytes 8 (8 * l).

Fixpoint blocks (n : nat) (st : Z * Z * Z * Z) (data : bytes) : Z * Z * Z * Z :=
    match n with
    | O => st
    | S n' => blocks n' (block st (take 64 data)) (drop 64 data)
    end.

Definition init : Z * Z * Z * Z := (1732584193, 4023233417, 2562383102, 271733878).

  (** The digest [h.Sum(nil)] after [h.Write(msg)]. *)
Definition sum (msg : bytes) : bytes :=
    let data := pad msg in
    let '(a, b, c, d) := blocks (length data / 64)%nat init data in
    le_bytes 4 a ++ le_bytes 4 b ++ le_bytes 4 c ++ le_bytes 4 d.

End MD5.

(** [crypto/rc4]. *)
Module RC4.

Definition swap (sbox : list Z) (i j : Z) : list Z :=
    let si := idx sbox i in
    let sj := idx sbox j in
    set_idx (set_idx sbox i sj) j si.

  (** Key schedule of [rc4.NewCipher]. *)
Definition ksa (key : bytes) : list Z :=
    fst (fold_left
           (fun (st : list Z * Z) i =>
              let '(sbox, j) := st in
              let j := (j + idx sbox i + idx key (i mod len key)) mod 256 in
              (swap sbox i j, j))
           (seqZ 0 256) (seqZ 0 256, 0)).

  (** [XORKeyStream] from the initial cipher state. *)
Fixpoint prga (sbox : list Z) (i j : Z) (src : bytes) : bytes :=
    match src with
    | [] => []
    | b :: rest =>
        let i := (i + 1) mod 256 in
        let j := (j + idx sbox i) mod 256 in
        let sbox := swap sbox i j in
        Z.lxor b (idx sbox ((idx sbox i + idx sbox j) mod 256)) :: prga sbox i j rest
    end.

  (** [rc4.NewCipher(key)] followed by one [XORKeyStream(dst, src)]; the key
      must have 1 to 256 bytes. *)
Definition key_ok (key : bytes) : bool := (1 <=? len key) && (len key <=? 256).
Definition XORKeyStream (key src : bytes) : bytes := prga (ksa key) 0 0 src.

End RC4.

(** [crypto/sha256], [crypto/sha512] (FIPS 180-4) and [crypto/aes] (FIPS 197)
    compute on machine integers: a 32-bit word is an [int] below 2^32, a
    64-bit word a pair of two such halves. *)

Definition int_of_Z (x : Z) : int := Uint63.of_Z x.

(** The integers 0 to 255 as [Z], by table ([Uint63.to_Z] walks 63 bits). *)
Definition byte_values : array Z :=
  Eval vm_compute in
    snd (fold_left (fun '(i, a) v => (Uint63.add i 1, PArray.set a i v))
                   (seqZ 0 256) (int_of_Z 0, PArray.make (int_of_Z 256) 0)).

(** The mask keeps the result a byte whatever the index. *)
Definition Z_of_byte (x : int) : Z := Z.land (PArray.get byte_values x) 255.

Definition array_of_list_int (l : list int) : array int :=
  snd (fold_left (fun '(i, a) v => (Uint63.add i 1, PArray.set a i v))
                 l (int_of_Z 0, PArray.make (int_of_Z (len l)) (int_of_Z 0))).

Definition array_of_list (l : list Z) : array int :=
  snd (fold_left (fun '(i, a) v => (Uint63.add i 1, PArray.set a i (int_of_Z v)))
                 l (int_of_Z 0, PArray.make (int_of_Z (len l)) (int_of_Z 0))).

Module SHA2.

(** The word operations of the two families. *)
Record wordops (W : Type) := WordOps {
  wadd : W -> W -> W;
  wxor : W -> W -> W;
  wand : W -> W -> W;
  wnot : W -> W;
  wrotr : W -> int -> W;
  wshr : W -> int -> W;
  wbytes : nat;                       (* bytes in a word *)
  w_of_bytes : list int -> W;         (* big endian *)
  bytes_of_w : W -> list int
}.
Arguments wadd {W} _. Arguments wxor {W} _. Arguments wand {W} _.
Arguments wnot {W} _. Arguments wrotr {W} _. Arguments wshr {W} _.
Arguments wbytes {W} _. Arguments w_of_bytes {W} _. Arguments bytes_of_w {W} _.

Definition m32 : int := Eval vm_compute in int_of_Z 4294967295.
Definition i8 : int := Eval vm_compute in int_of_Z 8.
Definition i32 : int := Eval vm_compute in int_of_Z 32.
Definition i255 : int := Eval vm_compute in int_of_Z 255.

Definition be32 (l : list int) : int :=
  fold_left (fun acc b => Uint63.lor (Uint63.lsl acc i8) b) l (int_of_Z 0).
Definition bytes_of_32 (x : int) : list int :=
  [Uint63.land (Uint63.lsr x (int_of_Z 24)) i255;
   Uint63.land (Uint63.lsr x (int_of_Z 16)) i255;
   Uint63.land (Uint63.lsr x i8) i255;
   Uint63.land x i255].

Definition rotr32 (x n : int) : int :=
  Uint63.land (Uint63.lor (Uint63.lsr x n) (Uint63.lsl x (Uint63.sub i32 n))) m32.

Definition ops32 : wordops int :=
  WordOps int
    (fun a b => Uint63.land (Uint63.add a b) m32)
    Uint63.lxor Uint63.land
    (fun a => Uint63.lxor a m32)
    rotr32
    Uint63.lsr
    4 be32 bytes_of_32.

Definition add64 (a b : int * int) : int * int :=
  let s := Uint63.add (snd a) (snd b) in
  (Uint63.land (Uint63.add (Uint63.add (fst a) (fst b)) (Uint63.lsr s i32)) m32,
   Uint63.land s m32).

(** Right shift of the 64-bit value [hi:lo] by [n < 32], with [fill] entering
    from the left. *)
Definition shr64_lt32 (fill hi lo n : int) : int * int :=
  let back := Uint63.sub i32 n in
  (Uint63.land (Uint63.lor (Uint63.lsr hi n) (Uint63.lsl fill back)) m32,
   Uint63.land (Uint63.lor (Uint63.lsr lo n) (Uint63.lsl hi back)) m32).

Definition rotr64 (x : int * int) (n : int) : int * int :=
  if Uint63.ltb n i32 then shr64_lt32 (snd x) (fst x) (snd x) n
  else shr64_lt32 (fst x) (snd x) (fst x) (Uint63.sub n i32).

Definition ops64 : wordops (int * int) :=
  WordOps (int * int)
    add64
    (fun a b => (Uint63.lxor (fst a) (fst b), Uint63.lxor (snd a) (snd b)))
    (fun a b => (Uint63.land (fst a) (fst b), Uint63.land (snd a) (snd b)))
    (fun a => (Uint63.lxor (fst a) m32, Uint63.lxor (snd a) m32))
    rotr64
    (fun x n => shr64_lt32 (int_of_Z 0) (fst x) (snd x) n)
    8
    (fun l => (be32 (take 4 l), be32 (drop 4 l)))
    (fun x => bytes_of_32 (fst x) ++ bytes_of_32 (snd x)).

Record params (W : Type) := Params {
  ops : wordops W;
  kconst : list W;
  big0 : int * int * int;       (* rotations of the four sigma functions *)
  big1 : int * int * int;
  small0 : int * int * int;     (* the third one is a shift *)
  small1 : int * int * int
}.
Arguments ops {W} _. Arguments kconst {W} _. Arguments big0 {W} _.
Arguments big1 {W} _. Arguments small0 {W} _. Arguments small1 {W} _.

Section Generic.
Context {W : Type} (p : params W).
Let o := ops p.

Definition Sigma (c : int * int * int) (x : W) : W :=
  let '(r1, r2, r3) := c in
  wxor o (wxor o (wrotr o x r1) (wrotr o x r2)) (wrotr o x r3).
Definition sigma (c : int * int * int) (x : W) : W :=
  let '(r1, r2, s3) := c in
  wxor o (wxor o (wrotr o x r1) (wrotr o x r2)) (wshr o x s3).
Definition Ch (x y z : W) : W := wxor o (wand o x y) (wand o (wnot o x) z).
Definition Maj (x y z : W) : W :=
  wxor o (wxor o (wand o x y) (wand o x z)) (wand o y z).

Fixpoint words (n : nat) (block : list int) : list W :=
  match n with
  | O => []
  | S n' => w_of_bytes o (take (wbytes o) block) :: words n' (drop (wbytes o) block)
  end.

(** The message schedule, most recent word first. *)
Fixpoint schedule (n : nat) (rev_w : list W) : list W :=
  match n with
  | O => rev_w
  | S n' =>
      match rev_w with
      | _ :: w2 :: _ :: _ :: _ :: _ :: w7 :: _ :: _ :: _ :: _ :: _ :: _ :: _ :: w15 :: w16 :: _ =>
          let w := wadd o (wadd o (sigma (small1 p) w2) w7)
                          (wadd o (sigma (small0 p) w15) w16) in
          schedule n' (w :: rev_w)
      | _ => rev_w
      end
  end.

Definition round (st : list W) (kw : W * W) : list W :=
  match st with
  | [a; b; c; d; e; f; g; h] =>
      let t1 := wadd o (wadd o (wadd o h (Sigma (big1 p) e)) (Ch e f g))
                       (wadd o (fst kw) (snd kw)) in
      let t2 := wadd o (Sigma (big0 p) a) (Maj a b c) in
      [wadd o t1 t2; a; b; c; wadd o d t1; e; f; g]
  | _ => st
  end.

Definition block (st : list W) (blk : list int) : list W :=
  let w := rev (schedule (length (kconst p) - 16) (rev (words 16 blk))) in
  let st' := fold_left round (zip (kconst p) w) st in
  zip_with (wadd o) st st'.

Definition block_size : nat := (16 * wbytes o)%nat.

(** Big-endian bytes of the bit length, [n] of them. *)
Definition length_bytes (n : nat) (bits : Z) : bytes :=
  map (fun i => Z.land (Z.shiftr bits (8 * Z.of_nat (n - 1 - i))) 255) (seq 0 n).

Definition pad (msg : bytes) : bytes :=
  let l := len msg in
  let bs := Z.of_nat block_size in
  msg ++ [128]
      ++ replicate (Z.to_nat ((bs - 2 * Z.of_nat (wbytes o) - 1 - l) mod bs)) 0
      ++ length_bytes (2 * wbytes o) (8 * l).

Fixpoint blocks (n : nat) (st : list W) (data : list int) : list W :=
  match n with
  | O => st
  | S n' => blocks n' (block st (take block_size data)) (drop block_size data)
  end.

(** The digest of [msg] from the initial state [h0], [outlen] bytes. *)
Definition digest (h0 : list W) (outlen : nat) (msg : bytes) : bytes :=
  let data := pad msg in
  let st := blocks (length data / block_size)%nat h0 (map int_of_Z data) in
  take outlen (map Z_of_byte (flat_map (bytes_of_w o) st) ++ replicate outlen 0).
End Generic.

Definition w32_of_Z (x : Z) : int := int_of_Z x.
Definition w64_of_Z (x : Z) : int * int :=
  (int_of_Z (x / 4294967296), int_of_Z (x mod 4294967296)).
Definition triple (a b c : Z) : int * int * int := (int_of_Z a, int_of_Z b, int_of_Z c).

Definition p256 : params int :=
  Eval vm_compute in
    Params int ops32
      (map w32_of_Z
[
         1116352408; 1899447441; 3049323471; 3921009573;
         961987163; 1508970993; 2453635748; 2870763221;
         3624381080; 310598401; 607225278; 1426881987;
         1925078388; 2162078206; 2614888103; 3248222580;
         3835390401; 4022224774; 264347078; 604807628;
         770255983; 1249150122; 1555081692; 1996064986;
         2554220882; 2821834349; 2952996808; 3210313671;
         3336571891; 3584528711; 113926993; 338241895;
         666307205; 773529912; 1294757372; 1396182291;
         1695183700; 1986661051; 2177026350; 2456956037;
         2730485921; 2820302411; 3259730800; 3345764771;
         3516065817; 3600352804; 4094571909; 275423344;
         430227734; 506948616; 659060556; 883997877;
         958139571; 1322822218; 1537002063; 1747873779;
         1955562222; 2024104815; 2227730452; 2361852424;
         2428436474; 2756734187; 3204031479; 3329325298])
      (triple 2 13 22) (triple 6 11 25) (triple 7 18 3) (triple 17 19 10).

Definition p512 : params (int * int) :=
  Eval vm_compute in
    Params (int * int) ops64
      (map w64_of_Z
[
         4794697086780616226; 8158064640168781261; 13096744586834688815;
         16840607885511220156; 4131703408338449720; 6480981068601479193;
         10538285296894168987; 12329834152419229976; 15566598209576043074;
         1334009975649890238; 2608012711638119052; 6128411473006802146;
         8268148722764581231; 9286055187155687089; 11230858885718282805;
         13951009754708518548; 16472876342353939154; 17275323862435702243;
         1135362057144423861; 2597628984639134821; 3308224258029322869;
         5365058923640841347; 6679025012923562964; 8573033837759648693;
         10970295158949994411; 12119686244451234320; 12683024718118986047;
         13788192230050041572; 14330467153632333762; 15395433587784984357;
         489312712824947311; 1452737877330783856; 2861767655752347644;
         3322285676063803686; 5560940570517711597; 5996557281743188959;
         7280758554555802590; 8532644243296465576; 9350256976987008742;
         10552545826968843579; 11727347734174303076; 12113106623233404929;
         14000437183269869457; 14369950271660146224; 15101387698204529176;
         15463397548674623760; 17586052441742319658; 1182934255886127544;
         1847814050463011016; 2177327727835720531; 2830643537854262169;
         3796741975233480872; 4115178125766777443; 5681478168544905931;
         6601373596472566643; 7507060721942968483; 8399075790359081724;
         8693463985226723168; 9568029438360202098; 10144078919501101548;
         10430055236837252648; 11840083180663258601; 13761210420658862357;
         14299343276471374635; 14566680578165727644; 15097957966210449927;
         16922976911328602910; 17689382322260857208; 500013540394364858;
         748580250866718886; 1242879168328830382; 1977374033974150939;
         2944078676154940804; 3659926193048069267; 4368137639120453308;
         4836135668995329356; 5532061633213252278; 6448918945643986474;
         6902733635092675308; 7801388544844847127])
      (triple 28 34 39) (triple 14 18 41) (triple 1 8 7) (triple 19 61 6).

Definition h256 : list int :=
  Eval vm_compute in map w32_of_Z
[
       1779033703; 3144134277; 1013904242; 2773480762;
       1359893119; 2600822924; 528734635; 1541459225].
Definition h384 : list (int * int) :=
  Eval vm_compute in map w64_of_Z
[
       14680500436340154072; 7105036623409894663;
       10473403895298186519; 1526699215303891257;
       7436329637833083697; 10282925794625328401;
       15784041429090275239; 5167115440072839076].
Definition h512 : list (int * int) :=
  Eval vm_compute in map w64_of_Z
[
       7640891576956012808; 13503953896175478587;
       4354685564936845355; 11912009170470909681;
       5840696475078001361; 11170449401992604703;
       2270897969802886507; 6620516959819538809].

(** [sha256.New()], [sha512.New384()], [sha512.New()]: [Write] then [Sum]. *)
Definition sum256 (msg : bytes) : bytes := digest p256 h256 32 msg.
Definition sum384 (msg : bytes) : bytes := digest p512 h384 48 msg.
Definition sum512 (msg : bytes) : bytes := digest p512 h512 64 msg.

End SHA2.

Module AES.

Definition sbox_table : array int :=
  Eval vm_compute in array_of_list
[
       99; 124; 119; 123; 242; 107; 111; 197; 48; 1; 103; 43; 254; 215; 171; 118;
       202; 130; 201; 125; 250; 89; 71; 240; 173; 212; 162; 175; 156; 164; 114; 192;
       183; 253; 147; 38; 54; 63; 247; 204; 52; 165; 229; 241; 113; 216; 49; 21;
       4; 199; 35; 195; 24; 150; 5; 154; 7; 18; 128; 226; 235; 39; 178; 117;
       9; 131; 44; 26; 27; 110; 90; 160; 82; 59; 214; 179; 41; 227; 47; 132;
       83; 209; 0; 237; 32; 252; 177; 91; 106; 203; 190; 57; 74; 76; 88; 207;
       208; 239; 170; 251; 67; 77; 51; 133; 69; 249; 2; 127; 80; 60; 159; 168;
       81; 163; 64; 143; 146; 157; 56; 245; 188; 182; 218; 33; 16; 255; 243; 210;
       205; 12; 19; 236; 95; 151; 68; 23; 196; 167; 126; 61; 100; 93; 25; 115;
       96; 129; 79; 220; 34; 42; 144; 136; 70; 238; 184; 20; 222; 94; 11; 219;
       224; 50; 58; 10; 73; 6; 36; 92; 194; 211; 172; 98; 145; 149; 228; 121;
       231; 200; 55; 109; 141; 213; 78; 169; 108; 86; 244; 234; 101; 122; 174; 8;
       186; 120; 37; 46; 28; 166; 180; 198; 232; 221; 116; 31; 75; 189; 139; 138;
       112; 62; 181; 102; 72; 3; 246; 14; 97; 53; 87; 185; 134; 193; 29; 158;
       225; 248; 152; 17; 105; 217; 142; 148; 155; 30; 135; 233; 206; 85; 40; 223;
       140; 161; 137; 13; 191; 230; 66; 104; 65; 153; 45; 15; 176; 84; 187; 22].

Definition inv_sbox_table : array int :=
  Eval vm_compute in array_of_list
[
       82; 9; 106; 213; 48; 54; 165; 56; 191; 64; 163; 158; 129; 243; 215; 251;
       124; 227; 57; 130; 155; 47; 255; 135; 52; 142; 67; 68; 196; 222; 233; 203;
       84; 123; 148; 50; 166; 194; 35; 61; 238; 76; 149; 11; 66; 250; 195; 78;
       8; 46; 161; 102; 40; 217; 36; 178; 118; 91; 162; 73; 109; 139; 209; 37;
       114; 248; 246; 100; 134; 104; 152; 22; 212; 164; 92; 204; 93; 101; 182; 146;
       108; 112; 72; 80; 253; 237; 185; 218; 94; 21; 70; 87; 167; 141; 157; 132;
       144; 216; 171; 0; 140; 188; 211; 10; 247; 228; 88; 5; 184; 179; 69; 6;
       208; 44; 30; 143; 202; 63; 15; 2; 193; 175; 189; 3; 1; 19; 138; 107;
       58; 145; 17; 65; 79; 103; 220; 234; 151; 242; 207; 206; 240; 180; 230; 115;
       150; 172; 116; 34; 231; 173; 53; 133; 226; 249; 55; 232; 28; 117; 223; 110;
       71; 241; 26; 113; 29; 41; 197; 137; 111; 183; 98; 14; 170; 24; 190; 27;
       252; 86; 62; 75; 198; 210; 121; 32; 154; 219; 192; 254; 120; 205; 90; 244;
       31; 221; 168; 51; 136; 7; 199; 49; 177; 18; 16; 89; 39; 128; 236; 95;
       96; 81; 127; 169; 25; 181; 74; 13; 45; 229; 122; 159; 147; 201; 156; 239;
       160; 224; 59; 77; 174; 42; 245; 176; 200; 235; 187; 60; 131; 83; 153; 97;
       23; 43; 4; 126; 186; 119; 214; 38; 225; 105; 20; 99; 85; 33; 12; 125].

Definition sbox (x : int) : int := PArray.get sbox_table x.
Definition inv_sbox (x : int) : int := PArray.get inv_sbox_table x.

Definition i1 : int := Eval vm_compute in int_of_Z 1.
Definition i27 : int := Eval vm_compute in int_of_Z 27.
Definition i255 : int := Eval vm_compute in int_of_Z 255.
Definition i256 : int := Eval vm_compute in int_of_Z 256.

Definition xtime (a : int) : int :=
  let b := Uint63.lsl a i1 in
  if Uint63.ltb b i256 then b else Uint63.lxor (Uint63.land b i255) i27.

Definition xor (a b : int) : int := Uint63.lxor a b.

(** Multiplication in GF(2^8) by the constants of (Inv)MixColumns. *)
Definition mul2 (a : int) : int := xtime a.
Definition mul3 (a : int) : int := xor (xtime a) a.
Definition mul9 (a : int) : int := xor (xtime (xtime (xtime a))) a.
Definition mul11 (a : int) : int := xor (xor (xtime (xtime (xtime a))) (xtime a)) a.
Definition mul13 (a : int) : int :=
  xor (xor (xtime (xtime (xtime a))) (xtime (xtime a))) a.
Definition mul14 (a : int) : int :=
  xor (xor (xtime (xtime (xtime a))) (xtime (xtime a))) (xtime a).

(** A block is sixteen bytes, the columns of the state one after the other;
    a short list reads as padded with zeros. *)
Definition at_ (s : list int) (i : nat) : int := nth i s (int_of_Z 0).

Definition AddRoundKey (s rk : list int) : list int :=
  map (fun i => xor (at_ s i) (at_ rk i)) (seq 0 16).

Definition InvShiftSub (s : list int) : list int :=
  map (fun i => inv_sbox (at_ s i)) [0; 13; 10; 7; 4; 1; 14; 11; 8; 5; 2; 15; 12; 9; 6; 3]%nat.

Fixpoint InvMixColumns (s : list int) : list int :=
  match s with
  | a0 :: a1 :: a2 :: a3 :: rest =>
      xor (xor (mul14 a0) (mul11 a1)) (xor (mul13 a2) (mul9 a3))
      :: xor (xor (mul9 a0) (mul14 a1)) (xor (mul11 a2) (mul13 a3))
      :: xor (xor (mul13 a0) (mul9 a1)) (xor (mul14 a2) (mul11 a3))
      :: xor (xor (mul11 a0) (mul13 a1)) (xor (mul9 a2) (mul14 a3))
      :: InvMixColumns rest
  | _ => []
  end.

(** Key expansion. [w] holds the 4-byte words produced so far, most recent
    first; [nk] is the key length in words; [i] the index of the next word. *)
Fixpoint expand (n : nat) (nk : nat) (i : nat) (rcon : int) (w : list (list int))
  : list (list int) :=
  match n with
  | O => w
  | S n' =>
      let prev := nth 0 w [] in
      let back := nth (nk - 1) w [] in
      let '(temp, rcon') :=
        if (i mod nk =? 0)%nat then
          match prev with
          | [t0; t1; t2; t3] => ([xor (sbox t1) rcon; sbox t2; sbox t3; sbox t0], xtime rcon)
          | _ => (prev, rcon)
          end
        else if (6 <? nk)%nat && (i mod nk =? 4)%nat then (map sbox prev, rcon)
        else (prev, rcon) in
      expand n' nk (S i) rcon' (zip_with xor back temp :: w)
  end.

Fixpoint chunks {A} (n : nat) (size : nat) (l : list A) : list (list A) :=
  match n with
  | O => []
  | S n' => take size l :: chunks n' size (drop size l)
  end.

(** Number of rounds for a key of 16, 24 or 32 bytes. *)
Definition nr (key : bytes) : nat := (length key / 4 + 6)%nat.

(** The round keys, 16 bytes each. *)
Definition round_keys (key : bytes) : list (list int) :=
  let nk := (length key / 4)%nat in
  let total := (4 * (nr key + 1))%nat in
  let w := rev (expand (total - nk) nk nk i1 (rev (chunks nk 4 (map int_of_Z key)))) in
  chunks (nr key + 1) 16 (concat w).

(** Encryption works on the four columns of the state as 32-bit words, with
    the tables [te0] .. [te3] (SubBytes, ShiftRows and MixColumns of one byte
    in one look-up), the way the portable code of [crypto/aes] does. *)
Definition i8 : int := Eval vm_compute in int_of_Z 8.
Definition i16 : int := Eval vm_compute in int_of_Z 16.
Definition i24 : int := Eval vm_compute in int_of_Z 24.

Definition word (b0 b1 b2 b3 : int) : int :=
  Uint63.lor (Uint63.lor (Uint63.lsl b0 i24) (Uint63.lsl b1 i16))
             (Uint63.lor (Uint63.lsl b2 i8) b3).

Definition te (k : Z) : array int :=
  array_of_list_int
    (map (fun x =>
            let s := sbox (int_of_Z x) in
            match k with
            | 0 => word (mul2 s) s s (mul3 s)
            | 1 => word (mul3 s) (mul2 s) s s
            | 2 => word s (mul3 s) (mul2 s) s
            | _ => word s s (mul3 s) (mul2 s)
            end) (seqZ 0 256)).

Definition te0 : array int := Eval vm_compute in te 0.
Definition te1 : array int := Eval vm_compute in te 1.
Definition te2 : array int := Eval vm_compute in te 2.
Definition te3 : array int := Eval vm_compute in te 3.

Definition byte3 (w : int) : int := Uint63.lsr w i24.
Definition byte2 (w : int) : int := Uint63.land (Uint63.lsr w i16) i255.
Definition byte1 (w : int) : int := Uint63.land (Uint63.lsr w i8) i255.
Definition byte0 (w : int) : int := Uint63.land w i255.

Definition words4 : Type := int * int * int * int.

Definition xor4 (a b : words4) : words4 :=
  let '(a0, a1, a2, a3) := a in
  let '(b0, b1, b2, b3) := b in
  (xor a0 b0, xor a1 b1, xor a2 b2, xor a3 b3).

Definition tcol (a b c d : int) : int :=
  xor (xor (PArray.get te0 (byte3 a)) (PArray.get te1 (byte2 b)))
      (xor (PArray.get te2 (byte1 c)) (PArray.get te3 (byte0 d))).

Definition enc_round (s rk : words4) : words4 :=
  let '(s0, s1, s2, s3) := s in
  xor4 (tcol s0 s1 s2 s3, tcol s1 s2 s3 s0, tcol s2 s3 s0 s1, tcol s3 s0 s1 s2) rk.

Definition scol (a b c d : int) : int :=
  word (sbox (byte3 a)) (sbox (byte2 b)) (sbox (byte1 c)) (sbox (byte0 d)).

Definition enc_last (s rk : words4) : words4 :=
  let '(s0, s1, s2, s3) := s in
  xor4 (scol s0 s1 s2 s3, scol s1 s2 s3 s0, scol s2 s3 s0 s1, scol s3 s0 s1 s2) rk.

Definition zero4 : words4 := (int_of_Z 0, int_of_Z 0, int_of_Z 0, int_of_Z 0).

(** Sixteen bytes as four big-endian words, and back. *)
Definition words_of_block (blk : list int) : words4 :=
  match blk with
  | [b0; b1; b2; b3; b4; b5; b6; b7; b8; b9; b10; b11; b12; b13; b14; b15] =>
      (word b0 b1 b2 b3, word b4 b5 b6 b7, word b8 b9 b10 b11, word b12 b13 b14 b15)
  | _ => zero4
  end.

Definition block_of_words (s : words4) : list int :=
  let '(s0, s1, s2, s3) := s in
  [byte3 s0; byte2 s0; byte1 s0; byte0 s0; byte3 s1; byte2 s1; byte1 s1; byte0 s1;
   byte3 s2; byte2 s2; byte1 s2; byte0 s2; byte3 s3; byte2 s3; byte1 s3; byte0 s3].

Definition round_key_words (key : bytes) : list words4 :=
  map words_of_block (round_keys key).

Definition encrypt_words (rks : list words4) (s : words4) : words4 :=
  match rks with
  | [] => s
  | rk0 :: rest =>
      let s := xor4 s rk0 in
      let s := fold_left enc_round (take (length rest - 1) rest) s in
      enc_last s (nth (length rest - 1) rest zero4)
  end.

Definition decrypt_block (rks : list (list int)) (blk : list int) : list int :=
  match rev rks with
  | [] => AddRoundKey blk []
  | rkn :: rest =>
      let s := AddRoundKey blk rkn in
      let mid := take (length rest - 1) rest in
      let s := fold_left (fun s rk => InvMixColumns (AddRoundKey (InvShiftSub s) rk)) mid s in
      AddRoundKey (InvShiftSub s) (nth (length rest - 1) rest [])
  end.

(** [aes.NewCipher] accepts keys of 16, 24 or 32 bytes. *)
Definition key_ok (key : bytes) : bool :=
  (len key =? 16) || (len key =? 24) || (len key =? 32).

(** [cipher.NewCBCEncrypter(block, iv).CryptBlocks] on [n] blocks. *)
Fixpoint cbc_encrypt (n : nat) (rks : list words4) (iv : words4) (src : list int)
  : list int :=
  match n with
  | O => []
  | S n' =>
      let c := encrypt_words rks (xor4 (words_of_block (take 16 src)) iv) in
      block_of_words c ++ cbc_encrypt n' rks c (drop 16 src)
  end.

(** [cipher.NewCBCDecrypter(block, iv).CryptBlocks] on [n] blocks. *)
Fixpoint cbc_decrypt (n : nat) (rks : list (list int)) (iv : list int) (src : list int)
  : list int :=
  match n with
  | O => []
  | S n' =>
      let c := take 16 src in
      AddRoundKey (decrypt_block rks c) iv ++ cbc_decrypt n' rks c (drop 16 src)
  end.

(** The block function and the modes on byte slices whose length is a multiple
    of the block size (the callers check it, or [CryptBlocks] panics). *)
Definition Encrypt (key blk : bytes) : bytes :=
  map Z_of_byte
    (block_of_words (encrypt_words (round_key_words key)
                                   (words_of_block (map int_of_Z blk)))).
Definition Decrypt (key blk : bytes) : bytes :=
  map Z_of_byte (decrypt_block (round_keys key) (map int_of_Z blk)).
Definition CBCEncrypt (key iv src : bytes) : bytes :=
  map Z_of_byte
    (cbc_encrypt (length src / 16) (round_key_words key)
                 (words_of_block (map int_of_Z iv)) (map int_of_Z src)).
Definition CBCDecrypt (key iv src : bytes) : bytes :=
  map Z_of_byte
    (cbc_decrypt (length src / 16) (round_keys key) (map int_of_Z iv) (map int_of_Z src)).

(** Modelled from the spec: [newECBDecrypter] is the repository's ECB-mode
    wrapper around a block cipher, outside the files at hand; each block is
    decrypted on its own. *)
Definition ECBDecrypt (key src : bytes) : bytes :=
  map Z_of_byte
    (concat (map (decrypt_block (round_keys key))
                 (chunks (length src / 16) 16 (map int_of_Z src)))).

End AES.

(** ** The standard security handler (crypt.go) *)

(** Objects are handled through pointers; an [addr] is the identity of one
    object (what a [map[PdfObject]bool] is keyed by). *)
Definition addr := positive.

Module AccessPermissions.
Record t := Build {
  Printing : bool;
  Modify : bool;
  ExtractGraphics : bool;
  Annotate : bool;
  FillForms : bool;
  DisabilityExtract : bool;
  RotateInsert : bool;
  FullPrintQuality : bool
}.
(** The zero value [AccessPermissions{}]. *)
Definition zero : t := Build false false false false false false false false.
End AccessPermissions.

Definition padding : bytes :=
  [40; 191; 78; 94; 78; 117; 138; 65; 100; 0; 78; 86; 255;
   250; 1; 8; 46; 46; 0; 182; 208; 104; 62; 128; 47; 12;
   169; 254; 100; 83; 105; 122].

Module CryptFilter.
Record t := Build { Cfm : string; Length : Z }.
End CryptFilter.

Definition CryptFilterNone : string := "None".
Definition CryptFilterV2 : string := "V2".
Definition CryptFilterAESV2 : string := "AESV2".
Definition CryptFilterAESV3 : string := "AESV3".

(** The fields of [PdfCrypt] the handler computes with ([Filter], [Subfilter]
    and the parser handle are left out; [ivAESZero] is a constant buffer of
    sixteen zero bytes). *)
Module PdfCrypt.
Record t := Build {
  V : Z;
  Length : Z;
  R : Z;
  O : bytes;
  U : bytes;
  OE : bytes;
  UE : bytes;
  P : Z;
  Perms : bytes;
  EncryptMetadata : bool;
  Id0 : bytes;
  EncryptionKey : bytes;
  DecryptedObjects : gset addr;
  EncryptedObjects : gset addr;
  Authenticated : bool;
  CryptFilters : gmap string CryptFilter.t;
  StreamFilter : string;
  StringFilter : string
}.

Definition set_EncryptionKey (c : t) (k : bytes) : t :=
  Build (V c) (Length c) (R c) (O c) (U c) (OE c) (UE c) (P c) (Perms c)
        (EncryptMetadata c) (Id0 c) k (DecryptedObjects c) (EncryptedObjects c)
        (Authenticated c) (CryptFilters c) (StreamFilter c) (StringFilter c).
Definition set_Authenticated (c : t) (a : bool) : t :=
  Build (V c) (Length c) (R c) (O c) (U c) (OE c) (UE c) (P c) (Perms c)
        (EncryptMetadata c) (Id0 c) (EncryptionKey c) (DecryptedObjects c)
        (EncryptedObjects c) a (CryptFilters c) (StreamFilter c) (StringFilter c).
Definition set_Perms (c : t) (p : bytes) : t :=
  Build (V c) (Length c) (R c) (O c) (U c) (OE c) (UE c) (P c) p
        (EncryptMetadata c) (Id0 c) (EncryptionKey c) (DecryptedObjects c)
        (EncryptedObjects c) (Authenticated c) (CryptFilters c) (StreamFilter c)
        (StringFilter c).
Definition set_DecryptedObjects (c : t) (s : gset addr) : t :=
  Build (V c) (Length c) (R c) (O c) (U c) (OE c) (UE c) (P c) (Perms c)
        (EncryptMetadata c) (Id0 c) (EncryptionKey c) s (EncryptedObjects c)
        (Authenticated c) (CryptFilters c) (StreamFilter c) (StringFilter c).
Definition set_EncryptedObjects (c : t) (s : gset addr) : t :=
  Build (V c) (Length c) (R c) (O c) (U c) (OE c) (UE c) (P c) (Perms c)
        (EncryptMetadata c) (Id0 c) (EncryptionKey c) (DecryptedObjects c) s
        (Authenticated c) (CryptFilters c) (StreamFilter c) (StringFilter c).
End PdfCrypt.

(** [l[lo:hi]] with its bounds check (the capacity of the slices met here is
    their length). *)
Definition slice_chk (l : bytes) (lo hi : Z) : result bytes :=
  if (0 <=? lo) && (lo <=? hi) && (hi <=? len l) then Ok (slice l lo hi) else Panic.

(** [GetAccessPermissions] *)
Definition GetAccessPermissions (crypt : PdfCrypt.t) : AccessPermissions.t :=
  let P := PdfCrypt.P crypt in
  AccessPermissions.Build
    (0 <? Z.land P (Z.shiftl 1 2))
    (0 <? Z.land P (Z.shiftl 1 3))
    (0 <? Z.land P (Z.shiftl 1 4))
    (0 <? Z.land P (Z.shiftl 1 5))
    (0 <? Z.land P (Z.shiftl 1 8))
    (0 <? Z.land P (Z.shiftl 1 9))
    (0 <? Z.land P (Z.shiftl 1 10))
    (0 <? Z.land P (Z.shiftl 1 11)).

(** [GetP]: the [int32] built from the permissions. *)
Definition GetP (perms : AccessPermissions.t) : Z :=
  let set (b : bool) (k : Z) (P : Z) := if b then Z.lor P (Z.shiftl 1 k) else P in
  set (AccessPermissions.FullPrintQuality perms) 11
    (set (AccessPermissions.RotateInsert perms) 10
      (set (AccessPermissions.DisabilityExtract perms) 9
        (set (AccessPermissions.FillForms perms) 8
          (set (AccessPermissions.Annotate perms) 5
            (set (AccessPermissions.ExtractGraphics perms) 4
              (set (AccessPermissions.Modify perms) 3
                (set (AccessPermissions.Printing perms) 2 0))))))).

Definition paddedPass (pass : bytes) : bytes :=
  if 32 <=? len pass then take 32 pass
  else pass ++ take (32 - length pass)%nat padding.

(** [makeKey]; [objNum] and [genNum] are [uint32] values. *)
Definition makeKey (crypt : PdfCrypt.t) (filter : string) (objNum genNum : Z)
  (ekey : bytes) : result bytes :=
  match PdfCrypt.CryptFilters crypt !! filter with
  | None => Err (Errorf "Unsupported crypt filter (%s)")
  | Some cf =>
      if String.eqb (CryptFilter.Cfm cf) CryptFilterAESV3 then Ok ekey
      else
        let isAES2 := String.eqb (CryptFilter.Cfm cf) CryptFilterAESV2 in
        let key :=
          ekey
            ++ map (fun i => byte (Z.land (Z.shiftr objNum (8 * i)) 255)) [0; 1; 2]
            ++ map (fun i => byte (Z.land (Z.shiftr genNum (8 * i)) 255)) [0; 1] in
        let key := if isAES2 then key ++ [115; 65; 108; 84] else key in
        let hashb := MD5.sum key in
        if len ekey + 5 <? 16 then Ok (slice hashb 0 (len ekey + 5)) else Ok hashb
  end.

(** [decryptBytes]: the returned slice and the error ([None] for nil). *)
Definition decryptBytes (crypt : PdfCrypt.t) (buf : bytes) (filter : string)
  (okey : bytes) : bytes * option error :=
  match PdfCrypt.CryptFilters crypt !! filter with
  | None => ([], Some (Errorf "Unsupported crypt filter (%s)"))
  | Some cf =>
      let cfMethod := CryptFilter.Cfm cf in
      if String.eqb cfMethod CryptFilterV2 then
        if negb (RC4.key_ok okey) then ([], Some KeySizeError)
        else (RC4.XORKeyStream okey buf, None)
      else if String.eqb cfMethod CryptFilterAESV2 || String.eqb cfMethod CryptFilterAESV3 then
        if negb (AES.key_ok okey) then ([], Some KeySizeError)
        else if len buf <? 16 then (buf, Some (Errorf "AES: Buf len < 16 (%d)"))
        else
          let iv := take 16 buf in
          let buf := drop 16 buf in
          if negb (len buf mod 16 =? 0)
          then (buf, Some (Errorf "AES buf length not multiple of 16 (%d)"))
          else
            let buf := AES.CBCDecrypt okey iv buf in
            if len buf =? 0 then (buf, None)
            else if String.eqb cfMethod CryptFilterAESV2 then
              let padLen := idx buf (len buf - 1) in
              if len buf <=? padLen
              then (buf, Some (Errorf "Invalid pad length for %s"))
              else (slice buf 0 (len buf - padLen), None)
            else (buf, None)
      else ([], Some (Errorf "Unsupported crypt filter method (%s)"))
  end.

Section WithRand.
(** [crypto/rand]: the bytes a read of [n] bytes delivers.  The reads are
    taken to succeed; nothing below depends on what they deliver. *)
Variable rand_Read : nat -> bytes.

(** [encryptBytes]: [CryptBlocks] panics on a source that is not a whole
    number of blocks, which an AESV3 buffer (never padded) can be. *)
Definition encryptBytes (crypt : PdfCrypt.t) (buf : bytes) (filter : string)
  (okey : bytes) : result (bytes * option error) :=
  match PdfCrypt.CryptFilters crypt !! filter with
  | None => Ok ([], Some (Errorf "Unsupported crypt filter (%s)"))
  | Some cf =>
      let cfMethod := CryptFilter.Cfm cf in
      if String.eqb cfMethod "V2" then
        if negb (RC4.key_ok okey) then Ok ([], Some KeySizeError)
        else Ok (RC4.XORKeyStream okey buf, None)
      else if String.eqb cfMethod CryptFilterAESV2 || String.eqb cfMethod CryptFilterAESV3 then
        if negb (AES.key_ok okey) then Ok ([], Some KeySizeError)
        else
          let buf :=
            if String.eqb cfMethod CryptFilterAESV2 then
              let pad := 16 - len buf mod 16 in
              buf ++ replicate (Z.to_nat pad) (byte pad)
            else buf in
          let iv := take 16 (rand_Read 16) in
          if negb (len buf mod 16 =? 0) then Panic
          else Ok (iv ++ AES.CBCEncrypt okey iv buf, None)
      else Ok ([], Some (Errorf "Unsupported crypt filter method (%s)"))
  end.

(** *** Algorithm 2.B *)

(** [copy(buf[bp:], buf[:bp])] *)
Definition copy_up (buf : bytes) (bp : Z) : bytes :=
  let m := Z.min bp (len buf - bp) in
  take (Z.to_nat bp) buf ++ take (Z.to_nat m) buf ++ drop (Z.to_nat (bp + m)) buf.

(** [repeat(buf, n)]: the loop [for bp < len(buf)]. *)
Fixpoint repeat_loop (fuel : nat) (buf : bytes) (bp : Z) : result bytes :=
  match fuel with
  | O => OutOfFuel
  | S fuel' =>
      if bp <? len buf then repeat_loop fuel' (copy_up buf bp) (bp * 2)
      else Ok buf
  end.

Definition repeat (buf : bytes) (n : Z) : result bytes :=
  repeat_loop (S (length buf)) buf n.

(** The capacity of the work buffer of [alg2b]. *)
Definition alg2b_buf_len : Z := 64 * (127 + 64 + 48).

(** The closure [round]: from the current [K] to [(E, K')]. *)
Definition alg2b_round (pwd userKey K : bytes) : result (bytes * bytes) :=
  let n := len pwd + len K + len userKey in
  if alg2b_buf_len <? n * 64 then Panic
  else
    let part := pwd ++ K ++ userKey in
    K1 <- repeat (part ++ replicate (Z.to_nat (n * 64 - n)) 0) n;;
    key <- slice_chk K 0 16;;
    iv <- slice_chk K 16 32;;
    let E := AES.CBCEncrypt key iv K1 in
    if len E <? 16 then Panic
    else
      let b := fold_left (fun b i => b + idx E i mod 3) (seqZ 0 16) 0 in
      let K' :=
        match b mod 3 with
        | 0 => SHA2.sum256 E
        | 1 => SHA2.sum384 E
        | _ => SHA2.sum512 E
        end in
      Ok (E, K').

(** The loop [for i := 0; ; ] of [alg2b], entered with the counter [i] and
    the hash [K]; it returns the final [K] and counter. *)
Fixpoint alg2b_loop (fuel : nat) (pwd userKey : bytes) (i : Z) (K : bytes)
  : result (bytes * Z) :=
  match fuel with
  | O => OutOfFuel
  | S fuel' =>
      r <- alg2b_round pwd userKey K;;
      let '(E, K) := r in
      let b := idx E (len E - 1) in
      let i := i + 1 in
      if (64 <=? i) && (b <=? (i - 32) mod 256) then Ok (K, i)
      else alg2b_loop fuel' pwd userKey i K
  end.

Definition alg2b_fuel (fuel : nat) (data pwd userKey : bytes) : result bytes :=
  r <- alg2b_loop fuel pwd userKey 0 (SHA2.sum256 data);;
  slice_chk (fst r) 0 32.

(** [alg2b]; any fuel from 287 on gives the same result (see
    [alg2b_loop_rounds]). *)
Definition alg2b (data pwd userKey : bytes) : result bytes :=
  alg2b_fuel 512 data pwd userKey.

Definition alg2b_R5 (data : bytes) : bytes := SHA2.sum256 data.

(** The method [crypt.alg2b]. *)
Definition crypt_alg2b (crypt : PdfCrypt.t) (data pwd userKey : bytes) : result bytes :=
  if PdfCrypt.R crypt =? 5 then Ok (alg2b_R5 data) else alg2b data pwd userKey.

(** *** Algorithms 2 to 7 *)

(** [n] rounds of [hashb = md5(hashb[0:k])]. *)
Fixpoint md5_iter_trunc (n : nat) (k : Z) (hashb : bytes) : result bytes :=
  match n with
  | O => Ok hashb
  | S n' => h <- slice_chk hashb 0 k;; md5_iter_trunc n' k (MD5.sum h)
  end.

Definition Alg2 (crypt : PdfCrypt.t) (pass : bytes) : result bytes :=
  let key := paddedPass pass in
  let p := PdfCrypt.P crypt mod 2 ^ 32 in
  let pb := map (fun i => byte (Z.land (Z.shiftr p (8 * i)) 255)) [0; 1; 2; 3] in
  let data := key ++ PdfCrypt.O crypt ++ pb ++ PdfCrypt.Id0 crypt in
  let data :=
    if (4 <=? PdfCrypt.R crypt) && negb (PdfCrypt.EncryptMetadata crypt)
    then data ++ [255; 255; 255; 255] else data in
  let hashb := MD5.sum data in
  hashb <- (if 3 <=? PdfCrypt.R crypt
            then md5_iter_trunc 50 (Z.quot (PdfCrypt.Length crypt) 8) hashb
            else Ok hashb);;
  if 3 <=? PdfCrypt.R crypt
  then slice_chk hashb 0 (Z.quot (PdfCrypt.Length crypt) 8)
  else slice_chk hashb 0 5.

Definition alg3Key (crypt : PdfCrypt.t) (pass : bytes) : result bytes :=
  let okey := paddedPass pass in
  let content :=
    if 3 <=? PdfCrypt.R crypt then Nat.iter 50 MD5.sum okey else okey in
  let encKey := MD5.sum content in
  if PdfCrypt.R crypt =? 2 then slice_chk encKey 0 5
  else slice_chk encKey 0 (Z.quot (PdfCrypt.Length crypt) 8).

(** The loop [for i := 0; i < 19; i++] of [Alg3] and [Alg5]: RC4 with the key
    xored by [i + 1]. *)
Definition rc4_19 (ekey : bytes) (encrypted : bytes) : result bytes :=
  fold_left
    (fun (r : result bytes) i =>
       encrypted <- r;;
       let ekey2 := map (fun b => Z.lxor b (byte (i + 1))) ekey in
       if negb (RC4.key_ok ekey2) then Err (Errorf "Failed rc4 ciph")
       else Ok (RC4.XORKeyStream ekey2 encrypted))
    (seqZ 0 19) (Ok encrypted).

Definition Alg3 (crypt : PdfCrypt.t) (upass opass : bytes) : result bytes :=
  encKey <- (if 0 <? len opass then alg3Key crypt opass else alg3Key crypt upass);;
  if negb (RC4.key_ok encKey) then Err (Errorf "Failed rc4 ciph")
  else
    let ukey := paddedPass upass in
    let encrypted := RC4.XORKeyStream encKey ukey in
    if 3 <=? PdfCrypt.R crypt then rc4_19 encKey encrypted else Ok encrypted.

(** [Alg4] and [Alg5] return the U value and the key. *)
Definition Alg4 (crypt : PdfCrypt.t) (upass : bytes) : result (bytes * bytes) :=
  ekey <- Alg2 crypt upass;;
  if negb (RC4.key_ok ekey) then Err (Errorf "Failed rc4 ciph")
  else Ok (RC4.XORKeyStream ekey padding, ekey).

Definition Alg5 (crypt : PdfCrypt.t) (upass : bytes) : result (bytes * bytes) :=
  ekey <- Alg2 crypt upass;;
  let hash := MD5.sum (padding ++ PdfCrypt.Id0 crypt) in
  if negb (len hash =? 16) then Err (Errorf "Hash length not 16 bytes")
  else if negb (RC4.key_ok ekey) then Err (Errorf "Failed rc4 ciph")
  else
    let encrypted := RC4.XORKeyStream ekey hash in
    encrypted <- rc4_19 ekey encrypted;;
    Ok (take 16 encrypted ++ take 16 (rand_Read 16), ekey).

Definition bytes_eqb (a b : bytes) : bool := bool_decide (a = b).

Definition Alg6 (crypt : PdfCrypt.t) (upass : bytes) : PdfCrypt.t * result bool :=
  let r :=
    if PdfCrypt.R crypt =? 2 then Alg4 crypt upass
    else if 3 <=? PdfCrypt.R crypt then Alg5 crypt upass
    else Err (Errorf "invalid R") in
  match r with
  | Ok (uo, key) =>
      let uGen := uo in
      let uDoc := PdfCrypt.U crypt in
      let uGen := if (3 <=? PdfCrypt.R crypt) && (16 <? len uGen) then take 16 uGen else uGen in
      let uDoc := if (3 <=? PdfCrypt.R crypt) && (16 <? len uDoc) then take 16 uDoc else uDoc in
      if bytes_eqb uGen uDoc
      then (PdfCrypt.set_EncryptionKey crypt key, Ok true)
      else (crypt, Ok false)
  | Err e => (crypt, Err e)
  | Panic => (crypt, Panic)
  | OutOfFuel => (crypt, OutOfFuel)
  end.

(** The loop [for i := 0; i < 20; i++] of [Alg7]. *)
Definition rc4_20_down (encKey : bytes) (s : bytes) : result bytes :=
  fold_left
    (fun (r : result bytes) i =>
       s <- r;;
       let newKey := map (fun b => Z.lxor b (byte (19 - i))) encKey in
       if negb (RC4.key_ok newKey) then Err (Errorf "Failed cipher")
       else Ok (RC4.XORKeyStream newKey s))
    (seqZ 0 20) (Ok s).

Definition Alg7 (crypt : PdfCrypt.t) (opass : bytes) : PdfCrypt.t * result bool :=
  match alg3Key crypt opass with
  | Ok encKey =>
      let r :=
        if PdfCrypt.R crypt =? 2 then
          if negb (RC4.key_ok encKey) then Err (Errorf "Failed cipher")
          else Ok (RC4.XORKeyStream encKey (PdfCrypt.O crypt))
        else if 3 <=? PdfCrypt.R crypt then rc4_20_down encKey (PdfCrypt.O crypt)
        else Err (Errorf "invalid R") in
      match r with
      | Ok decrypted =>
          match Alg6 crypt decrypted with
          | (crypt', Ok auth) => (crypt', Ok auth)
          | (crypt', Err _) => (crypt', Ok false)
          | (crypt', Panic) => (crypt', Panic)
          | (crypt', OutOfFuel) => (crypt', OutOfFuel)
          end
      | Err e => (crypt, Err e)
      | Panic => (crypt, Panic)
      | OutOfFuel => (crypt, OutOfFuel)
      end
  | Err e => (crypt, Err e)
  | Panic => (crypt, Panic)
  | OutOfFuel => (crypt, OutOfFuel)
  end.

(** *** Algorithms 11, 12, 13 and 2.A (R >= 5) *)

(** [alg11] and [alg12] return the hash, or the nil slice ([[]]). *)
Definition alg11 (crypt : PdfCrypt.t) (upass : bytes) : result bytes :=
  salt <- slice_chk (PdfCrypt.U crypt) 32 40;;
  let str := upass ++ salt in
  h <- crypt_alg2b crypt str upass [];;
  h <- slice_chk h 0 32;;
  u32 <- slice_chk (PdfCrypt.U crypt) 0 32;;
  if negb (bytes_eqb h u32) then Ok [] else Ok h.

Definition alg12 (crypt : PdfCrypt.t) (opass : bytes) : result bytes :=
  salt <- slice_chk (PdfCrypt.O crypt) 32 40;;
  u48 <- slice_chk (PdfCrypt.U crypt) 0 48;;
  let str := opass ++ salt ++ u48 in
  h <- crypt_alg2b crypt str opass u48;;
  h <- slice_chk h 0 32;;
  o32 <- slice_chk (PdfCrypt.O crypt) 0 32;;
  if negb (bytes_eqb h o32) then Ok [] else Ok h.

(** [alg13] decrypts [crypt.Perms] in place. *)
Definition alg13 (crypt : PdfCrypt.t) (fkey : bytes) : PdfCrypt.t * result bool :=
  match slice_chk (PdfCrypt.Perms crypt) 0 16, slice_chk fkey 0 32 with
  | Ok perms, Ok key =>
      let perms := AES.ECBDecrypt key perms in
      let crypt := PdfCrypt.set_Perms crypt (perms ++ drop 16 (PdfCrypt.Perms crypt)) in
      if negb (bytes_eqb (slice perms 9 12) (bytes_of_string "adb"))
      then (crypt, Err (Errorf "decoded permissions are invalid"))
      else
        let u := MD5.le_word (slice perms 0 4) in
        let p := if u <? 2 ^ 31 then u else u - 2 ^ 32 in
        if negb (p =? PdfCrypt.P crypt)
        then (crypt, Err (Errorf "permissions validation failed"))
        else (crypt, Ok true)
  | _, _ => (crypt, Panic)
  end.

Definition alg2a (crypt : PdfCrypt.t) (pass : bytes) : PdfCrypt.t * result bool :=
  let pass := if 127 <? len pass then take 127 pass else pass in
  let sel : result (option (bytes * bytes * bytes)) :=
    h <- alg12 crypt pass;;
    if negb (len h =? 0) then
      salt <- slice_chk (PdfCrypt.O crypt) 40 48;;
      u48 <- slice_chk (PdfCrypt.U crypt) 0 48;;
      Ok (Some (pass ++ salt ++ u48, PdfCrypt.OE crypt, u48))
    else
      h <- alg11 crypt pass;;
      h <- (if len h =? 0 then alg11 crypt [] else Ok h);;
      if len h =? 0 then Ok None
      else
        salt <- slice_chk (PdfCrypt.U crypt) 40 48;;
        Ok (Some (pass ++ salt, PdfCrypt.UE crypt, [])) in
  match sel with
  | Ok None => (crypt, Ok false)
  | Ok (Some (data, ekey, ukey)) =>
      match (ekey <- slice_chk ekey 0 32;;
             ikey <- crypt_alg2b crypt data pass ukey;;
             ikey <- slice_chk ikey 0 32;;
             Ok (AES.CBCDecrypt ikey (replicate 16 0) ekey)) with
      | Ok fkey =>
          let crypt := PdfCrypt.set_EncryptionKey crypt fkey in
          if PdfCrypt.R crypt =? 5 then (crypt, Ok true) else alg13 crypt fkey
      | Err e => (crypt, Err e)
      | Panic => (crypt, Panic)
      | OutOfFuel => (crypt, OutOfFuel)
      end
  | Err e => (crypt, Err e)
  | Panic => (crypt, Panic)
  | OutOfFuel => (crypt, OutOfFuel)
  end.

(** *** Authentication and access rights *)

Definition authenticate (crypt : PdfCrypt.t) (password : bytes) : PdfCrypt.t * result bool :=
  let crypt := PdfCrypt.set_Authenticated crypt false in
  if 5 <=? PdfCrypt.R crypt then
    match alg2a crypt password with
    | (crypt, Ok authenticated) =>
        (PdfCrypt.set_Authenticated crypt authenticated, Ok authenticated)
    | r => r
    end
  else
    match Alg6 crypt password with
    | (crypt, Ok true) => (PdfCrypt.set_Authenticated crypt true, Ok true)
    | (crypt, Ok false) =>
        match Alg7 crypt password with
        | (crypt, Ok true) => (PdfCrypt.set_Authenticated crypt true, Ok true)
        | r => r
        end
    | r => r
    end.

(** The full rights an owner gets. *)
Definition full_rights : AccessPermissions.t :=
  AccessPermissions.Build true true true true true true true true.

(** [checkAccessRights] returns the triple [(bool, AccessPermissions, error)];
    [Ok] carries it, [Panic] is a run-time panic on the way. *)
Definition checkAccessRights (crypt : PdfCrypt.t) (password : bytes)
  : PdfCrypt.t * result (bool * AccessPermissions.t * option error) :=
  let perms := AccessPermissions.zero in
  let '(crypt, owner) :=
    if 5 <=? PdfCrypt.R crypt then
      (crypt, h <- alg12 crypt password;; Ok (negb (len h =? 0)))
    else Alg7 crypt password in
  match owner with
  | Ok true => (crypt, Ok (true, full_rights, None))
  | Ok false =>
      let '(crypt, user) :=
        if 5 <=? PdfCrypt.R crypt then
          (crypt, h <- alg11 crypt password;; Ok (negb (len h =? 0)))
        else Alg6 crypt password in
      match user with
      | Ok true => (crypt, Ok (true, GetAccessPermissions crypt, None))
      | Ok false => (crypt, Ok (false, perms, None))
      | Err e => (crypt, Ok (false, perms, Some e))
      | Panic => (crypt, Panic)
      | OutOfFuel => (crypt, OutOfFuel)
      end
  | Err e => (crypt, Ok (false, perms, Some e))
  | Panic => (crypt, Panic)
  | OutOfFuel => (crypt, OutOfFuel)
  end.

End WithRand.

(** ** The object graph and the encryption and decryption walkers *)

(** Modelled from the spec: the object-graph primitives (indirect objects,
    streams, strings, arrays, dictionaries, names, integers) are declared
    outside the files at hand.  An object lives at an address of the heap and
    refers to its children by address, so that the same object can be reached
    along several paths; an address with no object stands for a nil value.
    A dictionary keeps its keys in insertion order ([Keys]); [Get] of a
    missing key is nil; [Set] replaces the value of a key or adds the key. *)
Inductive PdfObject : Type :=
| PdfObjectNull
| PdfObjectBool (b : bool)
| PdfObjectInteger (n : Z)
| PdfObjectName (s : string)
| PdfObjectString (s : bytes)
| PdfObjectReference (ObjectNumber GenerationNumber : Z)
| PdfObjectArray (elems : list addr)
| PdfObjectDictionary (entries : list (string * addr))
| PdfIndirectObject (ObjectNumber GenerationNumber : Z) (obj : addr)
| PdfObjectStream (ObjectNumber GenerationNumber : Z) (dict : addr) (Stream : bytes).

Definition dict_Keys (entries : list (string * addr)) : list string := map fst entries.

Fixpoint dict_Get (entries : list (string * addr)) (key : string) : option addr :=
  match entries with
  | [] => None
  | (k, v) :: rest => if String.eqb k key then Some v else dict_Get rest key
  end.

Fixpoint dict_Set (entries : list (string * addr)) (key : string) (v : addr)
  : list (string * addr) :=
  match entries with
  | [] => [(key, v)]
  | (k, v') :: rest =>
      if String.eqb k key then (k, v) :: rest else (k, v') :: dict_Set rest key v
  end.

(** What a walker did to the bytes of an object: the log is not part of the
    program, it records the calls so that they can be counted. *)
Inductive event : Type :=
| EnterIndirect (a : addr)      (* the walker descends into an indirect object *)
| CryptStream (a : addr)        (* the payload of a stream goes through the cipher *)
| CryptString (a : addr).       (* the bytes of a string go through the cipher *)

Global Instance event_eq_dec : EqDecision event.
Proof. solve_decision. Defined.

Record walk_state := WalkState {
  crypt : PdfCrypt.t;
  heap : gmap addr PdfObject;
  log : list event
}.

Inductive direction := Decrypting | Encrypting.

Section Walker.
Variable rand_Read : nat -> bytes.

(** [isDecrypted] / [isEncrypted] *)
Definition isDecrypted (c : PdfCrypt.t) (obj : addr) : bool :=
  bool_decide (obj ∈ PdfCrypt.DecryptedObjects c).
Definition isEncrypted (c : PdfCrypt.t) (obj : addr) : bool :=
  bool_decide (obj ∈ PdfCrypt.EncryptedObjects c).

Definition isProcessed (d : direction) (c : PdfCrypt.t) (obj : addr) : bool :=
  match d with Decrypting => isDecrypted c obj | Encrypting => isEncrypted c obj end.

(** [crypt.DecryptedObjects[obj] = true] / [crypt.EncryptedObjects[obj] = true] *)
Definition mark (d : direction) (st : walk_state) (obj : addr) : walk_state :=
  match d with
  | Decrypting =>
      WalkState (PdfCrypt.set_DecryptedObjects (crypt st)
                   ({[obj]} ∪ PdfCrypt.DecryptedObjects (crypt st)))
                (heap st) (log st)
  | Encrypting =>
      WalkState (PdfCrypt.set_EncryptedObjects (crypt st)
                   ({[obj]} ∪ PdfCrypt.EncryptedObjects (crypt st)))
                (heap st) (log st)
  end.

Definition processed (d : direction) (st : walk_state) : gset addr :=
  match d with
  | Decrypting => PdfCrypt.DecryptedObjects (crypt st)
  | Encrypting => PdfCrypt.EncryptedObjects (crypt st)
  end.

(** [decryptBytes] / [encryptBytes] *)
Definition cryptBytes (d : direction) (c : PdfCrypt.t) (buf : bytes) (filter : string)
  (okey : bytes) : result (bytes * option error) :=
  match d with
  | Decrypting => Ok (decryptBytes c buf filter okey)
  | Encrypting => encryptBytes rand_Read c buf filter okey
  end.

Definition with_heap (st : walk_state) (h : gmap addr PdfObject) : walk_state :=
  WalkState (crypt st) h (log st).
Definition with_event (st : walk_state) (e : event) : walk_state :=
  WalkState (crypt st) (heap st) (log st ++ [e]).

(** The stream filter a stream is processed with when [V >= 4]: a [Crypt]
    entry heading the [Filter] array overrides the document's [StmF].
    [Panic] is the index 0 of an empty [Filter] array. *)
Definition stream_filter_V4 (c : PdfCrypt.t) (h : gmap addr PdfObject)
  (entries : list (string * addr)) : result string :=
  let get (key : string) : option PdfObject := dict_Get entries key ≫= (h !!.) in
  match get "Filter" with
  | Some (PdfObjectArray filters) =>
      match filters with
      | [] => Panic
      | first :: _ =>
          match h !! first with
          | Some (PdfObjectName "Crypt") =>
              match get "DecodeParms" with
              | Some (PdfObjectDictionary decodeParams) =>
                  match dict_Get decodeParams "Name" ≫= (h !!.) with
                  | Some (PdfObjectName filterName) =>
                      match PdfCrypt.CryptFilters c !! filterName with
                      | Some _ => Ok filterName
                      | None => Ok "Identity"
                      end
                  | _ => Ok "Identity"
                  end
              | _ => Ok "Identity"
              end
          | _ => Ok (PdfCrypt.StreamFilter c)
          end
      end
  | _ => Ok (PdfCrypt.StreamFilter c)
  end.

(** [isSig]: the dictionary has [Type] = [Sig]. *)
Definition dict_isSig (h : gmap addr PdfObject) (entries : list (string * addr)) : bool :=
  match dict_Get entries "Type" ≫= (h !!.) with
  | Some (PdfObjectName "Sig") => true
  | _ => false
  end.

Definition uint32 (x : Z) : Z := x mod 2 ^ 32.

(** [Decrypt] and [Encrypt] are the same text up to the set of processed
    objects and the function applied to the bytes; [walk] is that text.
    The recursion of the program is not bounded by the data (a graph may be
    cyclic through arrays and dictionaries): [fuel] bounds its depth. *)
Fixpoint walk (d : direction) (fuel : nat) (st : walk_state) (obj : addr)
  (parentObjNum parentGenNum : Z) : walk_state * result unit :=
  match fuel with
  | O => (st, OutOfFuel)
  | S fuel' =>
      if isProcessed d (crypt st) obj then (st, Ok tt)
      else
        match heap st !! obj with
        | Some (PdfIndirectObject objNum genNum inner) =>
            let st := with_event (mark d st obj) (EnterIndirect obj) in
            walk d fuel' st inner objNum genNum
        | Some (PdfObjectStream objNum genNum dict _) =>
            let st := mark d st obj in
            match heap st !! dict with
            | Some (PdfObjectDictionary entries) =>
                match (if 4 <=? PdfCrypt.V (crypt st)
                       then stream_filter_V4 (crypt st) (heap st) entries
                       else Ok "Default") with
                | Ok streamFilter =>
                    if (4 <=? PdfCrypt.V (crypt st)) && String.eqb streamFilter "Identity"
                    then (st, Ok tt)
                    else
                      match walk d fuel' st dict objNum genNum with
                      | (st, Ok _) =>
                          match makeKey (crypt st) streamFilter (uint32 objNum)
                                  (uint32 genNum) (PdfCrypt.EncryptionKey (crypt st)) with
                          | Ok okey =>
                              match heap st !! obj with
                              | Some (PdfObjectStream on gn dc Stream) =>
                                  let st := with_event st (CryptStream obj) in
                                  match cryptBytes d (crypt st) Stream streamFilter okey with
                                  | Ok (Stream', err) =>
                                      let st := with_heap st
                                        (<[obj := PdfObjectStream on gn dc Stream']> (heap st)) in
                                      match err with
                                      | Some e => (st, Err e)
                                      | None =>
                                          match heap st !! dict with
                                          | Some (PdfObjectDictionary entries) =>
                                              let n := fresh (dom (heap st)) in
                                              (with_heap st
                                                 (<[dict := PdfObjectDictionary
                                                              (dict_Set entries "Length" n)]>
                                                    (<[n := PdfObjectInteger (len Stream')]>
                                                       (heap st))),
                                               Ok tt)
                                          | _ => (st, Panic)
                                          end
                                      end
                                  | Err e => (st, Err e)
                                  | Panic => (st, Panic)
                                  | OutOfFuel => (st, OutOfFuel)
                                  end
                              | _ => (st, Panic)
                              end
                          | Err e => (st, Err e)
                          | Panic => (st, Panic)
                          | OutOfFuel => (st, OutOfFuel)
                          end
                      | r => r
                      end
                | Err e => (st, Err e)
                | Panic => (st, Panic)
                | OutOfFuel => (st, OutOfFuel)
                end
            | _ => (st, Panic)
            end
        | Some (PdfObjectString s) =>
            if (4 <=? PdfCrypt.V (crypt st))
               && String.eqb (PdfCrypt.StringFilter (crypt st)) "Identity"
            then (st, Ok tt)
            else
              let stringFilter :=
                if 4 <=? PdfCrypt.V (crypt st) then PdfCrypt.StringFilter (crypt st)
                else "Default" in
              match makeKey (crypt st) stringFilter (uint32 parentObjNum)
                      (uint32 parentGenNum) (PdfCrypt.EncryptionKey (crypt st)) with
              | Ok key =>
                  let st := with_event st (CryptString obj) in
                  match cryptBytes d (crypt st) s stringFilter key with
                  | Ok (s', None) =>
                      (with_heap st (<[obj := PdfObjectString s']> (heap st)), Ok tt)
                  | Ok (_, Some e) => (st, Err e)
                  | Err e => (st, Err e)
                  | Panic => (st, Panic)
                  | OutOfFuel => (st, OutOfFuel)
                  end
              | Err e => (st, Err e)
              | Panic => (st, Panic)
              | OutOfFuel => (st, OutOfFuel)
              end
        | Some (PdfObjectArray elems) =>
            (fix each (l : list addr) (st : walk_state) : walk_state * result unit :=
               match l with
               | [] => (st, Ok tt)
               | o :: rest =>
                   match walk d fuel' st o parentObjNum parentGenNum with
                   | (st, Ok _) => each rest st
                   | r => r
                   end
               end) elems st
        | Some (PdfObjectDictionary entries) =>
            let isSig := dict_isSig (heap st) entries in
            (fix each (keys : list string) (st : walk_state) : walk_state * result unit :=
               match keys with
               | [] => (st, Ok tt)
               | keyidx :: rest =>
                   let o :=
                     match heap st !! obj with
                     | Some (PdfObjectDictionary entries) => dict_Get entries keyidx
                     | _ => None
                     end in
                   if isSig && String.eqb keyidx "Contents" then each rest st
                   else if negb (String.eqb keyidx "Parent")
                           && negb (String.eqb keyidx "Prev")
                           && negb (String.eqb keyidx "Last")
                   then
                     match o with
                     | Some o =>
                         match walk d fuel' st o parentObjNum parentGenNum with
                         | (st, Ok _) => each rest st
                         | r => r
                         end
                     | None => each rest st
                     end
                   else each rest st
               end) (dict_Keys entries) st
        | _ => (st, Ok tt)
        end
  end.

Definition Decrypt := walk Decrypting.
Definition Encrypt := walk Encrypting.

End Walker.

(** ** Multi encoder *)

(** The [StreamEncoder] interface, as far as the codecs on byte slices go
    ([MakeDecodeParams], [MakeStreamDict] and [DecodeStream] work on objects
    of the document). *)
Module StreamEncoder.
Record t := Build {
  GetFilterName : string;
  EncodeBytes : bytes -> result bytes;
  DecodeBytes : bytes -> result bytes
}.
End StreamEncoder.

(** The codecs without parameters as stream encoders. *)
Definition RawEncoder_encoder : StreamEncoder.t :=
  StreamEncoder.Build "Raw" RawEncoder.EncodeBytes RawEncoder.DecodeBytes.
Definition RunLengthEncoder_encoder : StreamEncoder.t :=
  StreamEncoder.Build "RunLengthDecode" RunLengthEncoder.EncodeBytes
    RunLengthEncoder.DecodeBytes.
Definition ASCIIHexEncoder_encoder : StreamEncoder.t :=
  StreamEncoder.Build "ASCIIHexDecode" ASCIIHexEncoder.EncodeBytes
    ASCIIHexEncoder.DecodeBytes.
Definition ASCII85Encoder_encoder : StreamEncoder.t :=
  StreamEncoder.Build "ASCII85Decode" ASCII85Encoder.EncodeBytes
    ASCII85Encoder.DecodeBytes.

Module MultiEncoder.

(** Encoders in the order that they are to be applied (when decoding). *)
Record t := Build { encoders : list StreamEncoder.t }.

Definition NewMultiEncoder : t := Build [].

Definition AddEncoder (enc : t) (encoder : StreamEncoder.t) : t :=
  Build (encoders enc ++ [encoder]).

(** The names of the encoders, separated by one space. *)
Fixpoint join_names (l : list StreamEncoder.t) : string :=
  match l with
  | [] => ""
  | [e] => StreamEncoder.GetFilterName e
  | e :: rest => StreamEncoder.GetFilterName e ++ " " ++ join_names rest
  end.

Definition GetFilterName (enc : t) : string := join_names (encoders enc).

(** The decoders are applied in forward order; the first error ends the
    loop. *)
Definition DecodeBytes (enc : t) (encoded : bytes) : result bytes :=
  fold_left (fun (decoded : result bytes) encoder =>
               d <- decoded;; StreamEncoder.DecodeBytes encoder d)
            (encoders enc) (Ok encoded).

(** The encoders are applied in inverse order. *)
Definition EncodeBytes (enc : t) (data : bytes) : result bytes :=
  fold_left (fun (encoded : result bytes) encoder =>
               e <- encoded;; StreamEncoder.EncodeBytes encoder e)
            (rev (encoders enc)) (Ok data).

End MultiEncoder.

(** ** Making the handler from the encryption dictionary *)

(** [PdfCryptMakeNew] and [LoadCryptFilters] fill the handler field by field
    and return at the first error with what they have filled so far; the
    document is read through the heap, of which [LoadCryptFilters] rewrites
    one kind of object (a crypt filter length given in bits).  Both run in
    the state [(heap, handler)]. *)
Module Make.

Definition state : Type := gmap addr PdfObject * PdfCrypt.t.
Definition M (A : Type) : Type := state -> state * result A.

Definition ret {A} (a : A) : M A := fun s => (s, Ok a).
Definition fail {A} (e : error) : M A := fun s => (s, Err e).
Definition get : M state := fun s => (s, Ok s).
Definition set_crypt (f : PdfCrypt.t -> PdfCrypt.t) : M unit :=
  fun s => ((fst s, f (snd s)), Ok tt).
Definition set_heap (f : gmap addr PdfObject -> gmap addr PdfObject) : M unit :=
  fun s => ((f (fst s), snd s), Ok tt).
Definition bind {A B} (m : M A) (k : A -> M B) : M B :=
  fun s =>
    match m s with
    | (s', Ok a) => k a s'
    | (s', Err e) => (s', Err e)
    | (s', Panic) => (s', Panic)
    | (s', OutOfFuel) => (s', OutOfFuel)
    end.

(** [for _, x := range l { ... }] with a body that may return an error. *)
Fixpoint for_each {A} (l : list A) (body : A -> M unit) : M unit :=
  match l with
  | [] => ret tt
  | x :: rest => bind (body x) (fun _ => for_each rest body)
  end.

End Make.

Notation "x <~ m ;; k" := (Make.bind m (fun x => k))
  (at level 100, m at next level, right associativity).
Notation "m ;;; k" := (Make.bind m (fun _ => k))
  (at level 100, right associativity).

(** The zero value [PdfCrypt{}] with the two maps made. *)
Definition PdfCrypt_zero : PdfCrypt.t :=
  PdfCrypt.Build 0 0 0 [] [] [] [] 0 [] false [] [] ∅ ∅ false ∅ "" "".

(** Assignments to the fields of the handler. *)
Definition with_V (v : Z) (c : PdfCrypt.t) : PdfCrypt.t :=
  PdfCrypt.Build v (PdfCrypt.Length c) (PdfCrypt.R c) (PdfCrypt.O c) (PdfCrypt.U c)
    (PdfCrypt.OE c) (PdfCrypt.UE c) (PdfCrypt.P c) (PdfCrypt.Perms c)
    (PdfCrypt.EncryptMetadata c) (PdfCrypt.Id0 c) (PdfCrypt.EncryptionKey c)
    (PdfCrypt.DecryptedObjects c) (PdfCrypt.EncryptedObjects c) (PdfCrypt.Authenticated c)
    (PdfCrypt.CryptFilters c) (PdfCrypt.StreamFilter c) (PdfCrypt.StringFilter c).
Definition with_Length (v : Z) (c : PdfCrypt.t) : PdfCrypt.t :=
  PdfCrypt.Build (PdfCrypt.V c) v (PdfCrypt.R c) (PdfCrypt.O c) (PdfCrypt.U c)
    (PdfCrypt.OE c) (PdfCrypt.UE c) (PdfCrypt.P c) (PdfCrypt.Perms c)
    (PdfCrypt.EncryptMetadata c) (PdfCrypt.Id0 c) (PdfCrypt.EncryptionKey c)
    (PdfCrypt.DecryptedObjects c) (PdfCrypt.EncryptedObjects c) (PdfCrypt.Authenticated c)
    (PdfCrypt.CryptFilters c) (PdfCrypt.StreamFilter c) (PdfCrypt.StringFilter c).
Definition with_R (v : Z) (c : PdfCrypt.t) : PdfCrypt.t :=
  PdfCrypt.Build (PdfCrypt.V c) (PdfCrypt.Length c) v (PdfCrypt.O c) (PdfCrypt.U c)
    (PdfCrypt.OE c) (PdfCrypt.UE c) (PdfCrypt.P c) (PdfCrypt.Perms c)
    (PdfCrypt.EncryptMetadata c) (PdfCrypt.Id0 c) (PdfCrypt.EncryptionKey c)
    (PdfCrypt.DecryptedObjects c) (PdfCrypt.EncryptedObjects c) (PdfCrypt.Authenticated c)
    (PdfCrypt.CryptFilters c) (PdfCrypt.StreamFilter c) (PdfCrypt.StringFilter c).
Definition with_O (v : bytes) (c : PdfCrypt.t) : PdfCrypt.t :=
  PdfCrypt.Build (PdfCrypt.V c) (PdfCrypt.Length c) (PdfCrypt.R c) v (PdfCrypt.U c)
    (PdfCrypt.OE c) (PdfCrypt.UE c) (PdfCrypt.P c) (PdfCrypt.Perms c)
    (PdfCrypt.EncryptMetadata c) (PdfCrypt.Id0 c) (PdfCrypt.EncryptionKey c)
    (PdfCrypt.DecryptedObjects c) (PdfCrypt.EncryptedObjects c) (PdfCrypt.Authenticated c)
    (PdfCrypt.CryptFilters c) (PdfCrypt.StreamFilter c) (PdfCrypt.StringFilter c).
Definition with_U (v : bytes) (c : PdfCrypt.t) : PdfCrypt.t :=
  PdfCrypt.Build (PdfCrypt.V c) (PdfCrypt.Length c) (PdfCrypt.R c) (PdfCrypt.O c) v
    (PdfCrypt.OE c) (PdfCrypt.UE c) (PdfCrypt.P c) (PdfCrypt.Perms c)
    (PdfCrypt.EncryptMetadata c) (PdfCrypt.Id0 c) (PdfCrypt.EncryptionKey c)
    (PdfCrypt.DecryptedObjects c) (PdfCrypt.EncryptedObjects c) (PdfCrypt.Authenticated c)
    (PdfCrypt.CryptFilters c) (PdfCrypt.StreamFilter c) (PdfCrypt.StringFilter c).
Definition with_OE (v : bytes) (c : PdfCrypt.t) : PdfCrypt.t :=
  PdfCrypt.Build (PdfCrypt.V c) (PdfCrypt.Length c) (PdfCrypt.R c) (PdfCrypt.O c)
    (PdfCrypt.U c) v (PdfCrypt.UE c) (PdfCrypt.P c) (PdfCrypt.Perms c)
    (PdfCrypt.EncryptMetadata c) (PdfCrypt.Id0 c) (PdfCrypt.EncryptionKey c)
    (PdfCrypt.DecryptedObjects c) (PdfCrypt.EncryptedObjects c) (PdfCrypt.Authenticated c)
    (PdfCrypt.CryptFilters c) (PdfCrypt.StreamFilter c) (PdfCrypt.StringFilter c).
Definition with_UE (v : bytes) (c : PdfCrypt.t) : PdfCrypt.t :=
  PdfCrypt.Build (PdfCrypt.V c) (PdfCrypt.Length c) (PdfCrypt.R c) (PdfCrypt.O c)
    (PdfCrypt.U c) (PdfCrypt.OE c) v (PdfCrypt.P c) (PdfCrypt.Perms c)
    (PdfCrypt.EncryptMetadata c) (PdfCrypt.Id0 c) (PdfCrypt.EncryptionKey c)
    (PdfCrypt.DecryptedObjects c) (PdfCrypt.EncryptedObjects c) (PdfCrypt.Authenticated c)
    (PdfCrypt.CryptFilters c) (PdfCrypt.StreamFilter c) (PdfCrypt.StringFilter c).
Definition with_P (v : Z) (c : PdfCrypt.t) : PdfCrypt.t :=
  PdfCrypt.Build (PdfCrypt.V c) (PdfCrypt.Length c) (PdfCrypt.R c) (PdfCrypt.O c)
    (PdfCrypt.U c) (PdfCrypt.OE c) (PdfCrypt.UE c) v (PdfCrypt.Perms c)
    (PdfCrypt.EncryptMetadata c) (PdfCrypt.Id0 c) (PdfCrypt.EncryptionKey c)
    (PdfCrypt.DecryptedObjects c) (PdfCrypt.EncryptedObjects c) (PdfCrypt.Authenticated c)
    (PdfCrypt.CryptFilters c) (PdfCrypt.StreamFilter c) (PdfCrypt.StringFilter c).
Definition with_EncryptMetadata (v : bool) (c : PdfCrypt.t) : PdfCrypt.t :=
  PdfCrypt.Build (PdfCrypt.V c) (PdfCrypt.Length c) (PdfCrypt.R c) (PdfCrypt.O c)
    (PdfCrypt.U c) (PdfCrypt.OE c) (PdfCrypt.UE c) (PdfCrypt.P c) (PdfCrypt.Perms c)
    v (PdfCrypt.Id0 c) (PdfCrypt.EncryptionKey c)
    (PdfCrypt.DecryptedObjects c) (PdfCrypt.EncryptedObjects c) (PdfCrypt.Authenticated c)
    (PdfCrypt.CryptFilters c) (PdfCrypt.StreamFilter c) (PdfCrypt.StringFilter c).
Definition with_Id0 (v : bytes) (c : PdfCrypt.t) : PdfCrypt.t :=
  PdfCrypt.Build (PdfCrypt.V c) (PdfCrypt.Length c) (PdfCrypt.R c) (PdfCrypt.O c)
    (PdfCrypt.U c) (PdfCrypt.OE c) (PdfCrypt.UE c) (PdfCrypt.P c) (PdfCrypt.Perms c)
    (PdfCrypt.EncryptMetadata c) v (PdfCrypt.EncryptionKey c)
    (PdfCrypt.DecryptedObjects c) (PdfCrypt.EncryptedObjects c) (PdfCrypt.Authenticated c)
    (PdfCrypt.CryptFilters c) (PdfCrypt.StreamFilter c) (PdfCrypt.StringFilter c).
Definition with_CryptFilters (v : gmap string CryptFilter.t) (c : PdfCrypt.t) : PdfCrypt.t :=
  PdfCrypt.Build (PdfCrypt.V c) (PdfCrypt.Length c) (PdfCrypt.R c) (PdfCrypt.O c)
    (PdfCrypt.U c) (PdfCrypt.OE c) (PdfCrypt.UE c) (PdfCrypt.P c) (PdfCrypt.Perms c)
    (PdfCrypt.EncryptMetadata c) (PdfCrypt.Id0 c) (PdfCrypt.EncryptionKey c)
    (PdfCrypt.DecryptedObjects c) (PdfCrypt.EncryptedObjects c) (PdfCrypt.Authenticated c)
    v (PdfCrypt.StreamFilter c) (PdfCrypt.StringFilter c).
Definition with_StreamFilter (v : string) (c : PdfCrypt.t) : PdfCrypt.t :=
  PdfCrypt.Build (PdfCrypt.V c) (PdfCrypt.Length c) (PdfCrypt.R c) (PdfCrypt.O c)
    (PdfCrypt.U c) (PdfCrypt.OE c) (PdfCrypt.UE c) (PdfCrypt.P c) (PdfCrypt.Perms c)
    (PdfCrypt.EncryptMetadata c) (PdfCrypt.Id0 c) (PdfCrypt.EncryptionKey c)
    (PdfCrypt.DecryptedObjects c) (PdfCrypt.EncryptedObjects c) (PdfCrypt.Authenticated c)
    (PdfCrypt.CryptFilters c) v (PdfCrypt.StringFilter c).
Definition with_StringFilter (v : string) (c : PdfCrypt.t) : PdfCrypt.t :=
  PdfCrypt.Build (PdfCrypt.V c) (PdfCrypt.Length c) (PdfCrypt.R c) (PdfCrypt.O c)
    (PdfCrypt.U c) (PdfCrypt.OE c) (PdfCrypt.UE c) (PdfCrypt.P c) (PdfCrypt.Perms c)
    (PdfCrypt.EncryptMetadata c) (PdfCrypt.Id0 c) (PdfCrypt.EncryptionKey c)
    (PdfCrypt.DecryptedObjects c) (PdfCrypt.EncryptedObjects c) (PdfCrypt.Authenticated c)
    (PdfCrypt.CryptFilters c) (PdfCrypt.StreamFilter c) v.

(** [d.Get(key)] as an object: nil ([None]) when the key is missing. *)
Definition dict_value (h : gmap addr PdfObject) (entries : list (string * addr))
  (key : string) : option PdfObject :=
  dict_Get entries key ≫= (h !!.).

Section MakeNew.
(** Two functions of the package that are outside the files at hand are left
    abstract: [TraceToDirectObject], which follows an object to the direct
    object it stands for, and the parser's [LookupByReference], which returns
    the object of a reference or an error. *)
Variable TraceToDirectObject : gmap addr PdfObject -> option addr -> option addr.
Variable LookupByReference : gmap addr PdfObject -> Z -> Z -> option addr * option error.

(** The test for a reference that both loops make: a reference is looked up
    and the object found is traced. *)
Definition resolve (v : option addr) : Make.M (option addr) :=
  s <~ Make.get;;
  match v ≫= (fst s !!.) with
  | Some (PdfObjectReference on gn) =>
      match LookupByReference (fst s) on gn with
      | (o, None) => Make.ret (TraceToDirectObject (fst s) o)
      | (_, Some err) => Make.fail err
      end
  | _ => Make.ret v
  end.

(** [crypt.CryptFilters[name] = cf] *)
Definition set_filter (name : string) (cf : CryptFilter.t) : Make.M unit :=
  Make.set_crypt (fun c => with_CryptFilters (<[name := cf]> (PdfCrypt.CryptFilters c)) c).

(** One iteration of the loop over the keys of the CF dictionary. *)
Definition load_filter (cf : list (string * addr)) (name : string) : Make.M unit :=
  v <~ resolve (dict_Get cf name);;
  s <~ Make.get;;
  match v ≫= (fst s !!.) with
  | Some (PdfObjectDictionary dict) =>
      if String.eqb name "Identity" then Make.ret tt
      else
        (match dict_value (fst s) dict "Type" with
         | Some (PdfObjectName typename) =>
             if negb (String.eqb typename "CryptFilter")
             then Make.fail (Errorf "CF dict type != CryptFilter (%s)")
             else Make.ret tt
         | _ => Make.ret tt
         end);;;
        match dict_value (fst s) dict "CFM" with
        | Some (PdfObjectName cfm) =>
            if String.eqb cfm CryptFilterV2 || String.eqb cfm CryptFilterAESV2
               || String.eqb cfm CryptFilterAESV3
            then
              match dict_Get dict "Length", dict_value (fst s) dict "Length" with
              | Some a, Some (PdfObjectInteger length) =>
                  if negb (Z.rem length 8 =? 0)
                  then Make.fail (Errorf "Crypt filter length not multiple of 8 (%d)")
                  else if (length <? 5) || (16 <? length) then
                    if (length =? 64) || (length =? 128) then
                      (* [*length /= 8] writes the integer object of the document *)
                      Make.set_heap (<[a := PdfObjectInteger (Z.quot length 8)]>);;;
                      set_filter name (CryptFilter.Build cfm (Z.quot length 8))
                    else if negb ((length =? 32) && String.eqb cfm CryptFilterAESV3)
                    then Make.fail
                           (Errorf "Crypt filter length not in range 40 - 128 bit (%d)")
                    else set_filter name (CryptFilter.Build cfm length)
                  else set_filter name (CryptFilter.Build cfm length)
              | _, _ => set_filter name (CryptFilter.Build cfm 0)
              end
            else Make.fail (Errorf "Unsupported crypt filter (%s)")
        | _ => Make.fail (Errorf "Unsupported crypt filter (None)")
        end
  | _ => Make.fail (Errorf "Invalid dict in CF (name %s) - not a dictionary but %T")
  end.

(** The filter a name entry ([StrF], [StmF]) of the encryption dictionary
    selects: it has to be in the map. *)
Definition select_filter (ed : list (string * addr)) (key : string) (msg : string)
  (assign : string -> PdfCrypt.t -> PdfCrypt.t) : Make.M unit :=
  Make.set_crypt (assign "Identity");;;
  s <~ Make.get;;
  match dict_value (fst s) ed key with
  | Some (PdfObjectName f) =>
      match PdfCrypt.CryptFilters (snd s) !! f with
      | Some _ => Make.set_crypt (assign f)
      | None => Make.fail (Errorf msg)
      end
  | _ => Make.ret tt
  end.

Definition LoadCryptFilters (ed : list (string * addr)) : Make.M unit :=
  Make.set_crypt (with_CryptFilters ∅);;;
  s <~ Make.get;;
  obj <~ resolve (TraceToDirectObject (fst s) (dict_Get ed "CF"));;
  s <~ Make.get;;
  match obj ≫= (fst s !!.) with
  | Some (PdfObjectDictionary cf) =>
      Make.for_each (dict_Keys cf) (load_filter cf);;;
      (* Cannot be overwritten. *)
      set_filter "Identity" (CryptFilter.Build "" 0);;;
      select_filter ed "StrF"
        "Crypt filter for StrF not specified in CF dictionary (%s)" with_StringFilter;;;
      select_filter ed "StmF"
        "Crypt filter for StmF not specified in CF dictionary (%s)" with_StreamFilter
  | _ => Make.fail (Errorf "Invalid CF")
  end.

(** [PdfCryptMakeNew(parser, ed, trailer)], run from the zero handler; the
    fields [Filter] and [Subfilter], which nothing reads, are not kept. *)
Definition PdfCryptMakeNew_body (ed trailer : list (string * addr)) : Make.M unit :=
  s <~ Make.get;;
  match dict_value (fst s) ed "Filter" with
  | Some (PdfObjectName filter) =>
      if negb (String.eqb filter "Standard")
      then Make.fail (Errorf "Unsupported Filter")
      else
        (match dict_value (fst s) ed "Length" with
         | Some (PdfObjectInteger l) =>
             if negb (Z.rem l 8 =? 0)
             then Make.fail (Errorf "Invalid encryption length")
             else Make.set_crypt (with_Length l)
         | _ => Make.set_crypt (with_Length 40)
         end);;;
        (match dict_value (fst s) ed "V" with
         | Some (PdfObjectInteger v) =>
             if (1 <=? v) && (v <=? 2) then
               Make.set_crypt (with_V v);;;
               (* Default algorithm is V2. *)
               Make.set_crypt
                 (fun c => with_CryptFilters
                             {[ "Default" := CryptFilter.Build "V2" (PdfCrypt.Length c) ]} c)
             else if (4 <=? v) && (v <=? 5) then
               Make.set_crypt (with_V v);;;
               LoadCryptFilters ed
             else Make.fail (Errorf "Unsupported algorithm")
         | _ => Make.set_crypt (with_V 0)
         end);;;
        s <~ Make.get;;
        match dict_value (fst s) ed "R" with
        | Some (PdfObjectInteger r) =>
            if (r <? 2) || (6 <? r) then Make.fail (Errorf "Invalid R (%d)")
            else
              Make.set_crypt (with_R r);;;
              match dict_value (fst s) ed "O" with
              | Some (PdfObjectString o) =>
                  (if (r =? 5) || (r =? 6) then
                     if len o <? 48 then Make.fail (Errorf "Length(O) < 48 (%d)")
                     else Make.ret tt
                   else if negb (len o =? 32)
                        then Make.fail (Errorf "Length(O) != 32 (%d)")
                        else Make.ret tt);;;
                  Make.set_crypt (with_O o);;;
                  match dict_value (fst s) ed "U" with
                  | Some (PdfObjectString u) =>
                      (if (r =? 5) || (r =? 6) then
                         if len u <? 48 then Make.fail (Errorf "Length(U) < 48 (%d)")
                         else Make.ret tt
                       else Make.ret tt);;;
                      Make.set_crypt (with_U u);;;
                      (if 5 <=? r then
                         match dict_value (fst s) ed "OE" with
                         | Some (PdfObjectString oe) =>
                             if negb (len oe =? 32)
                             then Make.fail (Errorf "Length(OE) != 32 (%d)")
                             else
                               Make.set_crypt (with_OE oe);;;
                               match dict_value (fst s) ed "UE" with
                               | Some (PdfObjectString ue) =>
                                   if negb (len ue =? 32)
                                   then Make.fail (Errorf "Length(UE) != 32 (%d)")
                                   else Make.set_crypt (with_UE ue)
                               | _ => Make.fail (Errorf "Encrypt dictionary missing UE")
                               end
                         | _ => Make.fail (Errorf "Encrypt dictionary missing OE")
                         end
                       else Make.ret tt);;;
                      match dict_value (fst s) ed "P" with
                      | Some (PdfObjectInteger p) =>
                          Make.set_crypt (with_P p);;;
                          (if r =? 6 then
                             match dict_value (fst s) ed "Perms" with
                             | Some (PdfObjectString perms) =>
                                 if negb (len perms =? 16)
                                 then Make.fail (Errorf "Length(Perms) != 16 (%d)")
                                 else Make.set_crypt (fun c => PdfCrypt.set_Perms c perms)
                             | _ => Make.fail (Errorf "Encrypt dictionary missing Perms")
                             end
                           else Make.ret tt);;;
                          Make.set_crypt
                            (with_EncryptMetadata
                               (match dict_value (fst s) ed "EncryptMetadata" with
                                | Some (PdfObjectBool em) => em
                                | _ => true
                                end));;;
                          match dict_value (fst s) trailer "ID" with
                          | Some (PdfObjectArray (first :: _)) =>
                              match fst s !! first with
                              | Some (PdfObjectString id0) => Make.set_crypt (with_Id0 id0)
                              | _ => Make.fail (Errorf "Invalid trailer ID")
                              end
                          | _ => Make.set_crypt (with_Id0 [])
                          end
                      | _ => Make.fail (Errorf "Encrypt dictionary missing permissions attr")
                      end
                  | _ => Make.fail (Errorf "Encrypt dictionary missing U")
                  end
              | _ => Make.fail (Errorf "Encrypt dictionary missing O")
              end
        | _ => Make.fail (Errorf "Encrypt dictionary missing R")
        end
  | _ => Make.fail (Errorf "Required crypt field Filter missing")
  end.

(** The handler and the error [PdfCryptMakeNew] returns, with the heap it
    leaves. *)
Definition PdfCryptMakeNew (h : gmap addr PdfObject) (ed trailer : list (string * addr))
  : gmap addr PdfObject * PdfCrypt.t * result unit :=
  PdfCryptMakeNew_body ed trailer (h, PdfCrypt_zero).

End MakeNew.

(** ** The stream dictionaries the encoders write and read *)

(** Modelled from the spec: [MakeDict], [MakeInteger] and [MakeName] of the
    object-graph primitives return a new object, here an object at an
    address the heap does not use yet; [d.Set(key, v)] changes the
    dictionary [d] in place. *)
Definition alloc (h : gmap addr PdfObject) (o : PdfObject) : gmap addr PdfObject * addr :=
  (<[fresh (dom h) := o]> h, fresh (dom h)).
Definition MakeDict (h : gmap addr PdfObject) : gmap addr PdfObject * addr :=
  alloc h (PdfObjectDictionary []).
Definition MakeInteger (h : gmap addr PdfObject) (val : Z) : gmap addr PdfObject * addr :=
  alloc h (PdfObjectInteger val).
Definition MakeName (h : gmap addr PdfObject) (s : string) : gmap addr PdfObject * addr :=
  alloc h (PdfObjectName s).
Definition heap_dict_Set (h : gmap addr PdfObject) (d : addr) (key : string) (v : addr)
  : gmap addr PdfObject :=
  match h !! d with
  | Some (PdfObjectDictionary entries) =>
      <[d := PdfObjectDictionary (dict_Set entries key v)]> h
  | _ => h
  end.

(** [d.Set(key, MakeInteger(int64(val)))] *)
Definition set_integer (h : gmap addr PdfObject) (d : addr) (key : string) (val : Z)
  : gmap addr PdfObject :=
  let (h, i) := MakeInteger h val in heap_dict_Set h d key i.

(** A pointer to a dictionary is the address of a dictionary of the heap;
    any other value is the nil pointer. *)
Definition pointee_dict (h : gmap addr PdfObject) (d : option addr)
  : option (list (string * addr)) :=
  match d ≫= (h !!.) with
  | Some (PdfObjectDictionary entries) => Some entries
  | _ => None
  end.

(** [FlateEncoder.MakeDecodeParams]: the heap it leaves and the dictionary
    it returns, or nil. *)
Definition flate_MakeDecodeParams (enc : FlateEncoder.t) (h : gmap addr PdfObject)
  : gmap addr PdfObject * option addr :=
  if 1 <? FlateEncoder.Predictor enc then
    let (h, decodeParams) := MakeDict h in
    let h := set_integer h decodeParams "Predictor" (FlateEncoder.Predictor enc) in
    (* Only add if not default option. *)
    let h := if negb (FlateEncoder.BitsPerComponent enc =? 8)
             then set_integer h decodeParams "BitsPerComponent"
                    (FlateEncoder.BitsPerComponent enc)
             else h in
    let h := if negb (FlateEncoder.Columns enc =? 1)
             then set_integer h decodeParams "Columns" (FlateEncoder.Columns enc)
             else h in
    let h := if negb (FlateEncoder.Colors enc =? 1)
             then set_integer h decodeParams "Colors" (FlateEncoder.Colors enc)
             else h in
    (h, Some decodeParams)
  else (h, None).

(** [FlateEncoder.MakeStreamDict] *)
Definition flate_MakeStreamDict (enc : FlateEncoder.t) (h : gmap addr PdfObject)
  : gmap addr PdfObject * addr :=
  let (h, dict) := MakeDict h in
  let (h, name) := MakeName h "FlateDecode" in
  let h := heap_dict_Set h dict "Filter" name in
  let (h, decodeParams) := flate_MakeDecodeParams enc h in
  let h := match decodeParams with
           | Some dp => heap_dict_Set h dict "DecodeParms" dp
           | None => h
           end in
  (h, dict).

(** [LZWEncoder.MakeDecodeParams] *)
Definition lzw_MakeDecodeParams (enc : LZWEncoder.t) (h : gmap addr PdfObject)
  : gmap addr PdfObject * option addr :=
  if 1 <? LZWEncoder.Predictor enc then
    let (h, decodeParams) := MakeDict h in
    let h := set_integer h decodeParams "Predictor" (LZWEncoder.Predictor enc) in
    (* Only add if not default option. *)
    let h := if negb (LZWEncoder.BitsPerComponent enc =? 8)
             then set_integer h decodeParams "BitsPerComponent"
                    (LZWEncoder.BitsPerComponent enc)
             else h in
    let h := if negb (LZWEncoder.Columns enc =? 1)
             then set_integer h decodeParams "Columns" (LZWEncoder.Columns enc)
             else h in
    let h := if negb (LZWEncoder.Colors enc =? 1)
             then set_integer h decodeParams "Colors" (LZWEncoder.Colors enc)
             else h in
    (h, Some decodeParams)
  else (h, None).

(** [LZWEncoder.MakeStreamDict] *)
Definition lzw_MakeStreamDict (enc : LZWEncoder.t) (h : gmap addr PdfObject)
  : gmap addr PdfObject * addr :=
  let (h, dict) := MakeDict h in
  let (h, name) := MakeName h "LZWDecode" in
  let h := heap_dict_Set h dict "Filter" name in
  let (h, decodeParams) := lzw_MakeDecodeParams enc h in
  let h := match decodeParams with
           | Some dp => heap_dict_Set h dict "DecodeParms" dp
           | None => h
           end in
  let h := set_integer h dict "EarlyChange" (LZWEncoder.EarlyChange enc) in
  (h, dict).

(** An integer entry of a dictionary: absent (the default stays), an integer,
    or an error. *)
Definition integer_entry (h : gmap addr PdfObject) (entries : list (string * addr))
  (key : string) (default : Z) (msg : string) : result Z :=
  match dict_value h entries key with
  | None => Ok default
  | Some (PdfObjectInteger n) => Ok n
  | Some _ => Err (Errorf msg)
  end.

Section FromStream.
(** Two functions of the package that are outside the files at hand are left
    abstract: [TraceToDirectObject] and [GetDict], which returns a dictionary
    and whether it found one. *)
Variable TraceToDirectObject : gmap addr PdfObject -> option addr -> option addr.
Variable GetDict : gmap addr PdfObject -> option addr -> option addr * bool.

(** [newFlateEncoderFromStream(streamObj, decodeParams)]; the stream object
    is given by its dictionary [encDict], the one field read. *)
Definition newFlateEncoderFromStream (h : gmap addr PdfObject)
  (encDict decodeParams : option addr) : result FlateEncoder.t :=
  let encoder := FlateEncoder.NewFlateEncoder in
  match pointee_dict h encDict with
  | None => Ok encoder
  | Some encEntries =>
      (* If decodeParams not provided, see if we can get from the stream. *)
      decodeParams <-
        match pointee_dict h decodeParams with
        | Some dp => Ok (Some dp)
        | None =>
            let obj := TraceToDirectObject h (dict_Get encEntries "DecodeParms") in
            match obj ≫= (h !!.) with
            | None => Ok None
            | Some o =>
                obj <- match o with
                       | PdfObjectArray arr =>
                           match arr with
                           | [x] => Ok (TraceToDirectObject h (Some x))
                           | _ => Err (Errorf "Range check error")
                           end
                       | _ => Ok obj
                       end;;
                match pointee_dict h obj with
                | Some dp => Ok (Some dp)
                | None => Err (Errorf "Invalid DecodeParms")
                end
            end
        end;;
      match decodeParams with
      | None => Ok encoder
      | Some dp =>
          predictor <- integer_entry h dp "Predictor" (FlateEncoder.Predictor encoder)
                         "Invalid Predictor";;
          bpc <- integer_entry h dp "BitsPerComponent" (FlateEncoder.BitsPerComponent encoder)
                   "Invalid BitsPerComponent";;
          if 1 <? predictor then
            columns <- integer_entry h dp "Columns" 1 "Predictor column invalid";;
            colors <- integer_entry h dp "Colors" 1 "Predictor colors not an integer";;
            Ok (FlateEncoder.Build predictor bpc columns colors)
          else
            Ok (FlateEncoder.Build predictor bpc (FlateEncoder.Columns encoder)
                  (FlateEncoder.Colors encoder))
      end
  end.

(** [newLZWEncoderFromStream(streamObj, decodeParams)] *)
Definition newLZWEncoderFromStream (h : gmap addr PdfObject)
  (encDict decodeParams : option addr) : result LZWEncoder.t :=
  let encoder := LZWEncoder.NewLZWEncoder in
  match pointee_dict h encDict with
  | None => Ok encoder
  | Some encEntries =>
      (* If decodeParams not provided, see if we can get from the stream. *)
      decodeParams <-
        match pointee_dict h decodeParams with
        | Some dp => Ok (Some dp)
        | None =>
            match dict_value h encEntries "DecodeParms" with
            | Some obj =>
                let found :=
                  match obj with
                  | PdfObjectDictionary dp => Some dp
                  | PdfObjectArray [x] =>
                      let (dp, isDict) := GetDict h (Some x) in
                      if isDict then pointee_dict h dp else None
                  | _ => None
                  end in
                match found with
                | Some dp => Ok (Some dp)
                | None => Err (Errorf "Invalid DecodeParms")
                end
            | None => Ok None
            end
        end;;
      (* The default is 1 (one code early) *)
      earlyChange <-
        match dict_value h encEntries "EarlyChange" with
        | None => Ok 1
        | Some (PdfObjectInteger earlyChange) =>
            if negb (earlyChange =? 0) && negb (earlyChange =? 1)
            then Err (Errorf "Invalid EarlyChange value (not 0 or 1)")
            else Ok earlyChange
        | Some _ => Err (Errorf "Invalid EarlyChange")
        end;;
      match decodeParams with
      | None =>
          Ok (LZWEncoder.Build (LZWEncoder.Predictor encoder)
                (LZWEncoder.BitsPerComponent encoder) (LZWEncoder.Columns encoder)
                (LZWEncoder.Colors encoder) earlyChange)
      | Some dp =>
          predictor <- integer_entry h dp "Predictor" (LZWEncoder.Predictor encoder)
                         "Invalid Predictor";;
          bpc <- integer_entry h dp "BitsPerComponent" (LZWEncoder.BitsPerComponent encoder)
                   "Invalid BitsPerComponent";;
          if 1 <? predictor then
            columns <- integer_entry h dp "Columns" 1 "Predictor column invalid";;
            colors <- integer_entry h dp "Colors" 1 "Predictor colors not an integer";;
            Ok (LZWEncoder.Build predictor bpc columns colors earlyChange)
          else
            Ok (LZWEncoder.Build predictor bpc (LZWEncoder.Columns encoder)
                  (LZWEncoder.Colors encoder) earlyChange)
      end
  end.

End FromStream.

(** * Properties *)

(** ** General facts about the helpers *)

Lemma len_nonneg {A} (l : list A) : 0 <= len l.
Proof. unfold len. lia. Qed.

Lemma len_app {A} (l1 l2 : list A) : len (l1 ++ l2) = len l1 + len l2.
Proof. unfold len. rewrite length_app. lia. Qed.

Lemma byte_range (x : Z) : is_byte (byte x).
Proof. unfold is_byte, byte. apply Z.mod_pos_bound. lia. Qed.

Lemma byte_id (x : Z) : is_byte x -> byte x = x.
Proof. unfold is_byte, byte. intros H. apply Z.mod_small. lia. Qed.

Lemma bind_Ok {A B} (r : result A) (k : A -> result B) (b : B) :
  bind r k = Ok b -> exists a, r = Ok a /\ k a = Ok b.
Proof. destruct r; simpl; intros H; try discriminate. eauto. Qed.

(** ** Permissions (GetAccessPermissions) *)

Lemma land_pow2_testbit (P k : Z) :
  0 <= k -> (0 <? Z.land P (Z.shiftl 1 k)) = Z.testbit P k.
Proof.
  intros Hk. rewrite Z.shiftl_1_l.
  assert (Hland : Z.land P (2 ^ k) = if Z.testbit P k then 2 ^ k else 0).
  { apply Z.bits_inj'. intros n Hn. rewrite Z.land_spec, Z.pow2_bits_eqb by lia.
    destruct (Z.eqb_spec k n) as [->|Hne].
    - destruct (Z.testbit P n); [now rewrite Z.pow2_bits_true by lia | now rewrite Z.bits_0].
    - rewrite andb_false_r. destruct (Z.testbit P k).
      + symmetry. apply Z.pow2_bits_false. lia.
      + now rewrite Z.bits_0. }
  rewrite Hland. destruct (Z.testbit P k).
  - apply Z.ltb_lt. apply Z.pow_pos_nonneg; lia.
  - reflexivity.
Qed.

(** C8 (as amended): every field of the record is the bit of P at the fixed
    position 3, 4, 5, 6, 9, 10, 11, 12 counted from 1 (the masks 1<<2 ...
    1<<11); for P = -4 only the bits 1 and 2 are clear, so all the eight
    fields are true, Printing and Modify included; it is P = -13 that gives
    Printing = false and Modify = false with the other six true. *)
Theorem C8_permission_bits (c : PdfCrypt.t) :
  GetAccessPermissions c =
    AccessPermissions.Build
      (Z.testbit (PdfCrypt.P c) 2) (Z.testbit (PdfCrypt.P c) 3)
      (Z.testbit (PdfCrypt.P c) 4) (Z.testbit (PdfCrypt.P c) 5)
      (Z.testbit (PdfCrypt.P c) 8) (Z.testbit (PdfCrypt.P c) 9)
      (Z.testbit (PdfCrypt.P c) 10) (Z.testbit (PdfCrypt.P c) 11)
  /\ (PdfCrypt.P c = -4 -> GetAccessPermissions c = full_rights)
  /\ (PdfCrypt.P c = -13 ->
      GetAccessPermissions c =
        AccessPermissions.Build false false true true true true true true).
Proof.
  assert (H : GetAccessPermissions c =
    AccessPermissions.Build
      (Z.testbit (PdfCrypt.P c) 2) (Z.testbit (PdfCrypt.P c) 3)
      (Z.testbit (PdfCrypt.P c) 4) (Z.testbit (PdfCrypt.P c) 5)
      (Z.testbit (PdfCrypt.P c) 8) (Z.testbit (PdfCrypt.P c) 9)
      (Z.testbit (PdfCrypt.P c) 10) (Z.testbit (PdfCrypt.P c) 11)).
  { unfold GetAccessPermissions. now rewrite !land_pow2_testbit by lia. }
  split; [exact H|]. split; intros HP; rewrite H, HP; reflexivity.
Qed.

(** A security handler holding the permissions value [P] and nothing else. *)
Definition crypt_of_P (P : Z) : PdfCrypt.t :=
  PdfCrypt.Build 0 40 2 [] [] [] [] P [] true [] [] ∅ ∅ false ∅ "" "".

Lemma C8_permission_bits_witness :
  GetAccessPermissions (crypt_of_P (-4)) = full_rights
  /\ GetAccessPermissions (crypt_of_P (-13)) =
       AccessPermissions.Build false false true true true true true true.
Proof.
  split.
  - apply (proj1 (proj2 (C8_permission_bits (crypt_of_P (-4))))). reflexivity.
  - apply (proj2 (proj2 (C8_permission_bits (crypt_of_P (-13))))). reflexivity.
Defined.

(** With P = -4 the decoded record has Printing = true and Modify = true,
    not false as claimed. *)
Lemma C8_counterexample :
  AccessPermissions.Printing (GetAccessPermissions (crypt_of_P (-4))) = true
  /\ AccessPermissions.Modify (GetAccessPermissions (crypt_of_P (-4))) = true.
Proof. split; reflexivity. Qed.

(** ** Run-length decoding *)

(** C7 (as amended): decoding 05 48 65 6C 6C 6F 20 FE 21 80 succeeds and
    yields the nine bytes of "Hello !!!": the length byte 5 introduces the six
    literal bytes "Hello ", FE = 254 gives 257 - 254 = 3 copies of '!', and 80
    ends the data. *)
Theorem C7_run_length_hello :
  RunLengthEncoder.DecodeBytes [5; 72; 101; 108; 108; 111; 32; 254; 33; 128]
  = Ok (bytes_of_string "Hello !!!").
Proof. reflexivity. Qed.

(** The decoded text is not "Hello !!". *)
Lemma C7_counterexample :
  RunLengthEncoder.DecodeBytes [5; 72; 101; 108; 108; 111; 32; 254; 33; 128]
  <> Ok (bytes_of_string "Hello !!").
Proof. vm_compute. discriminate. Qed.

(** ** The LZW encoder *)





(** ** Per-object keys (makeKey) *)

Lemma MD5_le_bytes_length (n : nat) (x : Z) : length (MD5.le_bytes n x) = n.
Proof. unfold MD5.le_bytes. now rewrite length_map, length_seq. Qed.

Lemma MD5_sum_length (msg : bytes) : length (MD5.sum msg) = 16%nat.
Proof.
  unfold MD5.sum.
  destruct (MD5.blocks _ _ _) as [[[a b] c] d].
  rewrite !length_app, !MD5_le_bytes_length. reflexivity.
Qed.

(** The [k] low-order bytes of [x], least significant first. *)
Definition le_low (k : nat) (x : Z) : bytes :=
  map (fun i => (x / 256 ^ Z.of_nat i) mod 256) (seq 0 k).

Lemma shift_mask_byte (x i : Z) :
  0 <= i -> byte (Z.land (Z.shiftr x (8 * i)) 255) = (x / 256 ^ i) mod 256.
Proof.
  intros Hi. change 255 with (Z.ones 8).
  rewrite Z.land_ones, Z.shiftr_div_pow2 by lia.
  replace (2 ^ (8 * i)) with (256 ^ i) by (rewrite Z.pow_mul_r by lia; reflexivity).
  change (2 ^ 8) with 256. unfold byte. apply Z.mod_mod. lia.
Qed.

(** The input of the MD5 of [makeKey]: the document key, three bytes of the
    object number, two of the generation number, and the salt of AESV2. *)
Definition makeKey_input (aes2 : bool) (objNum genNum : Z) (ekey : bytes) : bytes :=
  ekey ++ le_low 3 objNum ++ le_low 2 genNum
       ++ (if aes2 then bytes_of_string "sAlT" else []).

(** A security handler with one crypt filter [name] of method [cfm]. *)
Definition crypt_of_filter (name cfm : string) (length : Z) : PdfCrypt.t :=
  PdfCrypt.Build 4 128 4 [] [] [] [] (-4) [] true [] [] ∅ ∅ false
    {[ name := CryptFilter.Build cfm length ]} name name.

(** C3 (as amended): for a registered filter whose method is not AESV3 (V2 and
    AESV2 in particular) the per-object key is the MD5 of the document key
    followed by the 3 low-order little-endian bytes of objNum, the 2
    low-order little-endian bytes of genNum and, for AESV2 only, "sAlT",
    truncated to min(document-key-length + 5, 16) bytes -- for AESV2 as well
    as for V2; for AESV3 the document key is returned unchanged.  For V2 with
    the document key 00 01 02 03 04, objNum = 7 and genNum = 0 the key is the
    first 10 bytes of MD5(00 01 02 03 04 07 00 00 00 00). *)
Theorem C3_per_object_key (c : PdfCrypt.t) (filter : string) (cf : CryptFilter.t)
  (objNum genNum : Z) (ekey : bytes) :
  PdfCrypt.CryptFilters c !! filter = Some cf ->
  (CryptFilter.Cfm cf = CryptFilterAESV3 ->
   makeKey c filter objNum genNum ekey = Ok ekey)
  /\ (CryptFilter.Cfm cf <> CryptFilterAESV3 ->
      exists key,
        makeKey c filter objNum genNum ekey = Ok key
        /\ key = take (Z.to_nat (Z.min (len ekey + 5) 16))
                   (MD5.sum (makeKey_input
                               (bool_decide (CryptFilter.Cfm cf = CryptFilterAESV2))
                               objNum genNum ekey))
        /\ len key = Z.min (len ekey + 5) 16)
  /\ makeKey (crypt_of_filter "Default" CryptFilterV2 5) "Default" 7 0 [0; 1; 2; 3; 4]
     = Ok (take 10 (MD5.sum [0; 1; 2; 3; 4; 7; 0; 0; 0; 0])).
Proof.
  intros Hcf. split; [|split].
  - intros H3. unfold makeKey. rewrite Hcf, H3. reflexivity.
  - intros H3. unfold makeKey. rewrite Hcf.
    destruct (String.eqb_spec (CryptFilter.Cfm cf) CryptFilterAESV3) as [|_]; [contradiction|].
    set (aes2 := String.eqb (CryptFilter.Cfm cf) CryptFilterAESV2).
    assert (Haes : aes2 = bool_decide (CryptFilter.Cfm cf = CryptFilterAESV2)).
    { subst aes2. destruct (String.eqb_spec (CryptFilter.Cfm cf) CryptFilterAESV2);
        [now rewrite bool_decide_eq_true_2 | now rewrite bool_decide_eq_false_2]. }
    assert (Hin : (if aes2
                   then (ekey
                           ++ map (fun i => byte (Z.land (Z.shiftr objNum (8 * i)) 255)) [0; 1; 2]
                           ++ map (fun i => byte (Z.land (Z.shiftr genNum (8 * i)) 255)) [0; 1])
                          ++ [115; 65; 108; 84]
                   else ekey
                          ++ map (fun i => byte (Z.land (Z.shiftr objNum (8 * i)) 255)) [0; 1; 2]
                          ++ map (fun i => byte (Z.land (Z.shiftr genNum (8 * i)) 255)) [0; 1])
                  = makeKey_input aes2 objNum genNum ekey).
    { unfold makeKey_input, le_low. cbn [map seq].
      rewrite !shift_mask_byte by lia.
      destruct aes2; cbn [bytes_of_string]; rewrite <- ?app_assoc; reflexivity. }
    rewrite Hin, <- Haes.
    set (h := MD5.sum _). pose proof (MD5_sum_length (makeKey_input aes2 objNum genNum ekey)) as Hl.
    fold h in Hl. pose proof (len_nonneg ekey) as Hn.
    destruct (Z.ltb_spec (len ekey + 5) 16) as [Hlt|Hge].
    + eexists. split; [reflexivity|]. unfold slice. rewrite drop_0, Z.sub_0_r.
      rewrite Z.min_l by lia. split; [reflexivity|].
      unfold len in *. rewrite length_take. lia.
    + exists h. split; [reflexivity|]. rewrite Z.min_r by lia. split.
      * change (Z.to_nat 16) with 16%nat. rewrite <- Hl. now rewrite firstn_all.
      * unfold len. rewrite Hl. reflexivity.
  - reflexivity.
Qed.

Lemma C3_per_object_key_witness :
  exists key,
    makeKey (crypt_of_filter "StdCF" CryptFilterAESV2 16) "StdCF" 7 0 (seqZ 0 16) = Ok key
    /\ key = take (Z.to_nat (Z.min (len (seqZ 0 16) + 5) 16))
               (MD5.sum (makeKey_input
                           (bool_decide (CryptFilterAESV2 = CryptFilterAESV2)) 7 0 (seqZ 0 16)))
    /\ len key = Z.min (len (seqZ 0 16) + 5) 16.
Proof.
  apply (proj1 (proj2 (C3_per_object_key (crypt_of_filter "StdCF" CryptFilterAESV2 16)
                         "StdCF" (CryptFilter.Build CryptFilterAESV2 16) 7 0 (seqZ 0 16)
                         eq_refl))).
  discriminate.
Defined.

(** With an AESV2 filter and the 5-byte document key 00 01 02 03 04 the
    per-object key has 10 bytes, not the full 16 of the digest. *)
Lemma C3_counterexample :
  makeKey (crypt_of_filter "StdCF" CryptFilterAESV2 16) "StdCF" 7 0 [0; 1; 2; 3; 4]
  = Ok (take 10 (MD5.sum [0; 1; 2; 3; 4; 7; 0; 0; 0; 0; 115; 65; 108; 84]))
  /\ makeKey (crypt_of_filter "StdCF" CryptFilterAESV2 16) "StdCF" 7 0 [0; 1; 2; 3; 4]
     <> Ok (MD5.sum [0; 1; 2; 3; 4; 7; 0; 0; 0; 0; 115; 65; 108; 84]).
Proof. split; [reflexivity | vm_compute; discriminate]. Qed.

(** ** Predictor rows *)

Lemma idx_app_r (pre suf : bytes) (j : Z) :
  j = len pre -> forall a, idx (pre ++ a :: suf) j = a.
Proof.
  intros -> a. unfold idx, len. rewrite Nat2Z.id.
  now rewrite nth_middle.
Qed.

Lemma set_idx_app_r (pre suf : bytes) (j : Z) (a v : Z) :
  j = len pre -> set_idx (pre ++ a :: suf) j v = pre ++ v :: suf.
Proof.
  intros ->. unfold set_idx, len. rewrite Nat2Z.id.
  replace (length pre) with (length pre + 0)%nat by lia.
  now rewrite insert_app_r.
Qed.

Lemma for_loop_nil {St} (lo hi : Z) (body : St -> Z -> St) (s : St) :
  hi <= lo -> for_loop lo hi body s = s.
Proof. intros H. unfold for_loop. rewrite seqZ_nil by lia. reflexivity. Qed.

Lemma for_loop_cons {St} (lo hi : Z) (body : St -> Z -> St) (s : St) :
  lo < hi -> for_loop lo hi body s = for_loop (lo + 1) hi body (body s lo).
Proof.
  intros H. unfold for_loop. rewrite seqZ_cons by lia. simpl.
  replace (Z.pred (hi - lo)) with (hi - (lo + 1)) by lia.
  replace (Z.succ lo) with (lo + 1) by lia. reflexivity.
Qed.

(** Differences to the left neighbour, and running sums, as the loops of the
    encoder and of the Sub filter compute them byte by byte. *)
Fixpoint diffs (prev : Z) (l : bytes) : bytes :=
  match l with
  | [] => []
  | x :: xs => bsub x prev :: diffs x xs
  end.

Fixpoint sums (prev : Z) (l : bytes) : bytes :=
  match l with
  | [] => []
  | y :: ys => badd y prev :: sums (badd y prev) ys
  end.

Lemma byte_mod_256 (x : Z) : byte (byte x mod 256) = byte x.
Proof. unfold byte. now rewrite !Z.mod_mod by lia. Qed.

Lemma byte_badd_mod (x y : Z) : byte (badd x y mod 256) = badd x y.
Proof. apply byte_mod_256. Qed.

Lemma byte_bsub_mod (x y : Z) : byte (bsub x y mod 256) = bsub x y.
Proof. apply byte_mod_256. Qed.

Lemma sums_diffs (prev : Z) (l : bytes) :
  is_byte prev -> is_bytes l -> sums prev (diffs prev l) = l.
Proof.
  revert prev. induction l as [|x xs IH]; intros prev Hp Hl; [reflexivity|].
  inversion Hl as [|? ? Hx Hxs]; subst. simpl.
  assert (E : badd (bsub x prev) prev = x).
  { unfold badd, bsub, byte, is_byte in *.
    rewrite Zplus_mod_idemp_l. replace (x - prev + prev) with x by lia.
    apply Z.mod_small. lia. }
  rewrite E. f_equal. now apply IH.
Qed.

Ltac len_solve :=
  repeat rewrite len_app in *; unfold len in *; cbn [length] in *; lia.

Lemma png_sub_loop (pre suf : bytes) (a : Z) (j hi : Z) :
  j = len pre + 1 -> hi = j + len suf ->
  for_loop j hi
    (fun rowData j =>
       set_idx rowData j (byte (badd (idx rowData j) (idx rowData (j - 1)) mod 256)))
    (pre ++ a :: suf)
  = pre ++ a :: sums a suf.
Proof.
  revert pre a j. induction suf as [|y ys IH]; intros pre a j Hj Hhi.
  - rewrite for_loop_nil; [reflexivity|]. len_solve.
  - rewrite for_loop_cons by len_solve.
    assert (Hy : idx (pre ++ a :: y :: ys) j = y).
    { replace (pre ++ a :: y :: ys) with ((pre ++ [a]) ++ y :: ys)
        by now rewrite <- app_assoc.
      apply idx_app_r. len_solve. }
    assert (Ha : idx (pre ++ a :: y :: ys) (j - 1) = a).
    { apply idx_app_r. len_solve. }
    rewrite Hy, Ha.
    replace (pre ++ a :: y :: ys) with ((pre ++ [a]) ++ y :: ys) by now rewrite <- app_assoc.
    rewrite set_idx_app_r by len_solve.
    rewrite (byte_badd_mod y a).
    rewrite (IH (pre ++ [a]) (badd y a) (j + 1)).
    + now rewrite <- app_assoc.
    + len_solve.
    + len_solve.
Qed.

Lemma encode_loop_spec (rowData : bytes) (rpre rsuf tpre : bytes) (a : Z) (j hi : Z) :
  rowData = rpre ++ a :: rsuf -> j = len rpre + 1 -> len tpre = j -> hi = j + len rsuf ->
  for_loop j hi
    (fun tmpData j =>
       set_idx tmpData j (byte (bsub (idx rowData j) (idx rowData (j - 1)) mod 256)))
    (tpre ++ replicate (length rsuf) 0)
  = tpre ++ diffs a rsuf.
Proof.
  revert rpre tpre a j. induction rsuf as [|y ys IH]; intros rpre tpre a j Hrow Hj Ht Hhi.
  - rewrite for_loop_nil; [reflexivity|]. len_solve.
  - rewrite for_loop_cons by len_solve.
    assert (Hy : idx rowData j = y).
    { rewrite Hrow. replace (rpre ++ a :: y :: ys) with ((rpre ++ [a]) ++ y :: ys)
        by now rewrite <- app_assoc.
      apply idx_app_r. len_solve. }
    assert (Ha : idx rowData (j - 1) = a).
    { rewrite Hrow. apply idx_app_r. len_solve. }
    rewrite Hy, Ha. cbn [length replicate].
    rewrite set_idx_app_r by len_solve.
    rewrite (byte_bsub_mod y a).
    replace (tpre ++ bsub y a :: replicate (length ys) 0)
      with ((tpre ++ [bsub y a]) ++ replicate (length ys) 0) by now rewrite <- app_assoc.
    rewrite (IH (rpre ++ [a]) (tpre ++ [bsub y a]) y (j + 1)).
    + now rewrite <- app_assoc.
    + rewrite Hrow. now rewrite <- app_assoc.
    + len_solve.
    + len_solve.
    + len_solve.
Qed.

(** The row the encoder emits: the filter byte 1, the first sample, then the
    differences. *)
Lemma encode_row_spec (a : Z) (rest : bytes) :
  FlateEncoder.encode_row (len (a :: rest)) (a :: rest) = 1 :: a :: diffs a rest.
Proof.
  unfold FlateEncoder.encode_row. f_equal.
  assert (H0 : idx (a :: rest) 0 = a) by reflexivity. rewrite H0.
  assert (Hb : set_idx (replicate (Z.to_nat (len (a :: rest))) 0) 0 a
               = [a] ++ replicate (length rest) 0).
  { unfold len. rewrite Nat2Z.id. reflexivity. }
  rewrite Hb.
  rewrite (encode_loop_spec (a :: rest) [] rest [a] a 1 (len (a :: rest)));
    try reflexivity.
  unfold len. simpl length. lia.
Qed.

(** The Sub filter of the decoder undoes it. *)
Lemma png_sub_row_encode_row (a : Z) (rest : bytes) :
  is_bytes (a :: rest) ->
  png_sub_row (len (a :: rest) + 1) (FlateEncoder.encode_row (len (a :: rest)) (a :: rest))
  = 1 :: a :: rest.
Proof.
  intros Hb. inversion Hb as [|? ? Ha Hrest]; subst.
  rewrite encode_row_spec. unfold png_sub_row.
  change (1 :: a :: diffs a rest) with ([1] ++ a :: diffs a rest).
  rewrite (png_sub_loop [1] (diffs a rest) a 2 (len (a :: rest) + 1)).
  - simpl. now rewrite sums_diffs.
  - reflexivity.
  - unfold len. simpl length.
    assert (Hl : forall p l, length (diffs p l) = length l).
    { intros p l. revert p. induction l; intros; simpl; [reflexivity | now rewrite IHl]. }
    rewrite Hl. lia.
Qed.

(** Cutting data into rows and gluing the rows back. *)
Lemma concat_rows_of (n k : nat) (data : bytes) :
  length data = (n * k)%nat -> concat (rows_of n k data) = data.
Proof.
  revert data. induction n as [|n IH]; intros data Hl; simpl.
  - destruct data; [reflexivity | discriminate].
  - rewrite IH; [apply take_drop|]. rewrite length_drop. lia.
Qed.

Lemma rows_of_length (n k : nat) (data : bytes) :
  length data = (n * k)%nat -> Forall (fun r => length r = k) (rows_of n k data).
Proof.
  revert data. induction n as [|n IH]; intros data Hl; simpl; constructor.
  - rewrite length_take. lia.
  - apply IH. rewrite length_drop. lia.
Qed.

Lemma rows_of_is_bytes (n k : nat) (data : bytes) :
  is_bytes data -> Forall is_bytes (rows_of n k data).
Proof.
  revert data. induction n as [|n IH]; intros data Hb; simpl; constructor.
  - now apply Forall_take.
  - apply IH. now apply Forall_drop.
Qed.

Lemma rows_of_concat_map (f : bytes -> bytes) (k' : nat) (rows : list bytes) :
  Forall (fun r => length (f r) = k') rows ->
  rows_of (length rows) k' (concat (map f rows)) = map f rows.
Proof.
  induction 1 as [|r rows Hr Hrows IH]; simpl; [reflexivity|].
  rewrite take_app_length' by now symmetry.
  rewrite drop_app_length' by now symmetry.
  now rewrite IH.
Qed.

Lemma length_rows_of (n k : nat) (data : bytes) : length (rows_of n k data) = n.
Proof. revert data. induction n; intros; simpl; [reflexivity | now rewrite IHn]. Qed.

(** ** Flate and LZW with predictors *)

Lemma diffs_length (p : Z) (l : bytes) : length (diffs p l) = length l.
Proof. revert p. induction l; intros; simpl; [reflexivity | now rewrite IHl]. Qed.

Lemma encode_row_length (C : nat) (r : bytes) :
  (1 <= C)%nat -> length r = C ->
  length (FlateEncoder.encode_row (Z.of_nat C) r) = S C.
Proof.
  intros HC Hr. destruct r as [|a rest]; [simpl in Hr; lia|].
  replace (Z.of_nat C) with (len (a :: rest)) by (unfold len; now rewrite Hr).
  rewrite encode_row_spec. simpl. rewrite diffs_length. simpl in Hr. lia.
Qed.

Lemma png_rows_encoded (C : nat) (rows : list bytes) (prev out : bytes) :
  (1 <= C)%nat ->
  Forall is_bytes rows -> Forall (fun r => length r = C) rows ->
  png_rows true (Z.of_nat C + 1) (map (FlateEncoder.encode_row (Z.of_nat C)) rows) prev out
  = Ok (out ++ concat rows).
Proof.
  intros HC Hb Hl. revert prev out.
  induction rows as [|r rows IH]; intros prev out.
  - simpl. now rewrite app_nil_r.
  - inversion Hb as [|? ? Hbr Hbrows]; inversion Hl as [|? ? Hlr Hlrows]; subst.
    destruct r as [|a rest]; [simpl in HC; lia|].
    cbn [map png_rows].
    replace (Z.of_nat (length (a :: rest))) with (len (a :: rest)) by reflexivity.
    rewrite encode_row_spec.
    change (idx (1 :: a :: diffs a rest) 0) with 1.
    cbn [Z.eqb Pos.eqb bind].
    rewrite <- (encode_row_spec a rest), png_sub_row_encode_row by assumption.
    cbn [drop]. rewrite (IH Hbrows Hlrows). now rewrite <- app_assoc.
Qed.

Lemma flate_png_roundtrip (C : nat) (X : bytes) :
  (1 <= C)%nat -> is_bytes X -> X <> [] -> len X mod Z.of_nat C = 0 ->
  exists data',
    (if Z.of_nat C =? 0 then Panic
     else if negb (Z.rem (len X) (Z.of_nat C) =? 0) then Err (Errorf "Invalid row length")
     else if Z.of_nat C <? 0 then Panic
     else Ok (concat (map (FlateEncoder.encode_row (Z.of_nat C))
                          (rows_of (Z.to_nat (Z.quot (len X) (Z.of_nat C)))
                                   (Z.to_nat (Z.of_nat C)) X)))) = Ok data'
    /\ FlateEncoder.png_decode (FlateEncoder.Build 11 8 (Z.of_nat C) 1) data' = Ok X.
Proof.
  intros HC HX Hne Hmod.
  pose proof (len_nonneg X) as Hlen.
  assert (Hrem : Z.rem (len X) (Z.of_nat C) = 0) by (rewrite Z.rem_mod_nonneg; lia).
  assert (Hquot : Z.quot (len X) (Z.of_nat C) = len X / Z.of_nat C)
    by (apply Z.quot_div_nonneg; lia).
  destruct (Z.eqb_spec (Z.of_nat C) 0) as [|_]; [lia|].
  rewrite Hrem. cbn [Z.eqb negb].
  destruct (Z.ltb_spec (Z.of_nat C) 0) as [|_]; [lia|].
  eexists. split; [reflexivity|].
  set (n := Z.to_nat (Z.quot (len X) (Z.of_nat C))).
  rewrite Nat2Z.id.
  assert (HlenX : length X = (n * C)%nat).
  { subst n. rewrite Hquot.
    assert (len X = Z.of_nat C * (len X / Z.of_nat C)) by (apply Z.div_exact; lia).
    unfold len in *. nia. }
  assert (Hn : (1 <= n)%nat).
  { destruct n; [|lia]. destruct X; [congruence | simpl in HlenX; lia]. }
  set (rows := rows_of n C X).
  assert (Hrows_b : Forall is_bytes rows) by now apply rows_of_is_bytes.
  assert (Hrows_l : Forall (fun r => length r = C) rows) by now apply rows_of_length.
  assert (Hrows_n : length rows = n) by apply length_rows_of.
  assert (Henc_l : Forall (fun r => length (FlateEncoder.encode_row (Z.of_nat C) r) = S C) rows).
  { eapply Forall_impl; [exact Hrows_l|]. intros r Hr. now apply encode_row_length. }
  assert (Hout : length (concat (map (FlateEncoder.encode_row (Z.of_nat C)) rows))
                 = (n * S C)%nat).
  { rewrite <- Hrows_n. clear -Henc_l.
    induction Henc_l as [|r rs Hr _ IH]; cbn [map concat length]; [reflexivity|].
    rewrite length_app, Hr, IH. lia. }
  unfold FlateEncoder.png_decode. cbn [FlateEncoder.Columns FlateEncoder.Colors].
  replace (Z.of_nat C * 1 + 1) with (Z.of_nat (S C)) by lia.
  unfold len at 1 2 3. rewrite Hout.
  destruct (Z.eqb_spec (Z.of_nat (S C)) 0) as [|_]; [lia|].
  assert (Hrem' : Z.rem (Z.of_nat (n * S C)) (Z.of_nat (S C)) = 0).
  { rewrite Z.rem_mod_nonneg by lia. rewrite Nat2Z.inj_mul. apply Z.mod_mul. lia. }
  assert (Hquot' : Z.quot (Z.of_nat (n * S C)) (Z.of_nat (S C)) = Z.of_nat n).
  { rewrite Z.quot_div_nonneg by lia. rewrite Nat2Z.inj_mul. apply Z.div_mul. lia. }
  rewrite Hrem', Hquot'. cbn [Z.eqb negb].
  destruct (Z.ltb_spec (Z.of_nat (n * S C)) (Z.of_nat (S C))) as [|_]; [nia|].
  destruct (Z.ltb_spec (Z.of_nat (S C)) 0) as [|_]; [lia|].
  rewrite !Nat2Z.id. rewrite <- Hrows_n at 1.
  rewrite rows_of_concat_map by exact Henc_l.
  replace (Z.of_nat (S C)) with (Z.of_nat C + 1) by lia.
  rewrite png_rows_encoded by assumption.
  simpl. f_equal. subst rows. now apply concat_rows_of.
Qed.

(** C5 (as amended): with a zlib and an LZW library that decode what they
    encode, decoding the encoded output gives the input back
    - for a flate codec (8 bits per component) with Predictor 1, on every
      input, and with Predictor 11, Colors = 1 and Columns >= 1, on every
      non-empty input whose length is a multiple of Columns;
    - for an LZW codec with Predictor 1 and EarlyChange different from 1,
      on every input.
    The LZW encoder refuses Predictor 11 (and any predictor but 1). *)
Theorem C5_predictor_roundtrip
  (zlib_NewReader : bytes -> result unit) (zlib_ReadFrom zlib_Write : bytes -> bytes)
  (lzw1_ReadAll lzw0_ReadAll : bytes -> result bytes) (lzw0_Write : bytes -> bytes)
  (X : bytes) :
  (forall d, zlib_NewReader (zlib_Write d) = Ok tt) ->
  (forall d, zlib_ReadFrom (zlib_Write d) = d) ->
  (forall d, lzw0_ReadAll (lzw0_Write d) = Ok d) ->
  is_bytes X ->
  (forall enc : FlateEncoder.t,
     FlateEncoder.BitsPerComponent enc = 8 ->
     FlateEncoder.Predictor enc = 1
     \/ (FlateEncoder.Predictor enc = 11 /\ FlateEncoder.Colors enc = 1
         /\ 1 <= FlateEncoder.Columns enc /\ X <> []
         /\ len X mod FlateEncoder.Columns enc = 0) ->
     (r <- FlateEncoder.EncodeBytes zlib_Write enc X;;
      FlateEncoder.DecodeStream zlib_NewReader zlib_ReadFrom enc r) = Ok X)
  /\ (forall enc : LZWEncoder.t,
        LZWEncoder.Predictor enc = 1 -> LZWEncoder.EarlyChange enc <> 1 ->
        (r <- LZWEncoder.EncodeBytes lzw0_Write enc X;;
         LZWEncoder.DecodeStream lzw1_ReadAll lzw0_ReadAll enc r) = Ok X)
  /\ (forall enc : LZWEncoder.t,
        LZWEncoder.Predictor enc <> 1 ->
        LZWEncoder.EncodeBytes lzw0_Write enc X
        = Err (Errorf "LZW Predictor = 1 only supported yet")).
Proof.
  intros Hz1 Hz2 Hl HX. split; [|split].
  - intros [p bpc cols colors] Hbpc Hcase. cbn in Hbpc, Hcase. subst bpc.
    destruct Hcase as [-> | (-> & -> & Hcols & Hne & Hmod)].
    + unfold FlateEncoder.EncodeBytes, FlateEncoder.DecodeStream, FlateEncoder.DecodeBytes.
      cbn. now rewrite Hz1, Hz2.
    + destruct (flate_png_roundtrip (Z.to_nat cols) X) as (data' & Henc & Hdec);
        try assumption; try lia.
      { rewrite Z2Nat.id by lia. exact Hmod. }
      rewrite Z2Nat.id in Henc, Hdec by lia.
      unfold FlateEncoder.EncodeBytes. cbn [FlateEncoder.Predictor FlateEncoder.Columns].
      cbn [Z.eqb Pos.eqb negb andb]. rewrite Henc. cbn [bind].
      unfold FlateEncoder.DecodeStream, FlateEncoder.DecodeBytes.
      cbn [FlateEncoder.Predictor FlateEncoder.BitsPerComponent Z.eqb Pos.eqb negb].
      rewrite Hz1, Hz2. cbn [bind Z.ltb Z.compare Pos.compare Pos.compare_cont Z.leb andb].
      exact Hdec.
  - intros [p bpc cols colors ec] Hp Hec. cbn in Hp, Hec. subst p.
    unfold LZWEncoder.EncodeBytes, LZWEncoder.DecodeStream, LZWEncoder.DecodeBytes. cbn.
    destruct (Z.eqb_spec ec 1) as [|_]; [contradiction|]. cbn. now rewrite Hl.
  - intros [p bpc cols colors ec] Hp. cbn in Hp.
    unfold LZWEncoder.EncodeBytes. cbn.
    destruct (Z.eqb_spec p 1) as [|_]; [contradiction|]. reflexivity.
Qed.

Lemma C5_predictor_roundtrip_witness :
  (r <- FlateEncoder.EncodeBytes (fun d => d) (FlateEncoder.Build 11 8 2 1) [10; 20; 30; 25];;
   FlateEncoder.DecodeStream (fun _ => Ok tt) (fun d => d) (FlateEncoder.Build 11 8 2 1) r)
  = Ok [10; 20; 30; 25].
Proof.
  refine (proj1 (C5_predictor_roundtrip (fun _ => Ok tt) (fun d => d) (fun d => d)
                   (fun d => Ok d) (fun d => Ok d) (fun d => d) [10; 20; 30; 25]
                   _ _ _ _) (FlateEncoder.Build 11 8 2 1) eq_refl _).
  - reflexivity.
  - reflexivity.
  - reflexivity.
  - repeat constructor; unfold is_byte; lia.
  - right. repeat split; try reflexivity; try lia; discriminate.
Defined.

(** An LZW codec with Predictor 11: nothing is encoded, so there is no
    output to decode.  A flate codec with Predictor 11 and two colours: the
    encoder makes rows of Columns bytes, the decoder expects rows of
    Columns * Colors bytes, and the decoding fails.  A flate codec with
    Predictor 11 on the empty input (a multiple of every row length): the
    decoder refuses the empty output. *)
Lemma C5_counterexample :
  LZWEncoder.EncodeBytes (fun d => d) (LZWEncoder.Build 11 8 1 1 0) [1; 2; 3]
  = Err (Errorf "LZW Predictor = 1 only supported yet")
  /\ (r <- FlateEncoder.EncodeBytes (fun d => d) (FlateEncoder.Build 11 8 2 2) [10; 20; 30; 25];;
      FlateEncoder.DecodeStream (fun _ => Ok tt) (fun d => d) (FlateEncoder.Build 11 8 2 2) r)
     = Err (Errorf "Invalid row length (%d/%d)")
  /\ (r <- FlateEncoder.EncodeBytes (fun d => d) (FlateEncoder.Build 11 8 4 1) [];;
      FlateEncoder.DecodeStream (fun _ => Ok tt) (fun d => d) (FlateEncoder.Build 11 8 4 1) r)
     = Err (Errorf "Range check error").
Proof. repeat split. Qed.

(** ** Round trips of the codecs without parameters *)

Lemma forall_below (P : Z -> bool) (n : Z) :
  forallb P (seqZ 0 n) = true -> forall x, 0 <= x < n -> P x = true.
Proof.
  intros H x Hx. rewrite forallb_forall in H. apply H.
  apply list_elem_of_In, elem_of_seqZ. lia.
Qed.

Lemma raw_roundtrip (X : bytes) :
  (r <- RawEncoder.EncodeBytes X;; RawEncoder.DecodeBytes r) = Ok X.
Proof. reflexivity. Qed.

(** The two hex digits of a byte. *)
Definition hex2 (b : Z) : bytes :=
  [ASCIIHexEncoder.hexdigit (b / 16); ASCIIHexEncoder.hexdigit (b mod 16)].

Lemma hexdigit_facts (n : Z) :
  0 <= n < 16 ->
  let c := ASCIIHexEncoder.hexdigit n in
  (c =? 62) = false /\ IsWhiteSpace c = false /\ ASCIIHexEncoder.is_hex c = true
  /\ ASCIIHexEncoder.fromHexChar c = Some n.
Proof.
  intros Hn.
  pose proof (forall_below
    (fun n => let c := ASCIIHexEncoder.hexdigit n in
              negb (c =? 62) && negb (IsWhiteSpace c) && ASCIIHexEncoder.is_hex c
              && bool_decide (ASCIIHexEncoder.fromHexChar c = Some n)) 16 eq_refl n Hn) as H.
  cbv zeta in H. rewrite !andb_true_iff, !negb_true_iff, bool_decide_eq_true in H.
  cbv zeta. tauto.
Qed.

Lemma asciihex_decode_loop (data inb : bytes) :
  is_bytes data ->
  ASCIIHexEncoder.decode_loop (flat_map ASCIIHexEncoder.sprintf_02X_sp data ++ [62]) inb
  = Ok (inb ++ flat_map hex2 data).
Proof.
  intros Hb. revert inb. induction Hb as [|b data Hbyte _ IH]; intros inb.
  - simpl. now rewrite app_nil_r.
  - unfold is_byte in Hbyte.
    assert (Hhi : 0 <= b / 16 < 16) by (split; [apply Z.div_pos | apply Z.div_lt_upper_bound]; lia).
    assert (Hlo : 0 <= b mod 16 < 16) by (apply Z.mod_pos_bound; lia).
    destruct (hexdigit_facts _ Hhi) as (H1 & H2 & H3 & _).
    destruct (hexdigit_facts _ Hlo) as (L1 & L2 & L3 & _).
    cbv zeta in *.
    cbn [flat_map ASCIIHexEncoder.sprintf_02X_sp app ASCIIHexEncoder.decode_loop].
    rewrite H1, H2, H3, L1, L2, L3.
    change (32 =? 62) with false. change (IsWhiteSpace 32) with true. cbv iota.
    rewrite IH. unfold hex2. cbn [flat_map app]. now rewrite <- !app_assoc.
Qed.

Lemma hex_Decode_hex2 (data : bytes) :
  is_bytes data -> ASCIIHexEncoder.hex_Decode (flat_map hex2 data) = Ok data.
Proof.
  induction 1 as [|b data Hbyte _ IH]; [reflexivity|].
  unfold is_byte in Hbyte.
  assert (Hhi : 0 <= b / 16 < 16) by (split; [apply Z.div_pos | apply Z.div_lt_upper_bound]; lia).
  assert (Hlo : 0 <= b mod 16 < 16) by (apply Z.mod_pos_bound; lia).
  destruct (hexdigit_facts _ Hhi) as (_ & _ & _ & H4).
  destruct (hexdigit_facts _ Hlo) as (_ & _ & _ & L4).
  cbv zeta in *.
  cbn [flat_map hex2 app ASCIIHexEncoder.hex_Decode]. rewrite H4, L4, IH. cbn [bind].
  pose proof (forall_below
    (fun b => byte (Z.lor (Z.shiftl (b / 16) 4) (b mod 16)) =? b) 256 eq_refl b Hbyte) as E.
  apply Z.eqb_eq in E. now rewrite E.
Qed.

Lemma hex2_length (data : bytes) : len (flat_map hex2 data) = 2 * len data.
Proof. induction data; [reflexivity|]. unfold len in *. cbn [flat_map hex2 app length]. lia. Qed.

Lemma asciihex_roundtrip (X : bytes) :
  is_bytes X ->
  (r <- ASCIIHexEncoder.EncodeBytes X;; ASCIIHexEncoder.DecodeBytes r) = Ok X.
Proof.
  intros HX. unfold ASCIIHexEncoder.EncodeBytes, ASCIIHexEncoder.DecodeBytes. cbn [bind].
  rewrite asciihex_decode_loop by assumption. cbn [bind app].
  rewrite hex2_length. replace (2 * len X) with (len X * 2) by lia.
  rewrite Z.mod_mul by lia. cbn [Z.eqb]. now apply hex_Decode_hex2.
Qed.

(** C1: the round trip holds for Raw and ASCIIHex but not for the other two
    codecs on every input.  ASCII85: the encoder writes "z" for a final
    group of fewer than four bytes that are all zero, and the decoder reads
    "z" as four zero bytes, so the single byte 00 comes back as 00 00 00 00.
    RunLength: the encoder returns the empty output for the empty input,
    without the end-of-data byte 128, and the decoder fails on it with EOF. *)
Theorem C1_roundtrip_at_failing_inputs :
  ASCII85Encoder.EncodeBytes [0] = Ok (bytes_of_string "z~>")
  /\ ASCII85Encoder.DecodeBytes (bytes_of_string "z~>") = Ok [0; 0; 0; 0]
  /\ RunLengthEncoder.EncodeBytes [] = Ok []
  /\ RunLengthEncoder.DecodeBytes [] = Err EOF.
Proof. repeat split. Qed.

(** ** Algorithm 2.B *)

Lemma SHA2_digest_length {W} (p : SHA2.params W) (h0 : list W) (n : nat) (msg : bytes) :
  length (SHA2.digest p h0 n msg) = n.
Proof. unfold SHA2.digest. rewrite length_take, length_app, length_replicate. lia. Qed.

Lemma sum256_length (msg : bytes) : len (SHA2.sum256 msg) = 32.
Proof. unfold len, SHA2.sum256. now rewrite SHA2_digest_length. Qed.
Lemma sum384_length (msg : bytes) : len (SHA2.sum384 msg) = 48.
Proof. unfold len, SHA2.sum384. now rewrite SHA2_digest_length. Qed.
Lemma sum512_length (msg : bytes) : len (SHA2.sum512 msg) = 64.
Proof. unfold len, SHA2.sum512. now rewrite SHA2_digest_length. Qed.

Lemma Z_of_byte_range (x : int) : is_byte (Z_of_byte x).
Proof.
  unfold is_byte, Z_of_byte. change 255 with (Z.ones 8).
  rewrite Z.land_ones by lia. apply Z.mod_pos_bound. lia.
Qed.

Lemma map_Z_of_byte_is_bytes (l : list int) : is_bytes (map Z_of_byte l).
Proof. apply Forall_map, Forall_forall. intros x _. apply Z_of_byte_range. Qed.

Lemma idx_is_byte (l : bytes) (i : Z) : is_bytes l -> is_byte (idx l i).
Proof.
  intros Hl. unfold idx.
  destruct (nth_in_or_default (Z.to_nat i) l 0) as [Hin | ->].
  - unfold is_bytes in Hl. rewrite Forall_forall in Hl. apply Hl. now apply list_elem_of_In.
  - unfold is_byte. lia.
Qed.

Lemma AES_AddRoundKey_length (s rk : list int) : length (AES.AddRoundKey s rk) = 16%nat.
Proof. unfold AES.AddRoundKey. now rewrite length_map, length_seq. Qed.

Lemma AES_block_of_words_length (s : AES.words4) :
  length (AES.block_of_words s) = 16%nat.
Proof. destruct s as [[[s0 s1] s2] s3]. reflexivity. Qed.

Lemma AES_cbc_encrypt_length (n : nat) rks iv src :
  length (AES.cbc_encrypt n rks iv src) = (16 * n)%nat.
Proof.
  revert iv src. induction n as [|n IH]; intros iv src; [reflexivity|].
  cbn [AES.cbc_encrypt]. rewrite length_app, AES_block_of_words_length, IH. lia.
Qed.

Lemma AES_CBCEncrypt_length (key iv src : bytes) :
  length (AES.CBCEncrypt key iv src) = (16 * (length src / 16))%nat.
Proof. unfold AES.CBCEncrypt. now rewrite length_map, AES_cbc_encrypt_length. Qed.

Lemma copy_up_length (buf : bytes) (bp : Z) :
  0 <= bp -> length (copy_up buf bp) = length buf.
Proof.
  intros Hbp. unfold copy_up, len.
  rewrite !length_app, !length_take, length_drop. lia.
Qed.

Lemma repeat_loop_ok (fuel : nat) (buf : bytes) (bp : Z) :
  1 <= bp -> Z.max 0 (len buf - bp) < Z.of_nat fuel ->
  exists buf', repeat_loop fuel buf bp = Ok buf' /\ length buf' = length buf.
Proof.
  revert buf bp. induction fuel as [|fuel IH]; intros buf bp Hbp Hfuel.
  - lia.
  - cbn [repeat_loop]. destruct (Z.ltb_spec bp (len buf)) as [Hlt|Hge].
    + destruct (IH (copy_up buf bp) (bp * 2)) as (buf' & Hr & Hl).
      * lia.
      * unfold len in *. rewrite copy_up_length by lia. lia.
      * exists buf'. split; [exact Hr|]. rewrite Hl. apply copy_up_length. lia.
    + exists buf. split; reflexivity.
Qed.

(** The lengths a hash [K] of the loop can have. *)
Definition hash_len (K : bytes) : Prop := len K = 32 \/ len K = 48 \/ len K = 64.

Lemma slice_chk_ok (l : bytes) (lo hi : Z) :
  0 <= lo <= hi -> hi <= len l ->
  slice_chk l lo hi = Ok (slice l lo hi).
Proof.
  intros H1 H2. unfold slice_chk.
  destruct (Z.leb_spec 0 lo); [|lia]. destruct (Z.leb_spec lo hi); [|lia].
  destruct (Z.leb_spec hi (len l)); [|lia]. reflexivity.
Qed.

Lemma slice_length (l : bytes) (lo hi : Z) :
  0 <= lo <= hi -> hi <= len l -> len (slice l lo hi) = hi - lo.
Proof.
  intros H1 H2. unfold slice, len in *. rewrite length_take, length_drop. lia.
Qed.

(** One round either overruns the work buffer (a panic) or delivers [E], of
    which the last byte is read, and the next hash. *)
Lemma alg2b_round_cases (pwd userKey K : bytes) :
  hash_len K ->
  (alg2b_buf_len < (len pwd + len K + len userKey) * 64
   /\ alg2b_round pwd userKey K = Panic)
  \/ ((len pwd + len K + len userKey) * 64 <= alg2b_buf_len
      /\ exists E K',
          alg2b_round pwd userKey K = Ok (E, K')
          /\ is_byte (idx E (len E - 1)) /\ hash_len K').
Proof.
  intros HK. unfold alg2b_round.
  pose proof (len_nonneg pwd) as Hp. pose proof (len_nonneg userKey) as Hu.
  set (n := len pwd + len K + len userKey).
  assert (Hn : 32 <= n) by (unfold hash_len in HK; lia).
  destruct (Z.ltb_spec alg2b_buf_len (n * 64)) as [Hover|Hfit]; [left; split; [lia | reflexivity]|].
  right. split; [lia|].
  set (buf := (pwd ++ K ++ userKey) ++ replicate (Z.to_nat (n * 64 - n)) 0).
  assert (Hbuf : len buf = n * 64).
  { subst buf n. rewrite !len_app. unfold len at 4. rewrite length_replicate. unfold len in *. lia. }
  destruct (repeat_loop_ok (S (length buf)) buf n) as (K1 & HK1 & HlK1).
  { lia. } { unfold len in *. lia. }
  unfold repeat. rewrite HK1. cbn [bind].
  rewrite !slice_chk_ok by (unfold hash_len in HK; lia). cbn [bind].
  set (E := AES.CBCEncrypt _ _ K1).
  assert (HE : len E = n * 64).
  { subst E. unfold len in *. rewrite AES_CBCEncrypt_length, HlK1.
    assert (length buf = (16 * (4 * Z.to_nat n))%nat) by lia.
    replace (length buf) with (4 * Z.to_nat n * 16)%nat by lia.
    rewrite Nat.div_mul by lia. lia. }
  destruct (Z.ltb_spec (len E) 16) as [|_]; [lia|].
  eexists E, _. split; [reflexivity|]. split.
  - apply idx_is_byte. subst E. unfold AES.CBCEncrypt. apply map_Z_of_byte_is_bytes.
  - unfold hash_len.
    destruct (_ mod 3) as [|[]|]; rewrite ?sum256_length, ?sum384_length, ?sum512_length; auto.
Qed.

(** From the counter [i <= 286] on, [287 - i] rounds are enough. *)
Lemma alg2b_loop_rounds (k : nat) :
  forall (fuel : nat) (pwd userKey : bytes) (i : Z) (K : bytes),
    0 <= i -> i + Z.of_nat (S k) = 287 -> (S k <= fuel)%nat -> hash_len K ->
    alg2b_loop fuel pwd userKey i K = Panic
    \/ exists K' i',
        alg2b_loop fuel pwd userKey i K = Ok (K', i')
        /\ i < i' /\ 64 <= i' <= 287 /\ hash_len K'.
Proof.
  induction k as [|k IH]; intros fuel pwd userKey i K Hi Hk Hfuel HK;
    (destruct fuel as [|fuel]; [lia|]); cbn [alg2b_loop];
    destruct (alg2b_round_cases pwd userKey K HK) as [[_ ->] | (_ & E & K' & -> & Hb & HK')];
    try (left; reflexivity); cbn [bind].
  - right. replace (i + 1) with 287 by lia.
    change ((287 - 32) mod 256) with 255. unfold is_byte in Hb.
    destruct (Z.leb_spec (idx E (len E - 1)) 255) as [_|]; [|lia].
    exists K', 287. repeat split; try reflexivity; try assumption; lia.
  - destruct ((64 <=? i + 1) && (idx E (len E - 1) <=? (i + 1 - 32) mod 256)) eqn:Hc.
    + apply andb_true_iff in Hc as [Hc _]. apply Z.leb_le in Hc.
      right. exists K', (i + 1). repeat split; try reflexivity; try assumption; lia.
    + destruct (IH fuel pwd userKey (i + 1) K') as [HP | (K'' & i'' & Hr & Hlt & Hrange & HK'')];
        try assumption; try lia.
      * left. exact HP.
      * right. exists K'', i''. repeat split; try assumption; lia.
Qed.





(** ** Access rights (checkAccessRights) *)

Section AccessRights.
Variable rand_Read : nat -> bytes.

Lemma Alg6_state (c : PdfCrypt.t) (upass : bytes) :
  (snd (Alg6 rand_Read c upass) = Ok true
   /\ exists key, fst (Alg6 rand_Read c upass) = PdfCrypt.set_EncryptionKey c key)
  \/ (snd (Alg6 rand_Read c upass) <> Ok true /\ fst (Alg6 rand_Read c upass) = c).
Proof.
  unfold Alg6.
  destruct (if PdfCrypt.R c =? 2 then _ else _) as [[uo key]| | |]; cbn [fst snd].
  - destruct (bytes_eqb _ _); cbn [fst snd].
    + left. eauto.
    + right. split; [discriminate | reflexivity].
  - right. split; [discriminate | reflexivity].
  - right. split; [discriminate | reflexivity].
  - right. split; [discriminate | reflexivity].
Qed.

Lemma Alg7_state (c : PdfCrypt.t) (opass : bytes) :
  (snd (Alg7 rand_Read c opass) = Ok true
   /\ exists key, fst (Alg7 rand_Read c opass) = PdfCrypt.set_EncryptionKey c key)
  \/ (snd (Alg7 rand_Read c opass) <> Ok true /\ fst (Alg7 rand_Read c opass) = c).
Proof.
  unfold Alg7.
  destruct (alg3Key c opass) as [encKey| | |]; cbn [fst snd];
    try (right; split; [discriminate | reflexivity]).
  destruct (if PdfCrypt.R c =? 2 then _ else _) as [decrypted| | |]; cbn [fst snd];
    try (right; split; [discriminate | reflexivity]).
  destruct (Alg6_state c decrypted) as [[Hs (key & Hf)] | [Hs Hf]];
    destruct (Alg6 rand_Read c decrypted) as [c' [[]| | |]]; cbn [fst snd] in *;
    try congruence; subst;
    try (left; split; [reflexivity | eauto]);
    try (right; split; [discriminate | reflexivity]).
Qed.

Lemma GetAccessPermissions_set_EncryptionKey (c : PdfCrypt.t) (key : bytes) :
  GetAccessPermissions (PdfCrypt.set_EncryptionKey c key) = GetAccessPermissions c.
Proof. reflexivity. Qed.




End AccessRights.

(** The random source of the examples: zero bytes. *)
Definition zero_rand (n : nat) : bytes := replicate n 0.

(** A revision 2 document (40-bit RC4) with the permissions P = -44, the user
    password "user" and no owner password: its O and U entries are those
    Algorithm 3 and Algorithm 4 compute ([doc2_built]). *)
Definition doc2_O : bytes :=
  [142; 201; 158; 0; 195; 209; 132; 145; 10; 64; 100; 223; 15; 149; 22; 176;
   65; 54; 43; 155; 241; 220; 63; 104; 209; 91; 247; 31; 177; 109; 197; 243].
Definition doc2_U : bytes :=
  [193; 18; 85; 40; 206; 66; 63; 239; 169; 51; 230; 69; 140; 174; 152; 141;
   132; 106; 109; 111; 142; 169; 250; 13; 99; 228; 69; 243; 149; 17; 78; 49].
Definition doc2 : PdfCrypt.t :=
  PdfCrypt.Build 1 40 2 doc2_O doc2_U [] [] (-44) [] true (bytes_of_string "id0") []
    ∅ ∅ false {[ "Default" := CryptFilter.Build "V2" 40 ]} "" "".

Lemma doc2_built :
  Alg3 doc2 (bytes_of_string "user") [] = Ok doc2_O
  /\ Alg4 doc2 (bytes_of_string "user") = Ok (doc2_U, [1; 255; 9; 124; 41]).
Proof. split; vm_compute; reflexivity. Qed.

(** The same document made with the owner password "owner". *)
Definition doc2o_O : bytes :=
  [148; 232; 9; 68; 25; 102; 42; 119; 68; 66; 251; 7; 46; 61; 159; 25;
   233; 209; 48; 236; 9; 164; 208; 6; 30; 120; 254; 146; 15; 122; 182; 47].
Definition doc2o_U : bytes :=
  [47; 247; 45; 50; 13; 72; 49; 183; 64; 11; 123; 148; 65; 17; 65; 16;
   176; 156; 49; 182; 129; 79; 68; 138; 215; 214; 140; 187; 140; 6; 190; 2].
Definition doc2o : PdfCrypt.t :=
  PdfCrypt.Build 1 40 2 doc2o_O doc2o_U [] [] (-44) [] true (bytes_of_string "id0") []
    ∅ ∅ false {[ "Default" := CryptFilter.Build "V2" 40 ]} "" "".

Lemma doc2o_built :
  Alg3 doc2o (bytes_of_string "user") (bytes_of_string "owner") = Ok doc2o_O
  /\ Alg4 doc2o (bytes_of_string "user") = Ok (doc2o_U, [3; 38; 162; 167; 74]).
Proof. split; vm_compute; reflexivity. Qed.



(** ** Algorithm 2.A and the empty user password *)

Section EmptyPassword.
Variable rand_Read : nat -> bytes.

(** The password as [alg2a] uses it. *)
Definition truncated (pass : bytes) : bytes :=
  if 127 <? len pass then take 127 pass else pass.

Lemma alg12_R5 (c : PdfCrypt.t) (p : bytes) :
  PdfCrypt.R c = 5 -> 48 <= len (PdfCrypt.O c) -> 48 <= len (PdfCrypt.U c) ->
  alg12 c p = Ok [] \/ exists h, alg12 c p = Ok h /\ len h = 32.
Proof.
  intros HR HO HU. unfold alg12, crypt_alg2b. rewrite HR. cbn [Z.eqb Pos.eqb].
  repeat (rewrite slice_chk_ok by (unfold alg2b_R5; rewrite ?sum256_length; lia);
          cbn [bind]).
  destruct (negb _); [now left | right].
  eexists. split; [reflexivity|].
  rewrite slice_length; unfold alg2b_R5; rewrite ?sum256_length; lia.
Qed.

Lemma alg11_R5 (c : PdfCrypt.t) (p : bytes) :
  PdfCrypt.R c = 5 -> 48 <= len (PdfCrypt.U c) ->
  alg11 c p = Ok [] \/ exists h, alg11 c p = Ok h /\ len h = 32.
Proof.
  intros HR HU. unfold alg11, crypt_alg2b. rewrite HR. cbn [Z.eqb Pos.eqb].
  repeat (rewrite slice_chk_ok by (unfold alg2b_R5; rewrite ?sum256_length; lia);
          cbn [bind]).
  destruct (negb _); [now left | right].
  eexists. split; [reflexivity|].
  rewrite slice_length; unfold alg2b_R5; rewrite ?sum256_length; lia.
Qed.

Lemma alg2a_R5_empty_user_password (c : PdfCrypt.t) (pass : bytes) :
  PdfCrypt.R c = 5 ->
  48 <= len (PdfCrypt.O c) -> 48 <= len (PdfCrypt.U c) ->
  32 <= len (PdfCrypt.OE c) -> 32 <= len (PdfCrypt.UE c) ->
  (exists h, alg11 c [] = Ok h /\ h <> []) ->
  snd (alg2a c pass) = Ok true.
Proof.
  intros HR HO HU HOE HUE (h0 & Hh0 & Hne).
  assert (Hlen0 : (len h0 =? 0) = false).
  { destruct h0; [congruence|]. reflexivity. }
  assert (Hfinish : forall data ekey ukey,
            32 <= len ekey ->
            snd (match (ekey <- slice_chk ekey 0 32;;
                        ikey <- crypt_alg2b c data (truncated pass) ukey;;
                        ikey <- slice_chk ikey 0 32;;
                        Ok (AES.CBCDecrypt ikey (replicate 16 0) ekey)) with
                 | Ok fkey =>
                     let crypt := PdfCrypt.set_EncryptionKey c fkey in
                     if PdfCrypt.R crypt =? 5 then (crypt, Ok true) else alg13 crypt fkey
                 | Err e => (c, Err e)
                 | Panic => (c, Panic)
                 | OutOfFuel => (c, OutOfFuel)
                 end) = Ok true).
  { intros data ekey ukey Hek. unfold crypt_alg2b. rewrite HR. cbn [Z.eqb Pos.eqb].
    repeat (rewrite slice_chk_ok by (unfold alg2b_R5; rewrite ?sum256_length; lia);
            cbn [bind]).
    cbv zeta. replace (PdfCrypt.R (PdfCrypt.set_EncryptionKey c _)) with (PdfCrypt.R c)
      by reflexivity.
    rewrite HR. reflexivity. }
  unfold alg2a. fold (truncated pass).
  destruct (alg12_R5 c (truncated pass) HR HO HU) as [-> | (h & -> & Hl)]; cbn [bind].
  - change (len [] =? 0) with true. cbn [negb].
    destruct (alg11_R5 c (truncated pass) HR HU) as [-> | (h & -> & Hl)]; cbn [bind].
    + change (len [] =? 0) with true. cbv iota. rewrite Hh0. cbn [bind].
      rewrite Hlen0. rewrite ?slice_chk_ok by lia. cbn [bind]. now apply Hfinish.
    + destruct (Z.eqb_spec (len h) 0) as [|_]; [lia|]. cbn [bind].
      destruct (Z.eqb_spec (len h) 0) as [|_]; [lia|].
      rewrite ?slice_chk_ok by lia. cbn [bind]. now apply Hfinish.
  - destruct (Z.eqb_spec (len h) 0) as [|_]; [lia|]. cbn [negb].
    rewrite ?slice_chk_ok by lia. cbn [bind]. now apply Hfinish.
Qed.

Lemma alg2a_wrong_password (c : PdfCrypt.t) (pass : bytes) :
  alg12 c (truncated pass) = Ok [] -> alg11 c (truncated pass) = Ok [] ->
  alg11 c [] = Ok [] ->
  alg2a c pass = (c, Ok false).
Proof.
  intros H12 H11 H0. unfold alg2a. fold (truncated pass).
  rewrite H12. cbn [bind]. change (len [] =? 0) with true. cbn [negb].
  rewrite H11. cbn [bind]. change (len [] =? 0) with true. cbv iota.
  rewrite H0. cbn [bind]. reflexivity.
Qed.

Lemma set_Authenticated_fields (c : PdfCrypt.t) (b : bool) :
  PdfCrypt.R (PdfCrypt.set_Authenticated c b) = PdfCrypt.R c
  /\ PdfCrypt.O (PdfCrypt.set_Authenticated c b) = PdfCrypt.O c
  /\ PdfCrypt.U (PdfCrypt.set_Authenticated c b) = PdfCrypt.U c
  /\ PdfCrypt.OE (PdfCrypt.set_Authenticated c b) = PdfCrypt.OE c
  /\ PdfCrypt.UE (PdfCrypt.set_Authenticated c b) = PdfCrypt.UE c
  /\ (forall p, alg11 (PdfCrypt.set_Authenticated c b) p = alg11 c p)
  /\ (forall p, alg12 (PdfCrypt.set_Authenticated c b) p = alg12 c p).
Proof. repeat split. Qed.

(** The retry of alg2a: when the supplied password (cut to 127 bytes)
    matches neither the owner validation hash (Algorithm 12) nor the user
    validation hash (Algorithm 11), the user-side check is made once more
    with the empty password, and a wrong password is reported only if that
    fails too.  For a revision 5 document (O and U of at least 48 bytes, OE
    and UE of at least 32) whose user password is empty, authenticate then
    returns true for every supplied password: revision 5 returns before the
    file key is checked. *)
Lemma alg2a_empty_password_retry (c : PdfCrypt.t) (pass : bytes) :
  (alg12 c (truncated pass) = Ok [] -> alg11 c (truncated pass) = Ok [] ->
   alg11 c [] = Ok [] ->
   alg2a c pass = (c, Ok false))
  /\ (PdfCrypt.R c = 5 ->
      48 <= len (PdfCrypt.O c) -> 48 <= len (PdfCrypt.U c) ->
      32 <= len (PdfCrypt.OE c) -> 32 <= len (PdfCrypt.UE c) ->
      (exists h, alg11 c [] = Ok h /\ h <> []) ->
      snd (authenticate rand_Read c pass) = Ok true).
Proof.
  split; [apply alg2a_wrong_password|].
  intros HR HO HU HOE HUE Hempty.
  destruct (set_Authenticated_fields c false) as (ER & EO & EU & EOE & EUE & E11 & E12).
  unfold authenticate. cbv zeta. rewrite ER, HR. cbn [Z.leb Z.compare Pos.compare Pos.compare_cont].
  pose proof (alg2a_R5_empty_user_password (PdfCrypt.set_Authenticated c false) pass) as H.
  rewrite ER, EO, EU, EOE, EUE, E11 in H. specialize (H HR HO HU HOE HUE Hempty).
  destruct (alg2a _ pass) as [c' r]. cbn [snd] in H. subst r. reflexivity.
Qed.

End EmptyPassword.

(** A revision 5 document whose user password is empty: the first 32 bytes
    of U are the SHA-256 of the user validation salt U[32:40]. *)
Definition doc5_U : bytes :=
  [102; 132; 13; 218; 21; 78; 138; 17; 60; 49; 221; 10; 211; 47; 127; 58;
   54; 106; 128; 232; 19; 105; 121; 216; 245; 161; 1; 211; 210; 157; 111; 114;
   1; 2; 3; 4; 5; 6; 7; 8; 11; 12; 13; 14; 15; 16; 17; 18].
Definition doc5 : PdfCrypt.t :=
  PdfCrypt.Build 5 256 5 (seqZ 100 48) doc5_U (seqZ 0 32) (seqZ 32 32) (-1340) [] true [] []
    ∅ ∅ false ∅ "Identity" "Identity".

Lemma alg2a_empty_password_retry_doc5 :
  snd (authenticate zero_rand doc5 (bytes_of_string "not the password")) = Ok true.
Proof.
  apply (proj2 (alg2a_empty_password_retry zero_rand doc5 (bytes_of_string "not the password")));
    try (vm_compute; discriminate); try reflexivity.
  exists (take 32 doc5_U). split; [vm_compute; reflexivity | discriminate].
Defined.

(** Steps e and f of alg2a for a user password [p]: the intermediate key is
    the hash of [p] and the user key salt, and the file key is UE decrypted
    with it. *)
Definition user_file_key (c : PdfCrypt.t) (p : bytes) : result bytes :=
  salt <- slice_chk (PdfCrypt.U c) 40 48;;
  ekey <- slice_chk (PdfCrypt.UE c) 0 32;;
  ikey <- crypt_alg2b c (p ++ salt) p [];;
  ikey <- slice_chk ikey 0 32;;
  Ok (AES.CBCDecrypt ikey (replicate 16 0) ekey).

(** The end of alg2a once the file key is there: revision 5 returns true,
    the later revisions check the key with Algorithm 13. *)
Definition alg2a_verdict (c : PdfCrypt.t) (fkey : result bytes) : PdfCrypt.t * result bool :=
  match fkey with
  | Ok fkey =>
      let c' := PdfCrypt.set_EncryptionKey c fkey in
      if PdfCrypt.R c' =? 5 then (c', Ok true) else alg13 c' fkey
  | Err e => (c, Err e)
  | Panic => (c, Panic)
  | OutOfFuel => (c, OutOfFuel)
  end.

Lemma alg2a_user_path (c : PdfCrypt.t) (p : bytes) :
  (let sel : result (option (bytes * bytes * bytes)) :=
     salt <- slice_chk (PdfCrypt.U c) 40 48;;
     Ok (Some (p ++ salt, PdfCrypt.UE c, [])) in
   match sel with
   | Ok None => (c, Ok false)
   | Ok (Some (data, ekey, ukey)) =>
       match (ekey <- slice_chk ekey 0 32;;
              ikey <- crypt_alg2b c data p ukey;;
              ikey <- slice_chk ikey 0 32;;
              Ok (AES.CBCDecrypt ikey (replicate 16 0) ekey)) with
       | Ok fkey =>
           let crypt := PdfCrypt.set_EncryptionKey c fkey in
           if PdfCrypt.R crypt =? 5 then (crypt, Ok true) else alg13 crypt fkey
       | Err e => (c, Err e)
       | Panic => (c, Panic)
       | OutOfFuel => (c, OutOfFuel)
       end
   | Err e => (c, Err e)
   | Panic => (c, Panic)
   | OutOfFuel => (c, OutOfFuel)
   end) = alg2a_verdict c (user_file_key c p).
Proof.
  unfold user_file_key, alg2a_verdict. cbv zeta.
  destruct (slice_chk (PdfCrypt.U c) 40 48) as [salt| | |]; reflexivity.
Qed.

(** The password that matches the user validation hash gives the file key
    made from it. *)
Lemma alg2a_user_password (c : PdfCrypt.t) (pass h : bytes) :
  alg12 c (truncated pass) = Ok [] ->
  alg11 c (truncated pass) = Ok h -> h <> [] ->
  alg2a c pass = alg2a_verdict c (user_file_key c (truncated pass)).
Proof.
  intros H12 H11 Hne. unfold alg2a. fold (truncated pass).
  rewrite H12. cbn [bind]. change (len [] =? 0) with true. cbn [negb].
  rewrite H11. cbn [bind].
  assert (Hl : (len h =? 0) = false) by (destruct h; [congruence | reflexivity]).
  rewrite Hl. cbn [bind]. rewrite Hl. apply alg2a_user_path.
Qed.

(** C10: alg2a does retry the user-side check with the empty password when
    the supplied password matches neither validation hash, but when the
    retry succeeds it goes on with the supplied password: the file key it
    sets, and for the revisions after 5 submits to Algorithm 13, is the one
    the supplied password gives ([user_file_key] at the supplied password,
    cut to 127 bytes), not the one of the empty password that matched.  So
    the verdict for a document whose user password is empty is not the one
    of the empty password. *)
Theorem C10_retry_uses_supplied_password (c : PdfCrypt.t) (pass h : bytes) :
  alg12 c (truncated pass) = Ok [] ->
  alg11 c (truncated pass) = Ok [] ->
  alg11 c [] = Ok h -> h <> [] ->
  alg2a c pass = alg2a_verdict c (user_file_key c (truncated pass)).
Proof.
  intros H12 H11 H0 Hne.
  assert (Hl : (len h =? 0) = false) by (destruct h; [congruence | reflexivity]).
  unfold alg2a. fold (truncated pass).
  rewrite H12. cbn [bind]. change (len [] =? 0) with true. cbn [negb].
  rewrite H11. cbn [bind]. change (len [] =? 0) with true. cbv iota.
  rewrite H0. cbn [bind]. rewrite Hl. apply alg2a_user_path.
Qed.

Lemma C10_retry_uses_supplied_password_witness :
  alg2a doc5 (bytes_of_string "not the password")
  = alg2a_verdict doc5 (user_file_key doc5 (truncated (bytes_of_string "not the password"))).
Proof.
  apply (C10_retry_uses_supplied_password doc5 (bytes_of_string "not the password")
           (take 32 doc5_U)).
  - vm_compute. reflexivity.
  - vm_compute. reflexivity.
  - vm_compute. reflexivity.
  - discriminate.
Defined.

(** On the revision 5 document the retry lets every password in, with a
    file key that is not the document's: the key set for "not the password"
    differs from the key the empty password gives. *)
Lemma doc5_retry_sets_another_key :
  snd (alg2a doc5 (bytes_of_string "not the password")) = Ok true
  /\ snd (alg2a doc5 []) = Ok true
  /\ PdfCrypt.EncryptionKey (fst (alg2a doc5 (bytes_of_string "not the password")))
     <> PdfCrypt.EncryptionKey (fst (alg2a doc5 [])).
Proof. vm_compute. repeat split; discriminate. Qed.

(** ** The walkers: what is processed once *)

(** The objects a list of events marks as processed: the indirect objects
    entered and the streams whose payload went through the cipher. *)
Definition marked (l : list event) : list addr :=
  flat_map (fun e => match e with
                     | EnterIndirect a | CryptStream a => [a]
                     | CryptString _ => []
                     end) l.

Lemma marked_app (l1 l2 : list event) : marked (l1 ++ l2) = marked l1 ++ marked l2.
Proof. unfold marked. apply flat_map_app. Qed.

(** [extends d st st']: from [st] to [st'] the set of processed objects has
    grown, and the log has grown by events that mark pairwise distinct
    objects, none of them in the set before, all of them in the set after. *)
Definition extends (d : direction) (st st' : walk_state) : Prop :=
  (processed d st ⊆ processed d st')
  /\ exists new,
      log st' = log st ++ new
      /\ NoDup (marked new)
      /\ forall a, a ∈ marked new -> (a ∉ processed d st) /\ (a ∈ processed d st').

Lemma extends_refl (d : direction) (st : walk_state) : extends d st st.
Proof.
  split; [set_solver|]. exists []. rewrite app_nil_r.
  split; [reflexivity|]. split; [constructor|]. intros a Ha. inversion Ha.
Qed.

Lemma extends_trans (d : direction) (st1 st2 st3 : walk_state) :
  extends d st1 st2 -> extends d st2 st3 -> extends d st1 st3.
Proof.
  intros (Hs12 & n12 & Hl12 & Hd12 & Hm12) (Hs23 & n23 & Hl23 & Hd23 & Hm23).
  split; [set_solver|]. exists (n12 ++ n23).
  split; [rewrite Hl23, Hl12; now rewrite app_assoc|].
  rewrite marked_app. split.
  - apply NoDup_app. split; [assumption|]. split; [|assumption].
    intros a Ha1 Ha2. destruct (Hm12 a Ha1) as [_ Hin]. destruct (Hm23 a Ha2) as [Hnin _].
    contradiction.
  - intros a Ha. apply elem_of_app in Ha as [Ha|Ha].
    + destruct (Hm12 a Ha). split; [assumption | set_solver].
    + destruct (Hm23 a Ha). split; [set_solver | assumption].
Qed.

Lemma extends_same (d : direction) (st st' : walk_state) :
  processed d st' = processed d st -> log st' = log st -> extends d st st'.
Proof.
  intros Hp Hl. split; [rewrite Hp; set_solver|]. exists []. rewrite app_nil_r.
  split; [assumption|]. split; [constructor|]. intros a Ha. inversion Ha.
Qed.

Lemma processed_mark (d : direction) (st : walk_state) (obj : addr) :
  processed d (mark d st obj) = {[obj]} ∪ processed d st.
Proof. destruct d; reflexivity. Qed.

Lemma extends_mark (d : direction) (st : walk_state) (obj : addr) :
  extends d st (mark d st obj).
Proof.
  split; [rewrite processed_mark; set_solver|]. exists []. rewrite app_nil_r.
  split; [destruct d; reflexivity|]. split; [constructor|]. intros a Ha. inversion Ha.
Qed.

Lemma extends_string_event (d : direction) (st : walk_state) (obj : addr) :
  extends d st (with_event st (CryptString obj)).
Proof.
  split; [destruct d; set_solver|]. exists [CryptString obj].
  split; [reflexivity|]. split; [constructor|]. intros a Ha. inversion Ha.
Qed.

Lemma extends_enter_indirect (d : direction) (st : walk_state) (obj : addr) :
  obj ∉ processed d st ->
  extends d st (with_event (mark d st obj) (EnterIndirect obj)).
Proof.
  intros Hnin. split.
  - change (processed d (with_event (mark d st obj) (EnterIndirect obj)))
      with (processed d (mark d st obj)).
    rewrite processed_mark. set_solver.
  - exists [EnterIndirect obj]. split; [destruct d; reflexivity|].
    split; [apply NoDup_singleton|].
    intros a Ha. cbn in Ha. apply list_elem_of_singleton in Ha as ->.
    split; [assumption|].
    change (processed d (with_event (mark d st obj) (EnterIndirect obj)))
      with (processed d (mark d st obj)).
    rewrite processed_mark. set_solver.
Qed.

Lemma extends_stream_event (d : direction) (st st1 : walk_state) (obj : addr) :
  obj ∉ processed d st ->
  extends d (mark d st obj) st1 ->
  extends d st (with_event st1 (CryptStream obj)).
Proof.
  intros Hnin (Hs & new & Hl & Hd & Hm).
  rewrite processed_mark in Hs.
  assert (Hlog : log (mark d st obj) = log st) by (destruct d; reflexivity).
  split.
  - change (processed d (with_event st1 (CryptStream obj))) with (processed d st1).
    set_solver.
  - exists (new ++ [CryptStream obj]). split.
    + cbn [with_event log]. rewrite Hl, Hlog. now rewrite app_assoc.
    + rewrite marked_app. cbn [marked flat_map app]. split.
      * apply NoDup_app. split; [assumption|]. split; [|apply NoDup_singleton].
        intros a Ha Hobj. apply list_elem_of_singleton in Hobj as ->.
        destruct (Hm obj Ha) as [Hn _]. rewrite processed_mark in Hn. set_solver.
      * intros a Ha. change (processed d (with_event st1 (CryptStream obj)))
          with (processed d st1).
        apply elem_of_app in Ha as [Ha|Ha].
        -- destruct (Hm a Ha) as [Hn Hi]. rewrite processed_mark in Hn.
           split; [set_solver | assumption].
        -- apply list_elem_of_singleton in Ha as ->. split; [assumption | set_solver].
Qed.

Lemma isProcessed_false (d : direction) (st : walk_state) (obj : addr) :
  isProcessed d (crypt st) obj = false -> obj ∉ processed d st.
Proof.
  destruct d; unfold isProcessed, isDecrypted, isEncrypted, processed;
    intros H; now apply bool_decide_eq_false in H.
Qed.

Section WalkOnce.
Variable rand_Read : nat -> bytes.
Variable d : direction.

Lemma extends_with_heap (st st' : walk_state) (h : gmap addr PdfObject) :
  extends d st st' -> extends d st (with_heap st' h).
Proof.
  intros H. eapply extends_trans; [exact H|]. now apply extends_same.
Qed.

(** The loop over the elements of an array. *)
Lemma walk_array_extends (fuel : nat) (pn pg : Z)
  (IH : forall st obj pn pg, extends d st (fst (walk rand_Read d fuel st obj pn pg))) :
  forall (l : list addr) (st : walk_state),
    extends d st
      (fst ((fix each (l : list addr) (st : walk_state) : walk_state * result unit :=
               match l with
               | [] => (st, Ok tt)
               | o :: rest =>
                   match walk rand_Read d fuel st o pn pg with
                   | (st, Ok _) => each rest st
                   | r => r
                   end
               end) l st)).
Proof.
  induction l as [|o rest IHl]; intros st; [apply extends_refl|].
  pose proof (IH st o pn pg) as Ho.
  destruct (walk rand_Read d fuel st o pn pg) as [st1 [[]| | |]]; cbn [fst] in *;
    try exact Ho.
  eapply extends_trans; [exact Ho | apply IHl].
Qed.

(** The loop over the keys of a dictionary. *)
Lemma walk_dict_extends (fuel : nat) (pn pg : Z) (obj : addr) (isSig : bool)
  (IH : forall st obj pn pg, extends d st (fst (walk rand_Read d fuel st obj pn pg))) :
  forall (keys : list string) (st : walk_state),
    extends d st
      (fst ((fix each (keys : list string) (st : walk_state) : walk_state * result unit :=
               match keys with
               | [] => (st, Ok tt)
               | keyidx :: rest =>
                   let o :=
                     match heap st !! obj with
                     | Some (PdfObjectDictionary entries) => dict_Get entries keyidx
                     | _ => None
                     end in
                   if isSig && String.eqb keyidx "Contents" then each rest st
                   else if negb (String.eqb keyidx "Parent")
                           && negb (String.eqb keyidx "Prev")
                           && negb (String.eqb keyidx "Last")
                   then
                     match o with
                     | Some o =>
                         match walk rand_Read d fuel st o pn pg with
                         | (st, Ok _) => each rest st
                         | r => r
                         end
                     | None => each rest st
                     end
                   else each rest st
               end) keys st)).
Proof.
  induction keys as [|k rest IHk]; intros st; [apply extends_refl|].
  cbv zeta.
  destruct (isSig && String.eqb k "Contents"); [apply IHk|].
  destruct (negb (String.eqb k "Parent") && negb (String.eqb k "Prev")
            && negb (String.eqb k "Last")); [|apply IHk].
  destruct (match heap st !! obj with
            | Some (PdfObjectDictionary entries) => dict_Get entries k
            | _ => None
            end) as [o|]; [|apply IHk].
  pose proof (IH st o pn pg) as Ho.
  destruct (walk rand_Read d fuel st o pn pg) as [st1 [[]| | |]]; cbn [fst] in *;
    try exact Ho.
  eapply extends_trans; [exact Ho | apply IHk].
Qed.

Lemma walk_extends (fuel : nat) :
  forall (st : walk_state) (obj : addr) (pn pg : Z),
    extends d st (fst (walk rand_Read d fuel st obj pn pg)).
Proof.
  induction fuel as [|fuel IH]; intros st obj pn pg; [apply extends_refl|].
  cbn [walk].
  destruct (isProcessed d (crypt st) obj) eqn:Hproc; [apply extends_refl|].
  apply isProcessed_false in Hproc.
  destruct (heap st !! obj) as [o|] eqn:Hobj; [|apply extends_refl].
  destruct o as [ | | | | s | | elems | entries | on gn inner | on gn dict Stream];
    try apply extends_refl.
  - (* string *)
    destruct (_ && _); [apply extends_refl|].
    destruct (makeKey _ _ _ _ _) as [key| | |]; try apply extends_refl.
    destruct (cryptBytes _ _ _ _ _ _) as [[s' [e|]]| | |]; cbn [fst];
      apply extends_string_event.
  - (* array *)
    now apply walk_array_extends.
  - (* dictionary *)
    now apply walk_dict_extends.
  - (* indirect object *)
    apply (extends_trans d st (with_event (mark d st obj) (EnterIndirect obj)));
      [now apply extends_enter_indirect | apply IH].
  - (* stream *)
    assert (Hheap : heap (mark d st obj) = heap st) by (destruct d; reflexivity).
    rewrite Hheap.
    destruct (heap st !! dict) as [[ | | | | | | | entries | | ]|];
      cbn [fst]; try apply extends_mark.
    destruct (if 4 <=? PdfCrypt.V (crypt (mark d st obj)) then _ else _)
      as [streamFilter| | |]; cbn [fst]; try apply extends_mark.
    destruct (_ && _); cbn [fst]; [apply extends_mark|].
    pose proof (IH (mark d st obj) dict on gn) as Hd.
    destruct (walk rand_Read d fuel (mark d st obj) dict on gn) as [st1 r1]. cbn [fst] in Hd.
    assert (Hst1 : extends d st st1) by (eapply extends_trans; [apply extends_mark | exact Hd]).
    destruct r1 as [[]| | |]; cbn [fst]; try exact Hst1.
    destruct (makeKey _ _ _ _ _) as [okey| | |]; cbn [fst]; try exact Hst1.
    destruct (heap st1 !! obj) as [[ | | | | | | | | | on' gn' dc Stream']|];
      cbn [fst]; try exact Hst1.
    pose proof (extends_stream_event d st st1 obj Hproc Hd) as Hev.
    destruct (cryptBytes _ _ _ _ _ _) as [[Stream'' [e|]]| | |]; cbn [fst];
      try exact Hev; try (apply extends_with_heap; exact Hev).
    destruct (heap _ !! dict) as [[ | | | | | | | entries' | | ]|]; cbn [fst];
      apply extends_with_heap; exact Hev.
Qed.

End WalkOnce.

(** Events that mark pairwise distinct objects do not repeat. *)
Lemma count_occ_marked (new : list event) (e : event) (a : addr) :
  e = CryptStream a \/ e = EnterIndirect a ->
  NoDup (marked new) -> (count_occ event_eq_dec new e <= 1)%nat.
Proof.
  intros He. induction new as [|x new IH]; intros Hd; [cbn; lia|].
  cbn [count_occ]. destruct (event_eq_dec x e) as [->|Hne].
  - assert (Hd' : NoDup (a :: marked new)) by (destruct He as [-> | ->]; exact Hd).
    apply NoDup_cons in Hd' as [Hnin Hd'].
    assert (count_occ event_eq_dec new e = 0%nat) as ->; [|lia].
    apply count_occ_not_In. intros Hine. apply Hnin.
    unfold marked. apply list_elem_of_In, in_flat_map. exists e.
    split; [assumption|]. destruct He as [-> | ->]; now left.
  - apply IH. change (x :: new) with ([x] ++ new) in Hd.
    rewrite marked_app in Hd. now apply NoDup_app in Hd as (_ & _ & Hd).
Qed.

Lemma In_marked (new : list event) (e : event) (a : addr) :
  e = CryptStream a \/ e = EnterIndirect a -> In e new -> a ∈ marked new.
Proof.
  intros He Hine. unfold marked. apply list_elem_of_In, in_flat_map.
  exists e. split; [assumption|]. destruct He as [-> | ->]; now left.
Qed.

(** C4 (as amended): in a decryption pass, and likewise in an encryption
    pass, the walker memoizes the indirect objects and the streams by
    identity: whatever the graph and the set of objects already processed,
    every stream has its payload decrypted (or encrypted) at most once and
    every indirect object is entered at most once, and an object of those two
    kinds that was in the set at the start is not processed at all.  Strings,
    arrays and dictionaries are not entered in the set. *)
Theorem C4_processed_once (rand_Read : nat -> bytes) (d : direction) (fuel : nat)
  (st : walk_state) (obj : addr) (parentObjNum parentGenNum : Z) :
  let st' := fst (walk rand_Read d fuel st obj parentObjNum parentGenNum) in
  exists new,
    log st' = log st ++ new
    /\ NoDup (marked new)
    /\ (forall a, In (CryptStream a) new \/ In (EnterIndirect a) new ->
                  (a ∉ processed d st) /\ (a ∈ processed d st'))
    /\ (forall a, (count_occ event_eq_dec new (CryptStream a) <= 1)%nat
                  /\ (count_occ event_eq_dec new (EnterIndirect a) <= 1)%nat).
Proof.
  cbv zeta.
  destruct (walk_extends rand_Read d fuel st obj parentObjNum parentGenNum)
    as (_ & new & Hl & Hd & Hm).
  exists new. split; [exact Hl|]. split; [exact Hd|]. split.
  - intros a [Ha|Ha]; apply Hm;
      [apply (In_marked new (CryptStream a)) | apply (In_marked new (EnterIndirect a))];
      auto.
  - intros a. split; apply (count_occ_marked new _ a); auto.
Qed.

(** An array that holds the same string twice (as the only content of the
    indirect object 7 0) and a 40-bit RC4 document key. *)
Definition shared_string_heap : gmap addr PdfObject :=
  {[ 1%positive := PdfIndirectObject 7 0 2%positive;
     2%positive := PdfObjectArray [3%positive; 3%positive];
     3%positive := PdfObjectString [10; 20; 30] ]}.

Definition crypt_rc4 : PdfCrypt.t :=
  PdfCrypt.Build 1 40 2 [] [] [] [] (-4) [] true [] [1; 2; 3; 4; 5] ∅ ∅ false
    {[ "Default" := CryptFilter.Build "V2" 40 ]} "" "".

(** The string reached through both elements of the array is decrypted
    twice in one pass; with RC4 the second pass over the bytes restores the
    ciphertext, so the string is left as it was. *)
Lemma C4_counterexample :
  let r := Decrypt zero_rand 10 (WalkState crypt_rc4 shared_string_heap []) 1%positive 0 0 in
  snd r = Ok tt
  /\ log (fst r) = [EnterIndirect 1%positive; CryptString 3%positive; CryptString 3%positive]
  /\ heap (fst r) !! 3%positive = Some (PdfObjectString [10; 20; 30]).
Proof. vm_compute. repeat split. Qed.

(** * Further properties of the security handler *)

(** ** Permissions: GetP and GetAccessPermissions *)

(** X1: GetAccessPermissions undoes GetP: a handler whose P is the value
    GetP makes of a permissions record decodes to that record. *)
Theorem X1_permissions_roundtrip (c : PdfCrypt.t) (perms : AccessPermissions.t) :
  PdfCrypt.P c = GetP perms -> GetAccessPermissions c = perms.
Proof.
  intros HP. unfold GetAccessPermissions. rewrite HP.
  destruct perms as [[] [] [] [] [] [] [] []]; reflexivity.
Qed.

Lemma X1_permissions_roundtrip_witness :
  GetAccessPermissions (crypt_of_P 2068)
  = AccessPermissions.Build true false true false false false false true.
Proof. apply X1_permissions_roundtrip. reflexivity. Defined.

Lemma land_pow2_cases (P k : Z) :
  0 <= k -> Z.land P (Z.shiftl 1 k) = if Z.testbit P k then Z.shiftl 1 k else 0.
Proof.
  intros Hk. rewrite Z.shiftl_1_l. apply Z.bits_inj'. intros n Hn.
  rewrite Z.land_spec, Z.pow2_bits_eqb by lia.
  destruct (Z.eqb_spec k n) as [->|Hne].
  - destruct (Z.testbit P n); [now rewrite Z.pow2_bits_true by lia | now rewrite Z.bits_0].
  - rewrite andb_false_r. destruct (Z.testbit P k).
    + symmetry. apply Z.pow2_bits_false. lia.
    + now rewrite Z.bits_0.
Qed.

(** X2: GetP after GetAccessPermissions keeps the eight permission bits of P
    (the mask 0xF3C: bits 3 to 6 and 9 to 12 counted from 1) and clears all
    the others, the reserved high bits and the sign included. *)
Theorem X2_permissions_mask (c : PdfCrypt.t) :
  GetP (GetAccessPermissions c) = Z.land (PdfCrypt.P c) 3900.
Proof.
  set (P := PdfCrypt.P c).
  change 3900 with
    (Z.lor (Z.shiftl 1 11) (Z.lor (Z.shiftl 1 10) (Z.lor (Z.shiftl 1 9) (Z.lor (Z.shiftl 1 8)
      (Z.lor (Z.shiftl 1 5) (Z.lor (Z.shiftl 1 4) (Z.lor (Z.shiftl 1 3) (Z.shiftl 1 2)))))))).
  rewrite !Z.land_lor_distr_r.
  unfold GetAccessPermissions, GetP. fold P.
  cbn [AccessPermissions.Printing AccessPermissions.Modify AccessPermissions.ExtractGraphics
       AccessPermissions.Annotate AccessPermissions.FillForms
       AccessPermissions.DisabilityExtract AccessPermissions.RotateInsert
       AccessPermissions.FullPrintQuality].
  rewrite !land_pow2_testbit by lia. rewrite !land_pow2_cases by lia.
  destruct (Z.testbit P 2), (Z.testbit P 3), (Z.testbit P 4), (Z.testbit P 5),
    (Z.testbit P 8), (Z.testbit P 9), (Z.testbit P 10), (Z.testbit P 11); reflexivity.
Qed.

(** ** Passwords are read through paddedPass (R < 5) *)

Lemma paddedPass_length (pass : bytes) : length (paddedPass pass) = 32%nat.
Proof.
  unfold paddedPass, len. destruct (Z.leb_spec 32 (Z.of_nat (length pass))).
  - rewrite length_take. lia.
  - rewrite length_app, length_take. change (length padding) with 32%nat. lia.
Qed.

Lemma paddedPass_take (pass : bytes) : paddedPass (take 32 pass) = paddedPass pass.
Proof.
  destruct (decide (32 <= length pass)%nat) as [Hlong|Hshort].
  - unfold paddedPass, len. rewrite length_take, Nat.min_l by lia.
    change (32 <=? Z.of_nat 32) with true. cbv iota.
    destruct (Z.leb_spec 32 (Z.of_nat (length pass))); [|lia]. now rewrite take_take.
  - now rewrite take_ge by lia.
Qed.

Lemma paddedPass_idem (pass : bytes) : paddedPass (paddedPass pass) = paddedPass pass.
Proof.
  unfold paddedPass at 1. unfold len. rewrite paddedPass_length. cbn [Z.leb Z.of_nat].
  change (32 <=? Z.of_nat 32) with true. cbv iota.
  apply take_ge. rewrite paddedPass_length. lia.
Qed.

Lemma Alg2_padded (c : PdfCrypt.t) (p q : bytes) :
  paddedPass p = paddedPass q -> Alg2 c p = Alg2 c q.
Proof. intros H. unfold Alg2. now rewrite H. Qed.

Lemma alg3Key_padded (c : PdfCrypt.t) (p q : bytes) :
  paddedPass p = paddedPass q -> alg3Key c p = alg3Key c q.
Proof. intros H. unfold alg3Key. now rewrite H. Qed.

Section PaddedPasswords.
Variable rand_Read : nat -> bytes.

Lemma Alg6_padded (c : PdfCrypt.t) (p q : bytes) :
  paddedPass p = paddedPass q -> Alg6 rand_Read c p = Alg6 rand_Read c q.
Proof.
  intros H. unfold Alg6, Alg4, Alg5. now rewrite (Alg2_padded c p q H).
Qed.

Lemma Alg7_padded (c : PdfCrypt.t) (p q : bytes) :
  paddedPass p = paddedPass q -> Alg7 rand_Read c p = Alg7 rand_Read c q.
Proof. intros H. unfold Alg7. now rewrite (alg3Key_padded c p q H). Qed.

(** X3: for the revisions below 5 a password is read through paddedPass
    only: two passwords with the same 32-byte padded form (a password and
    its first 32 bytes; the empty password and the 32-byte padding string)
    are authenticated alike and get the same access rights, with the same
    final state of the handler. *)
Theorem X3_padded_passwords (c : PdfCrypt.t) (p q : bytes) :
  PdfCrypt.R c < 5 -> paddedPass p = paddedPass q ->
  authenticate rand_Read c p = authenticate rand_Read c q
  /\ checkAccessRights rand_Read c p = checkAccessRights rand_Read c q
  /\ authenticate rand_Read c (take 32 p) = authenticate rand_Read c p.
Proof.
  intros HR H.
  assert (Hauth : forall a b, paddedPass a = paddedPass b ->
            authenticate rand_Read c a = authenticate rand_Read c b).
  { intros a b Hab. unfold authenticate. cbv zeta.
    destruct (5 <=? PdfCrypt.R _) eqn:E.
    { apply Z.leb_le in E. cbn in E. lia. }
    rewrite (Alg6_padded _ a b Hab).
    destruct (Alg6 _ _ b) as [c1 [[]| | |]]; rewrite ?(Alg7_padded _ a b Hab);
      reflexivity. }
  split; [now apply Hauth|]. split; [|apply Hauth, paddedPass_take].
  unfold checkAccessRights. cbv zeta.
  destruct (Z.leb_spec 5 (PdfCrypt.R c)) as [|_]; [lia|].
  rewrite (Alg7_padded c p q H).
  pose proof (Alg7_state rand_Read c q) as Hs.
  destruct (Alg7 rand_Read c q) as [c1 [[]| | |]]; try reflexivity.
  cbn [fst snd] in Hs. destruct Hs as [[Hs _]|[_ ->]]; [discriminate|].
  destruct (Z.leb_spec 5 (PdfCrypt.R c)); [lia|]. now rewrite (Alg6_padded c p q H).
Qed.

End PaddedPasswords.

Lemma X3_padded_passwords_witness :
  authenticate zero_rand doc2 [] = authenticate zero_rand doc2 padding
  /\ checkAccessRights zero_rand doc2 [] = checkAccessRights zero_rand doc2 padding
  /\ authenticate zero_rand doc2 (take 32 []) = authenticate zero_rand doc2 [].
Proof. apply X3_padded_passwords; [vm_compute; reflexivity | reflexivity]. Defined.

(** ** RC4 is its own inverse *)

Lemma RC4_prga_involutive (src : bytes) :
  forall (sbox : list Z) (i j : Z),
    RC4.prga sbox i j (RC4.prga sbox i j src) = src.
Proof.
  induction src as [|b rest IH]; intros sbox i j; [reflexivity|].
  cbn [RC4.prga]. rewrite IH. f_equal.
  now rewrite Z.lxor_assoc, Z.lxor_nilpotent, Z.lxor_0_r.
Qed.

Lemma RC4_XORKeyStream_involutive (key src : bytes) :
  RC4.XORKeyStream key (RC4.XORKeyStream key src) = src.
Proof. apply RC4_prga_involutive. Qed.

Lemma RC4_prga_length (src : bytes) :
  forall (sbox : list Z) (i j : Z), length (RC4.prga sbox i j src) = length src.
Proof.
  induction src as [|b rest IH]; intros sbox i j; [reflexivity|].
  cbn [RC4.prga length]. now rewrite IH.
Qed.

Lemma RC4_XORKeyStream_length (key src : bytes) :
  length (RC4.XORKeyStream key src) = length src.
Proof. apply RC4_prga_length. Qed.

Section RC4Filter.
Variable rand_Read : nat -> bytes.

(** X4: with an RC4 crypt filter (method V2) decryptBytes undoes
    encryptBytes and encryptBytes undoes decryptBytes, for every buffer and
    every key either of them accepts. *)
Theorem X4_rc4_filter_roundtrip (c : PdfCrypt.t) (filter : string) (cf : CryptFilter.t)
  (okey buf out : bytes) :
  PdfCrypt.CryptFilters c !! filter = Some cf ->
  CryptFilter.Cfm cf = CryptFilterV2 ->
  (encryptBytes rand_Read c buf filter okey = Ok (out, None) ->
   decryptBytes c out filter okey = (buf, None))
  /\ (decryptBytes c buf filter okey = (out, None) ->
      encryptBytes rand_Read c out filter okey = Ok (buf, None)).
Proof.
  intros Hcf Hm. unfold encryptBytes, decryptBytes. rewrite Hcf, Hm.
  change (String.eqb CryptFilterV2 "V2") with true.
  change (String.eqb CryptFilterV2 CryptFilterV2) with true. cbv iota.
  destruct (RC4.key_ok okey); cbn [negb]; split; intros H; try discriminate;
    inversion H; subst; now rewrite RC4_XORKeyStream_involutive.
Qed.

End RC4Filter.

Lemma X4_rc4_filter_roundtrip_witness :
  decryptBytes crypt_rc4 (RC4.XORKeyStream [1; 2; 3; 4; 5] [72; 105]) "Default" [1; 2; 3; 4; 5]
  = ([72; 105], None).
Proof.
  apply (proj1 (X4_rc4_filter_roundtrip zero_rand crypt_rc4 "Default"
                  (CryptFilter.Build "V2" 40) [1; 2; 3; 4; 5] [72; 105]
                  (RC4.XORKeyStream [1; 2; 3; 4; 5] [72; 105]) eq_refl eq_refl)).
  reflexivity.
Defined.

(** ** The passwords a document is made with open it (R < 5) *)

(** The key of a round of the loops of Alg3, Alg5 and Alg7. *)
Definition xor_key (ekey : bytes) (n : Z) : bytes :=
  map (fun b => Z.lxor b (byte n)) ekey.

Lemma xor_key_ok (ekey : bytes) (n : Z) : RC4.key_ok (xor_key ekey n) = RC4.key_ok ekey.
Proof. unfold RC4.key_ok, xor_key, len. now rewrite length_map. Qed.

Lemma xor_key_0 (ekey : bytes) : xor_key ekey 0 = ekey.
Proof.
  unfold xor_key. induction ekey as [|b l IH]; [reflexivity|].
  cbn [map]. rewrite IH. change (byte 0) with 0. now rewrite Z.lxor_0_r.
Qed.

Lemma rc4_rounds (ekey : bytes) (msg : string) (g : Z -> Z) (l : list Z) :
  RC4.key_ok ekey = true ->
  forall e : bytes,
    fold_left
      (fun (r : result bytes) i =>
         e <- r;;
         let k := map (fun b => Z.lxor b (byte (g i))) ekey in
         if negb (RC4.key_ok k) then Err (Errorf msg) else Ok (RC4.XORKeyStream k e))
      l (Ok e)
    = Ok (fold_left (fun e n => RC4.XORKeyStream (xor_key ekey n) e) (map g l) e).
Proof.
  intros Hok. induction l as [|i l IH]; intros e; [reflexivity|].
  cbn [fold_left bind map]. fold (xor_key ekey (g i)).
  rewrite xor_key_ok, Hok. cbn [negb]. apply IH.
Qed.

Lemma rc4_rounds_undone (ekey : bytes) (l : list Z) :
  forall e : bytes,
    fold_left (fun e n => RC4.XORKeyStream (xor_key ekey n) e) (rev l)
      (fold_left (fun e n => RC4.XORKeyStream (xor_key ekey n) e) l e) = e.
Proof.
  induction l as [|n l IH]; intros e; [reflexivity|].
  cbn [rev fold_left]. rewrite fold_left_app, IH. cbn [fold_left].
  apply RC4_XORKeyStream_involutive.
Qed.

(** Alg7's twenty rounds undo the first RC4 pass and the nineteen rounds of
    Alg3. *)
Lemma rc4_20_down_rc4_19 (encKey x : bytes) :
  RC4.key_ok encKey = true ->
  (y <- rc4_19 encKey (RC4.XORKeyStream encKey x);; rc4_20_down encKey y) = Ok x.
Proof.
  intros Hok. unfold rc4_19, rc4_20_down.
  rewrite (rc4_rounds encKey "Failed rc4 ciph" (fun i => i + 1) _ Hok). cbn [bind].
  rewrite (rc4_rounds encKey "Failed cipher" (fun i => 19 - i) _ Hok). f_equal.
  change (map (fun i => 19 - i) (seqZ 0 20)) with (rev (0 :: map (fun i => i + 1) (seqZ 0 19))).
  replace (RC4.XORKeyStream encKey x) with (RC4.XORKeyStream (xor_key encKey 0) x)
    by now rewrite xor_key_0.
  exact (rc4_rounds_undone encKey (0 :: map (fun i => i + 1) (seqZ 0 19)) x).
Qed.

Section MadeWith.
Variable rand_Read : nat -> bytes.

(** The U entry of revision [R]: Algorithm 4 for revision 2, Algorithm 5
    from revision 3 on. *)
Definition user_entry (c : PdfCrypt.t) (upass : bytes) : result (bytes * bytes) :=
  if PdfCrypt.R c =? 2 then Alg4 c upass else Alg5 rand_Read c upass.

Lemma Alg6_user_entry (c : PdfCrypt.t) (upass key : bytes) :
  PdfCrypt.R c = 2 \/ 3 <= PdfCrypt.R c ->
  user_entry c upass = Ok (PdfCrypt.U c, key) ->
  Alg6 rand_Read c upass = (PdfCrypt.set_EncryptionKey c key, Ok true).
Proof.
  intros HR HU. unfold Alg6. unfold user_entry in HU.
  destruct (Z.eqb_spec (PdfCrypt.R c) 2) as [E|NE].
  - rewrite HU. unfold bytes_eqb. now rewrite bool_decide_eq_true_2.
  - destruct (Z.leb_spec 3 (PdfCrypt.R c)) as [_|]; [|lia].
    rewrite HU. unfold bytes_eqb. now rewrite bool_decide_eq_true_2.
Qed.

Lemma Alg7_owner_entry (c : PdfCrypt.t) (upass opass key : bytes) :
  PdfCrypt.R c = 2 \/ 3 <= PdfCrypt.R c ->
  Alg3 c upass opass = Ok (PdfCrypt.O c) ->
  user_entry c upass = Ok (PdfCrypt.U c, key) ->
  Alg7 rand_Read c (if 0 <? len opass then opass else upass)
  = (PdfCrypt.set_EncryptionKey c key, Ok true).
Proof.
  intros HR HO HU. unfold Alg3 in HO. unfold Alg7.
  set (owner := if 0 <? len opass then opass else upass).
  assert (HO' : (encKey <- alg3Key c owner;;
                 if negb (RC4.key_ok encKey) then Err (Errorf "Failed rc4 ciph")
                 else
                   let encrypted := RC4.XORKeyStream encKey (paddedPass upass) in
                   if 3 <=? PdfCrypt.R c then rc4_19 encKey encrypted else Ok encrypted)
                = Ok (PdfCrypt.O c)).
  { subst owner. destruct (0 <? len opass); exact HO. }
  clear HO. destruct (alg3Key c owner) as [encKey| | |]; try discriminate.
  cbn [bind] in HO'. destruct (RC4.key_ok encKey) eqn:Hok; [|discriminate].
  cbn [negb] in HO'. cbv zeta in HO'.
  assert (Hdec : (if PdfCrypt.R c =? 2
                  then if negb true then Err (Errorf "Failed cipher")
                       else Ok (RC4.XORKeyStream encKey (PdfCrypt.O c))
                  else if 3 <=? PdfCrypt.R c then rc4_20_down encKey (PdfCrypt.O c)
                       else Err (Errorf "invalid R"))
                 = Ok (paddedPass upass)).
  { destruct (Z.eqb_spec (PdfCrypt.R c) 2) as [E|NE].
    - rewrite E in HO'. change (3 <=? 2) with false in HO'. cbv iota in HO'.
      injection HO' as <-. cbn [negb]. now rewrite RC4_XORKeyStream_involutive.
    - destruct (Z.leb_spec 3 (PdfCrypt.R c)) as [_|]; [|lia].
      pose proof (rc4_20_down_rc4_19 encKey (paddedPass upass) Hok) as Hundo.
      rewrite HO' in Hundo. exact Hundo. }
  rewrite Hdec.
  rewrite (Alg6_padded rand_Read c (paddedPass upass) upass (paddedPass_idem upass)).
  now rewrite (Alg6_user_entry c upass key HR HU).
Qed.

(** X5: a handler of revision 2, 3 or 4 whose O entry is the one Algorithm 3
    makes of a user and an owner password, and whose U entry is the one
    Algorithm 4 (revision 2) or Algorithm 5 makes of the user password,
    accepts both: Algorithm 6 accepts the user password and Algorithm 7 the
    owner password (the user password if the owner password is empty), both
    set the same document key, authenticate returns true for the user
    password and checkAccessRights grants the owner the full rights. *)
Theorem X5_passwords_open (c : PdfCrypt.t) (upass opass key : bytes) :
  PdfCrypt.R c = 2 \/ 3 <= PdfCrypt.R c < 5 ->
  Alg3 c upass opass = Ok (PdfCrypt.O c) ->
  user_entry c upass = Ok (PdfCrypt.U c, key) ->
  let owner := if 0 <? len opass then opass else upass in
  Alg6 rand_Read c upass = (PdfCrypt.set_EncryptionKey c key, Ok true)
  /\ Alg7 rand_Read c owner = (PdfCrypt.set_EncryptionKey c key, Ok true)
  /\ snd (authenticate rand_Read c upass) = Ok true
  /\ snd (checkAccessRights rand_Read c owner) = Ok (true, full_rights, None).
Proof.
  intros HR HO HU owner.
  assert (HR' : PdfCrypt.R c = 2 \/ 3 <= PdfCrypt.R c) by lia.
  split; [now apply Alg6_user_entry|].
  split; [now apply (Alg7_owner_entry c upass opass)|].
  split.
  - unfold authenticate. cbv zeta.
    destruct (5 <=? PdfCrypt.R _) eqn:E.
    { apply Z.leb_le in E. cbn in E. lia. }
    rewrite (Alg6_user_entry (PdfCrypt.set_Authenticated c false) upass key HR' HU).
    reflexivity.
  - unfold checkAccessRights. cbv zeta.
    destruct (Z.leb_spec 5 (PdfCrypt.R c)); [lia|].
    subst owner. now rewrite (Alg7_owner_entry c upass opass key HR' HO HU).
Qed.

End MadeWith.

Lemma X5_passwords_open_witness :
  Alg6 zero_rand doc2o (bytes_of_string "user")
  = (PdfCrypt.set_EncryptionKey doc2o [3; 38; 162; 167; 74], Ok true)
  /\ Alg7 zero_rand doc2o (bytes_of_string "owner")
     = (PdfCrypt.set_EncryptionKey doc2o [3; 38; 162; 167; 74], Ok true)
  /\ snd (authenticate zero_rand doc2o (bytes_of_string "user")) = Ok true
  /\ snd (checkAccessRights zero_rand doc2o (bytes_of_string "owner"))
     = Ok (true, full_rights, None).
Proof.
  apply (X5_passwords_open zero_rand doc2o (bytes_of_string "user")
           (bytes_of_string "owner") [3; 38; 162; 167; 74]).
  - left. reflexivity.
  - vm_compute. reflexivity.
  - vm_compute. reflexivity.
Defined.

(** * Further properties of the stream codecs *)

(** ** Run-length: what the encoder writes, the decoder reads back *)

Module RunLengthFacts.
Import RunLengthEncoder.

(** [E] is a sequence of whole runs that decodes to [D]. *)
Definition decodes (E D : bytes) : Prop :=
  forall rest acc, decode_loop (E ++ rest) 0 acc = decode_loop rest 0 (acc ++ D).

Lemma decodes_nil : decodes [] [].
Proof. intros rest acc. now rewrite app_nil_r. Qed.

Lemma decodes_app (E1 D1 E2 D2 : bytes) :
  decodes E1 D1 -> decodes E2 D2 -> decodes (E1 ++ E2) (D1 ++ D2).
Proof.
  intros H1 H2 rest acc. rewrite <- app_assoc, H1, H2. now rewrite app_assoc.
Qed.

Lemma decode_literal (l : bytes) :
  forall rest acc, decode_loop (l ++ rest) (length l) acc = decode_loop rest 0 (acc ++ l).
Proof.
  induction l as [|x l IH]; intros rest acc; [now rewrite app_nil_r|].
  cbn [app length decode_loop]. rewrite IH. now rewrite <- app_assoc.
Qed.

Lemma decodes_literal (l : bytes) :
  1 <= len l <= 128 -> decodes (byte (len l - 1) :: l) l.
Proof.
  intros Hl rest acc. unfold byte. rewrite Z.mod_small by lia.
  cbn [app decode_loop].
  destruct (Z.ltb_spec 128 (len l - 1)); [lia|].
  destruct (Z.ltb_spec (len l - 1) 128); [|lia].
  replace (Z.to_nat (len l - 1 + 1)) with (length l) by (unfold len; lia).
  apply decode_literal.
Qed.

Lemma decodes_run (n v : Z) :
  2 <= n <= 128 -> decodes [byte (257 - n); v] (replicate (Z.to_nat n) v).
Proof.
  intros Hn rest acc. unfold byte. rewrite Z.mod_small by lia.
  cbn [app decode_loop].
  destruct (Z.ltb_spec 128 (257 - n)); [|lia].
  now replace (257 - (257 - n)) with n by lia.
Qed.

(** A run of one byte is written as a literal of one byte. *)
Lemma decodes_run_1 (v : Z) : decodes [byte (257 - 1); v] [v].
Proof. intros rest acc. reflexivity. Qed.

(** The bytes read and not yet written. *)
Definition pending (st : enc_state) : bytes :=
  if 0 <? len (literal st) then literal st
  else replicate (Z.to_nat (runLen st)) (b0 st).

Definition inv (st : enc_state) (consumed : bytes) : Prop :=
  exists D,
    decodes (inb st) D
    /\ consumed = D ++ pending st
    /\ ((literal st = [] /\ 0 <= runLen st <= 126)
        \/ (exists l', literal st = l' ++ [b0 st] /\ len (literal st) <= 126
                       /\ runLen st = 0)).

Lemma len_snoc (l : bytes) (x : Z) : len (l ++ [x]) = len l + 1.
Proof. unfold len. rewrite length_app. cbn [length]. lia. Qed.

Lemma replicate_snoc (n : nat) (x : Z) : replicate n x ++ [x] = replicate (S n) x.
Proof. induction n as [|n IH]; [reflexivity|]. cbn [replicate app]. now rewrite IH. Qed.

Lemma inv_step (st : enc_state) (consumed : bytes) (b : Z) :
  inv st consumed -> inv (enc_step st b) (consumed ++ [b]).
Proof.
  destruct st as [b0 rl lit out]. intros (D & HD & -> & Hshape).
  unfold enc_step, inv, pending in *.
  cbn [RunLengthEncoder.b0 runLen literal inb] in *.
  destruct (Z.eqb_spec b b0) as [->|Hne].
  - (* the byte continues a run *)
    destruct Hshape as [[-> Hrl] | (l' & -> & Hlen & ->)].
    + change (0 <? len (@nil Z)) with false. cbv iota.
      destruct (Z.leb_spec 127 (rl + 1)) as [Hfull|Hmore];
        cbn [RunLengthEncoder.b0 runLen literal inb];
        change (0 <? len (@nil Z)) with false; cbv iota.
      * assert (rl = 126) as -> by lia.
        exists (D ++ replicate 127 b0). split; [|split].
        -- apply decodes_app; [exact HD|]. apply (decodes_run 127 b0). lia.
        -- change (Z.to_nat 0) with 0%nat. cbn [replicate]. rewrite app_nil_r.
           rewrite <- app_assoc. f_equal.
        -- left. split; [reflexivity | lia].
      * exists D. split; [exact HD|]. split.
        -- rewrite <- app_assoc. f_equal.
           replace (Z.to_nat (rl + 1)) with (S (Z.to_nat rl)) by lia.
           apply replicate_snoc.
        -- left. split; [reflexivity | lia].
    + rewrite len_snoc in *.
      destruct (Z.ltb_spec 0 (len l' + 1)) as [_|]; [|unfold len in *; lia].
      replace (length (l' ++ [b0]) - 1)%nat with (length l')
        by (rewrite length_app; cbn [length]; lia).
      rewrite take_app_length.
      change (127 <=? 1 + 1) with false. cbv iota.
      cbn [RunLengthEncoder.b0 runLen literal inb].
      change (0 <? len (@nil Z)) with false. cbv iota.
      exists (D ++ l'). split; [|split].
      * destruct (Z.ltb_spec 0 (len l')) as [Hpos|Hzero].
        -- rewrite <- app_assoc. apply decodes_app; [exact HD|].
           apply decodes_literal. lia.
        -- assert (l' = []) as -> by (destruct l'; [reflexivity | unfold len in *; cbn in *; lia]).
           now rewrite app_nil_r.
      * now rewrite <- !app_assoc.
      * left. split; [reflexivity | lia].
  - (* the byte differs from the previous one *)
    destruct Hshape as [[-> Hrl] | (l' & -> & Hlen & ->)].
    + change (0 <? len (@nil Z)) with false. cbv iota.
      destruct (Z.ltb_spec 0 rl) as [Hpos|Hzero].
      * destruct (Z.eqb_spec rl 1) as [->|Hrl1].
        -- cbn [app]. change (127 <=? len [b0; b]) with false. cbv iota.
           cbn [RunLengthEncoder.b0 runLen literal inb].
           change (0 <? len [b0; b]) with true. cbv iota.
           exists D. split; [exact HD|]. split; [now rewrite <- app_assoc|].
           right. exists [b0]. split; [reflexivity|]. split; [now cbn | reflexivity].
        -- cbn [app]. change (127 <=? len [b]) with false. cbv iota.
           cbn [RunLengthEncoder.b0 runLen literal inb].
           change (0 <? len [b]) with true. cbv iota.
           exists (D ++ replicate (Z.to_nat rl) b0). split; [|split].
           ++ apply decodes_app; [exact HD|]. apply decodes_run. lia.
           ++ now rewrite <- app_assoc.
           ++ right. exists []. split; [reflexivity|]. split; [now cbn | reflexivity].
      * assert (rl = 0) as -> by lia.
        cbn [app]. change (127 <=? len [b]) with false. cbv iota.
        cbn [RunLengthEncoder.b0 runLen literal inb].
        change (0 <? len [b]) with true. cbv iota.
        exists D. split; [exact HD|].
        split; [change (Z.to_nat 0) with 0%nat; cbn [replicate]; now rewrite app_nil_r|].
        right. exists []. split; [reflexivity|]. split; [now cbn | reflexivity].
    + rewrite len_snoc in *.
      destruct (Z.ltb_spec 0 (len l' + 1)) as [_|]; [|unfold len in *; lia].
      change (0 <? 0) with false. cbv iota. rewrite len_snoc, len_snoc.
      destruct (Z.leb_spec 127 (len l' + 1 + 1)) as [Hfull|Hmore];
        cbn [RunLengthEncoder.b0 runLen literal inb].
      * change (0 <? len (@nil Z)) with false. cbv iota.
        exists (D ++ ((l' ++ [b0]) ++ [b])). split; [|split].
        -- rewrite <- app_assoc. apply decodes_app; [exact HD|].
           pose proof (decodes_literal ((l' ++ [b0]) ++ [b])) as Hlit.
           rewrite !len_snoc in Hlit. apply Hlit. unfold len in *. lia.
        -- change (Z.to_nat 0) with 0%nat. cbn [replicate]. now rewrite app_nil_r, <- !app_assoc.
        -- left. split; [reflexivity | lia].
      * rewrite !len_snoc.
        destruct (Z.ltb_spec 0 (len l' + 1 + 1)) as [_|]; [|unfold len in *; lia].
        exists D. split; [exact HD|]. split; [now rewrite <- !app_assoc|].
        right. exists (l' ++ [b0]). split; [reflexivity|]. split; [lia | reflexivity].
Qed.

Lemma inv_fold (rest : bytes) :
  forall st consumed, inv st consumed -> inv (fold_left enc_step rest st) (consumed ++ rest).
Proof.
  induction rest as [|b rest IH]; intros st consumed H; [now rewrite app_nil_r|].
  cbn [fold_left]. replace (consumed ++ b :: rest) with ((consumed ++ [b]) ++ rest)
    by now rewrite <- app_assoc.
  apply IH. now apply inv_step.
Qed.

Lemma inv_finish (st : enc_state) (consumed : bytes) :
  inv st consumed -> DecodeBytes (enc_finish st) = Ok consumed.
Proof.
  destruct st as [b0 rl lit out]. intros (D & HD & -> & Hshape).
  unfold enc_finish, pending, DecodeBytes in *.
  cbn [RunLengthEncoder.b0 runLen literal inb] in *.
  assert (Hend : forall E D', decodes E D' -> decode_loop (E ++ [128]) 0 [] = Ok D').
  { intros E D' H. rewrite H. reflexivity. }
  destruct Hshape as [[-> Hrl] | (l' & -> & Hlen & ->)].
  - change (0 <? len (@nil Z)) with false. cbv iota.
    destruct (Z.ltb_spec 0 rl) as [Hpos|Hzero].
    + apply Hend. apply decodes_app; [exact HD|].
      destruct (Z.eq_dec rl 1) as [->|Hrl1]; [apply decodes_run_1 | apply decodes_run; lia].
    + assert (rl = 0) as -> by lia. change (Z.to_nat 0) with 0%nat. cbn [replicate].
      apply Hend. now rewrite app_nil_r.
  - rewrite len_snoc in *.
    destruct (Z.ltb_spec 0 (len l' + 1)) as [_|]; [|unfold len in *; lia].
    apply Hend. rewrite <- app_assoc. apply decodes_app; [exact HD|].
    pose proof (decodes_literal (l' ++ [b0])) as Hlit. rewrite len_snoc in Hlit.
    apply Hlit. unfold len in *. lia.
Qed.

(** Once the decoder has met the end-of-data byte it reads no further. *)
Lemma decode_loop_stops (n : nat) :
  forall encoded lit acc r rest,
    (length encoded <= n)%nat ->
    decode_loop encoded lit acc = Ok r -> decode_loop (encoded ++ rest) lit acc = Ok r.
Proof.
  induction n as [|n IH]; intros [|b e] lit acc r rest Hn H; try discriminate;
    cbn [length] in Hn; [lia|].
  cbn [app decode_loop] in *. destruct lit as [|k].
  - destruct (128 <? b).
    + destruct e as [|v e']; [discriminate|]. cbn [app].
      apply IH; [cbn [length] in *; lia | exact H].
    + destruct (b <? 128); [|exact H]. apply IH; [lia | exact H].
  - apply IH; [lia | exact H].
Qed.

End RunLengthFacts.

(** ** ASCII85: what the encoder writes, the decoder reads back *)

Module ASCII85Facts.
Import ASCII85Encoder.

Lemma lor_low (a b n : Z) :
  0 <= n -> 0 <= b < 2 ^ n -> Z.lor (Z.shiftl a n) b = a * 2 ^ n + b.
Proof.
  intros Hn Hb. rewrite Z.shiftl_mul_pow2 by lia.
  assert (Hland : Z.land (a * 2 ^ n) b = 0).
  { apply Z.bits_inj'. intros i Hi. rewrite Z.land_spec, Z.bits_0.
    destruct (Z.lt_ge_cases i n) as [Hlow|Hhigh].
    - now rewrite Z.mul_pow2_bits_low.
    - rewrite andb_comm. destruct (Z.eq_dec b 0) as [->|Hb0]; [now rewrite Z.bits_0|].
      rewrite (Z.bits_above_log2 b i); [reflexivity | lia |].
      apply Z.log2_lt_pow2; [lia|].
      eapply Z.lt_le_trans; [apply Hb | apply Z.pow_le_mono_r; lia]. }
  rewrite <- Z.lxor_lor by assumption. symmetry. now apply Z.add_nocarry_lxor.
Qed.

(** The [uint32] made of four bytes. *)
Lemma base256_sum (b1 b2 b3 b4 : Z) :
  is_byte b1 -> is_byte b2 -> is_byte b3 -> is_byte b4 ->
  Z.lor (Z.lor (Z.lor (Z.shiftl b1 24) (Z.shiftl b2 16)) (Z.shiftl b3 8)) b4
  = b1 * 16777216 + b2 * 65536 + b3 * 256 + b4.
Proof.
  unfold is_byte. intros H1 H2 H3 H4.
  remember (b1 * 16777216 + b2 * 65536 + b3 * 256 + b4) as sum eqn:Hsum.
  rewrite (Z.shiftl_mul_pow2 b2), (Z.shiftl_mul_pow2 b3) by lia.
  change (2 ^ 16) with 65536. change (2 ^ 8) with 256.
  rewrite (lor_low b1 (b2 * 65536) 24) by (change (2 ^ 24) with 16777216; lia).
  change (2 ^ 24) with 16777216.
  replace (b1 * 16777216 + b2 * 65536) with (Z.shiftl (b1 * 256 + b2) 16)
    by (rewrite Z.shiftl_mul_pow2 by lia; change (2 ^ 16) with 65536; lia).
  rewrite (lor_low _ (b3 * 256) 16) by (change (2 ^ 16) with 65536; lia).
  change (2 ^ 16) with 65536.
  replace ((b1 * 256 + b2) * 65536 + b3 * 256)
    with (Z.shiftl (b1 * 65536 + b2 * 256 + b3) 8)
    by (rewrite Z.shiftl_mul_pow2 by lia; change (2 ^ 8) with 256; lia).
  rewrite (lor_low _ b4 8) by (change (2 ^ 8) with 256; lia).
  change (2 ^ 8) with 256. lia.
Qed.

Lemma decodedBytes_spec (value : Z) :
  decodedBytes value
  = [(value / 16777216) mod 256; (value / 65536) mod 256; (value / 256) mod 256;
     value mod 256].
Proof.
  unfold decodedBytes.
  change 24 with (8 * 3). change 16 with (8 * 2). change 8 with (8 * 1) at 3.
  rewrite !shift_mask_byte by lia.
  replace (Z.land value 255) with (Z.land (Z.shiftr value (8 * 0)) 255)
    by now rewrite Z.shiftr_0_r.
  rewrite shift_mask_byte by lia.
  change (256 ^ 3) with 16777216. change (256 ^ 2) with 65536.
  change (256 ^ 1) with 256. change (256 ^ 0) with 1.
  now rewrite Z.div_1_r.
Qed.

(** The five base-85 digits of a [uint32]. *)
Lemma base256Tobase85_spec (v : Z) :
  0 <= v < 4294967296 ->
  exists d0 d1 d2 d3 d4,
    base256Tobase85 v = [d0; d1; d2; d3; d4]
    /\ 0 <= d0 < 85 /\ 0 <= d1 < 85 /\ 0 <= d2 < 85 /\ 0 <= d3 < 85 /\ 0 <= d4 < 85
    /\ v = d0 * 52200625 + d1 * 614125 + d2 * 7225 + d3 * 85 + d4.
Proof.
  intros Hv. unfold base256Tobase85. cbn [fold_left fst app].
  change (85 ^ (4 - 0)) with 52200625. change (85 ^ (4 - 1)) with 614125.
  change (85 ^ (4 - 2)) with 7225. change (85 ^ (4 - 3)) with 85.
  change (85 ^ (4 - 4)) with 1.
  do 5 eexists. split; [reflexivity|]. unfold byte.
  set (r0 := v mod 52200625). set (r1 := r0 mod 614125). set (r2 := r1 mod 7225).
  set (r3 := r2 mod 85).
  assert (H0 : 0 <= r0 < 52200625) by (apply Z.mod_pos_bound; lia).
  assert (H1 : 0 <= r1 < 614125) by (apply Z.mod_pos_bound; lia).
  assert (H2 : 0 <= r2 < 7225) by (apply Z.mod_pos_bound; lia).
  assert (H3 : 0 <= r3 < 85) by (apply Z.mod_pos_bound; lia).
  assert (E0 : v = 52200625 * (v / 52200625) + r0) by (apply Z.div_mod; lia).
  assert (E1 : r0 = 614125 * (r0 / 614125) + r1) by (apply Z.div_mod; lia).
  assert (E2 : r1 = 7225 * (r1 / 7225) + r2) by (apply Z.div_mod; lia).
  assert (E3 : r2 = 85 * (r2 / 85) + r3) by (apply Z.div_mod; lia).
  rewrite Z.div_1_r.
  rewrite !Z.mod_small by lia. lia.
Qed.

(** A character the encoder writes for a digit. *)
Lemma code_facts (d : Z) :
  0 <= d < 85 ->
  let c := byte (d + 33) in
  IsWhiteSpace c = false /\ (c =? 126) = false
  /\ ((33 <=? c) && (c <=? 117)) = true /\ byte (c - 33) = d.
Proof.
  intros Hd.
  pose proof (forall_below
    (fun d => let c := byte (d + 33) in
              negb (IsWhiteSpace c) && negb (c =? 126) && ((33 <=? c) && (c <=? 117))
              && (byte (c - 33) =? d)) 85 eq_refl d Hd) as H.
  cbv zeta in H. rewrite !andb_true_iff, !negb_true_iff, Z.eqb_eq in H.
  cbv zeta. rewrite andb_true_iff. tauto.
Qed.

Lemma group_step (d : Z) (rest : bytes) (cnt : nat) (j : Z) (codes : bytes) :
  (cnt < 5)%nat -> 0 <= d < 85 ->
  group_loop (byte (d + 33) :: rest) cnt j codes
  = group_loop rest (S cnt) (j + 1) (<[cnt := d]> codes).
Proof.
  intros Hc Hd. destruct (code_facts d Hd) as (Hw & He & Hv & Hb). cbv zeta in *.
  cbn [group_loop].
  destruct (Nat.leb_spec 5 cnt) as [|_]; [lia|].
  rewrite Hw, He, Hv, Hb. reflexivity.
Qed.

Lemma group_full (rest : bytes) (j : Z) (codes : bytes) :
  group_loop rest 5 j codes = Ok (j, codes, 4, false).
Proof. destruct rest; reflexivity. Qed.

Lemma group_eod (rest : bytes) (cnt : nat) (j : Z) (codes : bytes) :
  (cnt < 5)%nat ->
  group_loop (126 :: 62 :: rest) cnt j codes
  = Ok (j, codes, Z.max 0 (Z.of_nat cnt - 1), true).
Proof.
  intros Hc. cbn [group_loop]. destruct (Nat.leb_spec 5 cnt) as [|_]; [lia|]. reflexivity.
Qed.

Lemma group_z (rest : bytes) :
  group_loop (122 :: rest) 0 0 [0; 0; 0; 0; 0] = Ok (1, [0; 0; 0; 0; 0], 4, false).
Proof. destruct rest; reflexivity. Qed.


Lemma drop_len_app (pre suf : bytes) : drop (Z.to_nat (len pre)) (pre ++ suf) = suf.
Proof. unfold len. rewrite Nat2Z.id. apply drop_app_length. Qed.

Lemma len_app_lt (pre mid suf : bytes) :
  mid <> [] -> (len pre <? len (pre ++ mid ++ suf)) = true.
Proof.
  intros H. apply Z.ltb_lt. unfold len. rewrite !length_app.
  destruct mid; [congruence|]. cbn [length]. lia.
Qed.

(** The bytes of a [uint32]. *)
Lemma decodedBytes_sum (b1 b2 b3 b4 : Z) :
  is_byte b1 -> is_byte b2 -> is_byte b3 -> is_byte b4 ->
  decodedBytes (b1 * 16777216 + b2 * 65536 + b3 * 256 + b4) = [b1; b2; b3; b4].
Proof.
  unfold is_byte. intros H1 H2 H3 H4. rewrite decodedBytes_spec.
  set (v := b1 * 16777216 + b2 * 65536 + b3 * 256 + b4).
  assert (E1 : v / 16777216 = b1)
    by (symmetry; apply (Z.div_unique_pos _ _ _ (b2 * 65536 + b3 * 256 + b4)); lia).
  assert (E2 : v / 65536 = b1 * 256 + b2)
    by (symmetry; apply (Z.div_unique_pos _ _ _ (b3 * 256 + b4)); lia).
  assert (E3 : v / 256 = b1 * 65536 + b2 * 256 + b3)
    by (symmetry; apply (Z.div_unique_pos _ _ _ b4); lia).
  rewrite E1, E2, E3.
  repeat f_equal.
  - apply Z.mod_small; lia.
  - symmetry. apply (Z.mod_unique_pos _ _ b1); lia.
  - symmetry. apply (Z.mod_unique_pos _ _ (b1 * 256 + b2)); lia.
  - symmetry. apply (Z.mod_unique_pos _ _ (b1 * 65536 + b2 * 256 + b3)); lia.
Qed.

(** One iteration of the decoder on a whole group of the encoder. *)
Lemma decode_group_4 (b1 b2 b3 b4 : Z) (pre rest decoded : bytes) (fuel : nat) :
  is_byte b1 -> is_byte b2 -> is_byte b3 -> is_byte b4 ->
  decode_loop (S fuel) (pre ++ encode_group 4 b1 b2 b3 b4 ++ rest) (len pre) decoded
  = decode_loop fuel (pre ++ encode_group 4 b1 b2 b3 b4 ++ rest)
      (len (pre ++ encode_group 4 b1 b2 b3 b4)) (decoded ++ [b1; b2; b3; b4]).
Proof.
  intros H1 H2 H3 H4. cbn [decode_loop].
  assert (Hne : encode_group 4 b1 b2 b3 b4 <> []).
  { unfold encode_group. destruct (_ =? 0); [discriminate|].
    rewrite base256_sum by assumption.
    destruct (base256Tobase85_spec (b1 * 16777216 + b2 * 65536 + b3 * 256 + b4))
      as (d0 & d1 & d2 & d3 & d4 & -> & _); [unfold is_byte in *; lia | discriminate]. }
  rewrite len_app_lt by exact Hne. rewrite drop_len_app.
  unfold encode_group in *. rewrite base256_sum in * by assumption.
  set (v := b1 * 16777216 + b2 * 65536 + b3 * 256 + b4) in *.
  destruct (Z.eqb_spec v 0) as [Hz|Hnz].
  - cbn [app]. rewrite group_z. cbn [bind].
    assert (b1 = 0 /\ b2 = 0 /\ b3 = 0 /\ b4 = 0) as (-> & -> & -> & ->)
      by (unfold is_byte in *; subst v; lia).
    rewrite len_app. reflexivity.
  - destruct (base256Tobase85_spec v)
      as (d0 & d1 & d2 & d3 & d4 & -> & R0 & R1 & R2 & R3 & R4 & Ev);
      [unfold is_byte in *; subst v; lia|].
    change (Z.to_nat (4 + 1)) with 5%nat. cbn [take map app].
    rewrite !group_step by (lia || assumption). rewrite group_full. cbn [bind].
    change (<[4%nat:=d4]> (<[3%nat:=d3]> (<[2%nat:=d2]> (<[1%nat:=d1]> (<[0%nat:=d0]> [0; 0; 0; 0; 0])))))
      with [d0; d1; d2; d3; d4].
    change (pad_codes 4 [d0; d1; d2; d3; d4]) with [d0; d1; d2; d3; d4].
    change (value_of [d0; d1; d2; d3; d4])
      with ((d0 * 85 * 85 * 85 * 85 + d1 * 85 * 85 * 85 + d2 * 85 * 85 + d3 * 85 + d4)
            mod 2 ^ 32).
    change (2 ^ 32) with 4294967296.
    replace ((d0 * 85 * 85 * 85 * 85 + d1 * 85 * 85 * 85 + d2 * 85 * 85 + d3 * 85 + d4)
             mod 4294967296) with v
      by (symmetry; rewrite Z.mod_small; unfold is_byte in *; subst v; lia).
    subst v. rewrite decodedBytes_sum by assumption.
    f_equal. rewrite len_app. unfold len. cbn [length]. lia.
Qed.


(** The last iteration of the decoder on a final group of three bytes. *)
Lemma decode_tail_3 (b1 b2 b3 : Z) (pre decoded : bytes) (fuel : nat) :
  is_byte b1 -> is_byte b2 -> is_byte b3 -> ~ (b1 = 0 /\ b2 = 0 /\ b3 = 0) ->
  decode_loop (S fuel) (pre ++ encode_group 3 b1 b2 b3 0 ++ [126; 62]) (len pre) decoded
  = Ok (decoded ++ [b1; b2; b3]).
Proof.
  intros H1 H2 H3 Hnz. cbn [decode_loop].
  assert (H0 : is_byte 0) by (unfold is_byte; lia).
  unfold encode_group. rewrite base256_sum by assumption.
  set (v := b1 * 16777216 + b2 * 65536 + b3 * 256 + 0).
  destruct (Z.eqb_spec v 0) as [Hz|_]; [unfold is_byte in *; subst v; lia|].
  destruct (base256Tobase85_spec v)
    as (d0 & d1 & d2 & d3 & d4 & -> & R0 & R1 & R2 & R3 & R4 & Ev);
    [unfold is_byte in *; subst v; lia|].
  change (Z.to_nat (3 + 1)) with 4%nat. cbn [take map].
  rewrite len_app_lt by discriminate. rewrite drop_len_app. cbn [app].
  rewrite !group_step by (lia || assumption). rewrite group_eod by lia. cbn [bind].
  change (<[3%nat:=d3]> (<[2%nat:=d2]> (<[1%nat:=d1]> (<[0%nat:=d0]> [0; 0; 0; 0; 0]))))
    with [d0; d1; d2; d3; 0].
  change (Z.max 0 (Z.of_nat 4 - 1)) with 3.
  change (pad_codes 3 [d0; d1; d2; d3; 0]) with [d0; d1; d2; d3; 84].
  change (value_of [d0; d1; d2; d3; 84])
    with ((d0 * 85 * 85 * 85 * 85 + d1 * 85 * 85 * 85 + d2 * 85 * 85 + d3 * 85 + 84)
          mod 2 ^ 32).
  change (2 ^ 32) with 4294967296.
  replace ((d0 * 85 * 85 * 85 * 85 + d1 * 85 * 85 * 85 + d2 * 85 * 85 + d3 * 85 + 84)
           mod 4294967296)
    with (b1 * 16777216 + b2 * 65536 + b3 * 256 + (84 - d4))
    by (symmetry; rewrite Z.mod_small; unfold is_byte in *; subst v; lia).
  rewrite decodedBytes_sum by (unfold is_byte in *; lia). reflexivity.
Qed.


(** The same on a final group of two bytes and of one byte: the digits the
    encoder leaves out are read as 84, which moves the value up by less than
    the weight of the last byte kept. *)
Lemma decode_tail_2 (b1 b2 : Z) (pre decoded : bytes) (fuel : nat) :
  is_byte b1 -> is_byte b2 -> ~ (b1 = 0 /\ b2 = 0) ->
  decode_loop (S fuel) (pre ++ encode_group 2 b1 b2 0 0 ++ [126; 62]) (len pre) decoded
  = Ok (decoded ++ [b1; b2]).
Proof.
  intros H1 H2 Hnz. cbn [decode_loop].
  assert (H0 : is_byte 0) by (unfold is_byte; lia).
  unfold encode_group. rewrite base256_sum by assumption.
  set (v := b1 * 16777216 + b2 * 65536 + 0 * 256 + 0).
  destruct (Z.eqb_spec v 0) as [Hz|_]; [unfold is_byte in *; subst v; lia|].
  destruct (base256Tobase85_spec v)
    as (d0 & d1 & d2 & d3 & d4 & -> & R0 & R1 & R2 & R3 & R4 & Ev);
    [unfold is_byte in *; subst v; lia|].
  change (Z.to_nat (2 + 1)) with 3%nat. cbn [take map].
  rewrite len_app_lt by discriminate. rewrite drop_len_app. cbn [app].
  rewrite !group_step by (lia || assumption). rewrite group_eod by lia. cbn [bind].
  change (<[2%nat:=d2]> (<[1%nat:=d1]> (<[0%nat:=d0]> [0; 0; 0; 0; 0])))
    with [d0; d1; d2; 0; 0].
  change (Z.max 0 (Z.of_nat 3 - 1)) with 2.
  change (pad_codes 2 [d0; d1; d2; 0; 0]) with [d0; d1; d2; 84; 84].
  change (value_of [d0; d1; d2; 84; 84])
    with ((d0 * 85 * 85 * 85 * 85 + d1 * 85 * 85 * 85 + d2 * 85 * 85 + 84 * 85 + 84)
          mod 2 ^ 32).
  change (2 ^ 32) with 4294967296.
  set (delta := 7224 - (d3 * 85 + d4)).
  assert (Hdelta : 0 <= delta <= 7224) by (subst delta; lia).
  assert (Ed : delta = 256 * (delta / 256) + delta mod 256) by (apply Z.div_mod; lia).
  assert (Hlo : 0 <= delta mod 256 < 256) by (apply Z.mod_pos_bound; lia).
  replace ((d0 * 85 * 85 * 85 * 85 + d1 * 85 * 85 * 85 + d2 * 85 * 85 + 84 * 85 + 84)
           mod 4294967296)
    with (b1 * 16777216 + b2 * 65536 + (delta / 256) * 256 + delta mod 256)
    by (symmetry; rewrite Z.mod_small; unfold is_byte in *; subst v delta; lia).
  rewrite decodedBytes_sum by (unfold is_byte in *; lia). reflexivity.
Qed.

Lemma decode_tail_1 (b1 : Z) (pre decoded : bytes) (fuel : nat) :
  is_byte b1 -> b1 <> 0 ->
  decode_loop (S fuel) (pre ++ encode_group 1 b1 0 0 0 ++ [126; 62]) (len pre) decoded
  = Ok (decoded ++ [b1]).
Proof.
  intros H1 Hnz. cbn [decode_loop].
  assert (H0 : is_byte 0) by (unfold is_byte; lia).
  unfold encode_group. rewrite base256_sum by assumption.
  set (v := b1 * 16777216 + 0 * 65536 + 0 * 256 + 0).
  destruct (Z.eqb_spec v 0) as [Hz|_]; [unfold is_byte in *; subst v; lia|].
  destruct (base256Tobase85_spec v)
    as (d0 & d1 & d2 & d3 & d4 & -> & R0 & R1 & R2 & R3 & R4 & Ev);
    [unfold is_byte in *; subst v; lia|].
  change (Z.to_nat (1 + 1)) with 2%nat. cbn [take map].
  rewrite len_app_lt by discriminate. rewrite drop_len_app. cbn [app].
  rewrite !group_step by (lia || assumption). rewrite group_eod by lia. cbn [bind].
  change (<[1%nat:=d1]> (<[0%nat:=d0]> [0; 0; 0; 0; 0])) with [d0; d1; 0; 0; 0].
  change (Z.max 0 (Z.of_nat 2 - 1)) with 1.
  change (pad_codes 1 [d0; d1; 0; 0; 0]) with [d0; d1; 84; 84; 84].
  change (value_of [d0; d1; 84; 84; 84])
    with ((d0 * 85 * 85 * 85 * 85 + d1 * 85 * 85 * 85 + 84 * 85 * 85 + 84 * 85 + 84)
          mod 2 ^ 32).
  change (2 ^ 32) with 4294967296.
  set (delta := 614124 - (d2 * 7225 + d3 * 85 + d4)).
  assert (Hdelta : 0 <= delta <= 614124) by (subst delta; lia).
  set (hi := delta / 65536). set (mid := (delta mod 65536) / 256).
  set (lo := (delta mod 65536) mod 256).
  assert (Ed1 : delta = 65536 * hi + delta mod 65536) by (apply Z.div_mod; lia).
  assert (Hm : 0 <= delta mod 65536 < 65536) by (apply Z.mod_pos_bound; lia).
  assert (Ed2 : delta mod 65536 = 256 * mid + lo) by (apply Z.div_mod; lia).
  assert (Hlo : 0 <= lo < 256) by (apply Z.mod_pos_bound; lia).
  replace ((d0 * 85 * 85 * 85 * 85 + d1 * 85 * 85 * 85 + 84 * 85 * 85 + 84 * 85 + 84)
           mod 4294967296)
    with (b1 * 16777216 + hi * 65536 + mid * 256 + lo)
    by (symmetry; rewrite Z.mod_small; unfold is_byte in *; subst v delta; lia).
  rewrite decodedBytes_sum by (unfold is_byte in *; lia). reflexivity.
Qed.

Lemma decode_tail_0 (pre decoded : bytes) (fuel : nat) :
  decode_loop (S fuel) (pre ++ [126; 62]) (len pre) decoded = Ok decoded.
Proof.
  cbn [decode_loop].
  rewrite <- (app_nil_r [126; 62]) at 1. rewrite len_app_lt by discriminate.
  rewrite drop_len_app, group_eod by lia. cbn [bind].
  change (Z.to_nat (Z.max 0 (Z.of_nat 0 - 1))) with 0%nat. cbn [take].
  now rewrite app_nil_r.
Qed.

(** The bytes after the last whole group of four. *)
Definition final_group (data : bytes) : bytes :=
  drop (length data / 4 * 4) data.

Lemma final_group_cons4 (b1 b2 b3 b4 : Z) (rest : bytes) :
  final_group (b1 :: b2 :: b3 :: b4 :: rest) = final_group rest.
Proof.
  unfold final_group. cbn [length].
  replace (S (S (S (S (length rest))))) with (1 * 4 + length rest)%nat by lia.
  rewrite Nat.div_add_l by lia. rewrite Nat.mul_add_distr_r. reflexivity.
Qed.

Lemma decode_encoded (n : nat) :
  forall data pre decoded fuel,
    (length data <= n)%nat -> is_bytes data ->
    (final_group data = [] \/ exists b, b ∈ final_group data /\ b <> 0) ->
    (length (encode_loop data) < fuel)%nat ->
    decode_loop fuel (pre ++ encode_loop data ++ [126; 62]) (len pre) decoded
    = Ok (decoded ++ data).
Proof.
  induction n as [|n IH]; intros data pre decoded fuel Hn Hb Htail Hfuel.
  - destruct data; [|cbn [length] in Hn; lia]. destruct fuel; [lia|].
    cbn [encode_loop app]. rewrite decode_tail_0. now rewrite app_nil_r.
  - destruct fuel as [|fuel]; [lia|].
    destruct data as [|b1 [|b2 [|b3 [|b4 rest]]]].
    + cbn [encode_loop app]. rewrite decode_tail_0. now rewrite app_nil_r.
    + cbn [encode_loop]. inversion Hb; subst. apply decode_tail_1; [assumption|].
      destruct Htail as [Ht | (b & Hin & Hne)]; [discriminate|].
      change (final_group [b1]) with [b1] in Hin. set_solver.
    + cbn [encode_loop]. inversion Hb as [|? ? ? Hb']; subst. inversion Hb'; subst.
      apply decode_tail_2; try assumption.
      destruct Htail as [Ht | (b & Hin & Hne)]; [discriminate|].
      change (final_group [b1; b2]) with [b1; b2] in Hin. set_solver.
    + cbn [encode_loop]. inversion Hb as [|? ? ? Hb']; subst.
      inversion Hb' as [|? ? ? Hb'']; subst. inversion Hb''; subst.
      apply decode_tail_3; try assumption.
      destruct Htail as [Ht | (b & Hin & Hne)]; [discriminate|].
      change (final_group [b1; b2; b3]) with [b1; b2; b3] in Hin. set_solver.
    + inversion Hb as [|? ? ? Hb']; subst. inversion Hb' as [|? ? ? Hb'']; subst.
      inversion Hb'' as [|? ? ? Hb3]; subst. inversion Hb3 as [|? ? ? Hrest]; subst.
      change (encode_loop (b1 :: b2 :: b3 :: b4 :: rest))
        with (encode_group 4 b1 b2 b3 b4 ++ encode_loop rest) in *.
      rewrite <- (app_assoc (encode_group 4 b1 b2 b3 b4)).
      rewrite decode_group_4 by assumption.
      rewrite (app_assoc pre).
      rewrite IH.
      * now rewrite <- app_assoc.
      * cbn [length] in Hn. lia.
      * assumption.
      * now rewrite final_group_cons4 in Htail.
      * rewrite length_app in Hfuel.
        assert (encode_group 4 b1 b2 b3 b4 <> []).
        { unfold encode_group. destruct (_ =? 0); [discriminate|].
          rewrite base256_sum by assumption.
          destruct (base256Tobase85_spec (b1 * 16777216 + b2 * 65536 + b3 * 256 + b4))
            as (d0 & d1 & d2 & d3 & d4 & -> & _); [unfold is_byte in *; lia | discriminate]. }
        destruct (encode_group 4 b1 b2 b3 b4); [congruence|]. cbn [length] in Hfuel. lia.
Qed.

End ASCII85Facts.

(** ** Round trips of the three ASCII and run-length codecs *)

(** X6: ASCIIHex decodes what it encodes, for every byte sequence. *)
Theorem X6_asciihex_roundtrip (X : bytes) :
  is_bytes X ->
  (r <- ASCIIHexEncoder.EncodeBytes X;; ASCIIHexEncoder.DecodeBytes r) = Ok X.
Proof.
  intros HX. unfold ASCIIHexEncoder.EncodeBytes, ASCIIHexEncoder.DecodeBytes. cbn [bind].
  rewrite asciihex_decode_loop by assumption. cbn [bind app].
  rewrite hex2_length. replace (2 * len X) with (len X * 2) by lia.
  rewrite Z.mod_mul by lia. cbn [Z.eqb]. now apply hex_Decode_hex2.
Qed.

Lemma X6_asciihex_roundtrip_witness :
  (r <- ASCIIHexEncoder.EncodeBytes [0; 171; 255];; ASCIIHexEncoder.DecodeBytes r)
  = Ok [0; 171; 255].
Proof.
  apply X6_asciihex_roundtrip. repeat constructor; unfold is_byte; lia.
Defined.

(** X7: RunLength decodes what it encodes, for every input but the empty
    one (whose encoding lacks the end-of-data byte). *)
Theorem X7_runlength_roundtrip (X : bytes) :
  X <> [] ->
  (r <- RunLengthEncoder.EncodeBytes X;; RunLengthEncoder.DecodeBytes r) = Ok X.
Proof.
  destruct X as [|b0 rest]; [congruence|]. intros _.
  unfold RunLengthEncoder.EncodeBytes. cbn [bind].
  apply (RunLengthFacts.inv_finish _ ([b0] ++ rest)). apply RunLengthFacts.inv_fold.
  exists []. split; [apply RunLengthFacts.decodes_nil|]. split; [reflexivity|].
  left. split; [reflexivity | cbn; lia].
Qed.

Lemma X7_runlength_roundtrip_witness :
  (r <- RunLengthEncoder.EncodeBytes [7; 7; 7; 1; 2; 2];; RunLengthEncoder.DecodeBytes r)
  = Ok [7; 7; 7; 1; 2; 2].
Proof. apply X7_runlength_roundtrip. discriminate. Defined.

(** X8: ASCII85 decodes what it encodes, for every byte sequence whose
    length is a multiple of four or whose last, partial group of one to three
    bytes has a byte that is not zero. *)
Theorem X8_ascii85_roundtrip (X : bytes) :
  is_bytes X ->
  ASCII85Facts.final_group X = []
  \/ (exists b, b ∈ ASCII85Facts.final_group X /\ b <> 0) ->
  (r <- ASCII85Encoder.EncodeBytes X;; ASCII85Encoder.DecodeBytes r) = Ok X.
Proof.
  intros Hb Htail. unfold ASCII85Encoder.EncodeBytes, ASCII85Encoder.DecodeBytes.
  cbn [bind].
  apply (ASCII85Facts.decode_encoded (length X) X [] []); try assumption; try lia.
  rewrite length_app. cbn [length]. lia.
Qed.

Lemma X8_ascii85_roundtrip_witness :
  (r <- ASCII85Encoder.EncodeBytes [0; 0; 0; 0; 77; 97; 110; 32; 0; 5];;
   ASCII85Encoder.DecodeBytes r)
  = Ok [0; 0; 0; 0; 77; 97; 110; 32; 0; 5].
Proof.
  apply X8_ascii85_roundtrip.
  - repeat constructor; unfold is_byte; lia.
  - right. exists 5. split; [|discriminate].
    change (ASCII85Facts.final_group [0; 0; 0; 0; 77; 97; 110; 32; 0; 5]) with [0; 5].
    set_solver.
Defined.

(** ** Data after the end-of-data marker *)

Lemma asciihex_decode_loop_stops (encoded : bytes) :
  forall inb r rest,
    ASCIIHexEncoder.decode_loop encoded inb = Ok r ->
    ASCIIHexEncoder.decode_loop (encoded ++ rest) inb = Ok r.
Proof.
  induction encoded as [|b e IH]; intros inb r rest H; [discriminate|].
  cbn [app ASCIIHexEncoder.decode_loop] in *.
  destruct (b =? 62); [exact H|].
  destruct (IsWhiteSpace b); [now apply IH|].
  destruct (ASCIIHexEncoder.is_hex b); [now apply IH | discriminate].
Qed.

(** X9: the RunLength and the ASCIIHex decoders read up to the end-of-data
    marker and no further: what follows an input they decode (128 for
    RunLength, the character > for ASCIIHex) does not change the result. *)
Theorem X9_decoders_stop_at_eod (encoded rest r : bytes) :
  (RunLengthEncoder.DecodeBytes encoded = Ok r ->
   RunLengthEncoder.DecodeBytes (encoded ++ rest) = Ok r)
  /\ (ASCIIHexEncoder.DecodeBytes encoded = Ok r ->
      ASCIIHexEncoder.DecodeBytes (encoded ++ rest) = Ok r).
Proof.
  split.
  - unfold RunLengthEncoder.DecodeBytes. intros H.
    now apply (RunLengthFacts.decode_loop_stops (length encoded)).
  - unfold ASCIIHexEncoder.DecodeBytes. intros H.
    destruct (ASCIIHexEncoder.decode_loop encoded []) as [inb| | |] eqn:E; try discriminate.
    now rewrite (asciihex_decode_loop_stops encoded [] inb rest E).
Qed.

Lemma X9_decoders_stop_at_eod_witness :
  RunLengthEncoder.DecodeBytes ([1; 104; 105; 128] ++ [9; 9]) = Ok [104; 105]
  /\ ASCIIHexEncoder.DecodeBytes (bytes_of_string "6869>" ++ bytes_of_string "zz")
     = Ok [104; 105].
Proof.
  split.
  - apply (proj1 (X9_decoders_stop_at_eod [1; 104; 105; 128] [9; 9] [104; 105])).
    reflexivity.
  - apply (proj2 (X9_decoders_stop_at_eod (bytes_of_string "6869>") (bytes_of_string "zz")
                    [104; 105])).
    reflexivity.
Defined.

(** ** The multi encoder composes its encoders *)

Lemma fold_bind_not_Ok {A} (f : A -> bytes -> result bytes) (l : list A) (r : result bytes) :
  (forall x, r <> Ok x) ->
  fold_left (fun (acc : result bytes) a => d <- acc;; f a d) l r = r.
Proof.
  intros Hr. induction l as [|a l IH]; [reflexivity|].
  cbn [fold_left]. destruct r as [x| | |]; [now destruct (Hr x) | exact IH..].
Qed.

Lemma multi_decode_cons (e : StreamEncoder.t) (l : list StreamEncoder.t) (x : bytes) :
  MultiEncoder.DecodeBytes (MultiEncoder.Build (e :: l)) x
  = (d <- StreamEncoder.DecodeBytes e x;; MultiEncoder.DecodeBytes (MultiEncoder.Build l) d).
Proof.
  unfold MultiEncoder.DecodeBytes. cbn [MultiEncoder.encoders fold_left bind].
  destruct (StreamEncoder.DecodeBytes e x) as [d| | |]; cbn [bind]; [reflexivity|..];
    now apply fold_bind_not_Ok.
Qed.

Lemma multi_encode_cons (e : StreamEncoder.t) (l : list StreamEncoder.t) (x : bytes) :
  MultiEncoder.EncodeBytes (MultiEncoder.Build (e :: l)) x
  = (y <- MultiEncoder.EncodeBytes (MultiEncoder.Build l) x;; StreamEncoder.EncodeBytes e y).
Proof.
  unfold MultiEncoder.EncodeBytes. cbn [MultiEncoder.encoders rev].
  now rewrite fold_left_app.
Qed.

(** An encoder whose decoder undoes its encoder on byte sequences, and
    whose encoder writes bytes. *)
Definition round_trips (e : StreamEncoder.t) : Prop :=
  forall x y, is_bytes x -> StreamEncoder.EncodeBytes e x = Ok y ->
              is_bytes y /\ StreamEncoder.DecodeBytes e y = Ok x.

Lemma multi_encode_is_bytes (l : list StreamEncoder.t) :
  Forall round_trips l ->
  forall x z, is_bytes x -> MultiEncoder.EncodeBytes (MultiEncoder.Build l) x = Ok z ->
              is_bytes z.
Proof.
  induction 1 as [|e l He _ IH]; intros x z Hx Ez.
  - cbv in Ez. now injection Ez as <-.
  - rewrite multi_encode_cons in Ez.
    destruct (MultiEncoder.EncodeBytes (MultiEncoder.Build l) x) as [w| | |] eqn:Ew;
      try discriminate.
    cbn [bind] in Ez. exact (proj1 (He w z (IH x w Hx Ew) Ez)).
Qed.

(** X10: the multi encoder applies its encoders in inverse order and its
    decoders in forward order, so that a chain of encoders each of which
    decodes what it encodes decodes what it encodes: whenever EncodeBytes
    succeeds on a byte sequence, DecodeBytes of the result gives it back. *)
Theorem X10_multi_encoder_roundtrip (enc : MultiEncoder.t) (x y : bytes) :
  Forall round_trips (MultiEncoder.encoders enc) ->
  is_bytes x ->
  MultiEncoder.EncodeBytes enc x = Ok y ->
  MultiEncoder.DecodeBytes enc y = Ok x.
Proof.
  destruct enc as [l]. cbn [MultiEncoder.encoders].
  intros Hall. revert x y. induction Hall as [|e l He Hl IH]; intros x y Hx Henc.
  - cbv in Henc. injection Henc as <-. reflexivity.
  - rewrite multi_encode_cons in Henc. rewrite multi_decode_cons.
    destruct (MultiEncoder.EncodeBytes (MultiEncoder.Build l) x) as [z| | |] eqn:Ez;
      try discriminate.
    cbn [bind] in Henc.
    pose proof (multi_encode_is_bytes l Hl x z Hx Ez) as Hz.
    destruct (He z y Hz Henc) as [_ Hdec]. rewrite Hdec. cbn [bind].
    now apply IH.
Qed.

Lemma asciihex_encode_is_bytes (X : bytes) :
  is_bytes X -> is_bytes (flat_map ASCIIHexEncoder.sprintf_02X_sp X ++ [62]).
Proof.
  intros HX. apply Forall_app. split; [|repeat constructor; unfold is_byte; lia].
  induction HX as [|b X Hb _ IH]; [constructor|].
  cbn [flat_map ASCIIHexEncoder.sprintf_02X_sp app]. unfold is_byte in Hb.
  assert (Hhi : 0 <= b / 16 < 16)
    by (split; [apply Z.div_pos | apply Z.div_lt_upper_bound]; lia).
  assert (Hlo : 0 <= b mod 16 < 16) by (apply Z.mod_pos_bound; lia).
  repeat constructor; try exact IH; unfold is_byte, ASCIIHexEncoder.hexdigit;
    try destruct (_ <? 10); lia.
Qed.

Lemma asciihex_round_trips : round_trips ASCIIHexEncoder_encoder.
Proof.
  intros x y Hx Henc. cbn in Henc. injection Henc as <-. split.
  - now apply asciihex_encode_is_bytes.
  - pose proof (asciihex_roundtrip x Hx) as H. exact H.
Qed.

Lemma raw_round_trips : round_trips RawEncoder_encoder.
Proof. intros x y Hx Henc. cbn in Henc. injection Henc as <-. now split. Qed.

Lemma X10_multi_encoder_roundtrip_witness :
  MultiEncoder.DecodeBytes
    (MultiEncoder.Build [ASCIIHexEncoder_encoder; RawEncoder_encoder; ASCIIHexEncoder_encoder])
    (bytes_of_string "30 34 20 33 46 20 3E >")
  = Ok [4; 63].
Proof.
  apply X10_multi_encoder_roundtrip.
  - constructor; [apply asciihex_round_trips|].
    constructor; [apply raw_round_trips|].
    constructor; [apply asciihex_round_trips | constructor].
  - repeat constructor; unfold is_byte; lia.
  - reflexivity.
Defined.

Lemma string_append_assoc (a b c : string) :
  ((a ++ b) ++ c = a ++ (b ++ c))%string.
Proof.
  induction a as [|ch a IH]; [reflexivity|]. exact (f_equal (String ch) IH).
Qed.

(** X11: the multi encoder composes: the empty chain is the identity in
    both directions; adding an encoder at the end makes DecodeBytes run its
    decoder last and EncodeBytes run its encoder first; the filter name is
    the names of the encoders separated by one space. *)
Theorem X11_multi_encoder_composes (enc : MultiEncoder.t) (e : StreamEncoder.t) (x : bytes) :
  MultiEncoder.DecodeBytes MultiEncoder.NewMultiEncoder x = Ok x
  /\ MultiEncoder.EncodeBytes MultiEncoder.NewMultiEncoder x = Ok x
  /\ MultiEncoder.DecodeBytes (MultiEncoder.AddEncoder enc e) x
     = (d <- MultiEncoder.DecodeBytes enc x;; StreamEncoder.DecodeBytes e d)
  /\ MultiEncoder.EncodeBytes (MultiEncoder.AddEncoder enc e) x
     = (y <- StreamEncoder.EncodeBytes e x;; MultiEncoder.EncodeBytes enc y)
  /\ MultiEncoder.GetFilterName (MultiEncoder.AddEncoder enc e)
     = match MultiEncoder.encoders enc with
       | [] => StreamEncoder.GetFilterName e
       | _ => (MultiEncoder.GetFilterName enc ++ " " ++ StreamEncoder.GetFilterName e)%string
       end.
Proof.
  destruct enc as [l]. split; [reflexivity|]. split; [reflexivity|]. split; [|split].
  - unfold MultiEncoder.DecodeBytes, MultiEncoder.AddEncoder.
    cbn [MultiEncoder.encoders]. now rewrite fold_left_app.
  - unfold MultiEncoder.EncodeBytes, MultiEncoder.AddEncoder.
    cbn [MultiEncoder.encoders]. rewrite rev_app_distr. cbn [rev app fold_left bind].
    destruct (StreamEncoder.EncodeBytes e x) as [y| | |]; cbn [bind]; [reflexivity|..];
      now apply fold_bind_not_Ok.
  - unfold MultiEncoder.GetFilterName, MultiEncoder.AddEncoder.
    cbn [MultiEncoder.encoders].
    induction l as [|a l IH]; [reflexivity|].
    destruct l as [|b l]; [reflexivity|].
    change (MultiEncoder.join_names ((a :: b :: l) ++ [e]))
      with (StreamEncoder.GetFilterName a ++ " " ++ MultiEncoder.join_names ((b :: l) ++ [e]))%string.
    rewrite IH.
    change (MultiEncoder.join_names (a :: b :: l))
      with (StreamEncoder.GetFilterName a ++ " " ++ MultiEncoder.join_names (b :: l))%string.
    now rewrite !string_append_assoc.
Qed.

(** * Further properties of the security handler: keys, entries and the
    state of the handler *)

(** ** What authenticate leaves in the handler *)

(** The handler without the three fields the authentication writes: the
    document key, the flag [Authenticated] and the [Perms] entry (which
    Algorithm 13 decrypts in place). *)
Definition document_part (c : PdfCrypt.t) : PdfCrypt.t :=
  PdfCrypt.set_Perms
    (PdfCrypt.set_Authenticated (PdfCrypt.set_EncryptionKey c []) false) [].

Lemma alg13_state (c : PdfCrypt.t) (fkey : bytes) :
  document_part (fst (alg13 c fkey)) = document_part c
  /\ PdfCrypt.Authenticated (fst (alg13 c fkey)) = PdfCrypt.Authenticated c.
Proof.
  unfold alg13.
  destruct (slice_chk (PdfCrypt.Perms c) 0 16) as [perms| | |]; [|now split..].
  destruct (slice_chk fkey 0 32) as [key| | |]; [|now split..].
  destruct (negb (bytes_eqb _ _)); [now split|].
  destruct (negb (_ =? _)); now split.
Qed.

Lemma alg2a_state (c : PdfCrypt.t) (pass : bytes) :
  document_part (fst (alg2a c pass)) = document_part c
  /\ PdfCrypt.Authenticated (fst (alg2a c pass)) = PdfCrypt.Authenticated c.
Proof.
  unfold alg2a. cbv zeta.
  destruct (bind (alg12 c _) _) as [[[[data ekey] ukey]|]| | |]; [|now split..].
  destruct (bind (slice_chk ekey 0 32) _) as [fkey| | |]; [|now split..].
  destruct (_ =? 5); [now split|].
  destruct (alg13_state (PdfCrypt.set_EncryptionKey c fkey) fkey) as [H1 H2].
  rewrite H1, H2. now split.
Qed.

Section AuthenticateState.
Variable rand_Read : nat -> bytes.

(** X12: authenticate leaves the flag [Authenticated] set exactly when it
    answers true: the flag is cleared first, so that a handler that was
    authenticated before and is given a password that fails (or runs into
    an error) is no longer authenticated.  It writes nothing but the flag,
    the document key and, from revision 5 on, the Perms entry; below
    revision 5 a password that is not accepted leaves the document key as
    it was. *)
Theorem X12_authenticate_flag (c : PdfCrypt.t) (password : bytes) :
  (PdfCrypt.Authenticated (fst (authenticate rand_Read c password)) = true
   <-> snd (authenticate rand_Read c password) = Ok true)
  /\ document_part (fst (authenticate rand_Read c password)) = document_part c
  /\ (PdfCrypt.R c < 5 ->
      snd (authenticate rand_Read c password) <> Ok true ->
      PdfCrypt.EncryptionKey (fst (authenticate rand_Read c password))
      = PdfCrypt.EncryptionKey c).
Proof.
  unfold authenticate. cbv zeta.
  set (c0 := PdfCrypt.set_Authenticated c false).
  change (PdfCrypt.R c0) with (PdfCrypt.R c).
  assert (Hdoc : document_part c0 = document_part c) by reflexivity.
  assert (Hflag : PdfCrypt.Authenticated c0 = false) by reflexivity.
  assert (Hkey : PdfCrypt.EncryptionKey c0 = PdfCrypt.EncryptionKey c) by reflexivity.
  clearbody c0.
  destruct (Z.leb_spec 5 (PdfCrypt.R c)) as [HR|HR].
  - destruct (alg2a_state c0 password) as [H1 H2].
    destruct (alg2a c0 password) as [c' [b| | |]]; cbn [fst snd] in *;
      (split; [|split; [|lia]]);
      try (rewrite H2, Hflag; split; discriminate); try congruence.
    + destruct b; split; try reflexivity; discriminate.
    + change (document_part c' = document_part c). congruence.
  - destruct (Alg6_state rand_Read c0 password) as [[Hs (key & Hf)] | [Hs Hf]];
      destruct (Alg6 rand_Read c0 password) as [c6 r6]; cbn [fst snd] in *; subst.
    + split; [split; reflexivity|]. split; [exact Hdoc|]. intros _ H. now destruct H.
    + destruct r6 as [[]| | |]; try congruence; cbn [fst snd];
        try (split; [rewrite Hflag; split; discriminate | split; congruence]).
      destruct (Alg7_state rand_Read c0 password) as [[Hs7 (key & Hf7)] | [Hs7 Hf7]];
        destruct (Alg7 rand_Read c0 password) as [c7 r7]; cbn [fst snd] in *; subst.
      * split; [split; reflexivity|]. split; [exact Hdoc|]. intros _ H. now destruct H.
      * destruct r7 as [[]| | |]; try congruence; cbn [fst snd];
          (split; [rewrite Hflag; split; discriminate | split; congruence]).
Qed.

End AuthenticateState.

Lemma X12_authenticate_flag_witness :
  PdfCrypt.EncryptionKey
    (fst (authenticate zero_rand (PdfCrypt.set_Authenticated doc2 true)
            (bytes_of_string "guess")))
  = PdfCrypt.EncryptionKey (PdfCrypt.set_Authenticated doc2 true).
Proof.
  apply (proj2 (proj2 (X12_authenticate_flag zero_rand
                         (PdfCrypt.set_Authenticated doc2 true)
                         (bytes_of_string "guess")))).
  - vm_compute. reflexivity.
  - vm_compute. discriminate.
Defined.

(** ** The length of the document key and of the O and U entries *)

Lemma md5_iter_trunc_ok (n : nat) (k : Z) :
  0 <= k <= 16 ->
  forall hashb, len hashb = 16 ->
    exists h, md5_iter_trunc n k hashb = Ok h /\ len h = 16.
Proof.
  intros Hk. induction n as [|n IH]; intros hashb Hl; [now exists hashb|].
  cbn [md5_iter_trunc]. rewrite slice_chk_ok by lia. cbn [bind].
  apply IH. unfold len. now rewrite MD5_sum_length.
Qed.

Lemma md5_iter_trunc_panic (n : nat) (k : Z) (hashb : bytes) :
  ~ 0 <= k <= 16 -> len hashb = 16 -> md5_iter_trunc (S n) k hashb = Panic.
Proof.
  intros Hk Hl. cbn [md5_iter_trunc]. unfold slice_chk. rewrite Hl.
  destruct (Z.leb_spec 0 k); destruct (Z.leb_spec k 16); try lia; reflexivity.
Qed.

(** X13: the document key of Algorithm 2 has 5 bytes below revision 3 and
    Length/8 bytes from revision 3 on, whatever the password; from revision
    3 on a Length entry below 0 or above 135 (Length/8 outside 0..16, the
    size of an MD5 digest) makes Algorithm 2 panic on the slice of the
    digest. *)
Theorem X13_Alg2_key_length (c : PdfCrypt.t) (pass : bytes) :
  (PdfCrypt.R c < 3 -> exists key, Alg2 c pass = Ok key /\ len key = 5)
  /\ (3 <= PdfCrypt.R c -> 0 <= Z.quot (PdfCrypt.Length c) 8 <= 16 ->
      exists key, Alg2 c pass = Ok key /\ len key = Z.quot (PdfCrypt.Length c) 8)
  /\ (3 <= PdfCrypt.R c -> ~ 0 <= Z.quot (PdfCrypt.Length c) 8 <= 16 ->
      Alg2 c pass = Panic).
Proof.
  unfold Alg2. cbv zeta.
  set (data := if _ && _ then _ else _).
  assert (Hl : len (MD5.sum data) = 16) by (unfold len; now rewrite MD5_sum_length).
  split; [|split].
  - intros HR. destruct (Z.leb_spec 3 (PdfCrypt.R c)); [lia|]. cbn [bind].
    rewrite slice_chk_ok by lia. eexists. split; [reflexivity|].
    apply slice_length; lia.
  - intros HR Hk. destruct (Z.leb_spec 3 (PdfCrypt.R c)); [|lia].
    destruct (md5_iter_trunc_ok 50 _ Hk _ Hl) as (h & -> & Hh). cbn [bind].
    rewrite slice_chk_ok by lia. eexists. split; [reflexivity|].
    rewrite slice_length by lia. lia.
  - intros HR Hk. destruct (Z.leb_spec 3 (PdfCrypt.R c)); [|lia].
    now rewrite (md5_iter_trunc_panic 49 _ _ Hk Hl).
Qed.

Lemma X13_Alg2_key_length_witness :
  (exists key, Alg2 doc2 (bytes_of_string "user") = Ok key /\ len key = 5)
  /\ (exists key,
        Alg2 (crypt_of_filter "StdCF" CryptFilterAESV2 16) [] = Ok key
        /\ len key = Z.quot (PdfCrypt.Length (crypt_of_filter "StdCF" CryptFilterAESV2 16)) 8)
  /\ Alg2 (PdfCrypt.Build 2 256 3 [] [] [] [] (-4) [] true [] [] ∅ ∅ false ∅ "" "") []
     = Panic.
Proof.
  split; [|split].
  - apply (proj1 (X13_Alg2_key_length doc2 (bytes_of_string "user"))).
    vm_compute. reflexivity.
  - apply (proj1 (proj2 (X13_Alg2_key_length
                           (crypt_of_filter "StdCF" CryptFilterAESV2 16) []))).
    + vm_compute. discriminate.
    + vm_compute. split; discriminate.
  - apply (proj2 (proj2 (X13_Alg2_key_length
                           (PdfCrypt.Build 2 256 3 [] [] [] [] (-4) [] true [] [] ∅ ∅
                              false ∅ "" "") []))).
    + vm_compute. discriminate.
    + vm_compute. intros [_ H]. now apply H.
Defined.

Lemma rc4_19_length (ekey e r : bytes) :
  rc4_19 ekey e = Ok r -> length r = length e.
Proof.
  unfold rc4_19. generalize (seqZ 0 19). intros l. revert e.
  induction l as [|i l IH]; intros e H.
  - cbn in H. now injection H as <-.
  - cbn [fold_left bind] in H.
    destruct (negb (RC4.key_ok _)).
    + rewrite fold_bind_not_Ok in H by discriminate. discriminate.
    + apply IH in H. now rewrite RC4_XORKeyStream_length in H.
Qed.

Section Entries.
Variable rand_Read : nat -> bytes.
Hypothesis rand_Read_length : forall n, length (rand_Read n) = n.

(** X14: the entries the handler computes have 32 bytes: the O entry of
    Algorithm 3 and the U entry of Algorithm 4 and of Algorithm 5, whenever
    these succeed; the key returned with the U entry is the document key of
    Algorithm 2. *)
Theorem X14_entries_have_32_bytes (c : PdfCrypt.t) (upass opass : bytes) :
  (forall O, Alg3 c upass opass = Ok O -> len O = 32)
  /\ (forall U key, Alg4 c upass = Ok (U, key) ->
                    len U = 32 /\ Alg2 c upass = Ok key)
  /\ (forall U key, Alg5 rand_Read c upass = Ok (U, key) ->
                    len U = 32 /\ Alg2 c upass = Ok key).
Proof.
  split; [|split].
  - intros O. unfold Alg3.
    destruct (if 0 <? len opass then _ else _) as [encKey| | |]; try discriminate.
    cbn [bind]. destruct (negb (RC4.key_ok encKey)); [discriminate|].
    assert (Hl : length (RC4.XORKeyStream encKey (paddedPass upass)) = 32%nat)
      by (rewrite RC4_XORKeyStream_length; apply paddedPass_length).
    destruct (3 <=? PdfCrypt.R c).
    + intros H. apply rc4_19_length in H. unfold len. rewrite H, Hl. reflexivity.
    + intros H. injection H as <-. unfold len. rewrite Hl. reflexivity.
  - intros U key. unfold Alg4.
    destruct (Alg2 c upass) as [ekey| | |]; try discriminate. cbn [bind].
    destruct (negb (RC4.key_ok ekey)); [discriminate|].
    intros H. injection H as <- <-. split; [|reflexivity].
    unfold len. now rewrite RC4_XORKeyStream_length.
  - intros U key. unfold Alg5.
    destruct (Alg2 c upass) as [ekey| | |]; try discriminate. cbn [bind].
    destruct (negb (_ =? 16)); [discriminate|].
    destruct (negb (RC4.key_ok ekey)); [discriminate|].
    destruct (rc4_19 ekey _) as [encrypted| | |] eqn:E; try discriminate.
    cbn [bind]. intros H. injection H as <- <-. split; [|reflexivity].
    apply rc4_19_length in E. rewrite RC4_XORKeyStream_length, MD5_sum_length in E.
    unfold len. rewrite length_app, !length_take, E, rand_Read_length. reflexivity.
Qed.

End Entries.

Lemma zero_rand_length (n : nat) : length (zero_rand n) = n.
Proof. apply length_replicate. Qed.

Lemma X14_entries_have_32_bytes_witness :
  len doc2_O = 32 /\ len doc2_U = 32 /\ Alg2 doc2 (bytes_of_string "user")
                                        = Ok [1; 255; 9; 124; 41].
Proof.
  destruct (X14_entries_have_32_bytes zero_rand zero_rand_length doc2
              (bytes_of_string "user") []) as (H3 & H4 & _).
  split; [apply H3; vm_compute; reflexivity|].
  apply (H4 doc2_U [1; 255; 9; 124; 41]). vm_compute. reflexivity.
Defined.

(** ** The AESV2 crypt filter: initialization vector and padding *)

(** The buffer [encryptBytes] hands to the block cipher under AESV2: the
    message and its pad of 16 - (M mod 16) bytes of that value. *)
Definition aes_padded (buf : bytes) : bytes :=
  buf ++ replicate (Z.to_nat (16 - len buf mod 16)) (byte (16 - len buf mod 16)).

Lemma aes_padded_length (buf : bytes) :
  len (aes_padded buf) = 16 * (len buf / 16 + 1).
Proof.
  unfold aes_padded. rewrite len_app. unfold len at 2. rewrite length_replicate.
  pose proof (Z.mod_pos_bound (len buf) 16 ltac:(lia)) as Hm.
  pose proof (Z.div_mod (len buf) 16 ltac:(lia)) as Hd.
  lia.
Qed.

Lemma nth_replicate_lt {A} (n i : nat) (x d : A) :
  (i < n)%nat -> nth i (replicate n x) d = x.
Proof.
  revert i. induction n as [|n IH]; intros [|i] H; cbn; try lia; [reflexivity|].
  apply IH. lia.
Qed.

Lemma aes_padded_last (buf : bytes) :
  idx (aes_padded buf) (len (aes_padded buf) - 1) = 16 - len buf mod 16.
Proof.
  pose proof (Z.mod_pos_bound (len buf) 16 ltac:(lia)) as Hm.
  pose proof (len_nonneg buf) as Hn.
  unfold idx, aes_padded. rewrite len_app. unfold len at 2. rewrite length_replicate.
  rewrite app_nth2 by (unfold len in *; lia).
  rewrite nth_replicate_lt by (unfold len in *; lia).
  unfold byte. apply Z.mod_small. lia.
Qed.

Section AESFilter.
Variable rand_Read : nat -> bytes.
Hypothesis rand_Read_length : forall n, length (rand_Read n) = n.

(** X15: under an AESV2 crypt filter encryptBytes writes the 16 bytes of the
    initialization vector followed by the encryption of the padded message,
    16 * (M / 16 + 1) bytes for a message of M bytes.  Where the block cipher
    decrypts what it encrypted (CBC mode, on this key, vector and padded
    message), decryptBytes gives back every message but the empty one: the
    pad of the empty message is a whole block of 16 bytes of value 16, which
    decryptBytes refuses as an invalid pad length. *)
Theorem X15_aesv2_filter_roundtrip (c : PdfCrypt.t) (filter : string)
  (cf : CryptFilter.t) (okey buf : bytes) :
  PdfCrypt.CryptFilters c !! filter = Some cf ->
  CryptFilter.Cfm cf = CryptFilterAESV2 ->
  AES.key_ok okey = true ->
  AES.CBCDecrypt okey (rand_Read 16)
    (AES.CBCEncrypt okey (rand_Read 16) (aes_padded buf)) = aes_padded buf ->
  exists ct,
    encryptBytes rand_Read c buf filter okey = Ok (ct, None)
    /\ take 16 ct = rand_Read 16
    /\ len ct = 16 + 16 * (len buf / 16 + 1)
    /\ decryptBytes c ct filter okey
       = match buf with
         | [] => (replicate 16 16, Some (Errorf "Invalid pad length for %s"))
         | _ => (buf, None)
         end.
Proof.
  intros Hcf Hm Hkey Hcipher.
  pose proof (aes_padded_length buf) as Hpl.
  pose proof (len_nonneg buf) as Hn.
  pose proof (Z.mod_pos_bound (len buf) 16 ltac:(lia)) as Hmod.
  assert (Hdiv : 0 <= len buf / 16) by (apply Z.div_pos; lia).
  set (iv := rand_Read 16) in *.
  assert (Hiv : length iv = 16%nat) by apply rand_Read_length.
  set (E := AES.CBCEncrypt okey iv (aes_padded buf)) in *.
  assert (HE : len E = 16 * (len buf / 16 + 1)).
  { assert (Hl : length (aes_padded buf) = (Z.to_nat (len buf / 16 + 1) * 16)%nat)
      by (unfold len in *; lia).
    unfold E, len at 1. rewrite AES_CBCEncrypt_length, Hl, Nat.div_mul by lia. lia. }
  exists (iv ++ E). split; [|split; [|split]].
  - unfold encryptBytes. rewrite Hcf, Hm. cbv zeta.
    change (String.eqb CryptFilterAESV2 "V2") with false.
    change (String.eqb CryptFilterAESV2 CryptFilterAESV2) with true.
    cbv iota. cbn [orb]. rewrite Hkey. cbn [negb]. fold (aes_padded buf).
    rewrite firstn_all2 by (fold iv; lia). fold iv.
    rewrite Hpl. rewrite Z.mul_comm, Z.mod_mul by lia. reflexivity.
  - rewrite take_app_length' by (symmetry; exact Hiv). reflexivity.
  - rewrite len_app, HE. unfold len. rewrite Hiv. reflexivity.
  - unfold decryptBytes. rewrite Hcf, Hm. cbv zeta.
    change (String.eqb CryptFilterAESV2 CryptFilterV2) with false.
    change (String.eqb CryptFilterAESV2 CryptFilterAESV2) with true.
    cbv iota. cbn [orb]. rewrite Hkey. cbn [negb].
    rewrite len_app. replace (len iv) with 16 by (unfold len; lia).
    destruct (Z.ltb_spec (16 + len E) 16) as [|_]; [lia|].
    rewrite take_app_length', drop_app_length' by (symmetry; exact Hiv).
    rewrite HE. rewrite Z.mul_comm, Z.mod_mul by lia. cbn [Z.eqb negb].
    fold E. rewrite Hcipher. rewrite Hpl.
    destruct (Z.eqb_spec (16 * (len buf / 16 + 1)) 0) as [|_]; [lia|].
    rewrite <- Hpl, aes_padded_last, Hpl.
    destruct buf as [|b buf'].
    + reflexivity.
    + destruct (Z.leb_spec (16 * (len (b :: buf') / 16 + 1)) (16 - len (b :: buf') mod 16))
        as [Hle|Hgt].
      * pose proof (Z.div_mod (len (b :: buf')) 16 ltac:(lia)) as Hd.
        unfold len in *. cbn [length] in *. lia.
      * f_equal. unfold slice. rewrite drop_0, Z.sub_0_r.
        pose proof (Z.div_mod (len (b :: buf')) 16 ltac:(lia)) as Hd.
        replace (16 * (len (b :: buf') / 16 + 1) - (16 - len (b :: buf') mod 16))
          with (len (b :: buf')) by lia.
        unfold aes_padded, len. rewrite Nat2Z.id. apply take_app_length.
Qed.

End AESFilter.

Lemma X15_aesv2_filter_roundtrip_witness :
  exists ct,
    encryptBytes zero_rand (crypt_of_filter "StdCF" CryptFilterAESV2 16)
      [72; 105] "StdCF" (seqZ 0 16) = Ok (ct, None)
    /\ take 16 ct = zero_rand 16
    /\ len ct = 16 + 16 * (len [72; 105] / 16 + 1)
    /\ decryptBytes (crypt_of_filter "StdCF" CryptFilterAESV2 16) ct "StdCF" (seqZ 0 16)
       = ([72; 105], None).
Proof.
  apply (X15_aesv2_filter_roundtrip zero_rand zero_rand_length
           (crypt_of_filter "StdCF" CryptFilterAESV2 16) "StdCF"
           (CryptFilter.Build CryptFilterAESV2 16) (seqZ 0 16) [72; 105]).
  - reflexivity.
  - reflexivity.
  - reflexivity.
  - vm_compute. reflexivity.
Defined.

(** * Further properties of the walkers *)

(** ** What a pass of Decrypt or Encrypt keeps *)

(** A relation between the states of a pass that holds across each of its
    elementary steps holds across the pass: an object is marked, the bytes of
    a string or the payload of a stream are replaced, the Length entry of the
    dictionary of a stream is set to a new integer. *)
Section WalkInvariant.
Variable rand_Read : nat -> bytes.
Variable d : direction.
Variable R : walk_state -> walk_state -> Prop.
Hypothesis R_refl : forall st, R st st.
Hypothesis R_trans : forall st1 st2 st3, R st1 st2 -> R st2 st3 -> R st1 st3.
Hypothesis R_mark : forall st obj, R st (mark d st obj).
Hypothesis R_event : forall st e, R st (with_event st e).
Hypothesis R_string : forall st obj s s',
  heap st !! obj = Some (PdfObjectString s) ->
  (4 <=? PdfCrypt.V (crypt st))
  && String.eqb (PdfCrypt.StringFilter (crypt st)) "Identity" = false ->
  R st (with_heap st (<[obj := PdfObjectString s']> (heap st))).
Hypothesis R_stream : forall st obj on gn dc S S',
  heap st !! obj = Some (PdfObjectStream on gn dc S) ->
  R st (with_heap st (<[obj := PdfObjectStream on gn dc S']> (heap st))).
Hypothesis R_length : forall st dict entries v,
  heap st !! dict = Some (PdfObjectDictionary entries) ->
  R st (with_heap st
          (<[dict := PdfObjectDictionary
                       (dict_Set entries "Length" (fresh (dom (heap st))))]>
             (<[fresh (dom (heap st)) := PdfObjectInteger v]> (heap st)))).

Lemma walk_array_invariant (fuel : nat) (pn pg : Z)
  (IH : forall st obj pn pg, R st (fst (walk rand_Read d fuel st obj pn pg))) :
  forall (l : list addr) (st : walk_state),
    R st
      (fst ((fix each (l : list addr) (st : walk_state) : walk_state * result unit :=
               match l with
               | [] => (st, Ok tt)
               | o :: rest =>
                   match walk rand_Read d fuel st o pn pg with
                   | (st, Ok _) => each rest st
                   | r => r
                   end
               end) l st)).
Proof.
  induction l as [|o rest IHl]; intros st; [apply R_refl|].
  pose proof (IH st o pn pg) as Ho.
  destruct (walk rand_Read d fuel st o pn pg) as [st1 [[]| | |]]; cbn [fst] in *;
    try exact Ho.
  eapply R_trans; [exact Ho | apply IHl].
Qed.

Lemma walk_dict_invariant (fuel : nat) (pn pg : Z) (obj : addr) (isSig : bool)
  (IH : forall st obj pn pg, R st (fst (walk rand_Read d fuel st obj pn pg))) :
  forall (keys : list string) (st : walk_state),
    R st
      (fst ((fix each (keys : list string) (st : walk_state) : walk_state * result unit :=
               match keys with
               | [] => (st, Ok tt)
               | keyidx :: rest =>
                   let o :=
                     match heap st !! obj with
                     | Some (PdfObjectDictionary entries) => dict_Get entries keyidx
                     | _ => None
                     end in
                   if isSig && String.eqb keyidx "Contents" then each rest st
                   else if negb (String.eqb keyidx "Parent")
                           && negb (String.eqb keyidx "Prev")
                           && negb (String.eqb keyidx "Last")
                   then
                     match o with
                     | Some o =>
                         match walk rand_Read d fuel st o pn pg with
                         | (st, Ok _) => each rest st
                         | r => r
                         end
                     | None => each rest st
                     end
                   else each rest st
               end) keys st)).
Proof.
  induction keys as [|k rest IHk]; intros st; [apply R_refl|].
  cbv zeta.
  destruct (isSig && String.eqb k "Contents"); [apply IHk|].
  destruct (negb (String.eqb k "Parent") && negb (String.eqb k "Prev")
            && negb (String.eqb k "Last")); [|apply IHk].
  destruct (match heap st !! obj with
            | Some (PdfObjectDictionary entries) => dict_Get entries k
            | _ => None
            end) as [o|]; [|apply IHk].
  pose proof (IH st o pn pg) as Ho.
  destruct (walk rand_Read d fuel st o pn pg) as [st1 [[]| | |]]; cbn [fst] in *;
    try exact Ho.
  eapply R_trans; [exact Ho | apply IHk].
Qed.

(** An indirect object or a stream that is not in the set of processed
    objects is entered in it first; all the rest of the call comes after. *)
Lemma walk_step_marked (fuel : nat)
  (IH : forall st obj pn pg, R st (fst (walk rand_Read d fuel st obj pn pg)))
  (st : walk_state) (obj : addr) (pn pg : Z) :
  isProcessed d (crypt st) obj = false ->
  (exists on gn inner, heap st !! obj = Some (PdfIndirectObject on gn inner))
  \/ (exists on gn dict Stream, heap st !! obj = Some (PdfObjectStream on gn dict Stream)) ->
  R (mark d st obj) (fst (walk rand_Read d (S fuel) st obj pn pg)).
Proof.
  intros Hproc Hobj. cbn [walk]. rewrite Hproc.
  destruct Hobj as [(on & gn & inner & ->) | (on & gn & dict & Stream & Hobj)].
  - eapply R_trans; [apply R_event | apply IH].
  - rewrite Hobj.
    assert (Hheap : heap (mark d st obj) = heap st) by (destruct d; reflexivity).
    rewrite Hheap.
    destruct (heap st !! dict) as [[ | | | | | | | entries | | ]|];
      cbn [fst]; try apply R_refl.
    destruct (if 4 <=? PdfCrypt.V (crypt (mark d st obj)) then _ else _)
      as [streamFilter| | |]; cbn [fst]; try apply R_refl.
    destruct (_ && _); cbn [fst]; [apply R_refl|].
    pose proof (IH (mark d st obj) dict on gn) as Hd.
    destruct (walk rand_Read d fuel (mark d st obj) dict on gn) as [st1 r1]. cbn [fst] in Hd.
    destruct r1 as [[]| | |]; cbn [fst]; try exact Hd.
    destruct (makeKey _ _ _ _ _) as [okey| | |]; cbn [fst]; try exact Hd.
    destruct (heap st1 !! obj) as [[ | | | | | | | | | on' gn' dc Stream']|] eqn:Hobj1;
      cbn [fst]; try exact Hd.
    assert (Hev : R (mark d st obj) (with_event st1 (CryptStream obj)))
      by (eapply R_trans; [exact Hd | apply R_event]).
    destruct (cryptBytes _ _ _ _ _ _) as [[Stream'' err]| | |]; cbn [fst];
      try exact Hev.
    assert (Hst : R (mark d st obj)
                    (with_heap (with_event st1 (CryptStream obj))
                       (<[obj := PdfObjectStream on' gn' dc Stream'']>
                          (heap (with_event st1 (CryptStream obj))))))
      by (eapply R_trans; [exact Hev | now apply (R_stream _ obj on' gn' dc Stream')]).
    destruct err as [e|]; cbn [fst]; [exact Hst|].
    destruct (heap _ !! dict) as [[ | | | | | | | entries' | | ]|] eqn:Hdict; cbn [fst];
      try exact Hst.
    eapply R_trans; [exact Hst|].
    exact (R_length _ dict entries' (len Stream'') Hdict).
Qed.

Lemma walk_invariant (fuel : nat) :
  forall (st : walk_state) (obj : addr) (pn pg : Z),
    R st (fst (walk rand_Read d fuel st obj pn pg)).
Proof.
  induction fuel as [|fuel IH]; intros st obj pn pg; [apply R_refl|].
  destruct (isProcessed d (crypt st) obj) eqn:Hproc;
    [cbn [walk]; rewrite Hproc; apply R_refl|].
  destruct (heap st !! obj) as [o|] eqn:Hobj;
    [|cbn [walk]; rewrite Hproc, Hobj; apply R_refl].
  destruct o as [ | | | | s | | elems | entries | on gn inner | on gn dict Stream];
    try (cbn [walk]; rewrite Hproc, Hobj; apply R_refl).
  - (* string *)
    cbn [walk]. rewrite Hproc, Hobj.
    destruct (_ && _) eqn:Hid; [apply R_refl|].
    destruct (makeKey _ _ _ _ _) as [key| | |]; try apply R_refl.
    destruct (cryptBytes _ _ _ _ _ _) as [[s' [e|]]| | |]; cbn [fst];
      try apply R_event.
    eapply R_trans; [apply R_event|].
    now apply (R_string (with_event st (CryptString obj)) obj s s').
  - (* array *)
    cbn [walk]. rewrite Hproc, Hobj. now apply walk_array_invariant.
  - (* dictionary *)
    cbn [walk]. rewrite Hproc, Hobj. now apply walk_dict_invariant.
  - (* indirect object *)
    eapply R_trans; [apply (R_mark st obj)|].
    apply walk_step_marked; [exact IH | exact Hproc | left; eauto].
  - (* stream *)
    eapply R_trans; [apply (R_mark st obj)|].
    apply walk_step_marked; [exact IH | exact Hproc | right; eauto].
Qed.

Lemma walk_marked (fuel : nat) (st : walk_state) (obj : addr) (pn pg : Z) :
  isProcessed d (crypt st) obj = false ->
  (exists on gn inner, heap st !! obj = Some (PdfIndirectObject on gn inner))
  \/ (exists on gn dict Stream, heap st !! obj = Some (PdfObjectStream on gn dict Stream)) ->
  R (mark d st obj) (fst (walk rand_Read d (S fuel) st obj pn pg)).
Proof. apply walk_step_marked. apply walk_invariant. Qed.

End WalkInvariant.

(** The handler without the set of processed objects of the pass. *)
Definition handler_part (d : direction) (c : PdfCrypt.t) : PdfCrypt.t :=
  match d with
  | Decrypting => PdfCrypt.set_DecryptedObjects c ∅
  | Encrypting => PdfCrypt.set_EncryptedObjects c ∅
  end.

(** What a pass may change in an object: the bytes of a string, the payload
    of a stream, the Length entry of a dictionary. *)
Definition same_shape (o o' : PdfObject) : Prop :=
  match o, o' with
  | PdfObjectString _, PdfObjectString _ => True
  | PdfObjectStream on gn dict _, PdfObjectStream on' gn' dict' _ =>
      on' = on /\ gn' = gn /\ dict' = dict
  | PdfObjectDictionary entries, PdfObjectDictionary entries' =>
      forall key, key <> "Length" -> dict_Get entries' key = dict_Get entries key
  | _, _ => o' = o
  end.

Definition heap_shape (h h' : gmap addr PdfObject) : Prop :=
  forall a o, h !! a = Some o -> exists o', h' !! a = Some o' /\ same_shape o o'.

Lemma same_shape_refl (o : PdfObject) : same_shape o o.
Proof. destruct o; cbn; auto. Qed.

Lemma same_shape_trans (o1 o2 o3 : PdfObject) :
  same_shape o1 o2 -> same_shape o2 o3 -> same_shape o1 o3.
Proof.
  destruct o1, o2; cbn; try discriminate; try (intros ->; auto; fail);
    destruct o3; cbn; try discriminate; try tauto; try congruence.
  - intros H12 H23 key Hk. now rewrite H23, H12.
  - intros (-> & -> & ->) (-> & -> & ->). auto.
Qed.

Lemma heap_shape_refl (h : gmap addr PdfObject) : heap_shape h h.
Proof. intros a o H. exists o. split; [exact H | apply same_shape_refl]. Qed.

Lemma heap_shape_trans (h1 h2 h3 : gmap addr PdfObject) :
  heap_shape h1 h2 -> heap_shape h2 h3 -> heap_shape h1 h3.
Proof.
  intros H12 H23 a o1 H1. destruct (H12 a o1 H1) as (o2 & H2 & S12).
  destruct (H23 a o2 H2) as (o3 & H3 & S23).
  exists o3. split; [exact H3 | eapply same_shape_trans; eassumption].
Qed.

Lemma heap_shape_insert (h : gmap addr PdfObject) (a : addr) (o o' : PdfObject) :
  h !! a = Some o -> same_shape o o' -> heap_shape h (<[a := o']> h).
Proof.
  intros Ha Hs b ob Hb. destruct (decide (b = a)) as [->|Hne].
  - rewrite lookup_insert_eq. exists o'. split; [reflexivity|]. congruence.
  - rewrite lookup_insert_ne by congruence. exists ob.
    split; [exact Hb | apply same_shape_refl].
Qed.

Lemma heap_shape_fresh (h : gmap addr PdfObject) (o : PdfObject) :
  heap_shape h (<[fresh (dom h) := o]> h).
Proof.
  intros b ob Hb. exists ob. split; [|apply same_shape_refl].
  rewrite lookup_insert_ne; [exact Hb|].
  intros E. apply (is_fresh (dom h)). rewrite E. apply elem_of_dom. eauto.
Qed.

Lemma dict_Get_Set_ne (entries : list (string * addr)) (key key' : string) (v : addr) :
  key' <> key -> dict_Get (dict_Set entries key v) key' = dict_Get entries key'.
Proof.
  intros Hne. induction entries as [|[k w] rest IH]; cbn [dict_Set dict_Get].
  - destruct (String.eqb_spec key key'); [congruence | reflexivity].
  - destruct (String.eqb_spec k key) as [->|Hk]; cbn [dict_Get].
    + destruct (String.eqb_spec key key'); [congruence | reflexivity].
    + destruct (String.eqb_spec k key'); [reflexivity | exact IH].
Qed.

Section WalkFrame.
Variable rand_Read : nat -> bytes.
Variable d : direction.

(** X16: a pass of Decrypt or Encrypt writes nothing in the handler but its
    own set of processed objects (the key, the filters and the other set are
    as before), and every object of the graph is still there with its kind:
    numbers, names, booleans, references, arrays and indirect objects are
    untouched, a string is a string, a stream keeps its object number, its
    generation number and its dictionary, and a dictionary keeps the value of
    every key but Length. *)
Theorem X16_walk_frame (fuel : nat) (st : walk_state) (obj : addr)
  (parentObjNum parentGenNum : Z) :
  let st' := fst (walk rand_Read d fuel st obj parentObjNum parentGenNum) in
  handler_part d (crypt st') = handler_part d (crypt st)
  /\ heap_shape (heap st) (heap st').
Proof.
  cbv zeta.
  apply (walk_invariant rand_Read d
           (fun st st' => handler_part d (crypt st') = handler_part d (crypt st)
                          /\ heap_shape (heap st) (heap st'))).
  - intros s. split; [reflexivity | apply heap_shape_refl].
  - intros s1 s2 s3 [H12 S12] [H23 S23].
    split; [congruence | eapply heap_shape_trans; eassumption].
  - intros s o. split; [destruct d; reflexivity|].
    replace (heap (mark d s o)) with (heap s) by (destruct d; reflexivity).
    apply heap_shape_refl.
  - intros s e. split; [reflexivity | apply heap_shape_refl].
  - intros s o b b' Ho _. split; [reflexivity|].
    now apply (heap_shape_insert _ _ (PdfObjectString b)).
  - intros s o on gn dc S S' Ho. split; [reflexivity|].
    now apply (heap_shape_insert _ _ (PdfObjectStream on gn dc S)).
  - intros s dict entries v Hd. split; [reflexivity|]. cbn [with_heap heap].
    eapply heap_shape_trans; [apply heap_shape_fresh|].
    apply (heap_shape_insert _ _ (PdfObjectDictionary entries)).
    + rewrite lookup_insert_ne; [exact Hd|].
      intros E. apply (is_fresh (dom (heap s))). rewrite E. apply elem_of_dom. eauto.
    + intros key Hk. now apply dict_Get_Set_ne.
Qed.

(** X17: Decrypt and Encrypt are idempotent on indirect objects and on
    streams: whatever a first call on such an object did and returned, the
    object is in the set of processed objects afterwards, and a second call
    on it returns at once with no error and the state as it is. *)
Theorem X17_walk_idempotent (fuel fuel' : nat) (st : walk_state) (obj : addr)
  (pn pg pn' pg' : Z) :
  (exists on gn inner, heap st !! obj = Some (PdfIndirectObject on gn inner))
  \/ (exists on gn dict Stream, heap st !! obj = Some (PdfObjectStream on gn dict Stream)) ->
  let st' := fst (walk rand_Read d (S fuel) st obj pn pg) in
  obj ∈ processed d st'
  /\ walk rand_Read d (S fuel') st' obj pn' pg' = (st', Ok tt).
Proof.
  intros Hobj. cbv zeta.
  assert (Hin : obj ∈ processed d (fst (walk rand_Read d (S fuel) st obj pn pg))).
  { destruct (isProcessed d (crypt st) obj) eqn:Hproc.
    - cbn [walk]. rewrite Hproc. cbn [fst].
      destruct d; cbn in *; now apply bool_decide_eq_true in Hproc.
    - assert (H : processed d (mark d st obj)
                  ⊆ processed d (fst (walk rand_Read d (S fuel) st obj pn pg))).
      { apply (walk_marked rand_Read d
                 (fun st st' => processed d st ⊆ processed d st')); try assumption.
        - intros s. reflexivity.
        - intros s1 s2 s3 H12 H23. etransitivity; eassumption.
        - intros s o. rewrite processed_mark. set_solver.
        - intros s e. destruct d; reflexivity.
        - intros s o b b' _ _. destruct d; reflexivity.
        - intros s o on gn dc S S' _. destruct d; reflexivity.
        - intros s dict entries v _. destruct d; reflexivity. }
      rewrite processed_mark in H. set_solver. }
  split; [exact Hin|].
  remember (fst (walk rand_Read d (S fuel) st obj pn pg)) as st' eqn:E. clear E.
  cbn [walk].
  replace (isProcessed d (crypt st') obj) with true; [reflexivity|].
  symmetry. destruct d; cbn in *; now apply bool_decide_eq_true.
Qed.

(** X18: with the Identity string filter (V >= 4 and StrF = Identity) a pass
    leaves the bytes of every string of the graph as they are. *)
Theorem X18_identity_string_filter (fuel : nat) (st : walk_state) (obj : addr)
  (parentObjNum parentGenNum : Z) :
  4 <= PdfCrypt.V (crypt st) ->
  PdfCrypt.StringFilter (crypt st) = "Identity" ->
  forall a s,
    heap st !! a = Some (PdfObjectString s) ->
    heap (fst (walk rand_Read d fuel st obj parentObjNum parentGenNum)) !! a
    = Some (PdfObjectString s).
Proof.
  intros HV HF.
  pose proof (walk_invariant rand_Read d
                (fun st st' =>
                   4 <= PdfCrypt.V (crypt st) ->
                   PdfCrypt.StringFilter (crypt st) = "Identity" ->
                   4 <= PdfCrypt.V (crypt st')
                   /\ PdfCrypt.StringFilter (crypt st') = "Identity"
                   /\ forall a s, heap st !! a = Some (PdfObjectString s) ->
                                  heap st' !! a = Some (PdfObjectString s))) as H.
  refine (proj2 (proj2 (H _ _ _ _ _ _ _ fuel st obj parentObjNum parentGenNum HV HF))).
  - intros s H1 H2. auto.
  - intros s1 s2 s3 H12 H23 H1 H2.
    destruct (H12 H1 H2) as (H1' & H2' & H3'). destruct (H23 H1' H2') as (? & ? & ?). auto.
  - intros s o H1 H2. destruct d; auto.
  - intros s e H1 H2. auto.
  - intros s o b b' _ Hid H1 H2. rewrite H2 in Hid.
    destruct (Z.leb_spec 4 (PdfCrypt.V (crypt s))); [discriminate | lia].
  - intros s o on gn dc S S' Ho H1 H2. repeat split; auto.
    intros a b Ha. cbn [with_heap heap]. rewrite lookup_insert_ne; [exact Ha | congruence].
  - intros s dict entries v Hd H1 H2. repeat split; auto.
    intros a b Ha. cbn [with_heap heap].
    rewrite lookup_insert_ne by congruence.
    rewrite lookup_insert_ne; [exact Ha|].
    intros E. apply (is_fresh (dom (heap s))). rewrite E. apply elem_of_dom. eauto.
Qed.

End WalkFrame.

Lemma X17_walk_idempotent_witness :
  let st' := fst (walk zero_rand Decrypting 10
                    (WalkState crypt_rc4 shared_string_heap []) 1%positive 0 0) in
  1%positive ∈ processed Decrypting st'
  /\ walk zero_rand Decrypting 5 st' 1%positive 0 0 = (st', Ok tt).
Proof.
  apply (X17_walk_idempotent zero_rand Decrypting 9 4
           (WalkState crypt_rc4 shared_string_heap []) 1%positive 0 0 0 0).
  left. exists 7, 0, 2%positive. reflexivity.
Defined.

(** A handler of version 4 whose streams go through RC4 and whose strings
    through the Identity filter. *)
Definition crypt_identity_strings : PdfCrypt.t :=
  PdfCrypt.Build 4 128 4 [] [] [] [] (-4) [] true [] [1; 2; 3; 4; 5] ∅ ∅ false
    {[ "StdCF" := CryptFilter.Build "V2" 16 ]} "StdCF" "Identity".

Lemma X18_identity_string_filter_witness :
  heap (fst (walk zero_rand Encrypting 10
               (WalkState crypt_identity_strings shared_string_heap []) 1%positive 0 0))
    !! 3%positive
  = Some (PdfObjectString [10; 20; 30]).
Proof.
  apply (X18_identity_string_filter zero_rand Encrypting 10
           (WalkState crypt_identity_strings shared_string_heap []) 1%positive 0 0).
  - vm_compute. discriminate.
  - reflexivity.
  - reflexivity.
Defined.

(** * Further properties of the stream codecs: what the encoders write *)

(** ** The output of the ASCII encoders *)

(** The characters ASCIIHex writes: upper-case hex digits, the space after
    each byte and the end-of-data mark. *)
Definition asciihex_char (b : Z) : Prop :=
  48 <= b <= 57 \/ 65 <= b <= 70 \/ b = 32 \/ b = 62.

(** The characters ASCII85 writes: the codes ! to u, the z of a zero group
    and the two characters of the end-of-data mark. *)
Definition ascii85_char (b : Z) : Prop :=
  33 <= b <= 117 \/ b = 122 \/ b = 126 \/ b = 62.

Lemma asciihex_encoded (X : bytes) :
  is_bytes X ->
  Forall asciihex_char (flat_map ASCIIHexEncoder.sprintf_02X_sp X)
  /\ len (flat_map ASCIIHexEncoder.sprintf_02X_sp X) = 3 * len X.
Proof.
  induction 1 as [|b X Hb _ [IHc IHl]]; [split; [constructor | reflexivity]|].
  cbn [flat_map ASCIIHexEncoder.sprintf_02X_sp app]. unfold is_byte in Hb.
  assert (Hhi : 0 <= b / 16 < 16)
    by (split; [apply Z.div_pos | apply Z.div_lt_upper_bound]; lia).
  assert (Hlo : 0 <= b mod 16 < 16) by (apply Z.mod_pos_bound; lia).
  split.
  - constructor; [|constructor; [|constructor; [|exact IHc]]];
      unfold asciihex_char, ASCIIHexEncoder.hexdigit;
      try match goal with |- context [?x <? 10] => destruct (Z.ltb_spec x 10) end; lia.
  - unfold len in *. cbn [length]. lia.
Qed.

Lemma ascii85_group (n b1 b2 b3 b4 : Z) :
  is_byte b1 -> is_byte b2 -> is_byte b3 -> is_byte b4 -> 0 <= n ->
  Forall ascii85_char (ASCII85Encoder.encode_group n b1 b2 b3 b4)
  /\ 1 <= len (ASCII85Encoder.encode_group n b1 b2 b3 b4) <= Z.min 5 (n + 1).
Proof.
  intros H1 H2 H3 H4 Hn. unfold ASCII85Encoder.encode_group.
  destruct (_ =? 0).
  - split; [constructor; [unfold ascii85_char; lia | constructor]|].
    change (len [122]) with 1. lia.
  - rewrite ASCII85Facts.base256_sum by assumption.
    destruct (ASCII85Facts.base256Tobase85_spec
                (b1 * 16777216 + b2 * 65536 + b3 * 256 + b4))
      as (d0 & d1 & d2 & d3 & d4 & -> & D0 & D1 & D2 & D3 & D4 & _);
      [unfold is_byte in *; lia|].
    split.
    + apply Forall_map, Forall_take.
      repeat (constructor; [unfold ascii85_char, byte; rewrite Z.mod_small by lia; lia|]).
      constructor.
    + unfold len. rewrite length_map, length_take. cbn [length]. lia.
Qed.

Lemma ascii85_encoded (n : nat) :
  forall data, (length data <= n)%nat -> is_bytes data ->
    Forall ascii85_char (ASCII85Encoder.encode_loop data)
    /\ len (ASCII85Encoder.encode_loop data) <= len data + (len data + 3) / 4.
Proof.
  assert (Hz : is_byte 0) by (unfold is_byte; lia).
  induction n as [|n IH]; intros data Hn Hb.
  - destruct data; [|cbn [length] in Hn; lia]. split; [constructor | cbv; discriminate].
  - destruct data as [|b1 [|b2 [|b3 [|b4 rest]]]].
    + split; [constructor | cbv; discriminate].
    + inversion Hb; subst. cbn [ASCII85Encoder.encode_loop].
      destruct (ascii85_group 1 b1 0 0 0) as [Hc Hl]; try assumption; [lia|].
      split; [exact Hc|]. change (len [b1]) with 1. change ((1 + 3) / 4) with 1. lia.
    + inversion Hb as [|? ? ? Hb']; subst. inversion Hb'; subst.
      cbn [ASCII85Encoder.encode_loop].
      destruct (ascii85_group 2 b1 b2 0 0) as [Hc Hl]; try assumption; [lia|].
      split; [exact Hc|]. change (len [b1; b2]) with 2. change ((2 + 3) / 4) with 1. lia.
    + inversion Hb as [|? ? ? Hb']; subst. inversion Hb' as [|? ? ? Hb'']; subst.
      inversion Hb''; subst. cbn [ASCII85Encoder.encode_loop].
      destruct (ascii85_group 3 b1 b2 b3 0) as [Hc Hl]; try assumption; [lia|].
      split; [exact Hc|]. change (len [b1; b2; b3]) with 3.
      change ((3 + 3) / 4) with 1. lia.
    + inversion Hb as [|? ? ? Hb']; subst. inversion Hb' as [|? ? ? Hb'']; subst.
      inversion Hb'' as [|? ? ? Hb3]; subst. inversion Hb3 as [|? ? ? Hrest]; subst.
      change (ASCII85Encoder.encode_loop (b1 :: b2 :: b3 :: b4 :: rest))
        with (ASCII85Encoder.encode_group 4 b1 b2 b3 b4 ++ ASCII85Encoder.encode_loop rest).
      destruct (ascii85_group 4 b1 b2 b3 b4) as [Hc Hl]; try assumption; [lia|].
      destruct (IH rest) as [IHc IHl]; [cbn [length] in Hn; lia | assumption |].
      split; [now apply Forall_app|].
      rewrite len_app.
      replace (len (b1 :: b2 :: b3 :: b4 :: rest)) with (len rest + 1 * 4)
        by (unfold len; cbn [length]; lia).
      replace (len rest + 1 * 4 + 3) with (len rest + 3 + 1 * 4) by lia.
      rewrite Z.div_add by lia. lia.
Qed.

(** X19: the two ASCII encoders write printable 7-bit characters only and
    their output has a known size.  For a byte sequence of [n] bytes
    ASCIIHex writes [3 n + 1] characters out of 0-9, A-F, the space and the
    final >; ASCII85 writes at most [n + ceil(n / 4) + 2] characters out of
    ! to u, z and the final ~>. *)
Theorem X19_ascii_encoders_output (X : bytes) :
  is_bytes X ->
  (exists out,
     ASCIIHexEncoder.EncodeBytes X = Ok out
     /\ Forall asciihex_char out /\ len out = 3 * len X + 1)
  /\ (exists out,
        ASCII85Encoder.EncodeBytes X = Ok out
        /\ Forall ascii85_char out /\ len out <= len X + (len X + 3) / 4 + 2).
Proof.
  intros HX. split.
  - eexists. split; [reflexivity|].
    destruct (asciihex_encoded X HX) as [Hc Hl]. split.
    + apply Forall_app. split; [exact Hc|].
      constructor; [unfold asciihex_char; lia | constructor].
    + rewrite len_app, Hl. reflexivity.
  - eexists. split; [reflexivity|].
    destruct (ascii85_encoded (length X) X (le_n _) HX) as [Hc Hl]. split.
    + apply Forall_app. split; [exact Hc|].
      constructor; [|constructor; [|constructor]]; unfold ascii85_char; lia.
    + rewrite len_app. change (len [126; 62]) with 2. lia.
Qed.

Lemma X19_ascii_encoders_output_witness :
  (exists out,
     ASCIIHexEncoder.EncodeBytes [0; 171; 255] = Ok out
     /\ Forall asciihex_char out /\ len out = 3 * len [0; 171; 255] + 1)
  /\ (exists out,
        ASCII85Encoder.EncodeBytes [0; 171; 255] = Ok out
        /\ Forall ascii85_char out
        /\ len out <= len [0; 171; 255] + (len [0; 171; 255] + 3) / 4 + 2).
Proof.
  apply X19_ascii_encoders_output. repeat constructor; unfold is_byte; lia.
Defined.

(** ** The size of the run-length encoding *)

Module RunLengthSize.
Import RunLengthEncoder.

(** The bytes the encoder still has to write for what it holds. *)
Definition pending_cost (st : enc_state) : Z :=
  if 0 <? len (literal st) then len (literal st) + 1
  else if 0 <? runLen st then 2 else 0.

(** After [n] bytes the output and the pending bytes take at most [2 n]
    bytes; a pending literal has at most 126 bytes, a pending run at least
    none. *)
Definition bounded (st : enc_state) (n : Z) : Prop :=
  len (inb st) + pending_cost st <= 2 * n
  /\ 0 <= runLen st
  /\ (0 < len (literal st) -> runLen st = 0).

Lemma bounded_step (st : enc_state) (n : Z) (b : Z) :
  bounded st n -> bounded (enc_step st b) (n + 1).
Proof.
  destruct st as [b0 rl lit out]. unfold bounded, pending_cost, enc_step.
  cbn [RunLengthEncoder.b0 runLen literal inb].
  intros (Hc & Hr & Hlit).
  pose proof (len_nonneg lit) as Hl. pose proof (len_nonneg out) as Ho.
  destruct (Z.eqb_spec b b0) as [->|Hne].
  - destruct (Z.ltb_spec 0 (len lit)) as [Hpos|Hzero].
    + assert (Hlen : len (take (length lit - 1) lit) = len lit - 1)
        by (unfold len in *; rewrite length_take; lia).
      rewrite Hlen. change (127 <=? 1 + 1) with false. cbv iota.
      cbn [RunLengthEncoder.b0 runLen literal inb].
      change (0 <? len (@nil Z)) with false. cbv iota. change (0 <? 1 + 1) with true.
      cbv iota. split; [|split; [lia | (unfold len in *; cbn [length] in *; lia)]].
      destruct (Z.ltb_spec 0 (len lit - 1)).
      * rewrite !len_app, Hlen. change (len [byte (len lit - 1 - 1)]) with 1. lia.
      * lia.
    + assert (lit = []) as -> by (destruct lit; [reflexivity | unfold len in *; cbn in *; lia]).
      change (0 <? len (@nil Z)) with false in *. cbv iota in *.
      destruct (Z.leb_spec 127 (rl + 1)); cbn [RunLengthEncoder.b0 runLen literal inb];
        change (0 <? len (@nil Z)) with false; cbv iota.
      * change (0 <? 0) with false. cbv iota. rewrite len_app.
        change (len [byte (257 - (rl + 1)); b0]) with 2.
        destruct (Z.ltb_spec 0 rl); split; try lia; split; try lia; (unfold len in *; cbn [length] in *; lia).
      * destruct (Z.ltb_spec 0 (rl + 1)); destruct (Z.ltb_spec 0 rl);
          split; try lia; split; try lia; (unfold len in *; cbn [length] in *; lia).
  - destruct (Z.ltb_spec 0 rl) as [Hpos|Hzero].
    + assert (lit = []) as ->.
      { destruct lit; [reflexivity|]. unfold len in *. cbn [length] in *. lia. }
      change (0 <? len (@nil Z)) with false in *. cbv iota in *.
      destruct (Z.eqb_spec rl 1) as [->|Hrl1].
      * cbn [app]. change (127 <=? len [b0; b]) with false. cbv iota.
        cbn [RunLengthEncoder.b0 runLen literal inb].
        change (0 <? len [b0; b]) with true. cbv iota. change (len [b0; b]) with 2.
        split; [lia | split; [lia | reflexivity]].
      * cbn [app]. change (127 <=? len [b]) with false. cbv iota.
        cbn [RunLengthEncoder.b0 runLen literal inb].
        change (0 <? len [b]) with true. cbv iota. change (len [b]) with 1.
        rewrite len_app. change (len [byte (257 - rl); b0]) with 2.
        split; [lia | split; [lia | reflexivity]].
    + assert (rl = 0) as -> by lia. change (0 <? 0) with false in *. cbv iota in *.
      rewrite len_app. change (len [b]) with 1.
      destruct (Z.leb_spec 127 (len lit + 1)); cbn [RunLengthEncoder.b0 runLen literal inb].
      * change (0 <? len (@nil Z)) with false. cbv iota. change (0 <? 0) with false.
        cbv iota. rewrite !len_app. change (len [byte (len lit + 1 - 1)]) with 1.
        change (len [b]) with 1.
        destruct (Z.ltb_spec 0 (len lit)); split; try lia; split; try lia; (unfold len in *; cbn [length] in *; lia).
      * rewrite len_app. change (len [b]) with 1.
        destruct (Z.ltb_spec 0 (len lit + 1)); [|lia].
        destruct (Z.ltb_spec 0 (len lit)); split; try lia; split; try lia; reflexivity.
Qed.

Lemma bounded_fold (rest : bytes) :
  forall st n, bounded st n -> bounded (fold_left enc_step rest st) (n + len rest).
Proof.
  induction rest as [|b rest IH]; intros st n H.
  - change (len (@nil Z)) with 0. now rewrite Z.add_0_r.
  - cbn [fold_left]. replace (n + len (b :: rest)) with (n + 1 + len rest)
      by (unfold len; cbn [length]; lia).
    apply IH. now apply bounded_step.
Qed.

Lemma bounded_finish (st : enc_state) (n : Z) :
  bounded st n -> len (enc_finish st) <= 2 * n + 1.
Proof.
  destruct st as [b0 rl lit out]. unfold bounded, pending_cost, enc_finish.
  cbn [RunLengthEncoder.b0 runLen literal inb]. intros (Hc & Hr & Hlit).
  rewrite len_app. change (len [128]) with 1.
  destruct (Z.ltb_spec 0 (len lit)).
  - rewrite !len_app. change (len [byte (len lit - 1)]) with 1. lia.
  - destruct (Z.ltb_spec 0 rl).
    + rewrite len_app. change (len [byte (257 - rl); b0]) with 2. lia.
    + lia.
Qed.

End RunLengthSize.

(** X20: the run-length encoder never makes its input more than twice as
    long: for every input of [n] bytes EncodeBytes returns at most [2 n + 1]
    bytes, the end-of-data mark 128 included. *)
Theorem X20_runlength_size (data : bytes) :
  exists out, RunLengthEncoder.EncodeBytes data = Ok out
              /\ len out <= 2 * len data + 1.
Proof.
  destruct data as [|b0 rest].
  - exists []. split; [reflexivity | cbv; discriminate].
  - eexists. split; [reflexivity|].
    replace (len (b0 :: rest)) with (1 + len rest) by (unfold len; cbn [length]; lia).
    apply RunLengthSize.bounded_finish, RunLengthSize.bounded_fold.
    unfold RunLengthSize.bounded, RunLengthSize.pending_cost.
    cbn [RunLengthEncoder.inb RunLengthEncoder.literal RunLengthEncoder.runLen].
    change (len (@nil Z)) with 0. cbn [Z.ltb Z.compare]. lia.
Qed.

(** ** White space in ASCIIHex data *)

Lemma asciihex_decode_loop_white (encoded : bytes) :
  forall inb,
    ASCIIHexEncoder.decode_loop (filter (fun b => IsWhiteSpace b = false) encoded) inb
    = ASCIIHexEncoder.decode_loop encoded inb.
Proof.
  induction encoded as [|b rest IH]; intros inb; [reflexivity|].
  rewrite filter_cons. destruct (decide (IsWhiteSpace b = false)) as [Hw|Hw].
  - cbn [ASCIIHexEncoder.decode_loop]. rewrite Hw. destruct (b =? 62); [reflexivity|].
    destruct (ASCIIHexEncoder.is_hex b); [apply IH | reflexivity].
  - apply not_false_is_true in Hw. rewrite IH. cbn [ASCIIHexEncoder.decode_loop].
    rewrite Hw. destruct (Z.eqb_spec b 62) as [->|_]; [discriminate | reflexivity].
Qed.

(** X21: the ASCIIHex decoder ignores white space: an input and the same
    input with all its white-space characters taken out decode to the same
    result, error or bytes (so white space may be put between the two digits
    of a byte as well). *)
Theorem X21_asciihex_white_space (encoded : bytes) :
  ASCIIHexEncoder.DecodeBytes (filter (fun b => IsWhiteSpace b = false) encoded)
  = ASCIIHexEncoder.DecodeBytes encoded.
Proof.
  unfold ASCIIHexEncoder.DecodeBytes. now rewrite asciihex_decode_loop_white.
Qed.

(** ** The size of what the predictors decode *)

Lemma for_loop_length (lo hi : Z) (body : bytes -> Z -> bytes) :
  (forall s j, length (body s j) = length s) ->
  forall s, length (for_loop lo hi body s) = length s.
Proof.
  intros Hbody. unfold for_loop. generalize (seqZ lo (hi - lo)). intros l.
  induction l as [|j l IH]; intros s; [reflexivity|].
  cbn [fold_left]. now rewrite IH, Hbody.
Qed.

Lemma set_idx_length (row : bytes) (j v : Z) : length (set_idx row j v) = length row.
Proof. apply length_insert. Qed.

Lemma tiff_row_length (colors rowLength : Z) (rowData : bytes) :
  length (tiff_row colors rowLength rowData) = length rowData.
Proof. apply for_loop_length. intros. apply set_idx_length. Qed.

Lemma png_row_length (flate : bool) (rowLength : Z) (prevRowData rowData r : bytes) :
  (let fb := idx rowData 0 in
   if fb =? 0 then Ok rowData
   else if fb =? 1 then Ok (png_sub_row rowLength rowData)
   else if fb =? 2 then Ok (png_up_row rowLength prevRowData rowData)
   else if flate && (fb =? 3) then Ok (png_avg_row rowLength prevRowData rowData)
   else if flate && (fb =? 4) then Ok (png_paeth_row rowLength prevRowData rowData)
   else Err (Errorf "Invalid filter byte (%d)")) = Ok r ->
  length r = length rowData.
Proof.
  cbv zeta.
  destruct (_ =? 0); [intros H; now injection H as <-|].
  destruct (_ =? 1).
  { intros H. injection H as <-. apply for_loop_length. intros. apply set_idx_length. }
  destruct (_ =? 2).
  { intros H. injection H as <-. apply for_loop_length. intros. apply set_idx_length. }
  destruct (flate && _).
  { intros H. injection H as <-. apply for_loop_length. intros s j.
    destruct (j =? 1); apply set_idx_length. }
  destruct (flate && _); [|discriminate].
  intros H. injection H as <-. apply for_loop_length. intros s j. cbv zeta.
  destruct (_ && _); [apply set_idx_length|].
  destruct (_ <=? _); apply set_idx_length.
Qed.

Lemma png_rows_length (flate : bool) (rowLength : Z) (k : nat) (rows : list bytes) :
  Forall (fun r => length r = S k) rows ->
  forall prevRowData pOut out,
    png_rows flate rowLength rows prevRowData pOut = Ok out ->
    length out = (length pOut + length rows * k)%nat.
Proof.
  induction 1 as [|rowData rows Hr _ IH]; intros prev pOut out H.
  - cbn in H. injection H as <-. cbn [length]. lia.
  - cbn [png_rows] in H.
    match type of H with
    | (r <- ?e;; _) = _ => destruct e as [r| | |] eqn:E; try discriminate
    end.
    cbn [bind] in H. apply png_row_length in E. apply IH in H.
    rewrite H, length_app, length_drop, E, Hr. cbn [length]. lia.
Qed.

Lemma tiff_decode_length (Columns Colors : Z) (outData out : bytes) :
  tiff_decode Columns Colors outData = Ok out ->
  (Columns * Colors < 1 /\ out = [])
  \/ (1 <= Columns * Colors /\ len out = len outData).
Proof.
  unfold tiff_decode. cbv zeta.
  destruct (Z.ltb_spec (Columns * Colors) 1) as [Hlt|Hge].
  - intros H. injection H as <-. now left.
  - destruct (Z.eqb_spec (len outData mod (Columns * Colors)) 0) as [Hmod|]; [|discriminate].
    cbn [negb]. destruct (negb _); [discriminate|].
    destruct (_ <? _); [discriminate|]. destruct (_ <? 0); [discriminate|].
    intros H. injection H as <-. right. split; [exact Hge|].
    set (rl := Columns * Colors) in *.
    pose proof (len_nonneg outData) as Hn.
    assert (Hrows : 0 <= len outData / rl) by (apply Z.div_pos; lia).
    assert (Hlen : length outData = (Z.to_nat (len outData / rl) * Z.to_nat rl)%nat).
    { pose proof (Z.div_mod (len outData) rl ltac:(lia)) as Hd.
      unfold len in *. nia. }
    pose proof (rows_of_length _ _ _ Hlen) as Hrl.
    assert (Hc : length (concat (map (tiff_row Colors rl)
                                     (rows_of (Z.to_nat (len outData / rl)) (Z.to_nat rl)
                                        outData)))
                 = length (concat (rows_of (Z.to_nat (len outData / rl)) (Z.to_nat rl)
                                     outData))).
    { generalize (rows_of (Z.to_nat (len outData / rl)) (Z.to_nat rl) outData).
      intros l. induction l as [|r l IH]; [reflexivity|].
      cbn [map concat]. now rewrite !length_app, tiff_row_length, IH. }
    rewrite concat_rows_of in Hc by exact Hlen. exact (f_equal Z.of_nat Hc).
Qed.

Lemma png_decode_length (flate : bool) (rl : Z) (outData out : bytes) :
  1 <= rl -> len outData mod rl = 0 ->
  png_rows flate rl (rows_of (Z.to_nat (len outData / rl)) (Z.to_nat rl) outData)
    (replicate (Z.to_nat rl) 0) [] = Ok out ->
  len out = len outData - len outData / rl.
Proof.
  intros Hrl Hmod H.
  pose proof (len_nonneg outData) as Hn.
  assert (Hrows : 0 <= len outData / rl) by (apply Z.div_pos; lia).
  pose proof (Z.div_mod (len outData) rl ltac:(lia)) as Hd.
  assert (Hlen : length outData = (Z.to_nat (len outData / rl) * Z.to_nat rl)%nat)
    by (unfold len in *; nia).
  pose proof (rows_of_length _ _ _ Hlen) as Hr.
  assert (E : Z.to_nat rl = S (Z.to_nat (rl - 1))) by lia.
  rewrite E in Hr, H.
  apply (png_rows_length flate rl _ _ Hr) in H.
  rewrite length_rows_of in H. cbn [length] in H. unfold len in *. nia.
Qed.

(** X22: the size of what DecodeStream returns with a predictor.  With the
    TIFF predictor (2) the flate and the LZW decoder return as many bytes as
    the decompression gave (none when Columns * Colors < 1); with a PNG
    predictor (10 to 15) they return the rows without their filter byte: for
    n bytes in rows of Columns * Colors + 1 bytes, n - n / (Columns * Colors
    + 1) bytes. *)
Theorem X22_predictor_decoded_size
  (zlib_NewReader : bytes -> result unit) (zlib_ReadFrom : bytes -> bytes)
  (lzw1_ReadAll lzw0_ReadAll : bytes -> result bytes) (stream out : bytes) :
  (forall enc : FlateEncoder.t,
     FlateEncoder.DecodeStream zlib_NewReader zlib_ReadFrom enc stream = Ok out ->
     let n := len (zlib_ReadFrom stream) in
     let row := FlateEncoder.Columns enc * FlateEncoder.Colors enc in
     (FlateEncoder.Predictor enc <= 1 -> out = zlib_ReadFrom stream)
     /\ (FlateEncoder.Predictor enc = 2 -> len out = if row <? 1 then 0 else n)
     /\ (10 <= FlateEncoder.Predictor enc <= 15 -> len out = n - n / (row + 1)))
  /\ (forall (enc : LZWEncoder.t) (inflated : bytes),
        LZWEncoder.DecodeBytes lzw1_ReadAll lzw0_ReadAll enc stream = Ok inflated ->
        LZWEncoder.DecodeStream lzw1_ReadAll lzw0_ReadAll enc stream = Ok out ->
        let n := len inflated in
        let row := LZWEncoder.Columns enc * LZWEncoder.Colors enc in
        (LZWEncoder.Predictor enc <= 1 -> out = inflated)
        /\ (LZWEncoder.Predictor enc = 2 -> len out = if row <? 1 then 0 else n)
        /\ (10 <= LZWEncoder.Predictor enc <= 15 ->
            len out = if row + 1 <? 1 then 0 else n - n / (row + 1))).
Proof.
  split.
  - intros [p bpc cols colors]. unfold FlateEncoder.DecodeStream, FlateEncoder.DecodeBytes.
    cbn [FlateEncoder.Predictor FlateEncoder.BitsPerComponent FlateEncoder.Columns
         FlateEncoder.Colors].
    destruct (negb (bpc =? 8)); [discriminate|].
    destruct (zlib_NewReader stream) as [[]| | |]; try discriminate. cbn [bind].
    set (inflated := zlib_ReadFrom stream). intros H. cbv zeta.
    destruct (Z.ltb_spec 1 p) as [Hp|Hp].
    + split; [lia|].
      destruct (Z.eqb_spec p 2) as [->|Hp2].
      * split; [|lia]. intros _.
        destruct (tiff_decode_length _ _ _ _ H) as [[Hr ->] | [Hr Hl]];
          destruct (Z.ltb_spec (cols * colors) 1); try lia; try reflexivity; exact Hl.
      * split; [lia|]. intros Hpng.
        destruct (Z.leb_spec 10 p); [|lia]. destruct (Z.leb_spec p 15); [|lia].
        cbn [andb] in H. unfold FlateEncoder.png_decode in H.
        cbn [FlateEncoder.Columns FlateEncoder.Colors] in H.
        set (rl := cols * colors + 1) in *.
        destruct (Z.eqb_spec rl 0); [discriminate|].
        destruct (Z.eqb_spec (Z.rem (len inflated) rl) 0) as [Hrem|]; [|discriminate].
        cbn [negb] in H. destruct (Z.ltb_spec (len inflated) rl); [discriminate|].
        destruct (Z.ltb_spec rl 0); [discriminate|].
        pose proof (len_nonneg inflated).
        rewrite Z.quot_div_nonneg in H by lia.
        rewrite Z.rem_mod_nonneg in Hrem by lia.
        apply png_decode_length in H; [exact H | lia | exact Hrem].
    + intros. split; [intros _; now injection H as <-|]. split; lia.
  - intros [p bpc cols colors ec] inflated Hinf. unfold LZWEncoder.DecodeStream.
    rewrite Hinf. cbn [bind LZWEncoder.Predictor LZWEncoder.Columns LZWEncoder.Colors].
    intros H. cbv zeta.
    destruct (Z.ltb_spec 1 p) as [Hp|Hp].
    + split; [lia|].
      destruct (Z.eqb_spec p 2) as [->|Hp2].
      * split; [|lia]. intros _.
        destruct (tiff_decode_length _ _ _ _ H) as [[Hr ->] | [Hr Hl]];
          destruct (Z.ltb_spec (cols * colors) 1); try lia; try reflexivity; exact Hl.
      * split; [lia|]. intros Hpng.
        destruct (Z.leb_spec 10 p); [|lia]. destruct (Z.leb_spec p 15); [|lia].
        cbn [andb] in H. unfold LZWEncoder.png_decode in H.
        cbn [LZWEncoder.Columns LZWEncoder.Colors] in H.
        set (rl := cols * colors + 1) in *.
        destruct (Z.ltb_spec rl 1); [now injection H as <-|].
        destruct (Z.eqb_spec (len inflated mod rl) 0) as [Hrem|]; [|discriminate].
        cbn [negb] in H. destruct (Z.ltb_spec (len inflated) rl); [discriminate|].
        apply png_decode_length in H; [exact H | lia | exact Hrem].
    + split; [intros _; now injection H as <-|]. split; lia.
Qed.

Lemma X22_predictor_decoded_size_witness :
  len [10; 30; 30; 55] = len [1; 10; 20; 1; 30; 25] - len [1; 10; 20; 1; 30; 25] / (2 * 1 + 1).
Proof.
  apply (proj1 (X22_predictor_decoded_size (fun _ => Ok tt) (fun d => d)
                  (fun d => Ok d) (fun d => Ok d) [1; 10; 20; 1; 30; 25] [10; 30; 30; 55])
           (FlateEncoder.Build 11 8 2 1)).
  - reflexivity.
  - vm_compute. split; discriminate.
Defined.

(** ** The helper repeat of Algorithm 2.B *)

Lemma copy_up_lookup (buf : bytes) (bp : Z) (i : nat) :
  0 <= bp < len buf -> (i < length buf)%nat ->
  copy_up buf bp !! i
  = if decide (Z.of_nat i < bp \/ 2 * bp <= Z.of_nat i) then buf !! i
    else buf !! (i - Z.to_nat bp)%nat.
Proof.
  intros Hbp Hi. unfold copy_up, len in *.
  set (m := Z.min bp (Z.of_nat (length buf) - bp)).
  assert (Hm : 0 <= m) by lia.
  destruct (decide (Z.of_nat i < bp)) as [Hlt|Hge].
  - rewrite lookup_app_l by (rewrite length_take; lia).
    rewrite lookup_take_lt by lia.
    destruct (decide _) as [_|Hn]; [reflexivity | tauto].
  - rewrite lookup_app_r by (rewrite length_take; lia).
    rewrite length_take. replace (Z.to_nat bp `min` length buf)%nat with (Z.to_nat bp) by lia.
    destruct (decide (Z.of_nat i < bp + m)) as [Hin|Hout].
    + rewrite lookup_app_l by (rewrite length_take; lia).
      rewrite lookup_take_lt by lia.
      destruct (decide _) as [[H|H]|_]; [lia | lia | reflexivity].
    + rewrite lookup_app_r by (rewrite length_take; lia).
      rewrite length_take, lookup_drop.
      replace (Z.to_nat (bp + m) + (i - Z.to_nat bp - Z.to_nat m `min` length buf))%nat
        with i by lia.
      destruct (decide _) as [_|Hn]; [reflexivity | lia].
Qed.

Section Repeat.
Variable orig : bytes.
Variable n : Z.
Hypothesis n_pos : 1 <= n.

(** The first [bp] bytes of the buffer (all of them, once [bp] has passed
    the length) are copies of the first [n] bytes, and [bp] is a multiple of
    [n]. *)
Definition periodic (buf : bytes) (bp : Z) : Prop :=
  length buf = length orig
  /\ (exists k, 1 <= k /\ bp = n * k)
  /\ forall i : nat, Z.of_nat i < bp -> (i < length orig)%nat ->
                     buf !! i = orig !! Z.to_nat (Z.of_nat i mod n).

Lemma periodic_step (buf : bytes) (bp : Z) :
  periodic buf bp -> bp < len buf -> periodic (copy_up buf bp) (bp * 2).
Proof.
  intros (Hl & (k & Hk & Hbp) & Hper) Hlt.
  assert (Hbp0 : 1 <= bp) by nia.
  split; [rewrite copy_up_length by lia; exact Hl|].
  split; [exists (k * 2); split; [lia | rewrite Hbp; ring]|].
  intros i Hi Hio.
  rewrite copy_up_lookup by (unfold len in *; lia).
  destruct (decide _) as [[H|H]|Hmid]; [now apply Hper | lia |].
  rewrite Hper by lia. f_equal. f_equal.
  rewrite Nat2Z.inj_sub, Z2Nat.id by lia.
  replace (Z.of_nat i - bp) with (Z.of_nat i + (- k) * n) by lia.
  apply Z.mod_add. lia.
Qed.

Lemma repeat_loop_periodic (fuel : nat) :
  forall buf bp,
    periodic buf bp -> Z.max 0 (len buf - bp) < Z.of_nat fuel ->
    exists buf',
      repeat_loop fuel buf bp = Ok buf'
      /\ length buf' = length orig
      /\ forall i : nat, (i < length orig)%nat ->
                         buf' !! i = orig !! Z.to_nat (Z.of_nat i mod n).
Proof.
  induction fuel as [|fuel IH]; intros buf bp Hper Hfuel; [lia|].
  cbn [repeat_loop]. destruct (Z.ltb_spec bp (len buf)) as [Hlt|Hge].
  - apply IH; [now apply periodic_step|].
    destruct Hper as (_ & (k & Hk & Hbp) & _).
    unfold len in *. rewrite copy_up_length by nia. nia.
  - destruct Hper as (Hl & _ & Hper). exists buf. split; [reflexivity|].
    split; [exact Hl|]. intros i Hi. apply Hper; unfold len in *; lia.
Qed.

End Repeat.

(** X23: repeat(buf, n) with n >= 1 ends and leaves the buffer filled with
    copies of its first n bytes: the length is kept and the byte at every
    index i is the former byte at index i mod n, whether or not the length is
    a multiple of n. *)
Theorem X23_repeat_periodic (buf : bytes) (n : Z) :
  1 <= n ->
  exists buf',
    repeat buf n = Ok buf'
    /\ len buf' = len buf
    /\ forall i, 0 <= i < len buf -> idx buf' i = idx buf (i mod n).
Proof.
  intros Hn. unfold repeat.
  destruct (repeat_loop_periodic buf n Hn (S (length buf)) buf n)
    as (buf' & Hr & Hl & Hper).
  - split; [reflexivity|]. split; [exists 1; lia|].
    intros i Hi _. rewrite Z.mod_small by lia. now rewrite Nat2Z.id.
  - unfold len. lia.
  - exists buf'. split; [exact Hr|]. split; [unfold len; now rewrite Hl|].
    intros i Hi. unfold idx, len in *. rewrite !nth_lookup.
    rewrite (Hper (Z.to_nat i)) by lia. now rewrite Z2Nat.id by lia.
Qed.

Lemma X23_repeat_periodic_witness :
  exists buf',
    repeat [1; 2; 3; 0; 0; 0; 0; 0] 3 = Ok buf'
    /\ len buf' = len [1; 2; 3; 0; 0; 0; 0; 0]
    /\ forall i, 0 <= i < len [1; 2; 3; 0; 0; 0; 0; 0] ->
                 idx buf' i = idx [1; 2; 3; 0; 0; 0; 0; 0] (i mod 3).
Proof. apply X23_repeat_periodic. lia. Defined.

(** * The handler PdfCryptMakeNew makes *)

(** ** What LoadCryptFilters writes *)

(** The handler without its crypt filters and the two filter names. *)
Definition without_filters (c : PdfCrypt.t) : PdfCrypt.t :=
  with_CryptFilters ∅ (with_StreamFilter "" (with_StringFilter "" c)).

(** A step that writes nothing in the handler but the crypt filters. *)
Definition keeps {A} (m : Make.M A) : Prop :=
  forall s, without_filters (snd (fst (m s))) = without_filters (snd s).

Lemma keeps_ret {A} (a : A) : keeps (Make.ret a).
Proof. intros s. reflexivity. Qed.

Lemma keeps_fail {A} (e : error) : keeps (@Make.fail A e).
Proof. intros s. reflexivity. Qed.

Lemma keeps_get : keeps Make.get.
Proof. intros s. reflexivity. Qed.

Lemma keeps_set_heap (f : gmap addr PdfObject -> gmap addr PdfObject) :
  keeps (Make.set_heap f).
Proof. intros s. reflexivity. Qed.

Lemma keeps_set_crypt (f : PdfCrypt.t -> PdfCrypt.t) :
  (forall c, without_filters (f c) = without_filters c) -> keeps (Make.set_crypt f).
Proof. intros Hf s. apply Hf. Qed.

Lemma keeps_bind {A B} (m : Make.M A) (k : A -> Make.M B) :
  keeps m -> (forall a, keeps (k a)) -> keeps (Make.bind m k).
Proof.
  intros Hm Hk s. unfold Make.bind. pose proof (Hm s) as H.
  destruct (m s) as [s' [a| | |]]; cbn [fst snd] in *; try exact H.
  now rewrite Hk.
Qed.

Lemma keeps_for_each {A} (l : list A) (body : A -> Make.M unit) :
  (forall x, keeps (body x)) -> keeps (Make.for_each l body).
Proof.
  intros Hb. induction l as [|x l IH]; [apply keeps_ret|].
  cbn [Make.for_each]. apply keeps_bind; [apply Hb | intros _; exact IH].
Qed.

Section MadeHandler.
Variable TraceToDirectObject : gmap addr PdfObject -> option addr -> option addr.
Variable LookupByReference : gmap addr PdfObject -> Z -> Z -> option addr * option error.

Local Abbreviation Load := (LoadCryptFilters TraceToDirectObject LookupByReference).
Local Abbreviation MakeNew := (PdfCryptMakeNew TraceToDirectObject LookupByReference).

Lemma keeps_resolve (v : option addr) :
  keeps (resolve TraceToDirectObject LookupByReference v).
Proof.
  unfold resolve. apply keeps_bind; [apply keeps_get|]. intros s.
  destruct (v ≫= _) as [[]|]; try apply keeps_ret.
  destruct (LookupByReference _ _ _) as [o [e|]]; [apply keeps_fail | apply keeps_ret].
Qed.

Lemma keeps_set_filter (name : string) (cf : CryptFilter.t) : keeps (set_filter name cf).
Proof. apply keeps_set_crypt. reflexivity. Qed.

Lemma keeps_load_filter (cf : list (string * addr)) (name : string) :
  keeps (load_filter TraceToDirectObject LookupByReference cf name).
Proof.
  unfold load_filter. apply keeps_bind; [apply keeps_resolve|]. intros v.
  apply keeps_bind; [apply keeps_get|]. intros s.
  destruct (v ≫= _) as [[ | | | | | | | dict | | ]|]; try apply keeps_fail.
  destruct (String.eqb name "Identity"); [apply keeps_ret|].
  apply keeps_bind.
  { destruct (dict_value _ dict "Type") as [[ | | |typename| | | | | | ]|];
      try apply keeps_ret.
    destruct (negb _); [apply keeps_fail | apply keeps_ret]. }
  intros _.
  destruct (dict_value _ dict "CFM") as [[ | | |cfm| | | | | | ]|]; try apply keeps_fail.
  destruct (_ || _); [|apply keeps_fail].
  destruct (dict_Get dict "Length") as [a|]; [|apply keeps_set_filter].
  destruct (dict_value _ dict "Length") as [[ | |length| | | | | | | ]|];
    try apply keeps_set_filter.
  destruct (negb _); [apply keeps_fail|].
  destruct (_ || _); [|apply keeps_set_filter].
  destruct (_ || _).
  - apply keeps_bind; [apply keeps_set_heap | intros _; apply keeps_set_filter].
  - destruct (negb _); [apply keeps_fail | apply keeps_set_filter].
Qed.

Lemma keeps_select_filter (ed : list (string * addr)) (key msg : string)
  (assign : string -> PdfCrypt.t -> PdfCrypt.t) :
  (forall f c, without_filters (assign f c) = without_filters c) ->
  keeps (select_filter ed key msg assign).
Proof.
  intros Ha. unfold select_filter.
  apply keeps_bind; [now apply keeps_set_crypt|]. intros _.
  apply keeps_bind; [apply keeps_get|]. intros s.
  destruct (dict_value _ ed key) as [[ | | |f| | | | | | ]|]; try apply keeps_ret.
  destruct (_ !! f); [now apply keeps_set_crypt | apply keeps_fail].
Qed.

Lemma keeps_LoadCryptFilters (ed : list (string * addr)) : keeps (Load ed).
Proof.
  unfold LoadCryptFilters.
  apply keeps_bind; [now apply keeps_set_crypt|]. intros _.
  apply keeps_bind; [apply keeps_get|]. intros s.
  apply keeps_bind; [apply keeps_resolve|]. intros obj.
  apply keeps_bind; [apply keeps_get|]. intros s'.
  destruct (obj ≫= _) as [[ | | | | | | | cf | | ]|]; try apply keeps_fail.
  apply keeps_bind; [apply keeps_for_each, keeps_load_filter|]. intros _.
  apply keeps_bind; [apply keeps_set_filter|]. intros _.
  apply keeps_bind; apply keeps_select_filter || intros _; try reflexivity.
  apply keeps_select_filter. reflexivity.
Qed.

(** A filter name the handler can use: it is in the map. *)
Definition registered (c : PdfCrypt.t) (name : string) : Prop :=
  is_Some (PdfCrypt.CryptFilters c !! name).

Lemma select_filter_registered (ed : list (string * addr)) (key msg : string)
  (assign : string -> PdfCrypt.t -> PdfCrypt.t) (read : PdfCrypt.t -> string)
  (s s' : Make.state) :
  (forall f c, PdfCrypt.CryptFilters (assign f c) = PdfCrypt.CryptFilters c) ->
  (forall f c, read (assign f c) = f) ->
  registered (snd s) "Identity" ->
  select_filter ed key msg assign s = (s', Ok tt) ->
  PdfCrypt.CryptFilters (snd s') = PdfCrypt.CryptFilters (snd s)
  /\ registered (snd s') (read (snd s')).
Proof.
  intros Hf Hr Hid. unfold select_filter, Make.bind, Make.set_crypt, Make.get.
  cbn [fst snd].
  destruct (dict_value _ ed key) as [[ | | |f| | | | | | ]|];
    try (intros H; injection H as <-; cbn [snd]; rewrite Hf, Hr; split;
         [reflexivity | unfold registered; rewrite Hf; exact Hid]).
  destruct (_ !! f) as [cf|] eqn:E; [|discriminate].
  intros H. injection H as <-. cbn [fst snd]. rewrite !Hf, Hr.
  split; [reflexivity|]. unfold registered. rewrite !Hf.
  rewrite Hf in E. now rewrite E.
Qed.

Lemma LoadCryptFilters_registered (ed : list (string * addr)) (s s' : Make.state) :
  Load ed s = (s', Ok tt) ->
  registered (snd s') "Identity"
  /\ registered (snd s') (PdfCrypt.StringFilter (snd s'))
  /\ registered (snd s') (PdfCrypt.StreamFilter (snd s')).
Proof.
  unfold LoadCryptFilters.
  unfold Make.bind at 1. unfold Make.set_crypt at 1.
  unfold Make.bind at 1. unfold Make.get at 1.
  unfold Make.bind at 1.
  destruct (resolve _ _ _ _) as [s1 [obj| | |]]; try discriminate.
  unfold Make.bind at 1. unfold Make.get at 1.
  destruct (obj ≫= _) as [[ | | | | | | | cf | | ]|]; try discriminate.
  unfold Make.bind at 1.
  destruct (Make.for_each _ _ _) as [s2 [[]| | |]]; try discriminate.
  unfold Make.bind at 1. unfold set_filter at 1. unfold Make.set_crypt at 1.
  set (s3 := (fst s2, _)).
  assert (Hid : registered (snd s3) "Identity").
  { unfold registered. subst s3. cbn [snd with_CryptFilters PdfCrypt.CryptFilters].
    rewrite lookup_insert_eq. eauto. }
  clearbody s3.
  unfold Make.bind at 1.
  destruct (select_filter ed "StrF" _ _ s3) as [s4 [[]| | |]] eqn:E4; try discriminate.
  destruct (select_filter_registered ed "StrF" _ with_StringFilter PdfCrypt.StringFilter
              s3 s4 ltac:(reflexivity) ltac:(reflexivity) Hid E4) as [F4 R4].
  intros E5.
  assert (Hid4 : registered (snd s4) "Identity") by (unfold registered; now rewrite F4).
  destruct (select_filter_registered ed "StmF" _ with_StreamFilter PdfCrypt.StreamFilter
              s4 s' ltac:(reflexivity) ltac:(reflexivity) Hid4 E5) as [F5 R5].
  split; [unfold registered; now rewrite F5|]. split; [|exact R5].
  assert (HS : PdfCrypt.StringFilter (snd s') = PdfCrypt.StringFilter (snd s4)).
  { pose proof (keeps_select_filter ed "StmF"
                  "Crypt filter for StmF not specified in CF dictionary (%s)"
                  with_StreamFilter ltac:(reflexivity) s4) as Hk.
    clear -E5. unfold select_filter, Make.bind, Make.set_crypt, Make.get in E5.
    cbn [fst snd] in E5.
    destruct (dict_value _ ed "StmF") as [[ | | |f| | | | | | ]|];
      try (injection E5 as <-; reflexivity).
    destruct (_ !! f); [|discriminate]. injection E5 as <-. reflexivity. }
  unfold registered in *. rewrite HS, F5. exact R4.
Qed.

(** What holds of a handler [PdfCryptMakeNew] has made. *)
Record made (c : PdfCrypt.t) : Prop := Made {
  made_R : 2 <= PdfCrypt.R c <= 6;
  made_V : PdfCrypt.V c = 0 \/ 1 <= PdfCrypt.V c <= 2 \/ 4 <= PdfCrypt.V c <= 5;
  made_Length : Z.rem (PdfCrypt.Length c) 8 = 0;
  made_O : if PdfCrypt.R c <? 5 then len (PdfCrypt.O c) = 32 else 48 <= len (PdfCrypt.O c);
  made_U : 5 <= PdfCrypt.R c -> 48 <= len (PdfCrypt.U c);
  made_OE : 5 <= PdfCrypt.R c -> len (PdfCrypt.OE c) = 32 /\ len (PdfCrypt.UE c) = 32;
  made_Perms : PdfCrypt.R c = 6 -> len (PdfCrypt.Perms c) = 16;
  made_fresh : PdfCrypt.Authenticated c = false /\ PdfCrypt.EncryptionKey c = []
               /\ PdfCrypt.DecryptedObjects c = ∅ /\ PdfCrypt.EncryptedObjects c = ∅;
  made_Default : 1 <= PdfCrypt.V c <= 2 ->
                 PdfCrypt.CryptFilters c
                 = {[ "Default" := CryptFilter.Build "V2" (PdfCrypt.Length c) ]};
  made_filters : 4 <= PdfCrypt.V c ->
                 registered c "Identity" /\ registered c (PdfCrypt.StringFilter c)
                 /\ registered c (PdfCrypt.StreamFilter c)
}.

(** X24: a handler PdfCryptMakeNew returns without error is well formed:
    R is between 2 and 6, V is 0 (no V entry), 1, 2, 4 or 5, Length is a
    multiple of 8 (40 when the dictionary has none), O has 32 bytes below
    revision 5 and at least 48 from revision 5 on, where U has at least 48
    bytes and OE and UE have 32, Perms has 16 bytes in revision 6; nothing is
    authenticated or processed yet; for V = 1 or 2 the only crypt filter is
    Default, with method V2 and the length of the handler; for V = 4 or 5 the
    filter Identity and the filters named by StrF and StmF are in the map. *)
Theorem X24_made_handler (h h' : gmap addr PdfObject) (ed trailer : list (string * addr))
  (c : PdfCrypt.t) :
  MakeNew h ed trailer = (h', c, Ok tt) -> made c.
Proof.
  unfold PdfCryptMakeNew, PdfCryptMakeNew_body.
  unfold Make.bind at 1. unfold Make.get at 1. cbn [fst snd].
  destruct (dict_value h ed "Filter") as [[ | | |filter| | | | | | ]|]; try discriminate.
  destruct (negb (String.eqb filter "Standard")); [discriminate|].
  unfold Make.bind at 1.
  match goal with |- match ?x with _ => _ end = _ -> _ => set (s1 := x) end.
  assert (H1 : forall s, s1 = (s, Ok tt) ->
                 fst s = h
                 /\ exists l, Z.rem l 8 = 0 /\ snd s = with_Length l PdfCrypt_zero).
  { subst s1. intros s.
    destruct (dict_value h ed "Length") as [[ | |l| | | | | | | ]|];
      try (intros Eq; injection Eq as <-; split; [reflexivity | now exists 40]).
    destruct (Z.eqb_spec (Z.rem l 8) 0) as [Hl|]; [|discriminate].
    intros Eq. injection Eq as <-. split; [reflexivity | now exists l]. }
  destruct s1 as [s1 [[]| | |]]; try discriminate.
  destruct (H1 s1 eq_refl) as (Hh1 & l & Hl & Hc1). clear H1.
  destruct s1 as [h1 c1]. cbn [fst snd] in Hh1, Hc1. subst h1 c1.
  unfold Make.bind at 1.
  match goal with |- match ?x with _ => _ end = _ -> _ => set (s2 := x) end.
  assert (H2 : forall s, s2 = (s, Ok tt) ->
                 without_filters (snd s)
                 = without_filters (with_V (PdfCrypt.V (snd s)) (with_Length l PdfCrypt_zero))
                 /\ (PdfCrypt.V (snd s) = 0 \/ 1 <= PdfCrypt.V (snd s) <= 2
                     \/ 4 <= PdfCrypt.V (snd s) <= 5)
                 /\ (1 <= PdfCrypt.V (snd s) <= 2 ->
                     PdfCrypt.CryptFilters (snd s)
                     = {[ "Default" := CryptFilter.Build "V2" l ]})
                 /\ (4 <= PdfCrypt.V (snd s) ->
                     registered (snd s) "Identity"
                     /\ registered (snd s) (PdfCrypt.StringFilter (snd s))
                     /\ registered (snd s) (PdfCrypt.StreamFilter (snd s)))).
  { subst s2. intros s.
    destruct (dict_value h ed "V") as [[ | |v| | | | | | | ]|];
      try (intros Eq; injection Eq as <-; cbn [snd with_V PdfCrypt.V];
           split; [reflexivity|]; split; [now left|]; split; intros; lia).
    destruct (Z.leb_spec 1 v) as [Hv1|Hv1]; cbn [andb];
      [destruct (Z.leb_spec v 2) as [Hv2|Hv2]|].
    - intros Eq. injection Eq as <-. cbn [snd fst with_V with_CryptFilters PdfCrypt.V
                                         PdfCrypt.CryptFilters PdfCrypt.Length with_Length].
      split; [reflexivity|]. split; [right; left; lia|]. split; [reflexivity | lia].
    - destruct (Z.leb_spec 4 v) as [Hv4|]; [|discriminate]. cbn [andb].
      destruct (Z.leb_spec v 5) as [Hv5|]; [|discriminate].
      unfold Make.bind at 1. unfold Make.set_crypt at 1. cbn [fst snd].
      intros H.
      pose proof (keeps_LoadCryptFilters ed (h, with_V v (with_Length l PdfCrypt_zero)))
        as Hk.
      pose proof (LoadCryptFilters_registered ed _ _ H) as Hreg.
      rewrite H in Hk. cbn [fst snd] in Hk.
      assert (HV : PdfCrypt.V (snd s) = v)
        by (apply (f_equal PdfCrypt.V) in Hk; exact Hk).
      rewrite HV. split; [exact Hk|]. split; [right; right; lia|]. split; [lia|].
      intros _. exact Hreg.
    - destruct (Z.leb_spec 4 v); [lia|]. discriminate. }
  destruct s2 as [s2 [[]| | |]]; try discriminate.
  destruct (H2 s2 eq_refl) as (Hc2 & HV & HD & HF). clear H2.
  destruct s2 as [h2 c2]. cbn [fst snd] in *.
  unfold Make.bind at 1. unfold Make.get at 1. cbn [fst snd].
  destruct (dict_value h2 ed "R") as [[ | |r| | | | | | | ]|]; try discriminate.
  destruct (Z.ltb_spec r 2) as [|Hr2]; [discriminate|]. cbn [orb].
  destruct (Z.ltb_spec 6 r) as [|Hr6]; [discriminate|].
  unfold Make.bind at 1. unfold Make.set_crypt at 1. cbn [fst snd].
  destruct (dict_value h2 ed "O") as [[ | | | |o| | | | | ]|]; try discriminate.
  unfold Make.bind at 1.
  match goal with |- match ?x with _ => _ end = _ -> _ => set (chkO := x) end.
  assert (HO : forall s, chkO = (s, Ok tt) ->
                 s = (h2, with_R r c2)
                 /\ (if r <? 5 then len o = 32 else 48 <= len o)).
  { subst chkO. intros s.
    destruct (Z.eqb_spec r 5) as [->|]; cbn [orb].
    - destruct (Z.ltb_spec (len o) 48); [discriminate|].
      intros Eq. injection Eq as <-. now split.
    - destruct (Z.eqb_spec r 6) as [->|].
      + destruct (Z.ltb_spec (len o) 48); [discriminate|].
        intros Eq. injection Eq as <-. now split.
      + destruct (Z.eqb_spec (len o) 32) as [Ho|]; [|discriminate].
        intros Eq. injection Eq as <-. split; [reflexivity|].
        destruct (Z.ltb_spec r 5); [exact Ho | lia]. }
  destruct chkO as [sO [[]| | |]]; try discriminate.
  destruct (HO sO eq_refl) as [-> HlenO]. clear HO.
  unfold Make.bind at 1. unfold Make.set_crypt at 1. cbn [fst snd].
  destruct (dict_value h2 ed "U") as [[ | | | |u| | | | | ]|]; try discriminate.
  unfold Make.bind at 1.
  match goal with |- match ?x with _ => _ end = _ -> _ => set (chkU := x) end.
  assert (HU : forall s, chkU = (s, Ok tt) ->
                 s = (h2, with_O o (with_R r c2)) /\ (5 <= r -> 48 <= len u)).
  { subst chkU. intros s.
    destruct (Z.eqb_spec r 5) as [->|]; cbn [orb].
    - destruct (Z.ltb_spec (len u) 48); [discriminate|].
      intros Eq. injection Eq as <-. now split.
    - destruct (Z.eqb_spec r 6) as [->|].
      + destruct (Z.ltb_spec (len u) 48); [discriminate|].
        intros Eq. injection Eq as <-. now split.
      + intros Eq. injection Eq as <-. split; [reflexivity | lia]. }
  destruct chkU as [sU [[]| | |]]; try discriminate.
  destruct (HU sU eq_refl) as [-> HlenU]. clear HU.
  unfold Make.bind at 1. unfold Make.set_crypt at 1. cbn [fst snd].
  unfold Make.bind at 1.
  set (c3 := with_U u (with_O o (with_R r c2))).
  match goal with |- match ?x with _ => _ end = _ -> _ => set (sE := x) end.
  assert (HE : forall s, sE = (s, Ok tt) ->
                 exists oe ue,
                   s = (h2, if 5 <=? r then with_UE ue (with_OE oe c3) else c3)
                   /\ (5 <= r -> len oe = 32 /\ len ue = 32)).
  { subst sE. intros s. destruct (Z.leb_spec 5 r) as [Hr5|Hr5].
    - destruct (dict_value h2 ed "OE") as [[ | | | |oe| | | | | ]|]; try discriminate.
      destruct (Z.eqb_spec (len oe) 32) as [Hoe|]; [|discriminate]. cbn [negb].
      unfold Make.bind at 1. unfold Make.set_crypt at 1. cbn [fst snd].
      destruct (dict_value h2 ed "UE") as [[ | | | |ue| | | | | ]|]; try discriminate.
      destruct (Z.eqb_spec (len ue) 32) as [Hue|]; [|discriminate]. cbn [negb].
      intros Eq. injection Eq as <-. exists oe, ue. now split.
    - intros Eq. injection Eq as <-. exists [], []. split; [reflexivity | lia]. }
  destruct sE as [sE [[]| | |]]; try discriminate.
  destruct (HE sE eq_refl) as (oe & ue & -> & HlenE). clear HE.
  set (c4 := if 5 <=? r then with_UE ue (with_OE oe c3) else c3).
  destruct (dict_value h2 ed "P") as [[ | |p| | | | | | | ]|]; try discriminate.
  unfold Make.bind at 1. unfold Make.set_crypt at 1. cbn [fst snd].
  unfold Make.bind at 1.
  match goal with |- match ?x with _ => _ end = _ -> _ => set (sP := x) end.
  assert (HP : forall s, sP = (s, Ok tt) ->
                 exists perms,
                   s = (h2, if r =? 6 then PdfCrypt.set_Perms (with_P p c4) perms
                            else with_P p c4)
                   /\ (r = 6 -> len perms = 16)).
  { subst sP. intros s. destruct (Z.eqb_spec r 6) as [Hr|Hr].
    - destruct (dict_value h2 ed "Perms") as [[ | | | |perms| | | | | ]|]; try discriminate.
      destruct (Z.eqb_spec (len perms) 16) as [Hp|]; [|discriminate]. cbn [negb].
      intros Eq. injection Eq as <-. exists perms. now split.
    - intros Eq. injection Eq as <-. exists []. split; [reflexivity | lia]. }
  destruct sP as [sP [[]| | |]]; try discriminate.
  destruct (HP sP eq_refl) as (perms & -> & HlenP). clear HP.
  set (c5 := if r =? 6 then _ else _).
  unfold Make.bind at 1. unfold Make.set_crypt at 1. cbn [fst snd].
  set (c6 := with_EncryptMetadata _ c5).
  assert (Hfinal : forall id0, made (with_Id0 id0 c6)).
  { intros id0.
    assert (HR : PdfCrypt.R (with_Id0 id0 c6) = r).
    { subst c6 c5 c4 c3. destruct (r =? 6), (5 <=? r); reflexivity. }
    assert (Hwf : without_filters (with_Id0 id0 c6)
                  = without_filters
                      (with_Id0 id0
                         (with_EncryptMetadata (PdfCrypt.EncryptMetadata c6)
                            (PdfCrypt.set_Perms
                               (with_P p
                                  (with_UE (PdfCrypt.UE c6)
                                     (with_OE (PdfCrypt.OE c6)
                                        (with_U u (with_O o (with_R r
                                           (with_V (PdfCrypt.V c2)
                                              (with_Length l PdfCrypt_zero))))))))
                               (PdfCrypt.Perms c6))))).
    { subst c6 c5 c4 c3. destruct c2.
      apply (f_equal PdfCrypt.V) in Hc2 as E1.
      pose proof (f_equal PdfCrypt.Length Hc2) as E2.
      pose proof (f_equal PdfCrypt.R Hc2) as E3.
      pose proof (f_equal PdfCrypt.O Hc2) as E4.
      pose proof (f_equal PdfCrypt.U Hc2) as E5.
      pose proof (f_equal PdfCrypt.OE Hc2) as E6.
      pose proof (f_equal PdfCrypt.UE Hc2) as E7.
      pose proof (f_equal PdfCrypt.P Hc2) as E8.
      pose proof (f_equal PdfCrypt.Perms Hc2) as E9.
      pose proof (f_equal PdfCrypt.EncryptMetadata Hc2) as E10.
      pose proof (f_equal PdfCrypt.Id0 Hc2) as E11.
      pose proof (f_equal PdfCrypt.EncryptionKey Hc2) as E12.
      pose proof (f_equal PdfCrypt.DecryptedObjects Hc2) as E13.
      pose proof (f_equal PdfCrypt.EncryptedObjects Hc2) as E14.
      pose proof (f_equal PdfCrypt.Authenticated Hc2) as E15.
      cbn in E2, E3, E4, E5, E6, E7, E8, E9, E10, E11, E12, E13, E14, E15. subst.
      destruct (r =? 6), (5 <=? r); reflexivity. }
    assert (HF' : PdfCrypt.CryptFilters (with_Id0 id0 c6) = PdfCrypt.CryptFilters c2
                  /\ PdfCrypt.StringFilter (with_Id0 id0 c6) = PdfCrypt.StringFilter c2
                  /\ PdfCrypt.StreamFilter (with_Id0 id0 c6) = PdfCrypt.StreamFilter c2
                  /\ PdfCrypt.V (with_Id0 id0 c6) = PdfCrypt.V c2).
    { subst c6 c5 c4 c3. destruct (r =? 6), (5 <=? r); repeat split. }
    destruct HF' as (F1 & F2 & F3 & F4).
    assert (HOE : PdfCrypt.OE c6 = (if 5 <=? r then oe else PdfCrypt.OE c2)
                  /\ PdfCrypt.UE c6 = (if 5 <=? r then ue else PdfCrypt.UE c2)
                  /\ PdfCrypt.Perms c6 = (if r =? 6 then perms else PdfCrypt.Perms c2)).
    { subst c6 c5 c4 c3. destruct (r =? 6), (5 <=? r); repeat split. }
    destruct HOE as (G1 & G2 & G3).
    assert (EL : PdfCrypt.Length (with_Id0 id0 c6) = l)
      by exact (f_equal PdfCrypt.Length Hwf).
    assert (EO : PdfCrypt.O (with_Id0 id0 c6) = o) by exact (f_equal PdfCrypt.O Hwf).
    assert (EU : PdfCrypt.U (with_Id0 id0 c6) = u) by exact (f_equal PdfCrypt.U Hwf).
    assert (EOE : PdfCrypt.OE (with_Id0 id0 c6) = PdfCrypt.OE c6)
      by exact (f_equal PdfCrypt.OE Hwf).
    assert (EUE : PdfCrypt.UE (with_Id0 id0 c6) = PdfCrypt.UE c6)
      by exact (f_equal PdfCrypt.UE Hwf).
    assert (EP : PdfCrypt.Perms (with_Id0 id0 c6) = PdfCrypt.Perms c6)
      by exact (f_equal PdfCrypt.Perms Hwf).
    assert (EA : PdfCrypt.Authenticated (with_Id0 id0 c6) = false)
      by exact (f_equal PdfCrypt.Authenticated Hwf).
    assert (EK : PdfCrypt.EncryptionKey (with_Id0 id0 c6) = [])
      by exact (f_equal PdfCrypt.EncryptionKey Hwf).
    assert (ED : PdfCrypt.DecryptedObjects (with_Id0 id0 c6) = ∅)
      by exact (f_equal PdfCrypt.DecryptedObjects Hwf).
    assert (EE : PdfCrypt.EncryptedObjects (with_Id0 id0 c6) = ∅)
      by exact (f_equal PdfCrypt.EncryptedObjects Hwf).
    constructor.
    - rewrite HR. lia.
    - rewrite F4. exact HV.
    - rewrite EL. exact Hl.
    - rewrite HR, EO. exact HlenO.
    - rewrite HR, EU. exact HlenU.
    - rewrite HR, EOE, EUE, G1, G2. intros Hr5. destruct (Z.leb_spec 5 r); [auto | lia].
    - rewrite HR, EP, G3. intros Hr. destruct (Z.eqb_spec r 6); [auto | lia].
    - auto.
    - rewrite F4, F1, EL. exact HD.
    - rewrite F4. intros Hv. unfold registered in *. rewrite F1, F2, F3. now apply HF. }
  destruct (dict_value h2 trailer "ID") as [[ | | | | | |[|first rest]| | | ]|];
    try (intros Eq; injection Eq as _ <-; apply Hfinal).
  destruct (h2 !! first) as [[ | | | |id0| | | | | ]|]; try discriminate.
  intros Eq. injection Eq as _ <-. apply Hfinal.
Qed.

End MadeHandler.

(** The encryption dictionary and the trailer of the revision 2 document
    [doc2], as objects of a document. *)
Definition doc2_heap : gmap addr PdfObject :=
  list_to_map
    [(1%positive, PdfObjectName "Standard"); (2%positive, PdfObjectInteger 1);
     (3%positive, PdfObjectInteger 2); (4%positive, PdfObjectInteger 40);
     (5%positive, PdfObjectString doc2_O); (6%positive, PdfObjectString doc2_U);
     (7%positive, PdfObjectInteger (-44)); (8%positive, PdfObjectArray [9%positive]);
     (9%positive, PdfObjectString (bytes_of_string "id0"))].
Definition doc2_ed : list (string * addr) :=
  [("Filter", 1%positive); ("V", 2%positive); ("R", 3%positive); ("Length", 4%positive);
   ("O", 5%positive); ("U", 6%positive); ("P", 7%positive)].
Definition doc2_trailer : list (string * addr) := [("ID", 8%positive)].

Lemma X24_made_handler_witness : made doc2.
Proof.
  apply (X24_made_handler (fun _ o => o) (fun _ _ _ => (None, None))
           doc2_heap doc2_heap doc2_ed doc2_trailer doc2).
  vm_compute. reflexivity.
Defined.

Lemma doc2_made : made doc2.
Proof.
  constructor; cbn; try lia; try (intros; lia); auto.
Qed.

(** [doc2] with the revision 3 and a Length of 256 bits. *)
Definition doc3_long : PdfCrypt.t :=
  PdfCrypt.Build 1 256 3 doc2_O doc2_U [] [] (-44) [] true (bytes_of_string "id0") []
    ∅ ∅ false {[ "Default" := CryptFilter.Build "V2" 256 ]} "" "".

Lemma doc3_long_made : made doc3_long.
Proof.
  constructor; cbn; try lia; try (intros; lia); auto.
Qed.

(** ** A made handler can be authenticated against *)

(** The call returns to its caller: with a value or with an error, and not
    by a run-time panic. *)
Definition returns {A} (r : result A) : Prop :=
  match r with Ok _ | Err _ => True | Panic | OutOfFuel => False end.

Lemma alg2b_loop_no_panic (pwd userKey : bytes) :
  len pwd + len userKey <= 175 ->
  forall fuel i K, hash_len K -> alg2b_loop fuel pwd userKey i K <> Panic.
Proof.
  intros Hfit. induction fuel as [|fuel IH]; intros i K HK; [discriminate|].
  cbn [alg2b_loop].
  destruct (alg2b_round_cases pwd userKey K HK) as [[Hover _] | (_ & E & K' & -> & _ & HK')].
  - exfalso. pose proof (len_nonneg pwd). pose proof (len_nonneg userKey).
    unfold alg2b_buf_len, hash_len in *. lia.
  - cbn [bind]. destruct (_ && _); [discriminate | now apply IH].
Qed.

Lemma alg2b_ok (data pwd userKey : bytes) :
  len pwd + len userKey <= 175 ->
  exists h, alg2b data pwd userKey = Ok h /\ len h = 32.
Proof.
  intros Hfit. unfold alg2b, alg2b_fuel.
  assert (HK0 : hash_len (SHA2.sum256 data)) by (left; apply sum256_length).
  destruct (alg2b_loop_rounds 286 512 pwd userKey 0 (SHA2.sum256 data))
    as [HP | (K & i & -> & _ & _ & HK)]; try assumption; try lia.
  - exfalso. now apply (alg2b_loop_no_panic pwd userKey Hfit 512%nat 0 (SHA2.sum256 data)).
  - cbn [bind fst]. rewrite slice_chk_ok by (unfold hash_len in HK; lia).
    eexists. split; [reflexivity|]. apply slice_length; unfold hash_len in HK; lia.
Qed.

Lemma crypt_alg2b_ok (c : PdfCrypt.t) (data pwd userKey : bytes) :
  len pwd + len userKey <= 175 ->
  exists h, crypt_alg2b c data pwd userKey = Ok h /\ len h = 32.
Proof.
  intros Hfit. unfold crypt_alg2b. destruct (_ =? 5).
  - eexists. split; [reflexivity|]. apply sum256_length.
  - now apply alg2b_ok.
Qed.

Lemma alg11_ok (c : PdfCrypt.t) (upass : bytes) :
  40 <= len (PdfCrypt.U c) -> len upass <= 175 ->
  exists h, alg11 c upass = Ok h.
Proof.
  intros HU Hp. unfold alg11. rewrite slice_chk_ok by lia. cbn [bind].
  destruct (crypt_alg2b_ok c (upass ++ slice (PdfCrypt.U c) 32 40) upass [])
    as (h & -> & Hh); [change (len (@nil Z)) with 0; lia|].
  cbn [bind]. rewrite !slice_chk_ok by lia. cbn [bind].
  destruct (negb _); eauto.
Qed.

Lemma alg12_ok (c : PdfCrypt.t) (opass : bytes) :
  40 <= len (PdfCrypt.O c) -> 48 <= len (PdfCrypt.U c) -> len opass <= 127 ->
  exists h, alg12 c opass = Ok h.
Proof.
  intros HO HU Hp. unfold alg12. rewrite !slice_chk_ok by lia. cbn [bind].
  destruct (crypt_alg2b_ok c (opass ++ slice (PdfCrypt.O c) 32 40 ++ slice (PdfCrypt.U c) 0 48)
              opass (slice (PdfCrypt.U c) 0 48))
    as (h & -> & Hh); [rewrite slice_length by lia; lia|].
  cbn [bind]. rewrite !slice_chk_ok by lia. cbn [bind].
  destruct (negb _); eauto.
Qed.

Lemma AES_cbc_decrypt_length (n : nat) rks iv src :
  length (AES.cbc_decrypt n rks iv src) = (16 * n)%nat.
Proof.
  revert iv src. induction n as [|n IH]; intros iv src; [reflexivity|].
  cbn [AES.cbc_decrypt]. rewrite length_app, AES_AddRoundKey_length, IH. lia.
Qed.

Lemma AES_CBCDecrypt_length (key iv src : bytes) :
  length (AES.CBCDecrypt key iv src) = (16 * (length src / 16))%nat.
Proof. unfold AES.CBCDecrypt. now rewrite length_map, AES_cbc_decrypt_length. Qed.

Lemma truncated_length (pass : bytes) : len (truncated pass) <= 127.
Proof.
  unfold truncated. destruct (Z.ltb_spec 127 (len pass)); [|lia].
  unfold len. rewrite length_take. lia.
Qed.

Lemma alg13_returns (c : PdfCrypt.t) (fkey : bytes) :
  16 <= len (PdfCrypt.Perms c) -> 32 <= len fkey -> returns (snd (alg13 c fkey)).
Proof.
  intros HP Hk. unfold alg13. rewrite !slice_chk_ok by lia.
  destruct (negb (bytes_eqb _ _)); [exact I|]. destruct (negb (_ =? _)); exact I.
Qed.

Lemma alg2a_returns (c : PdfCrypt.t) (pass : bytes) :
  48 <= len (PdfCrypt.O c) -> 48 <= len (PdfCrypt.U c) ->
  32 <= len (PdfCrypt.OE c) -> 32 <= len (PdfCrypt.UE c) ->
  (PdfCrypt.R c <> 5 -> 16 <= len (PdfCrypt.Perms c)) ->
  returns (snd (alg2a c pass)).
Proof.
  intros HO HU HOE HUE HP.
  pose proof (truncated_length pass) as Ht.
  assert (Hfinish : forall data ekey ukey,
            32 <= len ekey -> len ukey <= 48 ->
            returns
              (snd (match (ekey <- slice_chk ekey 0 32;;
                           ikey <- crypt_alg2b c data (truncated pass) ukey;;
                           ikey <- slice_chk ikey 0 32;;
                           Ok (AES.CBCDecrypt ikey (replicate 16 0) ekey)) with
                    | Ok fkey =>
                        let crypt := PdfCrypt.set_EncryptionKey c fkey in
                        if PdfCrypt.R crypt =? 5 then (crypt, Ok true) else alg13 crypt fkey
                    | Err e => (c, Err e)
                    | Panic => (c, Panic)
                    | OutOfFuel => (c, OutOfFuel)
                    end))).
  { intros data ekey ukey Hek Huk. rewrite slice_chk_ok by lia. cbn [bind].
    destruct (crypt_alg2b_ok c data (truncated pass) ukey) as (h & -> & Hh); [lia|].
    cbn [bind]. rewrite slice_chk_ok by lia. cbn [bind]. cbv zeta.
    change (PdfCrypt.R (PdfCrypt.set_EncryptionKey c _)) with (PdfCrypt.R c).
    destruct (Z.eqb_spec (PdfCrypt.R c) 5) as [|HR]; [exact I|].
    apply alg13_returns; [exact (HP HR)|].
    unfold len. rewrite AES_CBCDecrypt_length.
    replace (length (slice ekey 0 32)) with 32%nat
      by (pose proof (slice_length ekey 0 32 ltac:(lia) ltac:(lia)); unfold len in *; lia).
    cbn. lia. }
  unfold alg2a. fold (truncated pass).
  destruct (alg12_ok c (truncated pass)) as (h12 & ->); try lia. cbn [bind].
  destruct (negb (len h12 =? 0)).
  - rewrite !slice_chk_ok by lia. cbn [bind]. apply Hfinish; [lia|].
    rewrite slice_length by lia. lia.
  - destruct (alg11_ok c (truncated pass)) as (h11 & ->); try lia. cbn [bind].
    destruct (alg11_ok c []) as (h0 & E0); [lia | change (len (@nil Z)) with 0; lia|].
    assert (Hh : exists h, (if len h11 =? 0 then alg11 c [] else Ok h11) = Ok h)
      by (destruct (len h11 =? 0); eauto).
    destruct Hh as (h & ->). cbn [bind].
    destruct (len h =? 0); [exact I|].
    rewrite !slice_chk_ok by lia. cbn [bind]. apply Hfinish; [lia|].
    change (len (@nil Z)) with 0. lia.
Qed.

Lemma rc4_rounds_returns (msg : string) (g : Z -> Z) (ekey : bytes) (l : list Z) :
  forall r : result bytes,
    returns r ->
    returns
      (fold_left
         (fun (r : result bytes) i =>
            e <- r;;
            let k := map (fun b => Z.lxor b (byte (g i))) ekey in
            if negb (RC4.key_ok k) then Err (Errorf msg) else Ok (RC4.XORKeyStream k e))
         l r).
Proof.
  induction l as [|i l IH]; intros r Hr; [exact Hr|].
  cbn [fold_left]. apply IH. destruct r; cbn [bind]; try exact Hr.
  destruct (negb _); exact I.
Qed.

Lemma Alg2_ok (c : PdfCrypt.t) (pass : bytes) :
  PdfCrypt.R c < 3 \/ 0 <= Z.quot (PdfCrypt.Length c) 8 <= 16 ->
  exists key, Alg2 c pass = Ok key.
Proof.
  intros H. unfold Alg2. cbv zeta.
  set (data := if _ && _ then _ else _).
  assert (Hl : len (MD5.sum data) = 16) by (unfold len; now rewrite MD5_sum_length).
  destruct (Z.leb_spec 3 (PdfCrypt.R c)) as [HR|HR].
  - destruct H as [H|H]; [lia|].
    destruct (md5_iter_trunc_ok 50 _ H _ Hl) as (h & -> & Hh). cbn [bind].
    rewrite slice_chk_ok by lia. eauto.
  - cbn [bind]. rewrite slice_chk_ok by lia. eauto.
Qed.

Lemma alg3Key_ok (c : PdfCrypt.t) (pass : bytes) :
  PdfCrypt.R c = 2 \/ 0 <= Z.quot (PdfCrypt.Length c) 8 <= 16 ->
  exists key, alg3Key c pass = Ok key.
Proof.
  intros H. unfold alg3Key. cbv zeta.
  assert (Hl : forall d, len (MD5.sum d) = 16)
    by (intros d; unfold len; now rewrite MD5_sum_length).
  destruct (Z.eqb_spec (PdfCrypt.R c) 2) as [HR|HR].
  - rewrite slice_chk_ok by (rewrite ?Hl; lia). eauto.
  - destruct H as [H|H]; [lia|]. rewrite slice_chk_ok by (rewrite ?Hl; lia). eauto.
Qed.

Section NoPanic.
Variable rand_Read : nat -> bytes.

Lemma Alg6_returns (c : PdfCrypt.t) (upass : bytes) :
  PdfCrypt.R c < 3 \/ 0 <= Z.quot (PdfCrypt.Length c) 8 <= 16 ->
  returns (snd (Alg6 rand_Read c upass)).
Proof.
  intros H. unfold Alg6.
  assert (Hr : returns (if PdfCrypt.R c =? 2 then Alg4 c upass
                        else if 3 <=? PdfCrypt.R c then Alg5 rand_Read c upass
                             else Err (Errorf "invalid R"))).
  { destruct (Alg2_ok c upass H) as (key & Hkey).
    destruct (_ =? 2).
    - unfold Alg4. rewrite Hkey. cbn [bind]. destruct (negb _); exact I.
    - destruct (3 <=? _); [|exact I].
      unfold Alg5. rewrite Hkey. cbn [bind].
      destruct (negb (_ =? 16)); [exact I|]. destruct (negb _); [exact I|].
      assert (Hrc : returns (rc4_19 key (RC4.XORKeyStream key
                                           (MD5.sum (padding ++ PdfCrypt.Id0 c)))))
        by exact (rc4_rounds_returns "Failed rc4 ciph" (fun i => i + 1) key (seqZ 0 19)
                    (Ok (RC4.XORKeyStream key (MD5.sum (padding ++ PdfCrypt.Id0 c)))) I).
      destruct (rc4_19 _ _); cbn [bind]; try exact I; exact Hrc. }
  destruct (if PdfCrypt.R c =? 2 then _ else _) as [[uo key]| | |];
    try exact Hr; try exact I.
  destruct (bytes_eqb _ _); exact I.
Qed.

Lemma Alg7_returns (c : PdfCrypt.t) (opass : bytes) :
  PdfCrypt.R c = 2 \/ 0 <= Z.quot (PdfCrypt.Length c) 8 <= 16 ->
  returns (snd (Alg7 rand_Read c opass)).
Proof.
  intros H. unfold Alg7.
  destruct (alg3Key_ok c opass H) as (encKey & ->).
  assert (Hr : returns (if PdfCrypt.R c =? 2
                        then if negb (RC4.key_ok encKey) then Err (Errorf "Failed cipher")
                             else Ok (RC4.XORKeyStream encKey (PdfCrypt.O c))
                        else if 3 <=? PdfCrypt.R c then rc4_20_down encKey (PdfCrypt.O c)
                             else Err (Errorf "invalid R"))).
  { destruct (_ =? 2); [destruct (negb _); exact I|].
    destruct (3 <=? _); [|exact I].
    exact (rc4_rounds_returns "Failed cipher" (fun i => 19 - i) encKey (seqZ 0 20)
             (Ok (PdfCrypt.O c)) I). }
  destruct (if PdfCrypt.R c =? 2 then _ else _) as [decrypted| | |];
    try exact Hr; try exact I.
  assert (H6 : returns (snd (Alg6 rand_Read c decrypted)))
    by (apply Alg6_returns; lia).
  destruct (Alg6 rand_Read c decrypted) as [c' [b| | |]]; cbn [snd] in *;
    try exact H6; exact I.
Qed.

(** X25: a handler made by PdfCryptMakeNew can be authenticated against
    without a panic, whatever the password, unless it is of revision 3 or 4
    with a Length above 135: authenticate then returns an answer or an
    error.  PdfCryptMakeNew takes every Length that is a multiple of 8: for a
    handler of revision 3 or 4 whose Length is above 135 (or negative with an
    eighth below 0), authenticate panics for every password, in the slice of
    the MD5 digest of Algorithm 2. *)
Theorem X25_authenticate_returns (c : PdfCrypt.t) (password : bytes) :
  made c ->
  (PdfCrypt.R c < 3 \/ 5 <= PdfCrypt.R c \/ 0 <= Z.quot (PdfCrypt.Length c) 8 <= 16 ->
   returns (snd (authenticate rand_Read c password)))
  /\ (3 <= PdfCrypt.R c <= 4 -> ~ 0 <= Z.quot (PdfCrypt.Length c) 8 <= 16 ->
      snd (authenticate rand_Read c password) = Panic).
Proof.
  intros Hm. destruct Hm as [HR _ _ HO HU HOE HP _ _ _].
  unfold authenticate. cbv zeta.
  set (c0 := PdfCrypt.set_Authenticated c false).
  change (PdfCrypt.R c0) with (PdfCrypt.R c).
  split.
  - intros Hcase. destruct (Z.leb_spec 5 (PdfCrypt.R c)) as [H5|H5].
    + assert (H2a : returns (snd (alg2a c0 password))).
      { destruct (Z.ltb_spec (PdfCrypt.R c) 5); [lia|].
        apply alg2a_returns; subst c0;
          cbn [PdfCrypt.set_Authenticated PdfCrypt.O PdfCrypt.U PdfCrypt.OE PdfCrypt.UE
               PdfCrypt.Perms PdfCrypt.R];
          specialize (HU H5); specialize (HOE H5); lia. }
      destruct (alg2a c0 password) as [c' [b| | |]]; cbn [snd] in *; try exact H2a; exact I.
    + assert (Hlen : PdfCrypt.R c0 < 3 \/ 0 <= Z.quot (PdfCrypt.Length c0) 8 <= 16)
        by (subst c0; cbn [PdfCrypt.set_Authenticated PdfCrypt.R PdfCrypt.Length]; lia).
      assert (Hlen7 : PdfCrypt.R c0 = 2 \/ 0 <= Z.quot (PdfCrypt.Length c0) 8 <= 16)
        by (subst c0; cbn [PdfCrypt.set_Authenticated PdfCrypt.R PdfCrypt.Length] in *; lia).
      pose proof (Alg6_returns c0 password Hlen) as H6.
      destruct (Alg6_state rand_Read c0 password) as [[Hs (key & Hf)] | [Hs Hf]];
        destruct (Alg6 rand_Read c0 password) as [c6 r6]; cbn [fst snd] in *; subst.
      * exact I.
      * destruct r6 as [[]| | |]; try congruence; try exact H6; try exact I.
        pose proof (Alg7_returns c0 password Hlen7) as H7.
        destruct (Alg7 rand_Read c0 password) as [c7 [[]| | |]]; cbn [snd] in *;
          try exact H7; exact I.
  - intros H34 Hbad. destruct (Z.leb_spec 5 (PdfCrypt.R c)); [lia|].
    assert (HA2 : Alg2 c0 password = Panic).
    { unfold Alg2. cbv zeta. set (data := if _ && _ then _ else _).
      assert (Hl : len (MD5.sum data) = 16) by (unfold len; now rewrite MD5_sum_length).
      change (PdfCrypt.R c0) with (PdfCrypt.R c).
      change (PdfCrypt.Length c0) with (PdfCrypt.Length c).
      destruct (Z.leb_spec 3 (PdfCrypt.R c)); [|lia].
      now rewrite (md5_iter_trunc_panic 49 _ _ Hbad Hl). }
    unfold Alg6. change (PdfCrypt.R c0) with (PdfCrypt.R c).
    destruct (Z.eqb_spec (PdfCrypt.R c) 2); [lia|].
    destruct (Z.leb_spec 3 (PdfCrypt.R c)); [|lia].
    unfold Alg5. rewrite HA2. reflexivity.
Qed.

End NoPanic.

Lemma X25_authenticate_returns_witness :
  returns (snd (authenticate zero_rand doc2 (bytes_of_string "user")))
  /\ snd (authenticate zero_rand doc3_long (bytes_of_string "user")) = Panic.
Proof.
  split.
  - apply (proj1 (X25_authenticate_returns zero_rand doc2 (bytes_of_string "user") doc2_made)).
    left. cbn. lia.
  - apply (proj2 (X25_authenticate_returns zero_rand doc3_long (bytes_of_string "user")
                    doc3_long_made)).
    + cbn. lia.
    + change (Z.quot (PdfCrypt.Length doc3_long) 8) with 32. lia.
Defined.

(** * Further properties of the stream codecs: the stream dictionary *)

Lemma dict_Get_Set_eq (entries : list (string * addr)) (key : string) (v : addr) :
  dict_Get (dict_Set entries key v) key = Some v.
Proof.
  induction entries as [|[k w] rest IH]; cbn [dict_Set dict_Get].
  - now rewrite String.eqb_refl.
  - destruct (String.eqb_spec k key) as [->|Hne]; cbn [dict_Get].
    + now rewrite String.eqb_refl.
    + destruct (String.eqb_spec k key); [congruence | exact IH].
Qed.

(** [h'] has the objects of [h], but for the one at [d]. *)
Definition keeps_but (d : addr) (h h' : gmap addr PdfObject) : Prop :=
  forall a o, a <> d -> h !! a = Some o -> h' !! a = Some o.

(** The entry [key] of a dictionary is the integer [z], or is absent. *)
Definition written (h : gmap addr PdfObject) (entries : list (string * addr))
  (key : string) (v : option Z) : Prop :=
  match v with
  | Some z => exists a, dict_Get entries key = Some a /\ h !! a = Some (PdfObjectInteger z)
  | None => dict_Get entries key = None
  end.

Lemma alloc_spec (h : gmap addr PdfObject) (o : PdfObject) :
  h !! (alloc h o).2 = None
  /\ (alloc h o).1 !! (alloc h o).2 = Some o
  /\ forall a x, h !! a = Some x -> (alloc h o).1 !! a = Some x.
Proof.
  unfold alloc. cbn [fst snd].
  assert (Hf : h !! fresh (dom h) = None) by (apply not_elem_of_dom, is_fresh).
  split; [exact Hf|]. split; [apply lookup_insert_eq|].
  intros a x Ha. rewrite lookup_insert_ne; [exact Ha|]. intros <-. congruence.
Qed.

Lemma heap_dict_Set_spec (h : gmap addr PdfObject) (d : addr) (e : list (string * addr))
  (key : string) (v : addr) :
  h !! d = Some (PdfObjectDictionary e) ->
  heap_dict_Set h d key v !! d = Some (PdfObjectDictionary (dict_Set e key v))
  /\ keeps_but d h (heap_dict_Set h d key v).
Proof.
  intros Hd. unfold heap_dict_Set. rewrite Hd. split; [apply lookup_insert_eq|].
  intros a o Ha Ho. now rewrite lookup_insert_ne.
Qed.

Lemma written_keeps (d : addr) (h h' : gmap addr PdfObject) (e0 e : list (string * addr))
  (k : string) (v : option Z) :
  h !! d = Some (PdfObjectDictionary e0) -> keeps_but d h h' ->
  written h e k v -> written h' e k v.
Proof.
  intros Hd Hk. destruct v as [z|]; [|exact (fun H => H)].
  intros (a & Ha & Hz). exists a. split; [exact Ha|].
  apply Hk; [|exact Hz]. intros ->. congruence.
Qed.

Lemma set_integer_spec (h : gmap addr PdfObject) (d : addr) (e : list (string * addr))
  (key : string) (z : Z) :
  h !! d = Some (PdfObjectDictionary e) ->
  exists e',
    set_integer h d key z !! d = Some (PdfObjectDictionary e')
    /\ written (set_integer h d key z) e' key (Some z)
    /\ (forall k v, k <> key -> written h e k v -> written (set_integer h d key z) e' k v)
    /\ (forall k, k <> key -> dict_Get e' k = dict_Get e k)
    /\ keeps_but d h (set_integer h d key z).
Proof.
  intros Hd. unfold set_integer, MakeInteger.
  destruct (alloc_spec h (PdfObjectInteger z)) as (Hn & Ha & Hk).
  destruct (alloc h (PdfObjectInteger z)) as [h1 a]. cbn [fst snd] in *.
  assert (Had : a <> d) by (intros ->; congruence).
  destruct (heap_dict_Set_spec h1 d e key a (Hk _ _ Hd)) as [Hd' Hkeep].
  assert (Hkb : keeps_but d h (heap_dict_Set h1 d key a))
    by (intros b o Hb Ho; apply Hkeep; [exact Hb | now apply Hk]).
  exists (dict_Set e key a). split; [exact Hd'|].
  split; [exists a; split; [apply dict_Get_Set_eq | now apply Hkeep]|].
  split; [|split; [intros k Hne; now apply dict_Get_Set_ne | exact Hkb]].
  intros k v Hne Hw. apply (written_keeps d h _ e _ k v Hd Hkb).
  destruct v as [z'|]; cbn [written] in *; now rewrite dict_Get_Set_ne.
Qed.

(** What the decode parameters of an encoder with the predictor [p] hold. *)
Definition params_written (h : gmap addr PdfObject) (e : list (string * addr))
  (p bpc cols colors : Z) : Prop :=
  written h e "Predictor" (Some p)
  /\ written h e "BitsPerComponent" (if bpc =? 8 then None else Some bpc)
  /\ written h e "Columns" (if cols =? 1 then None else Some cols)
  /\ written h e "Colors" (if colors =? 1 then None else Some colors).

Lemma set_unless_default (h : gmap addr PdfObject) (d : addr) (e : list (string * addr))
  (key : string) (z default : Z) :
  h !! d = Some (PdfObjectDictionary e) -> dict_Get e key = None ->
  let h' := if negb (z =? default) then set_integer h d key z else h in
  exists e',
    h' !! d = Some (PdfObjectDictionary e')
    /\ written h' e' key (if z =? default then None else Some z)
    /\ (forall k v, k <> key -> written h e k v -> written h' e' k v)
    /\ (forall k, k <> key -> dict_Get e' k = dict_Get e k)
    /\ keeps_but d h h'.
Proof.
  intros Hd Hnone. cbv zeta. destruct (z =? default); cbn [negb].
  - exists e. repeat split; auto. intros a o _ Ho. exact Ho.
  - apply set_integer_spec. exact Hd.
Qed.

Lemma keeps_but_trans (d : addr) (h1 h2 h3 : gmap addr PdfObject) :
  keeps_but d h1 h2 -> keeps_but d h2 h3 -> keeps_but d h1 h3.
Proof. intros H1 H2 a o Ha Ho. apply H2; [exact Ha | now apply H1]. Qed.

Lemma params_pipeline (p bpc cols colors : Z) (h : gmap addr PdfObject) :
  let (h1, dp) := MakeDict h in
  let h2 := set_integer h1 dp "Predictor" p in
  let h3 := if negb (bpc =? 8) then set_integer h2 dp "BitsPerComponent" bpc else h2 in
  let h4 := if negb (cols =? 1) then set_integer h3 dp "Columns" cols else h3 in
  let h5 := if negb (colors =? 1) then set_integer h4 dp "Colors" colors else h4 in
  h !! dp = None
  /\ (exists e, h5 !! dp = Some (PdfObjectDictionary e) /\ params_written h5 e p bpc cols colors)
  /\ forall a o, h !! a = Some o -> h5 !! a = Some o.
Proof.
  unfold MakeDict.
  destruct (alloc_spec h (PdfObjectDictionary [])) as (Hn & Ha & Hk).
  destruct (alloc h (PdfObjectDictionary [])) as [h1 dp]. cbn [fst snd] in *. cbv zeta.
  destruct (set_integer_spec h1 dp [] "Predictor" p Ha) as (e2 & Hd2 & Hw2 & _ & Hg2 & Hk2).
  set (h2 := set_integer h1 dp "Predictor" p) in *.
  destruct (set_unless_default h2 dp e2 "BitsPerComponent" bpc 8 Hd2)
    as (e3 & Hd3 & Hw3 & Hf3 & Hg3 & Hk3); [now rewrite Hg2|].
  set (h3 := if negb (bpc =? 8) then _ else _) in *.
  destruct (set_unless_default h3 dp e3 "Columns" cols 1 Hd3)
    as (e4 & Hd4 & Hw4 & Hf4 & Hg4 & Hk4); [now rewrite Hg3, Hg2|].
  set (h4 := if negb (cols =? 1) then _ else _) in *.
  destruct (set_unless_default h4 dp e4 "Colors" colors 1 Hd4)
    as (e5 & Hd5 & Hw5 & Hf5 & Hg5 & Hk5); [now rewrite Hg4, Hg3, Hg2|].
  set (h5 := if negb (colors =? 1) then _ else _) in *.
  split; [exact Hn|]. split.
  - exists e5. split; [exact Hd5|]. repeat split.
    + apply Hf5; [discriminate|]. apply Hf4; [discriminate|]. apply Hf3; [discriminate|].
      exact Hw2.
    + apply Hf5; [discriminate|]. apply Hf4; [discriminate|]. exact Hw3.
    + apply Hf5; [discriminate|]. exact Hw4.
    + exact Hw5.
  - intros a o Ho.
    assert (Had : a <> dp) by (intros ->; congruence).
    apply Hk5, Hk4, Hk3, Hk2; try exact Had. now apply Hk.
Qed.

Lemma integer_entry_written (h : gmap addr PdfObject) (e : list (string * addr))
  (key : string) (z default : Z) (msg : string) :
  written h e key (if z =? default then None else Some z) ->
  integer_entry h e key default msg = Ok z.
Proof.
  unfold integer_entry, dict_value. destruct (Z.eqb_spec z default) as [->|_]; cbn [written].
  - intros ->. reflexivity.
  - intros (a & -> & Ha). cbn. now rewrite Ha.
Qed.

Lemma integer_entry_present (h : gmap addr PdfObject) (e : list (string * addr))
  (key : string) (z default : Z) (msg : string) :
  written h e key (Some z) -> integer_entry h e key default msg = Ok z.
Proof.
  unfold integer_entry, dict_value. intros (a & -> & Ha). cbn. now rewrite Ha.
Qed.

Section StreamDict.
Variable TraceToDirectObject : gmap addr PdfObject -> option addr -> option addr.
Variable GetDict : gmap addr PdfObject -> option addr -> option addr * bool.

(** X26: the stream dictionary an LZW encoder writes, read back by
    newLZWEncoderFromStream.  An EarlyChange other than 0 and 1 is written
    and then refused (Invalid EarlyChange value).  Otherwise an encoder with
    a Predictor above 1 is read back as it is; with a Predictor of 1 or
    less no decode parameters are written, and the encoder read back has the
    defaults Predictor 1, BitsPerComponent 8, Columns 1 and Colors 1 with
    the EarlyChange of the encoder. *)
Theorem X26_lzw_stream_dict_roundtrip (enc : LZWEncoder.t) (h : gmap addr PdfObject) :
  newLZWEncoderFromStream GetDict (lzw_MakeStreamDict enc h).1
    (Some (lzw_MakeStreamDict enc h).2) None
  = if negb (LZWEncoder.EarlyChange enc =? 0) && negb (LZWEncoder.EarlyChange enc =? 1)
    then Err (Errorf "Invalid EarlyChange value (not 0 or 1)")
    else if 1 <? LZWEncoder.Predictor enc then Ok enc
         else Ok (LZWEncoder.Build 1 8 1 1 (LZWEncoder.EarlyChange enc)).
Proof.
  destruct enc as [p bpc cols colors ec].
  unfold lzw_MakeStreamDict, lzw_MakeDecodeParams, MakeDict, MakeName.
  cbn [LZWEncoder.Predictor LZWEncoder.BitsPerComponent LZWEncoder.Columns
       LZWEncoder.Colors LZWEncoder.EarlyChange].
  destruct (alloc_spec h (PdfObjectDictionary [])) as (Hn1 & Ha1 & Hk1).
  destruct (alloc h (PdfObjectDictionary [])) as [h1 dict]. cbn [fst snd] in *.
  destruct (alloc_spec h1 (PdfObjectName "LZWDecode")) as (Hn2 & Ha2 & Hk2).
  destruct (alloc h1 (PdfObjectName "LZWDecode")) as [h2 name]. cbn [fst snd] in *.
  destruct (heap_dict_Set_spec h2 dict [] "Filter" name (Hk2 _ _ Ha1)) as [Hd3 Hk3].
  set (h3 := heap_dict_Set h2 dict "Filter" name) in *.
  cbn [dict_Set] in Hd3.
  destruct (Z.ltb_spec 1 p) as [Hp|Hp].
  - pose proof (params_pipeline p bpc cols colors h3) as Hpipe.
    unfold MakeDict in Hpipe.
    destruct (alloc h3 (PdfObjectDictionary [])) as [h4 dp]. cbv zeta in Hpipe.
    set (h8 := if negb (colors =? 1) then _ else _) in *.
    destruct Hpipe as (Hndp & (e & Hdp & Hpw) & Hk8).
    assert (Hne : dp <> dict) by (intros ->; congruence).
    destruct (heap_dict_Set_spec h8 dict _ "DecodeParms" dp (Hk8 _ _ Hd3)) as [Hd9 Hk9].
    set (h9 := heap_dict_Set h8 dict "DecodeParms" dp) in *.
    destruct (set_integer_spec h9 dict _ "EarlyChange" ec Hd9)
      as (e10 & Hd10 & Hw10 & _ & Hg10 & Hk10).
    set (h10 := set_integer h9 dict "EarlyChange" ec) in *.
    cbn [fst snd].
    assert (Hdp10 : h10 !! dp = Some (PdfObjectDictionary e))
      by (apply Hk10, Hk9; assumption).
    assert (Hpw10 : params_written h10 e p bpc cols colors).
    { destruct Hpw as (W1 & W2 & W3 & W4).
      assert (Hkk : keeps_but dict h8 h10) by (eapply keeps_but_trans; eassumption).
      repeat split; eapply (written_keeps dict h8 h10); eauto. }
    unfold newLZWEncoderFromStream, pointee_dict. cbn [mbind option_bind].
    rewrite Hd10.
    assert (Hdps : dict_value h10 e10 "DecodeParms" = Some (PdfObjectDictionary e)).
    { unfold dict_value. rewrite Hg10 by discriminate. rewrite dict_Get_Set_eq.
      cbn [mbind option_bind]. exact Hdp10. }
    rewrite Hdps. cbn [bind].
    assert (Hec : dict_value h10 e10 "EarlyChange" = Some (PdfObjectInteger ec)).
    { destruct Hw10 as (a & Ha & Hz). unfold dict_value. rewrite Ha. exact Hz. }
    rewrite Hec.
    destruct (negb (ec =? 0) && negb (ec =? 1)); [reflexivity|]. cbn [bind].
    destruct Hpw10 as (W1 & W2 & W3 & W4).
    rewrite (integer_entry_present _ _ _ _ _ _ W1). cbn [bind].
    rewrite (integer_entry_written _ _ _ _ _ _ W2). cbn [bind].
    destruct (Z.ltb_spec 1 p); [|lia].
    rewrite (integer_entry_written _ _ _ _ _ _ W3). cbn [bind].
    rewrite (integer_entry_written _ _ _ _ _ _ W4). reflexivity.
  - cbn [fst snd].
    destruct (set_integer_spec h3 dict _ "EarlyChange" ec Hd3)
      as (e10 & Hd10 & Hw10 & _ & Hg10 & Hk10).
    set (h10 := set_integer h3 dict "EarlyChange" ec) in *.
    unfold newLZWEncoderFromStream, pointee_dict. cbn [mbind option_bind].
    rewrite Hd10.
    assert (Hdps : dict_value h10 e10 "DecodeParms" = None).
    { unfold dict_value. rewrite Hg10 by discriminate. reflexivity. }
    rewrite Hdps. cbn [bind].
    assert (Hec : dict_value h10 e10 "EarlyChange" = Some (PdfObjectInteger ec)).
    { destruct Hw10 as (a & Ha & Hz). unfold dict_value. rewrite Ha. exact Hz. }
    rewrite Hec.
    destruct (negb (ec =? 0) && negb (ec =? 1)); reflexivity.
Qed.

(** X27: the stream dictionary a flate encoder writes, read back by
    newFlateEncoderFromStream, provided TraceToDirectObject returns nil and a
    dictionary as they are.  An encoder with a Predictor above 1 is read back
    as it is; with a Predictor of 1 or less no decode parameters are written
    and the encoder read back is the default one (Predictor 1,
    BitsPerComponent 8, Columns 1, Colors 1). *)
Theorem X27_flate_stream_dict_roundtrip (enc : FlateEncoder.t) (h : gmap addr PdfObject) :
  (forall h', TraceToDirectObject h' None = None) ->
  (forall h' a e, h' !! a = Some (PdfObjectDictionary e) ->
                  TraceToDirectObject h' (Some a) = Some a) ->
  newFlateEncoderFromStream TraceToDirectObject (flate_MakeStreamDict enc h).1
    (Some (flate_MakeStreamDict enc h).2) None
  = Ok (if 1 <? FlateEncoder.Predictor enc then enc else FlateEncoder.NewFlateEncoder).
Proof.
  intros Hnil Hdict.
  destruct enc as [p bpc cols colors].
  unfold flate_MakeStreamDict, flate_MakeDecodeParams, MakeDict, MakeName.
  cbn [FlateEncoder.Predictor FlateEncoder.BitsPerComponent FlateEncoder.Columns
       FlateEncoder.Colors].
  destruct (alloc_spec h (PdfObjectDictionary [])) as (Hn1 & Ha1 & Hk1).
  destruct (alloc h (PdfObjectDictionary [])) as [h1 dict]. cbn [fst snd] in *.
  destruct (alloc_spec h1 (PdfObjectName "FlateDecode")) as (Hn2 & Ha2 & Hk2).
  destruct (alloc h1 (PdfObjectName "FlateDecode")) as [h2 name]. cbn [fst snd] in *.
  destruct (heap_dict_Set_spec h2 dict [] "Filter" name (Hk2 _ _ Ha1)) as [Hd3 Hk3].
  set (h3 := heap_dict_Set h2 dict "Filter" name) in *.
  cbn [dict_Set] in Hd3.
  destruct (Z.ltb_spec 1 p) as [Hp|Hp].
  - pose proof (params_pipeline p bpc cols colors h3) as Hpipe.
    unfold MakeDict in Hpipe.
    destruct (alloc h3 (PdfObjectDictionary [])) as [h4 dp]. cbv zeta in Hpipe.
    set (h8 := if negb (colors =? 1) then _ else _) in *.
    destruct Hpipe as (Hndp & (e & Hdp & Hpw) & Hk8).
    assert (Hne : dp <> dict) by (intros ->; congruence).
    destruct (heap_dict_Set_spec h8 dict _ "DecodeParms" dp (Hk8 _ _ Hd3)) as [Hd9 Hk9].
    set (h9 := heap_dict_Set h8 dict "DecodeParms" dp) in *.
    cbn [fst snd].
    assert (Hdp9 : h9 !! dp = Some (PdfObjectDictionary e)) by (apply Hk9; assumption).
    assert (Hpw9 : params_written h9 e p bpc cols colors).
    { destruct Hpw as (W1 & W2 & W3 & W4).
      repeat split; eapply (written_keeps dict h8 h9); eauto. }
    unfold newFlateEncoderFromStream, pointee_dict. cbn [mbind option_bind].
    rewrite Hd9. rewrite dict_Get_Set_eq. cbv zeta.
    rewrite (Hdict h9 dp e Hdp9). cbn [mbind option_bind]. rewrite Hdp9. cbn [bind].
    cbn [mbind option_bind]. rewrite Hdp9. cbn [bind].
    destruct Hpw9 as (W1 & W2 & W3 & W4).
    rewrite (integer_entry_present _ _ _ _ _ _ W1). cbn [bind].
    rewrite (integer_entry_written _ _ _ _ _ _ W2). cbn [bind].
    destruct (Z.ltb_spec 1 p); [|lia].
    rewrite (integer_entry_written _ _ _ _ _ _ W3). cbn [bind].
    rewrite (integer_entry_written _ _ _ _ _ _ W4). reflexivity.
  - cbn [fst snd].
    unfold newFlateEncoderFromStream, pointee_dict. cbn [mbind option_bind].
    rewrite Hd3. cbv zeta.
    change (dict_Get [("Filter", name)] "DecodeParms") with (@None addr).
    rewrite Hnil. reflexivity.
Qed.

End StreamDict.

Lemma X27_flate_stream_dict_roundtrip_witness :
  newFlateEncoderFromStream (fun _ o => o)
    (flate_MakeStreamDict (FlateEncoder.Build 12 8 5 3) ∅).1
    (Some (flate_MakeStreamDict (FlateEncoder.Build 12 8 5 3) ∅).2) None
  = Ok (if 1 <? FlateEncoder.Predictor (FlateEncoder.Build 12 8 5 3)
        then FlateEncoder.Build 12 8 5 3 else FlateEncoder.NewFlateEncoder).
Proof.
  apply (X27_flate_stream_dict_roundtrip (fun _ o => o)); reflexivity.
Defined.

(** * Further properties of the walkers: Decrypt undoes Encrypt *)

(** ** RC4 and a mask *)

Lemma RC4_prga_xor (src : bytes) :
  forall (m : bytes) (sbox : list Z) (i j : Z),
    RC4.prga sbox i j (zip_with Z.lxor src m) = zip_with Z.lxor (RC4.prga sbox i j src) m.
Proof.
  induction src as [|b rest IH]; intros [|x m] sbox i j; try reflexivity.
  cbn [zip_with RC4.prga]. rewrite IH. f_equal.
  rewrite !Z.lxor_assoc. f_equal. apply Z.lxor_comm.
Qed.

Lemma zip_lxor_cancel (s t : bytes) :
  length s = length t -> zip_with Z.lxor s (zip_with Z.lxor t s) = t.
Proof.
  revert t. induction s as [|a s IH]; intros [|b t] Hl; try discriminate; [reflexivity|].
  cbn [zip_with]. f_equal; [|apply IH; now injection Hl].
  now rewrite (Z.lxor_comm b a), <- Z.lxor_assoc, Z.lxor_nilpotent, Z.lxor_0_l.
Qed.

Lemma zip_lxor_cancel_l (s t : bytes) :
  length s = length t -> zip_with Z.lxor s (zip_with Z.lxor s t) = t.
Proof.
  revert t. induction s as [|a s IH]; intros [|b t] Hl; try discriminate; [reflexivity|].
  cbn [zip_with]. f_equal; [|apply IH; now injection Hl].
  now rewrite <- Z.lxor_assoc, Z.lxor_nilpotent, Z.lxor_0_l.
Qed.

(** Every crypt filter of the handler but Identity is RC4. *)
Definition rc4_only (c : PdfCrypt.t) : Prop :=
  forall name cf, PdfCrypt.CryptFilters c !! name = Some cf ->
                  name = "Identity" \/ CryptFilter.Cfm cf = "V2".

Lemma cryptBytes_rc4 (rand_Read : nat -> bytes) (d : direction) (c : PdfCrypt.t)
  (buf : bytes) (filter : string) (key : bytes) (cf : CryptFilter.t) :
  PdfCrypt.CryptFilters c !! filter = Some cf -> CryptFilter.Cfm cf = "V2" ->
  cryptBytes rand_Read d c buf filter key
  = Ok (if negb (RC4.key_ok key) then ([], Some KeySizeError)
        else (RC4.XORKeyStream key buf, None)).
Proof.
  intros Hcf Hm. destruct d; unfold cryptBytes, decryptBytes, encryptBytes;
    rewrite Hcf, Hm;
    change (String.eqb "V2" CryptFilterV2) with true;
    change (String.eqb "V2" "V2") with true; cbv iota;
    destruct (negb (RC4.key_ok key)); reflexivity.
Qed.

Lemma dict_Set_keys (e e' : list (string * addr)) (k : string) (v v' : addr) :
  map fst e' = map fst e -> map fst (dict_Set e' k v') = map fst (dict_Set e k v).
Proof.
  revert e'. induction e as [|[k1 w1] e IH]; intros [|[k2 w2] e'] H; try discriminate;
    [reflexivity|].
  cbn [map fst] in H. injection H as -> H. cbn [dict_Set].
  destruct (String.eqb k1 k); cbn [map fst]; [now rewrite H | now rewrite (IH e' H)].
Qed.

Lemma dict_Set_keys_present (e : list (string * addr)) (k : string) (x v : addr) :
  dict_Get e k = Some x -> map fst (dict_Set e k v) = map fst e.
Proof.
  induction e as [|[k1 w1] e IH]; [discriminate|]. cbn [dict_Get dict_Set].
  destruct (String.eqb k1 k); cbn [map fst]; [reflexivity|]. intros H. now rewrite IH.
Qed.

Lemma dict_Set_Set (e : list (string * addr)) (k : string) (v w : addr) :
  dict_Set (dict_Set e k v) k w = dict_Set e k w.
Proof.
  induction e as [|[k1 w1] e IH]; cbn [dict_Set].
  - now rewrite String.eqb_refl.
  - destruct (String.eqb k1 k) eqn:E; cbn [dict_Set]; rewrite E; [reflexivity|].
    now rewrite IH.
Qed.

Lemma fresh_lookup (h : gmap addr PdfObject) : h !! fresh (dom h) = None.
Proof. apply not_elem_of_dom, is_fresh. Qed.

Lemma makeKey_rel (cE cD : PdfCrypt.t) (filter : string) (objNum genNum : Z) (ekey : bytes) :
  PdfCrypt.CryptFilters cD = PdfCrypt.CryptFilters cE ->
  makeKey cD filter objNum genNum ekey = makeKey cE filter objNum genNum ekey.
Proof. intros H. unfold makeKey. now rewrite H. Qed.

Lemma makeKey_registered (c : PdfCrypt.t) (filter : string) (objNum genNum : Z)
  (ekey key : bytes) :
  makeKey c filter objNum genNum ekey = Ok key ->
  exists cf, PdfCrypt.CryptFilters c !! filter = Some cf.
Proof. unfold makeKey. destruct (_ !! filter) as [cf|]; [eauto | discriminate]. Qed.

(** ** What a pass of Encrypt that succeeds does *)

Section EncryptEffect.
Variable rand_Read : nat -> bytes.

(** [d] is the dictionary of a stream of [h]. *)
Definition stream_dict (h : gmap addr PdfObject) (d : addr) : Prop :=
  exists x on gn s, h !! x = Some (PdfObjectStream on gn d s).

Definition obj_eff (h h' : gmap addr PdfObject) (a : addr) (o o' : PdfObject) : Prop :=
  match o, o' with
  | PdfObjectString s, PdfObjectString s' => length s' = length s
  | PdfObjectStream on gn dc s, PdfObjectStream on' gn' dc' s' =>
      on' = on /\ gn' = gn /\ dc' = dc /\ length s' = length s
  | PdfObjectDictionary e, PdfObjectDictionary e' =>
      e' = e
      \/ (stream_dict h a
          /\ exists n v, e' = dict_Set e "Length" n /\ h' !! n = Some (PdfObjectInteger v))
  | PdfObjectInteger _, PdfObjectInteger _ => True
  | _, _ => o' = o
  end.

Definition heap_eff (h h' : gmap addr PdfObject) : Prop :=
  forall a,
    match h !! a with
    | Some o => exists o', h' !! a = Some o' /\ obj_eff h h' a o o'
    | None => h' !! a = None \/ exists n, h' !! a = Some (PdfObjectInteger n)
    end.

Definition crypt_same (c c' : PdfCrypt.t) : Prop :=
  PdfCrypt.V c' = PdfCrypt.V c
  /\ PdfCrypt.CryptFilters c' = PdfCrypt.CryptFilters c
  /\ PdfCrypt.StreamFilter c' = PdfCrypt.StreamFilter c
  /\ PdfCrypt.StringFilter c' = PdfCrypt.StringFilter c
  /\ PdfCrypt.EncryptionKey c' = PdfCrypt.EncryptionKey c
  /\ PdfCrypt.DecryptedObjects c' = PdfCrypt.DecryptedObjects c.

Definition effect (st st' : walk_state) : Prop :=
  crypt_same (crypt st) (crypt st') /\ heap_eff (heap st) (heap st').

Lemma obj_eff_refl (h : gmap addr PdfObject) (a : addr) (o : PdfObject) : obj_eff h h a o o.
Proof. destruct o; cbn [obj_eff]; auto. Qed.

Lemma heap_eff_refl (h : gmap addr PdfObject) : heap_eff h h.
Proof.
  intros a. destruct (h !! a) as [o|]; [|now left].
  exists o. split; [reflexivity | apply obj_eff_refl].
Qed.

Lemma heap_eff_int (h h' : gmap addr PdfObject) (x : addr) (n : Z) :
  heap_eff h h' -> h !! x = Some (PdfObjectInteger n) ->
  exists n', h' !! x = Some (PdfObjectInteger n').
Proof.
  intros H Hx. specialize (H x). rewrite Hx in H. destruct H as (o' & Ho' & Hr).
  destruct o'; cbn [obj_eff] in Hr; try discriminate Hr. eauto.
Qed.

Lemma heap_eff_stream_back (h h' : gmap addr PdfObject) (d : addr) :
  heap_eff h h' -> stream_dict h' d -> stream_dict h d.
Proof.
  intros H (x & on & gn & s & Hx). specialize (H x). destruct (h !! x) as [o|] eqn:E.
  - destruct H as (o' & Ho' & Hr). rewrite Hx in Ho'. injection Ho' as <-.
    destruct o; cbn [obj_eff] in Hr; try discriminate Hr.
    destruct Hr as (-> & -> & -> & _). exists x. eauto.
  - destruct H as [H | (n & H)]; congruence.
Qed.

Lemma heap_eff_trans (h1 h2 h3 : gmap addr PdfObject) :
  heap_eff h1 h2 -> heap_eff h2 h3 -> heap_eff h1 h3.
Proof.
  intros H12 H23 a. pose proof (H12 a) as Ha. pose proof (H23 a) as Hb.
  destruct (h1 !! a) as [o1|].
  - destruct Ha as (o2 & Ho2 & R12). rewrite Ho2 in Hb.
    destruct Hb as (o3 & Ho3 & R23). exists o3. split; [exact Ho3|].
    destruct o1, o2; cbn [obj_eff] in R12; try discriminate R12;
      try (injection R12 as ?; subst);
      destruct o3; cbn [obj_eff] in R23 |- *; try discriminate R23;
      try (injection R23 as ?; subst); auto; try congruence.
    + (* dictionary *)
      destruct R12 as [-> | (Hs & n & v & -> & Hn)].
      * destruct R23 as [-> | (Hs & n & v & -> & Hn)]; [now left|].
        right. split; [now apply (heap_eff_stream_back h1 h2)|]. eauto.
      * destruct (heap_eff_int h2 h3 n v H23 Hn) as (v' & Hn').
        destruct R23 as [-> | (Hs' & n2 & v2 & -> & Hn2)]; right; (split; [exact Hs|]).
        -- eauto.
        -- rewrite dict_Set_Set. eauto.
    + (* stream *)
      destruct R12 as (-> & -> & -> & L12). destruct R23 as (-> & -> & -> & L23).
      repeat split; congruence.
  - destruct Ha as [Ha | (n & Ha)].
    + rewrite Ha in Hb. exact Hb.
    + rewrite Ha in Hb. destruct Hb as (o3 & Ho3 & R23).
      destruct o3; cbn [obj_eff] in R23; try discriminate R23. right. eauto.
Qed.

Lemma crypt_same_trans (c1 c2 c3 : PdfCrypt.t) :
  crypt_same c1 c2 -> crypt_same c2 c3 -> crypt_same c1 c3.
Proof.
  intros (A1 & A2 & A3 & A4 & A5 & A6) (B1 & B2 & B3 & B4 & B5 & B6).
  repeat split; congruence.
Qed.

Lemma effect_refl (st : walk_state) : effect st st.
Proof. split; [repeat split | apply heap_eff_refl]. Qed.

Lemma effect_trans (st1 st2 st3 : walk_state) :
  effect st1 st2 -> effect st2 st3 -> effect st1 st3.
Proof.
  intros [C12 H12] [C23 H23].
  split; [eapply crypt_same_trans | eapply heap_eff_trans]; eassumption.
Qed.

(** The bytes of a string or of a stream are replaced by as many bytes. *)
Lemma heap_eff_bytes (h : gmap addr PdfObject) (a : addr) (o o' : PdfObject) :
  h !! a = Some o ->
  match o, o' with
  | PdfObjectString s, PdfObjectString s' => length s' = length s
  | PdfObjectStream on gn dc s, PdfObjectStream on' gn' dc' s' =>
      on' = on /\ gn' = gn /\ dc' = dc /\ length s' = length s
  | _, _ => False
  end ->
  heap_eff h (<[a := o']> h).
Proof.
  intros Ha Hr b. destruct (decide (b = a)) as [->|Hne].
  - rewrite Ha, lookup_insert_eq. exists o'. split; [reflexivity|].
    destruct o, o'; try contradiction; exact Hr.
  - rewrite lookup_insert_ne by congruence.
    destruct (h !! b) as [ob|] eqn:Hb; [|now left].
    exists ob. split; [reflexivity|].
    destruct ob; cbn [obj_eff]; auto.
Qed.

(** The Length entry of the dictionary of a stream is set to a new integer. *)
Lemma heap_eff_length (h : gmap addr PdfObject) (dict : addr) (e : list (string * addr))
  (v : Z) :
  h !! dict = Some (PdfObjectDictionary e) -> stream_dict h dict ->
  heap_eff h (<[dict := PdfObjectDictionary (dict_Set e "Length" (fresh (dom h)))]>
                (<[fresh (dom h) := PdfObjectInteger v]> h)).
Proof.
  intros Hd Hs b. pose proof (fresh_lookup h) as Hf.
  assert (Hne : fresh (dom h) <> dict) by (intros E; rewrite E in Hf; congruence).
  destruct (decide (b = dict)) as [->|Hbd].
  - rewrite Hd, lookup_insert_eq. eexists. split; [reflexivity|].
    cbn [obj_eff]. right. split; [exact Hs|]. exists (fresh (dom h)), v.
    split; [reflexivity|]. rewrite lookup_insert_ne by congruence. apply lookup_insert_eq.
  - rewrite lookup_insert_ne by congruence.
    destruct (decide (b = fresh (dom h))) as [->|Hbf].
    + rewrite Hf, lookup_insert_eq. right. eauto.
    + rewrite lookup_insert_ne by congruence.
      destruct (h !! b) as [ob|] eqn:Hb; [|now left].
      exists ob. split; [reflexivity|]. destruct ob; cbn [obj_eff]; auto.
Qed.

Lemma rc4_only_same (c c' : PdfCrypt.t) : crypt_same c c' -> rc4_only c -> rc4_only c'.
Proof. intros (_ & HF & _) H name cf Hcf. rewrite HF in Hcf. now apply H. Qed.

Definition effect_at (fuel : nat) : Prop :=
  forall st obj pn pg st',
    walk rand_Read Encrypting fuel st obj pn pg = (st', Ok tt) ->
    rc4_only (crypt st) -> effect st st'.

Lemma effect_array (fuel : nat) (pn pg : Z) (IH : effect_at fuel) :
  forall (l : list addr) (st st' : walk_state),
    (fix each (l : list addr) (st : walk_state) : walk_state * result unit :=
       match l with
       | [] => (st, Ok tt)
       | o :: rest =>
           match walk rand_Read Encrypting fuel st o pn pg with
           | (st, Ok _) => each rest st
           | r => r
           end
       end) l st = (st', Ok tt) ->
    rc4_only (crypt st) -> effect st st'.
Proof.
  induction l as [|o rest IHl]; intros st st' HE Hrc.
  - injection HE as <-. apply effect_refl.
  - destruct (walk rand_Read Encrypting fuel st o pn pg) as [st1 r1] eqn:Hw.
    destruct r1 as [[]| | |]; try discriminate HE.
    pose proof (IH st o pn pg st1 Hw Hrc) as H1.
    eapply effect_trans; [exact H1|].
    apply IHl; [exact HE|]. exact (rc4_only_same _ _ (proj1 H1) Hrc).
Qed.

Lemma effect_dict (fuel : nat) (pn pg : Z) (obj : addr) (isSig : bool)
  (IH : effect_at fuel) :
  forall (keys : list string) (st st' : walk_state),
    (fix each (keys : list string) (st : walk_state) : walk_state * result unit :=
       match keys with
       | [] => (st, Ok tt)
       | keyidx :: rest =>
           let o :=
             match heap st !! obj with
             | Some (PdfObjectDictionary entries) => dict_Get entries keyidx
             | _ => None
             end in
           if isSig && String.eqb keyidx "Contents" then each rest st
           else if negb (String.eqb keyidx "Parent")
                   && negb (String.eqb keyidx "Prev")
                   && negb (String.eqb keyidx "Last")
           then
             match o with
             | Some o =>
                 match walk rand_Read Encrypting fuel st o pn pg with
                 | (st, Ok _) => each rest st
                 | r => r
                 end
             | None => each rest st
             end
           else each rest st
       end) keys st = (st', Ok tt) ->
    rc4_only (crypt st) -> effect st st'.
Proof.
  induction keys as [|k rest IHk]; intros st st' HE Hrc.
  - injection HE as <-. apply effect_refl.
  - cbv zeta in HE.
    destruct (isSig && String.eqb k "Contents"); [now apply IHk|].
    destruct (negb (String.eqb k "Parent") && negb (String.eqb k "Prev")
              && negb (String.eqb k "Last")); [|now apply IHk].
    destruct (match heap st !! obj with
              | Some (PdfObjectDictionary entries) => dict_Get entries k
              | _ => None
              end) as [o|]; [|now apply IHk].
    destruct (walk rand_Read Encrypting fuel st o pn pg) as [st1 r1] eqn:Hw.
    destruct r1 as [[]| | |]; try discriminate HE.
    pose proof (IH st o pn pg st1 Hw Hrc) as H1.
    eapply effect_trans; [exact H1|].
    apply IHk; [exact HE|]. exact (rc4_only_same _ _ (proj1 H1) Hrc).
Qed.

Lemma effect_step (fuel : nat) : effect_at fuel -> effect_at (S fuel).
Proof.
  intros IH st obj pn pg st' HE Hrc.
  cbn [walk] in HE.
  destruct (isProcessed Encrypting (crypt st) obj); [injection HE as <-; apply effect_refl|].
  assert (Hmark : effect st (mark Encrypting st obj))
    by (split; [repeat split | apply heap_eff_refl]).
  destruct (heap st !! obj) as [[ | | | |s| |elems|e|on gn inner|on gn dc s]|] eqn:Hobj;
    try (injection HE as <-; apply effect_refl).
  - (* string *)
    cbn [with_event crypt] in HE.
    destruct (_ && _) eqn:Hid; [injection HE as <-; apply effect_refl|].
    set (filter := if 4 <=? PdfCrypt.V (crypt st) then PdfCrypt.StringFilter (crypt st)
                   else "Default") in *.
    assert (Hne : filter <> "Identity").
    { subst filter. destruct (4 <=? PdfCrypt.V (crypt st)); [|discriminate].
      cbn [andb] in Hid. now apply String.eqb_neq. }
    destruct (makeKey (crypt st) filter (uint32 pn) (uint32 pg)
                (PdfCrypt.EncryptionKey (crypt st))) as [key| | |] eqn:Hkey;
      try discriminate HE.
    destruct (makeKey_registered _ _ _ _ _ _ Hkey) as (cf & Hcf).
    destruct (Hrc filter cf Hcf) as [|Hcfm]; [contradiction|].
    rewrite (cryptBytes_rc4 _ _ _ _ _ _ cf Hcf Hcfm) in HE.
    destruct (negb (RC4.key_ok key)); [discriminate HE|].
    injection HE as <-. split; [repeat split|].
    cbn [with_heap with_event heap].
    apply (heap_eff_bytes _ _ (PdfObjectString s)); [exact Hobj|].
    apply RC4_XORKeyStream_length.
  - (* array *)
    exact (effect_array fuel pn pg IH _ st st' HE Hrc).
  - (* dictionary *)
    exact (effect_dict fuel pn pg obj _ IH _ st st' HE Hrc).
  - (* indirect object *)
    eapply effect_trans; [exact Hmark|].
    apply (IH _ _ _ _ _ HE). exact Hrc.
  - (* stream *)
    set (st1 := mark Encrypting st obj) in *.
    assert (Hrc1 : rc4_only (crypt st1)) by exact (rc4_only_same _ _ (proj1 Hmark) Hrc).
    destruct (heap st1 !! dc) as [[ | | | | | | |e| | ]|] eqn:Hdc; try discriminate HE.
    destruct (if 4 <=? PdfCrypt.V (crypt st1) then _ else _) as [streamFilter| | |] eqn:Hsf;
      try discriminate HE.
    destruct ((4 <=? PdfCrypt.V (crypt st1)) && String.eqb streamFilter "Identity") eqn:Hid.
    { injection HE as <-. exact Hmark. }
    assert (Hne : streamFilter <> "Identity").
    { destruct (4 <=? PdfCrypt.V (crypt st1)).
      - cbn [andb] in Hid. now apply String.eqb_neq.
      - injection Hsf as <-. discriminate. }
    destruct (walk rand_Read Encrypting fuel st1 dc on gn) as [st2 r2] eqn:Hw.
    destruct r2 as [[]| | |]; try discriminate HE.
    pose proof (IH st1 dc on gn st2 Hw Hrc1) as H12.
    assert (Hrc2 : rc4_only (crypt st2)) by exact (rc4_only_same _ _ (proj1 H12) Hrc1).
    destruct (makeKey (crypt st2) streamFilter (uint32 on) (uint32 gn)
                (PdfCrypt.EncryptionKey (crypt st2))) as [okey| | |] eqn:Hkey;
      try discriminate HE.
    destruct (heap st2 !! obj) as [[ | | | | | | | | |on' gn' dc' S]|] eqn:Hobj2;
      try discriminate HE.
    cbn [with_event with_heap crypt heap] in HE.
    destruct (makeKey_registered _ _ _ _ _ _ Hkey) as (cf & Hcf).
    destruct (Hrc2 streamFilter cf Hcf) as [|Hcfm]; [contradiction|].
    rewrite (cryptBytes_rc4 _ _ _ _ _ _ cf Hcf Hcfm) in HE.
    destruct (negb (RC4.key_ok okey)); [discriminate HE|].
    destruct (decide (dc = obj)) as [->|Hdo].
    { rewrite lookup_insert_eq in HE. discriminate HE. }
    rewrite lookup_insert_ne in HE by congruence.
    destruct (heap st2 !! dc) as [[ | | | | | | |entries2| | ]|] eqn:Hdc2;
      try discriminate HE.
    injection HE as <-.
    (* the stream still has its dictionary *)
    assert (Hdc' : dc' = dc).
    { pose proof (proj2 H12 obj) as Ho. change (heap st1) with (heap st) in Ho.
      rewrite Hobj in Ho. destruct Ho as (o' & Ho' & Hr). rewrite Hobj2 in Ho'.
      injection Ho' as <-. cbn [obj_eff] in Hr. tauto. }
    subst dc'.
    eapply effect_trans; [exact Hmark|]. eapply effect_trans; [exact H12|].
    set (h3 := <[obj := PdfObjectStream on' gn' dc (RC4.XORKeyStream okey S)]> (heap st2)).
    assert (H23 : heap_eff (heap st2) h3).
    { apply (heap_eff_bytes _ _ (PdfObjectStream on' gn' dc S)); [exact Hobj2|].
      repeat split. apply RC4_XORKeyStream_length. }
    split; [repeat split|]. cbn [heap].
    eapply heap_eff_trans; [exact H23|].
    apply heap_eff_length.
    + subst h3. rewrite lookup_insert_ne by congruence. exact Hdc2.
    + exists obj, on', gn', (RC4.XORKeyStream okey S). subst h3. apply lookup_insert_eq.
Qed.

Lemma walk_effect (fuel : nat) : effect_at fuel.
Proof.
  induction fuel as [|fuel IH]; [|now apply effect_step].
  intros st obj pn pg st' HE. discriminate HE.
Qed.

End EncryptEffect.

(** ** Two passes side by side *)

Section SideBySide.
Variable rand_Read : nat -> bytes.
(** What the bytes at an address differ by between the two passes. *)
Variable mask : addr -> bytes.

Definition masked (a : addr) (s s' : bytes) : Prop := s' = zip_with Z.lxor s (mask a).

Definition is_int (h : gmap addr PdfObject) (o : option addr) : Prop :=
  exists x n, o = Some x /\ h !! x = Some (PdfObjectInteger n).

Definition dict_rel (hE hD : gmap addr PdfObject) (e e' : list (string * addr)) : Prop :=
  map fst e' = map fst e
  /\ (forall k, k <> "Length" -> dict_Get e' k = dict_Get e k)
  /\ (dict_Get e' "Length" = dict_Get e "Length"
      \/ (is_int hE (dict_Get e "Length") /\ is_int hD (dict_Get e' "Length"))).

Definition obj_rel (hE hD : gmap addr PdfObject) (a : addr) (oE oD : PdfObject) : Prop :=
  match oE, oD with
  | PdfObjectString s, PdfObjectString s' => masked a s s'
  | PdfObjectStream on gn dc s, PdfObjectStream on' gn' dc' s' =>
      on' = on /\ gn' = gn /\ dc' = dc /\ masked a s s'
  | PdfObjectDictionary e, PdfObjectDictionary e' => dict_rel hE hD e e'
  | PdfObjectInteger _, PdfObjectInteger _ => True
  | _, _ => oD = oE
  end.

Definition heap_rel (hE hD : gmap addr PdfObject) : Prop :=
  forall a,
    match hE !! a with
    | Some oE => exists oD, hD !! a = Some oD /\ obj_rel hE hD a oE oD
    | None => hD !! a = None \/ exists n, hD !! a = Some (PdfObjectInteger n)
    end.

Definition crypt_rel (cE cD : PdfCrypt.t) : Prop :=
  PdfCrypt.V cD = PdfCrypt.V cE
  /\ PdfCrypt.CryptFilters cD = PdfCrypt.CryptFilters cE
  /\ PdfCrypt.StreamFilter cD = PdfCrypt.StreamFilter cE
  /\ PdfCrypt.StringFilter cD = PdfCrypt.StringFilter cE
  /\ PdfCrypt.EncryptionKey cD = PdfCrypt.EncryptionKey cE
  /\ PdfCrypt.DecryptedObjects cD = PdfCrypt.EncryptedObjects cE
  /\ rc4_only cE.

Definition side_by_side (stE stD : walk_state) : Prop :=
  crypt_rel (crypt stE) (crypt stD) /\ heap_rel (heap stE) (heap stD).

Definition int_mono (h h' : gmap addr PdfObject) : Prop :=
  forall x n, h !! x = Some (PdfObjectInteger n) ->
              exists n', h' !! x = Some (PdfObjectInteger n').

Lemma is_int_mono (h h' : gmap addr PdfObject) (o : option addr) :
  int_mono h h' -> is_int h o -> is_int h' o.
Proof.
  intros Hm (x & n & -> & Hx). destruct (Hm x n Hx) as (n' & Hn'). exists x, n'. auto.
Qed.

Lemma obj_rel_mono (hE hD hE' hD' : gmap addr PdfObject) (a : addr) (oE oD : PdfObject) :
  int_mono hE hE' -> int_mono hD hD' -> obj_rel hE hD a oE oD -> obj_rel hE' hD' a oE oD.
Proof.
  intros HE HD. destruct oE, oD; cbn [obj_rel]; auto.
  intros (Hk & Hg & [Hl | [H1 H2]]); repeat split; auto.
  right. split; eapply is_int_mono; eassumption.
Qed.

Lemma heap_rel_dom (hE hD : gmap addr PdfObject) (a : addr) :
  heap_rel hE hD -> hD !! a = None -> hE !! a = None.
Proof.
  intros Hh Ha. specialize (Hh a). destruct (hE !! a); [|reflexivity].
  destruct Hh as (oD & HoD & _). congruence.
Qed.

Lemma int_mono_insert (h : gmap addr PdfObject) (a : addr) (o : PdfObject) :
  (forall n, h !! a <> Some (PdfObjectInteger n)) -> int_mono h (<[a := o]> h).
Proof.
  intros Ha x n Hx. exists n. rewrite lookup_insert_ne; [exact Hx|].
  intros ->. exact (Ha n Hx).
Qed.

Lemma heap_rel_insert (hE hD : gmap addr PdfObject) (a : addr) (oE' oD' : PdfObject) :
  heap_rel hE hD ->
  (forall n, hE !! a <> Some (PdfObjectInteger n)) ->
  (forall n, hD !! a <> Some (PdfObjectInteger n)) ->
  obj_rel (<[a := oE']> hE) (<[a := oD']> hD) a oE' oD' ->
  heap_rel (<[a := oE']> hE) (<[a := oD']> hD).
Proof.
  intros Hh HaE HaD Hrel b. destruct (decide (b = a)) as [->|Hne].
  - rewrite !lookup_insert_eq. eauto.
  - rewrite !lookup_insert_ne by congruence. specialize (Hh b).
    destruct (hE !! b) as [oE|]; [|exact Hh].
    destruct Hh as (oD & HoD & Ho). exists oD. split; [exact HoD|].
    eapply obj_rel_mono; [| |exact Ho]; now apply int_mono_insert.
Qed.


Lemma heap_rel_alloc (hE hD : gmap addr PdfObject) (vE vD : Z) :
  heap_rel hE hD -> hD !! fresh (dom hE) <> None ->
  heap_rel (<[fresh (dom hE) := PdfObjectInteger vE]> hE)
           (<[fresh (dom hD) := PdfObjectInteger vD]> hD).
Proof.
  intros Hh Hroom b.
  pose proof (fresh_lookup hE) as HnE. pose proof (fresh_lookup hD) as HnD.
  assert (HmE : int_mono hE (<[fresh (dom hE) := PdfObjectInteger vE]> hE))
    by (apply int_mono_insert; intros n; congruence).
  assert (HmD : int_mono hD (<[fresh (dom hD) := PdfObjectInteger vD]> hD))
    by (apply int_mono_insert; intros n; congruence).
  destruct (decide (b = fresh (dom hE))) as [->|HbE].
  - rewrite lookup_insert_eq.
    destruct (decide (fresh (dom hE) = fresh (dom hD))) as [E|Hne].
    + exists (PdfObjectInteger vD). split; [rewrite E; apply lookup_insert_eq | exact I].
    + rewrite lookup_insert_ne by congruence.
      pose proof (Hh (fresh (dom hE))) as Hf. rewrite HnE in Hf.
      destruct Hf as [Hf | (n & Hf)]; [contradiction|].
      exists (PdfObjectInteger n). split; [exact Hf | exact I].
  - rewrite (lookup_insert_ne hE) by congruence.
    destruct (decide (b = fresh (dom hD))) as [->|HbD].
    + rewrite lookup_insert_eq. rewrite (heap_rel_dom hE hD _ Hh HnD). right. eauto.
    + rewrite lookup_insert_ne by congruence. specialize (Hh b).
      destruct (hE !! b) as [oE|]; [|exact Hh].
      destruct Hh as (oD & HoD & Ho). exists oD. split; [exact HoD|].
      eapply obj_rel_mono; eassumption.
Qed.

(** Both passes set the Length entry of the dictionary of a stream. *)
Lemma heap_rel_length (hE hD : gmap addr PdfObject) (dict : addr)
  (eE eD : list (string * addr)) (vE vD : Z) :
  heap_rel hE hD -> hD !! fresh (dom hE) <> None ->
  hE !! dict = Some (PdfObjectDictionary eE) ->
  hD !! dict = Some (PdfObjectDictionary eD) ->
  heap_rel
    (<[dict := PdfObjectDictionary (dict_Set eE "Length" (fresh (dom hE)))]>
       (<[fresh (dom hE) := PdfObjectInteger vE]> hE))
    (<[dict := PdfObjectDictionary (dict_Set eD "Length" (fresh (dom hD)))]>
       (<[fresh (dom hD) := PdfObjectInteger vD]> hD)).
Proof.
  intros Hh Hroom HdE HdD.
  pose proof (fresh_lookup hE) as HnE. pose proof (fresh_lookup hD) as HnD.
  assert (HneE : fresh (dom hE) <> dict) by (intros E; rewrite E in HnE; congruence).
  assert (HneD : fresh (dom hD) <> dict) by (intros E; rewrite E in HnD; congruence).
  pose proof (Hh dict) as Hd. rewrite HdE in Hd. destruct Hd as (oD & HoD & Hrel).
  rewrite HdD in HoD. injection HoD as <-. cbn [obj_rel] in Hrel.
  destruct Hrel as (Hk & Hg & _).
  apply heap_rel_insert.
  - now apply heap_rel_alloc.
  - intros n. rewrite lookup_insert_ne by exact HneE. congruence.
  - intros n. rewrite lookup_insert_ne by exact HneD. congruence.
  - cbn [obj_rel]. split; [now apply dict_Set_keys|]. split.
    + intros k Hne. rewrite !dict_Get_Set_ne by exact Hne. now apply Hg.
    + right. rewrite !dict_Get_Set_eq. split; eexists _, _; (split; [reflexivity|]).
      * rewrite lookup_insert_ne by congruence. apply lookup_insert_eq.
      * rewrite lookup_insert_ne by congruence. apply lookup_insert_eq.
Qed.

(** What the two heaps hold at an address. *)
Definition plain (o : PdfObject) : Prop :=
  match o with
  | PdfObjectString _ | PdfObjectStream _ _ _ _ | PdfObjectDictionary _
  | PdfObjectInteger _ => False
  | _ => True
  end.

Lemma heap_rel_cases (hE hD : gmap addr PdfObject) (x : addr) :
  heap_rel hE hD ->
  (exists s s', hE !! x = Some (PdfObjectString s) /\ hD !! x = Some (PdfObjectString s')
                /\ masked x s s')
  \/ (exists on gn dc s s', hE !! x = Some (PdfObjectStream on gn dc s)
                            /\ hD !! x = Some (PdfObjectStream on gn dc s')
                            /\ masked x s s')
  \/ (exists e e', hE !! x = Some (PdfObjectDictionary e)
                   /\ hD !! x = Some (PdfObjectDictionary e') /\ dict_rel hE hD e e')
  \/ (exists n n', hE !! x = Some (PdfObjectInteger n)
                   /\ hD !! x = Some (PdfObjectInteger n'))
  \/ (hE !! x = None
      /\ (hD !! x = None \/ exists n, hD !! x = Some (PdfObjectInteger n)))
  \/ (exists o, plain o /\ hE !! x = Some o /\ hD !! x = Some o).
Proof.
  intros Hh. specialize (Hh x). destruct (hE !! x) as [oE|].
  - destruct Hh as (oD & -> & Hrel).
    destruct oE, oD; cbn [obj_rel] in Hrel; try discriminate Hrel;
      try (inversion Hrel; subst; do 5 right; eexists;
           split; [|split; reflexivity]; exact I).
    + do 3 right. left. eauto.
    + left. eauto.
    + do 2 right. left. eauto.
    + destruct Hrel as (-> & -> & -> & Hm). right. left. eauto 10.
  - do 4 right. left. auto.
Qed.

Lemma crypt_rel_mark (stE stD : walk_state) (obj : addr) :
  crypt_rel (crypt stE) (crypt stD) ->
  crypt_rel (crypt (mark Encrypting stE obj)) (crypt (mark Decrypting stD obj)).
Proof.
  intros (H1 & H2 & H3 & H4 & H5 & H6 & H7). cbn.
  repeat split; try assumption. now rewrite H6.
Qed.

Lemma isProcessed_rel (cE cD : PdfCrypt.t) (obj : addr) :
  crypt_rel cE cD -> isProcessed Decrypting cD obj = isProcessed Encrypting cE obj.
Proof.
  intros (_ & _ & _ & _ & _ & H6 & _). cbn [isProcessed]. unfold isDecrypted, isEncrypted.
  now rewrite H6.
Qed.

Lemma dict_isSig_rel (hE hD : gmap addr PdfObject) (eE eD : list (string * addr)) :
  heap_rel hE hD -> dict_rel hE hD eE eD -> dict_isSig hD eD = dict_isSig hE eE.
Proof.
  intros Hh (_ & Hg & _). unfold dict_isSig. rewrite (Hg "Type") by discriminate.
  destruct (dict_Get eE "Type") as [x|]; [|reflexivity]. cbn [mbind option_bind].
  destruct (heap_rel_cases hE hD x Hh)
    as [(s & s' & -> & -> & _) | [(on & gn & dc & s & s' & -> & -> & _)
       | [(e & e' & -> & -> & _) | [(n & n' & -> & ->) | [(-> & [-> | (n & ->)])
       | (o & _ & -> & ->)]]]]]; reflexivity.
Qed.

Lemma stream_filter_rel (cE cD : PdfCrypt.t) (hE hD : gmap addr PdfObject)
  (eE eD : list (string * addr)) :
  crypt_rel cE cD -> heap_rel hE hD -> dict_rel hE hD eE eD ->
  stream_filter_V4 cD hD eD = stream_filter_V4 cE hE eE.
Proof.
  intros (_ & HF & HS & _) Hh (_ & Hg & _). unfold stream_filter_V4. cbv zeta.
  rewrite (Hg "Filter"), (Hg "DecodeParms") by discriminate. rewrite HS.
  assert (Hinner :
            match dict_Get eE "DecodeParms" ≫= (hD !!.) with
            | Some (PdfObjectDictionary decodeParams) =>
                match dict_Get decodeParams "Name" ≫= (hD !!.) with
                | Some (PdfObjectName filterName) =>
                    match PdfCrypt.CryptFilters cD !! filterName with
                    | Some _ => Ok filterName
                    | None => Ok "Identity"
                    end
                | _ => Ok "Identity"
                end
            | _ => Ok "Identity"
            end
            = match dict_Get eE "DecodeParms" ≫= (hE !!.) with
              | Some (PdfObjectDictionary decodeParams) =>
                  match dict_Get decodeParams "Name" ≫= (hE !!.) with
                  | Some (PdfObjectName filterName) =>
                      match PdfCrypt.CryptFilters cE !! filterName with
                      | Some _ => Ok filterName
                      | None => Ok "Identity"
                      end
                  | _ => Ok "Identity"
                  end
              | _ => Ok "Identity"
              end).
  { destruct (dict_Get eE "DecodeParms") as [x|]; [|reflexivity]. cbn [mbind option_bind].
    destruct (heap_rel_cases hE hD x Hh)
      as [(s & s' & -> & -> & _) | [(on & gn & dc & s & s' & -> & -> & _)
         | [(e & e' & -> & -> & Hd) | [(n & n' & -> & ->) | [(-> & [-> | (n & ->)])
         | (o & Hp & -> & ->)]]]]]; try reflexivity.
    - destruct Hd as (_ & Hg' & _). rewrite (Hg' "Name") by discriminate.
      destruct (dict_Get e "Name") as [y|]; [|reflexivity]. cbn [mbind option_bind].
      destruct (heap_rel_cases hE hD y Hh)
        as [(s & s' & -> & -> & _) | [(on & gn & dc & s & s' & -> & -> & _)
           | [(e1 & e1' & -> & -> & _) | [(n & n' & -> & ->) | [(-> & [-> | (n & ->)])
           | (o & _ & -> & ->)]]]]]; try reflexivity.
      now rewrite HF.
    - destruct o; try contradiction; reflexivity. }
  destruct (dict_Get eE "Filter") as [x|]; [|reflexivity]. cbn [mbind option_bind].
  destruct (heap_rel_cases hE hD x Hh)
    as [(s & s' & -> & -> & _) | [(on & gn & dc & s & s' & -> & -> & _)
       | [(e & e' & -> & -> & _) | [(n & n' & -> & ->) | [(-> & [-> | (n & ->)])
       | (o & _ & -> & ->)]]]]]; try reflexivity.
  destruct o as [ | | | | | |[|first rest]| | | ]; try reflexivity.
  destruct (heap_rel_cases hE hD first Hh)
    as [(s & s' & -> & -> & _) | [(on & gn & dc & s & s' & -> & -> & _)
       | [(e & e' & -> & -> & _) | [(n & n' & -> & ->) | [(-> & [-> | (n & ->)])
       | (o & _ & -> & ->)]]]]]; try reflexivity.
  now rewrite Hinner.
Qed.

(** The heap of [st'] has an object wherever the heap of [st] has one. *)
Definition grows (st st' : walk_state) : Prop :=
  forall a, heap st !! a <> None -> heap st' !! a <> None.

Lemma grows_refl (st : walk_state) : grows st st.
Proof. intros a H. exact H. Qed.

Lemma grows_trans (st1 st2 st3 : walk_state) : grows st1 st2 -> grows st2 st3 -> grows st1 st3.
Proof. intros H1 H2 a H. apply H2, H1, H. Qed.

Lemma grows_insert (st : walk_state) (a : addr) (o : PdfObject) :
  grows st (with_heap st (<[a := o]> (heap st))).
Proof.
  intros b Hb. cbn [with_heap heap]. destruct (decide (b = a)) as [->|Hne].
  - now rewrite lookup_insert_eq.
  - now rewrite lookup_insert_ne by congruence.
Qed.

Lemma walk_grows (d : direction) (fuel : nat) (st : walk_state) (obj : addr) (pn pg : Z) :
  grows st (fst (walk rand_Read d fuel st obj pn pg)).
Proof.
  apply (walk_invariant rand_Read d grows).
  - apply grows_refl.
  - apply grows_trans.
  - intros s o a H. destruct d; exact H.
  - intros s e a H. exact H.
  - intros s o b b' _ _. apply grows_insert.
  - intros s o on gn dc S S' _. apply grows_insert.
  - intros s dict entries v _.
    eapply grows_trans; [apply (grows_insert s (fresh (dom (heap s))) (PdfObjectInteger v))|].
    apply (grows_insert (with_heap s _)).
Qed.



Lemma masked_rc4 (a : addr) (key s s' : bytes) :
  masked a s s' -> masked a (RC4.XORKeyStream key s) (RC4.XORKeyStream key s').
Proof. unfold masked, RC4.XORKeyStream. intros ->. apply RC4_prga_xor. Qed.

Definition lockstep_at (fuel : nat) : Prop :=
  forall stE stD obj pn pg stE',
    walk rand_Read Encrypting fuel stE obj pn pg = (stE', Ok tt) ->
    side_by_side stE stD -> grows stE' stD ->
    exists stD',
      walk rand_Read Decrypting fuel stD obj pn pg = (stD', Ok tt)
      /\ side_by_side stE' stD' /\ grows stD stD'.

Lemma walk_leaf (d : direction) (fuel : nat) (st : walk_state) (x : addr) (pn pg : Z) (n : Z) :
  heap st !! x = Some (PdfObjectInteger n) ->
  walk rand_Read d (S fuel) st x pn pg = (st, Ok tt).
Proof. intros H. cbn [walk]. rewrite H. now destruct (isProcessed d (crypt st) x). Qed.

Lemma lockstep_array (fuel : nat) (pn pg : Z) (IH : lockstep_at fuel) :
  forall (l : list addr) (stE stD stE' : walk_state),
    (fix each (l : list addr) (st : walk_state) : walk_state * result unit :=
       match l with
       | [] => (st, Ok tt)
       | o :: rest =>
           match walk rand_Read Encrypting fuel st o pn pg with
           | (st, Ok _) => each rest st
           | r => r
           end
       end) l stE = (stE', Ok tt) ->
    side_by_side stE stD -> grows stE' stD ->
    exists stD',
      (fix each (l : list addr) (st : walk_state) : walk_state * result unit :=
         match l with
         | [] => (st, Ok tt)
         | o :: rest =>
             match walk rand_Read Decrypting fuel st o pn pg with
             | (st, Ok _) => each rest st
             | r => r
             end
         end) l stD = (stD', Ok tt)
      /\ side_by_side stE' stD' /\ grows stD stD'.
Proof.
  induction l as [|o rest IHl]; intros stE stD stE' HE Hrel Hroom.
  - injection HE as <-. exists stD. split; [reflexivity|]. split; [exact Hrel | apply grows_refl].
  - destruct (walk rand_Read Encrypting fuel stE o pn pg) as [stE1 r1] eqn:Hw.
    destruct r1 as [[]| | |]; try discriminate HE.
    assert (Hroom1 : grows stE1 stD).
    { eapply grows_trans; [|exact Hroom].
      pose proof (walk_array_invariant rand_Read Encrypting grows grows_refl grows_trans
                    fuel pn pg (walk_grows Encrypting fuel) rest stE1) as Hg.
      rewrite HE in Hg. exact Hg. }
    destruct (IH stE stD o pn pg stE1 Hw Hrel Hroom1) as (stD1 & HwD & Hrel1 & Hg1).
    assert (Hroom' : grows stE' stD1) by (eapply grows_trans; eassumption).
    destruct (IHl stE1 stD1 stE' HE Hrel1 Hroom') as (stD' & HD & Hrel' & Hg').
    exists stD'. rewrite HwD. split; [exact HD|]. split; [exact Hrel'|].
    eapply grows_trans; eassumption.
Qed.

Lemma lockstep_dict (fuel : nat) (pn pg : Z) (obj : addr) (isSig : bool)
  (IH : lockstep_at fuel) :
  forall (keys : list string) (stE stD stE' : walk_state),
    (fix each (keys : list string) (st : walk_state) : walk_state * result unit :=
       match keys with
       | [] => (st, Ok tt)
       | keyidx :: rest =>
           let o :=
             match heap st !! obj with
             | Some (PdfObjectDictionary entries) => dict_Get entries keyidx
             | _ => None
             end in
           if isSig && String.eqb keyidx "Contents" then each rest st
           else if negb (String.eqb keyidx "Parent")
                   && negb (String.eqb keyidx "Prev")
                   && negb (String.eqb keyidx "Last")
           then
             match o with
             | Some o =>
                 match walk rand_Read Encrypting fuel st o pn pg with
                 | (st, Ok _) => each rest st
                 | r => r
                 end
             | None => each rest st
             end
           else each rest st
       end) keys stE = (stE', Ok tt) ->
    side_by_side stE stD -> grows stE' stD ->
    exists stD',
      (fix each (keys : list string) (st : walk_state) : walk_state * result unit :=
         match keys with
         | [] => (st, Ok tt)
         | keyidx :: rest =>
             let o :=
               match heap st !! obj with
               | Some (PdfObjectDictionary entries) => dict_Get entries keyidx
               | _ => None
               end in
             if isSig && String.eqb keyidx "Contents" then each rest st
             else if negb (String.eqb keyidx "Parent")
                     && negb (String.eqb keyidx "Prev")
                     && negb (String.eqb keyidx "Last")
             then
               match o with
               | Some o =>
                   match walk rand_Read Decrypting fuel st o pn pg with
                   | (st, Ok _) => each rest st
                   | r => r
                   end
               | None => each rest st
               end
             else each rest st
         end) keys stD = (stD', Ok tt)
      /\ side_by_side stE' stD' /\ grows stD stD'.
Proof.
  induction keys as [|k rest IHk]; intros stE stD stE' HE Hrel Hroom.
  - injection HE as <-. exists stD. split; [reflexivity|]. split; [exact Hrel | apply grows_refl].
  - cbv zeta in HE |- *.
    destruct (isSig && String.eqb k "Contents"); [eapply IHk; eassumption|].
    destruct (negb (String.eqb k "Parent") && negb (String.eqb k "Prev")
              && negb (String.eqb k "Last")); [|eapply IHk; eassumption].
    (* the children of the key in the two heaps *)
    assert (Hchild :
              match heap stD !! obj with
              | Some (PdfObjectDictionary entries) => dict_Get entries k
              | _ => None
              end
              = match heap stE !! obj with
                | Some (PdfObjectDictionary entries) => dict_Get entries k
                | _ => None
                end
              \/ exists x y n m,
                  match heap stE !! obj with
                  | Some (PdfObjectDictionary entries) => dict_Get entries k
                  | _ => None
                  end = Some x
                  /\ match heap stD !! obj with
                     | Some (PdfObjectDictionary entries) => dict_Get entries k
                     | _ => None
                     end = Some y
                  /\ heap stE !! x = Some (PdfObjectInteger n)
                  /\ heap stD !! y = Some (PdfObjectInteger m)).
    { destruct Hrel as [_ Hh].
      destruct (heap_rel_cases (heap stE) (heap stD) obj Hh)
        as [(s & s' & -> & -> & _) | [(on & gn & dc & s & s' & -> & -> & _)
           | [(e & e' & -> & -> & Hd) | [(n & n' & -> & ->) | [(-> & [-> | (n & ->)])
           | (o & Hp & -> & ->)]]]]]; try (left; reflexivity).
      destruct Hd as (_ & Hg & Hl).
      destruct (String.eqb_spec k "Length") as [->|Hne]; [|left; now apply Hg].
      destruct Hl as [Hl | [(x & n & Hx & Hxn) (y & m & Hy & Hym)]]; [now left|].
      right. exists x, y, n, m. auto. }
    destruct Hchild as [Hchild | (x & y & n & m & HxE & HyD & Hxn & Hym)].
    + rewrite Hchild.
      destruct (match heap stE !! obj with
                | Some (PdfObjectDictionary entries) => dict_Get entries k
                | _ => None
                end) as [o|]; [|eapply IHk; eassumption].
      destruct (walk rand_Read Encrypting fuel stE o pn pg) as [stE1 r1] eqn:Hw.
      destruct r1 as [[]| | |]; try discriminate HE.
      assert (Hroom1 : grows stE1 stD).
      { eapply grows_trans; [|exact Hroom].
        pose proof (walk_dict_invariant rand_Read Encrypting grows grows_refl grows_trans
                      fuel pn pg obj isSig (walk_grows Encrypting fuel) rest stE1) as Hg.
        cbv zeta in Hg. rewrite HE in Hg. exact Hg. }
      destruct (IH stE stD o pn pg stE1 Hw Hrel Hroom1) as (stD1 & HwD & Hrel1 & Hg1).
      assert (Hroom' : grows stE' stD1) by (eapply grows_trans; eassumption).
      destruct (IHk stE1 stD1 stE' HE Hrel1 Hroom') as (stD' & HD & Hrel' & Hg').
      exists stD'. rewrite HwD. split; [exact HD|]. split; [exact Hrel'|].
      eapply grows_trans; eassumption.
    + rewrite HxE in HE. rewrite HyD.
      destruct fuel as [|fuel']; [discriminate HE|].
      rewrite (walk_leaf _ _ _ _ _ _ _ Hxn) in HE.
      rewrite (walk_leaf _ _ _ _ _ _ _ Hym).
      eapply IHk; eassumption.
Qed.

Lemma lockstep_step (fuel : nat) : lockstep_at fuel -> lockstep_at (S fuel).
Proof.
  intros IH stE stD obj pn pg stE' HE Hrel Hroom.
  destruct Hrel as [Hc Hh].
  cbn [walk] in HE |- *.
  rewrite (isProcessed_rel _ _ obj Hc).
  destruct (isProcessed Encrypting (crypt stE) obj) eqn:Hproc.
  { injection HE as <-. exists stD. split; [reflexivity|]. split; [now split | apply grows_refl]. }
  assert (Hleaf : stE' = stE ->
                  exists stD', (stD, Ok tt) = (stD', Ok tt)
                               /\ side_by_side stE' stD' /\ grows stD stD').
  { intros ->. exists stD. split; [reflexivity|]. split; [now split | apply grows_refl]. }
  pose proof Hc as (HV & HF & HS & HSt & HK & HP & Hrc).
  destruct (heap_rel_cases (heap stE) (heap stD) obj Hh)
    as [(s & s' & HoE & HoD & Hm) | [(on & gn & dc & s & s' & HoE & HoD & Hm)
       | [(e & e' & HoE & HoD & Hd) | [(n & n' & HoE & HoD) | [(HoE & [HoD | (n & HoD)])
       | (o & Hp & HoE & HoD)]]]]]; rewrite HoE in HE; rewrite HoD.
  - (* string *)
    cbn [with_event crypt] in HE |- *. rewrite HV, HSt, HK.
    destruct ((4 <=? PdfCrypt.V (crypt stE))
              && String.eqb (PdfCrypt.StringFilter (crypt stE)) "Identity") eqn:Hid.
    { apply Hleaf. now injection HE. }
    set (filter := if 4 <=? PdfCrypt.V (crypt stE) then PdfCrypt.StringFilter (crypt stE)
                   else "Default") in *.
    assert (Hne : filter <> "Identity").
    { subst filter. destruct (4 <=? PdfCrypt.V (crypt stE)); [|discriminate].
      cbn [andb] in Hid. now apply String.eqb_neq. }
    rewrite (makeKey_rel (crypt stE) (crypt stD)) by exact HF.
    destruct (makeKey (crypt stE) filter (uint32 pn) (uint32 pg)
                (PdfCrypt.EncryptionKey (crypt stE))) as [key| | |] eqn:Hkey;
      try discriminate HE.
    destruct (makeKey_registered _ _ _ _ _ _ Hkey) as (cf & Hcf).
    destruct (Hrc filter cf Hcf) as [|Hcfm]; [contradiction|].
    rewrite (cryptBytes_rc4 _ _ _ _ _ _ cf Hcf Hcfm) in HE.
    rewrite (cryptBytes_rc4 _ _ (crypt stD) _ _ _ cf) by (rewrite ?HF; assumption).
    destruct (negb (RC4.key_ok key)); [discriminate HE|].
    injection HE as <-. eexists. split; [reflexivity|]. split; [split|].
    + exact Hc.
    + cbn [with_heap with_event heap]. apply heap_rel_insert.
      * exact Hh.
      * intros n. rewrite HoE. discriminate.
      * intros n. rewrite HoD. discriminate.
      * cbn [obj_rel]. now apply masked_rc4.
    + apply (grows_insert (with_event stD (CryptString obj))).
  - (* stream *)
    set (stE1 := mark Encrypting stE obj) in *. set (stD1 := mark Decrypting stD obj) in *.
    assert (Hc1 : crypt_rel (crypt stE1) (crypt stD1)) by now apply crypt_rel_mark.
    assert (Hh1 : heap_rel (heap stE1) (heap stD1)) by exact Hh.
    assert (Hg1 : grows stD stD1) by (intros a H; exact H).
    pose proof Hc1 as (HV1 & HF1 & HS1 & _ & HK1 & _ & Hrc1).
    destruct (heap_rel_cases (heap stE1) (heap stD1) dc Hh1)
      as [(x & x' & HdE & HdD & _) | [(on1 & gn1 & dc1 & x & x' & HdE & HdD & _)
         | [(e & e' & HdE & HdD & Hd) | [(n & n' & HdE & HdD) | [(HdE & [HdD | (n & HdD)])
         | (o & Hp & HdE & HdD)]]]]]; rewrite HdE in HE; rewrite HdD;
      try discriminate HE; [|destruct o; try contradiction; discriminate HE].
    rewrite HV1. rewrite (stream_filter_rel _ _ _ _ _ _ Hc1 Hh1 Hd).
    destruct (if 4 <=? PdfCrypt.V (crypt stE1)
              then stream_filter_V4 (crypt stE1) (heap stE1) e else Ok "Default")
      as [streamFilter| | |] eqn:Hsf; try discriminate HE.
    destruct ((4 <=? PdfCrypt.V (crypt stE1)) && String.eqb streamFilter "Identity") eqn:Hid.
    { injection HE as <-. exists stD1. split; [reflexivity|]. split; [now split | exact Hg1]. }
    assert (Hne : streamFilter <> "Identity").
    { destruct (4 <=? PdfCrypt.V (crypt stE1)).
      - cbn [andb] in Hid. now apply String.eqb_neq.
      - injection Hsf as <-. discriminate. }
    destruct (walk rand_Read Encrypting fuel stE1 dc on gn) as [stE2 r2] eqn:Hw.
    destruct r2 as [[]| | |]; try discriminate HE.
    destruct (makeKey (crypt stE2) streamFilter (uint32 on) (uint32 gn)
                (PdfCrypt.EncryptionKey (crypt stE2))) as [okey| | |] eqn:Hkey;
      try discriminate HE.
    destruct (heap stE2 !! obj) as [[ | | | | | | | | |on' gn' dc' S]|] eqn:HobjE2;
      try discriminate HE.
    cbn [with_event with_heap crypt heap] in HE.
    destruct (cryptBytes rand_Read Encrypting (crypt stE2) S streamFilter okey)
      as [[S' [err|]]| | |] eqn:HcbE; try discriminate HE.
    destruct (decide (dc = obj)) as [->|Hdo].
    { rewrite lookup_insert_eq in HE. discriminate HE. }
    rewrite lookup_insert_ne in HE by congruence.
    destruct (heap stE2 !! dc) as [[ | | | | | | |entries2| | ]|] eqn:HdcE2;
      try discriminate HE.
    injection HE as <-.
    set (hE3 := <[obj := PdfObjectStream on' gn' dc' S']> (heap stE2)) in *.
    assert (Hroom2 : grows stE2 stD1).
    { eapply grows_trans; [|exact Hroom]. intros a Ha. cbn [heap].
      apply (grows_insert (WalkState (crypt stE2) _ (log stE2)) dc).
      apply (grows_insert (WalkState (crypt stE2) hE3 (log stE2)) (fresh (dom hE3))).
      now apply (grows_insert stE2 obj). }
    destruct (IH stE1 stD1 dc on gn stE2 Hw (conj Hc1 Hh1) Hroom2)
      as (stD2 & HwD & [Hc2 Hh2] & Hg2).
    rewrite HwD.
    pose proof Hc2 as (HV2 & HF2 & HS2 & _ & HK2 & _ & Hrc2).
    rewrite (makeKey_rel (crypt stE2) (crypt stD2)) by exact HF2.
    rewrite HK2, Hkey.
    destruct (makeKey_registered _ _ _ _ _ _ Hkey) as (cf & Hcf).
    destruct (Hrc2 streamFilter cf Hcf) as [|Hcfm]; [contradiction|].
    rewrite (cryptBytes_rc4 _ _ _ _ _ _ cf Hcf Hcfm) in HcbE.
    destruct (negb (RC4.key_ok okey)) eqn:Hok; [discriminate HcbE|].
    injection HcbE as <-.
    destruct (heap_rel_cases (heap stE2) (heap stD2) obj Hh2)
      as [(x & x' & HxE & HxD & _) | [(on1 & gn1 & dc1 & x & x' & HxE & HxD & Hmx)
         | [(e1 & e1' & HxE & HxD & _) | [(n & n' & HxE & HxD) | [(HxE & _)
         | (o & Hp & HxE & HxD)]]]]]; rewrite HobjE2 in HxE; try discriminate HxE;
      [|injection HxE as <-; contradiction].
    injection HxE as <- <- <- <-. rewrite HxD.
    cbn [with_event with_heap crypt heap].
    rewrite (cryptBytes_rc4 _ _ (crypt stD2) _ _ _ cf) by (rewrite ?HF2; assumption).
    rewrite Hok.
    rewrite lookup_insert_ne by congruence.
    destruct (heap_rel_cases (heap stE2) (heap stD2) dc Hh2)
      as [(y & y' & HyE & HyD & _) | [(on1 & gn1 & dc1 & y & y' & HyE & HyD & _)
         | [(e2 & e2' & HyE & HyD & Hd2) | [(n & n' & HyE & HyD) | [(HyE & _)
         | (o & Hp & HyE & HyD)]]]]]; rewrite HdcE2 in HyE; try discriminate HyE;
      [|injection HyE as <-; contradiction].
    injection HyE as <-. rewrite HyD.
    set (hD3 := <[obj := PdfObjectStream on' gn' dc' (RC4.XORKeyStream okey x')]> (heap stD2)).
    assert (Hh3 : heap_rel hE3 hD3).
    { apply heap_rel_insert.
      - exact Hh2.
      - intros n. rewrite HobjE2. discriminate.
      - intros n. rewrite HxD. discriminate.
      - cbn [obj_rel]. repeat split. now apply masked_rc4. }
    eexists. split; [reflexivity|]. split; [split|].
    + exact Hc2.
    + cbn [heap]. apply heap_rel_length.
      * exact Hh3.
      * subst hD3. intros Hn.
        assert (Hin : heap stD !! fresh (dom hE3) <> None).
        { apply Hroom. cbn [heap with_heap with_event]. rewrite lookup_insert_ne.
          - rewrite lookup_insert_eq. discriminate.
          - intros E. pose proof (fresh_lookup hE3) as Hf. rewrite <- E in Hf.
            subst hE3. rewrite lookup_insert_ne in Hf by congruence. congruence. }
        apply Hg1, Hg2 in Hin.
        destruct (decide (fresh (dom hE3) = obj)) as [E|Hno].
        -- rewrite E, lookup_insert_eq in Hn. discriminate.
        -- rewrite lookup_insert_ne in Hn by congruence. contradiction.
      * subst hE3. rewrite lookup_insert_ne by congruence. exact HdcE2.
      * subst hD3. rewrite lookup_insert_ne by congruence. exact HyD.
    + eapply grows_trans; [exact Hg1|]. eapply grows_trans; [exact Hg2|].
      intros a Ha. cbn [heap].
      apply (grows_insert (WalkState (crypt stD2) _ (log stD2)) dc).
      apply (grows_insert (WalkState (crypt stD2) hD3 (log stD2)) (fresh (dom hD3))).
      now apply (grows_insert stD2 obj).
  - (* dictionary *)
    rewrite (dict_isSig_rel _ _ _ _ Hh Hd).
    replace (dict_Keys e') with (dict_Keys e) by (symmetry; exact (proj1 Hd)).
    exact (lockstep_dict fuel pn pg obj _ IH _ stE stD stE' HE (conj Hc Hh) Hroom).
  - (* integer *)
    apply Hleaf. now injection HE.
  - apply Hleaf. now injection HE.
  - apply Hleaf. now injection HE.
  - destruct o as [ | | | | | |elems| |on gn inner| ]; try contradiction;
      try (apply Hleaf; now injection HE).
    + (* array *)
      exact (lockstep_array fuel pn pg IH _ stE stD stE' HE (conj Hc Hh) Hroom).
    + (* indirect object *)
      destruct (IH _ (with_event (mark Decrypting stD obj) (EnterIndirect obj)) _ _ _ _ HE)
        as (stD' & HD & Hrel' & Hg').
      * split; [now apply crypt_rel_mark | exact Hh].
      * exact Hroom.
      * exists stD'. split; [exact HD|]. split; [exact Hrel' | exact Hg'].
Qed.

Lemma lockstep (fuel : nat) : lockstep_at fuel.
Proof.
  induction fuel as [|fuel IH]; [|now apply lockstep_step].
  intros stE stD obj pn pg stE' HE. discriminate HE.
Qed.

End SideBySide.

(** The bytes of a string or of a stream. *)
Definition payload (h : gmap addr PdfObject) (a : addr) : bytes :=
  match h !! a with
  | Some (PdfObjectString s) => s
  | Some (PdfObjectStream _ _ _ s) => s
  | _ => []
  end.

(** The dictionary of a stream has an integer Length entry. *)
Definition stream_has_length (h : gmap addr PdfObject) (o : PdfObject) : bool :=
  match o with
  | PdfObjectStream _ _ dc _ =>
      match h !! dc with
      | Some (PdfObjectDictionary e) =>
          match dict_value h e "Length" with
          | Some (PdfObjectInteger _) => true
          | _ => false
          end
      | _ => true
      end
  | _ => true
  end.

(** After a pass of Encrypt that succeeded, the document and the handler are
    as a pass of Decrypt side by side with it would find them. *)
Lemma effect_side_by_side (st st1 : walk_state) :
  rc4_only (crypt st) ->
  PdfCrypt.DecryptedObjects (crypt st) = PdfCrypt.EncryptedObjects (crypt st) ->
  (forall x o, heap st !! x = Some o -> stream_has_length (heap st) o = true) ->
  effect st st1 ->
  side_by_side
    (fun a => zip_with Z.lxor (payload (heap st) a) (payload (heap st1) a)) st st1.
Proof.
  intros Hrc Hsets Hlen [(C1 & C2 & C3 & C4 & C5 & C6) Hh].
  split; [repeat split; try assumption; congruence|].
  intros a. pose proof (Hh a) as Ha.
  destruct (heap st !! a) as [o|] eqn:Hoa; [|exact Ha].
  destruct Ha as (o' & Ho' & Hr). exists o'. split; [exact Ho'|].
  destruct o, o'; cbn [obj_eff] in Hr; try discriminate Hr; cbn [obj_rel]; try exact Hr;
    try exact I.
  - (* string *)
    unfold masked, payload. rewrite Hoa, Ho'. symmetry. now apply zip_lxor_cancel_l.
  - (* dictionary *)
    destruct Hr as [-> | ((x & on & gn & s & Hx) & n & v & -> & Hn)].
    + repeat split. now left.
    + pose proof (Hlen x _ Hx) as Hl. cbn [stream_has_length] in Hl. rewrite Hoa in Hl.
      unfold dict_value in Hl.
      destruct (dict_Get entries "Length") as [l|] eqn:Hgl; [|discriminate Hl].
      cbn [mbind option_bind] in Hl.
      destruct (heap st !! l) as [[ | |m| | | | | | | ]|] eqn:Hlm; try discriminate Hl.
      split; [now apply (dict_Set_keys_present _ _ l)|].
      split; [intros k Hk; now apply dict_Get_Set_ne|].
      right. split; [exists l, m; auto|].
      rewrite dict_Get_Set_eq. exists n, v. auto.
  - (* stream *)
    destruct Hr as (-> & -> & -> & Hl). repeat split.
    unfold masked, payload. rewrite Hoa, Ho'. symmetry. now apply zip_lxor_cancel_l.
Qed.

Section RoundTrip.
Variable rand_Read : nat -> bytes.

(** X28: Decrypt undoes Encrypt when the crypt filters are RC4.  Let every
    crypt filter of the handler but Identity have the method V2, let the two
    sets of processed objects of the handler be the same (they are empty in a
    new handler), and let the dictionary of every stream of the document have
    an integer Length entry.  If Encrypt succeeds on an object, then Decrypt
    on the same object, from the handler and the document as Encrypt left
    them, succeeds too, and every string and every stream of the document has
    the bytes again that it had before Encrypt: also a string that is reached,
    and so ciphered, more than once. *)
Theorem X28_decrypt_undoes_encrypt (fuel : nat) (st st1 : walk_state) (obj : addr)
  (parentObjNum parentGenNum : Z) :
  rc4_only (crypt st) ->
  PdfCrypt.DecryptedObjects (crypt st) = PdfCrypt.EncryptedObjects (crypt st) ->
  (forall x o, heap st !! x = Some o -> stream_has_length (heap st) o = true) ->
  Encrypt rand_Read fuel st obj parentObjNum parentGenNum = (st1, Ok tt) ->
  exists st2,
    Decrypt rand_Read fuel st1 obj parentObjNum parentGenNum = (st2, Ok tt)
    /\ forall a,
         (forall s, heap st !! a = Some (PdfObjectString s) ->
                    heap st2 !! a = Some (PdfObjectString s))
         /\ (forall on gn dc s, heap st !! a = Some (PdfObjectStream on gn dc s) ->
                                heap st2 !! a = Some (PdfObjectStream on gn dc s)).
Proof.
  intros Hrc Hsets Hlen HE. unfold Encrypt in HE. unfold Decrypt.
  pose proof (walk_effect rand_Read fuel st obj parentObjNum parentGenNum st1 HE Hrc) as Heff.
  pose proof (effect_side_by_side st st1 Hrc Hsets Hlen Heff) as Hrel.
  set (mask := fun a => zip_with Z.lxor (payload (heap st) a) (payload (heap st1) a)) in *.
  destruct (lockstep rand_Read mask fuel st st1 obj parentObjNum parentGenNum st1 HE Hrel
              (grows_refl st1)) as (st2 & HD & [_ Hh2] & _).
  exists st2. split; [exact HD|].
  intros a. pose proof (proj2 Heff a) as H01. pose proof (Hh2 a) as H12.
  split.
  - intros s Hs. rewrite Hs in H01. destruct H01 as (o1 & Ho1 & R01).
    destruct o1; cbn [obj_eff] in R01; try discriminate R01.
    rewrite Ho1 in H12. destruct H12 as (o2 & Ho2 & R12).
    destruct o2; cbn [obj_rel] in R12; try discriminate R12.
    rewrite Ho2. f_equal. f_equal. unfold masked in R12. rewrite R12.
    subst mask. cbv beta. unfold payload. rewrite Hs, Ho1. now apply zip_lxor_cancel.
  - intros on gn dc s Hs. rewrite Hs in H01. destruct H01 as (o1 & Ho1 & R01).
    destruct o1; cbn [obj_eff] in R01; try discriminate R01.
    destruct R01 as (-> & -> & -> & Hl).
    rewrite Ho1 in H12. destruct H12 as (o2 & Ho2 & R12).
    destruct o2; cbn [obj_rel] in R12; try discriminate R12.
    destruct R12 as (-> & -> & -> & Hm).
    rewrite Ho2. f_equal. f_equal. unfold masked in Hm. rewrite Hm.
    subst mask. cbv beta. unfold payload. rewrite Hs, Ho1. now apply zip_lxor_cancel.
Qed.

End RoundTrip.

(** A document with a stream and with a string that is reached twice, in the
    indirect objects 7 and 12, and the handler of [doc2] with its key. *)
Definition rt_heap : gmap addr PdfObject :=
  list_to_map
    [(1%positive, PdfIndirectObject 7 0 2%positive);
     (2%positive,
      PdfObjectDictionary [("Title", 3%positive); ("Kids", 4%positive); ("Again", 8%positive)]);
     (3%positive, PdfObjectString [72; 105]);
     (4%positive, PdfObjectArray [5%positive]);
     (5%positive, PdfObjectStream 8 0 6%positive [1; 2; 3]);
     (6%positive, PdfObjectDictionary [("Length", 7%positive)]);
     (7%positive, PdfObjectInteger 3);
     (8%positive, PdfIndirectObject 12 0 3%positive)].
Definition rt_state : walk_state :=
  WalkState (PdfCrypt.set_EncryptionKey doc2 [1; 255; 9; 124; 41]) rt_heap [].

Lemma X28_decrypt_undoes_encrypt_witness :
  exists st2,
    Decrypt zero_rand 10 (Encrypt zero_rand 10 rt_state 1%positive 0 0).1 1%positive 0 0
    = (st2, Ok tt)
    /\ forall a,
         (forall s, heap rt_state !! a = Some (PdfObjectString s) ->
                    heap st2 !! a = Some (PdfObjectString s))
         /\ (forall on gn dc s, heap rt_state !! a = Some (PdfObjectStream on gn dc s) ->
                                heap st2 !! a = Some (PdfObjectStream on gn dc s)).
Proof.
  apply (X28_decrypt_undoes_encrypt zero_rand 10 rt_state
           (Encrypt zero_rand 10 rt_state 1%positive 0 0).1 1%positive 0 0).
  - intros name cf H. right.
    change (PdfCrypt.CryptFilters (crypt rt_state))
      with ({[ "Default" := CryptFilter.Build "V2" 40 ]} : gmap string CryptFilter.t) in H.
    apply lookup_singleton_Some in H. destruct H as [_ <-]. reflexivity.
  - reflexivity.
  - apply map_Forall_lookup. apply (bool_decide_unpack _). vm_compute. exact I.
  - vm_compute. reflexivity.
Defined.
